(** * AcoustiTrace Pro: the acoustic engine checked against its specification

    A shallow embedding of the scheduling, occlusion, reflection, portal and
    limiter code of the AcousticEngine module, with the properties its
    specification states.

    Number model.  An [int32] is a [Z] and every C++ addition is written
    with its 32-bit wrap-around ([wrap32]).  A [float] is an exact number:
    a rational ([Q]) wherever the code only adds, multiplies, divides and
    compares, a real ([R]) in the three places that call [Exp], [Loge],
    [Pow], [Sin], [Cos], [Acos] or [Sqrt] ([AcousticUtils], the master
    limiter and the hemisphere sampler).  Rounding is therefore left out of
    the statements below, with one exception: the settings blend of the
    zone reverb ends when a sum of rounded increments reaches 1, so there
    every operation on [BlendProgress] is followed by the rounding of a
    single-precision float ([Float32.round]).  A quotient by zero is 0 in
    [Q] and in [R] where the float is an infinity; the only divisors that
    can be 0 are an update rate and the sample rate, both declared
    positive.

    The host engine is not part of the repository.  Its helpers ([FMath],
    [TArray::Sort], [TMap]) are written out after their documented
    behaviour, and what the scene answers to a query (distance of a source
    to the listener, the result of a line trace, the life of a component)
    is an explicit [World] argument.  [Settings] and [GetWorld()] are taken
    to be present: [Tick] returns before any of the modelled code when the
    settings are missing. *)

From Stdlib Require Import String ZArith QArith Qminmax Bool List Lia.
From Stdlib Require Import Permutation Sorted.
From Stdlib Require Import Reals Lra Psatz Qreals.
From Stdlib Require Import Qround Qpower.
Import ListNotations.

Local Open Scope Z_scope.

(* ------------------------------------------------------------------ *)
(** ** Machine integers *)

Definition INT32_MIN : Z := - 2 ^ 31.
Definition INT32_MAX : Z := 2 ^ 31 - 1.

(** Two's-complement reduction to the [int32] range. *)
Definition wrap32 (z : Z) : Z := (z + 2 ^ 31) mod 2 ^ 32 - 2 ^ 31.

Definition is_int32 (z : Z) : Prop := INT32_MIN <= z <= INT32_MAX.

Definition add32 (a b : Z) : Z := wrap32 (a + b).



(* ------------------------------------------------------------------ *)
(** ** FMath on exact rationals *)

Module FMath.
Local Open Scope Q_scope.

Definition Qltb (a b : Q) : bool := negb (Qle_bool b a).

(** [FMath::Max(A,B)] is [(B < A) ? A : B]. *)
Definition Max (a b : Q) : Q := if Qltb b a then a else b.

(** [FMath::Min(A,B)] is [(A < B) ? A : B]. *)
Definition Min (a b : Q) : Q := if Qltb a b then a else b.

(** [FMath::Clamp(X,Lo,Hi)] is [(X < Lo) ? Lo : (X < Hi) ? X : Hi]. *)
Definition Clamp (x lo hi : Q) : Q :=
  if Qltb x lo then lo else if Qltb x hi then x else hi.

(** [FMath::Lerp(A,B,Alpha)] is [A + Alpha * (B - A)]. *)
Definition Lerp (a b alpha : Q) : Q := a + alpha * (b - a).

(** [FMath::Abs]. *)
Definition Abs (a : Q) : Q := if Qltb a 0 then - a else a.

(** [FMath::IsNearlyEqual(A,B,Tol)] is [Abs(A - B) <= Tol]. *)
Definition IsNearlyEqual (a b tol : Q) : bool := Qle_bool (Abs (a - b)) tol.

Definition KINDA_SMALL_NUMBER : Q := 1 # 10000.

(** [FLT_MAX], the largest finite single-precision value:
    (2^24 - 1) * 2^104. *)
Definition FLT_MAX : Q := inject_Z ((2 ^ 24 - 1) * 2 ^ 104).

Definition clamp01 (x : Q) : Q := Clamp x 0 1.

End FMath.

(* ------------------------------------------------------------------ *)
(** ** AcousticTypes.h *)

Inductive EAcousticLOD := LOD_Off | LOD_Basic | LOD_Advanced | LOD_Hero.

Inductive EAcousticImportance :=
  Imp_Background | Imp_Normal | Imp_Important | Imp_Critical.

Inductive EAcousticMaterialType :=
  Mat_Default | Mat_Concrete | Mat_Wood | Mat_Metal | Mat_Glass | Mat_Fabric
| Mat_Water | Mat_Foliage | Mat_Earth | Mat_Ice | Mat_Custom.

(** The [uint8] value behind an enumerator. *)
Definition LOD_rank (l : EAcousticLOD) : Z :=
  match l with LOD_Off => 0 | LOD_Basic => 1 | LOD_Advanced => 2 | LOD_Hero => 3 end.

Definition Importance_index (i : EAcousticImportance) : Z :=
  match i with
  | Imp_Background => 0 | Imp_Normal => 1 | Imp_Important => 2 | Imp_Critical => 3
  end.

Definition LOD_eqb (a b : EAcousticLOD) : bool := LOD_rank a =? LOD_rank b.


Record FAcousticMaterial := {
  MaterialName : string;
  MaterialType : EAcousticMaterialType;
  LowAbsorption : Q;
  MidAbsorption : Q;
  HighAbsorption : Q;
  Transmission : Q;
  Scattering : Q
}.

Definition GetAverageAbsorption (m : FAcousticMaterial) : Q :=
  ((LowAbsorption m + MidAbsorption m + HighAbsorption m) / 3)%Q.

(** The member initialisers of [FAcousticMaterial]. *)
Definition FAcousticMaterial_default : FAcousticMaterial :=
  {| MaterialName := "None"; MaterialType := Mat_Default;
     LowAbsorption := 1 # 10; MidAbsorption := 2 # 10; HighAbsorption := 3 # 10;
     Transmission := 0; Scattering := 1 # 10 |}.

(** [FAcousticMaterial::CreateFromType] (AcousticTypes.cpp). *)
Definition CreateFromType (t : EAcousticMaterialType) : FAcousticMaterial :=
  let mk n lo mi hi tr sc :=
    {| MaterialName := n; MaterialType := t;
       LowAbsorption := lo; MidAbsorption := mi; HighAbsorption := hi;
       Transmission := tr; Scattering := sc |} in
  match t with
  | Mat_Concrete => mk "Concrete"%string (1#100) (2#100) (2#100) 0 (5#100)
  | Mat_Wood => mk "Wood"%string (15#100) (11#100) (10#100) (5#100) (10#100)
  | Mat_Metal => mk "Metal"%string (1#100) (1#100) (2#100) 0 (2#100)
  | Mat_Glass => mk "Glass"%string (18#100) (6#100) (4#100) (3#10) (2#100)
  | Mat_Fabric => mk "Fabric"%string (3#100) (12#100) (35#100) (4#10) (30#100)
  | Mat_Water => mk "Water"%string (1#100) (1#100) (2#100) (2#10) (50#100)
  | Mat_Foliage => mk "Foliage"%string (3#100) (6#100) (11#100) (8#10) (70#100)
  | Mat_Earth => mk "Earth"%string (15#100) (25#100) (40#100) 0 (40#100)
  | Mat_Ice => mk "Ice"%string (1#100) (1#100) (2#100) (1#10) (5#100)
  | Mat_Default | Mat_Custom =>
      mk "Default"%string (10#100) (20#100) (30#100) 0 (10#100)
  end%Q.

Record FReflectionTap := {
  DelayMs : Q;
  Gain : Q;
  LPFCutoff : Q;
  Azimuth : Q;
  Elevation : Q;
  Tap_bIsValid : bool
}.

Definition FReflectionTap_default : FReflectionTap :=
  {| DelayMs := 0; Gain := 0; LPFCutoff := 20000; Azimuth := 0; Elevation := 0;
     Tap_bIsValid := false |}.

Definition MaxTaps : Z := 8.

Record FEarlyReflectionParams := {
  Taps : list FReflectionTap;
  ValidTapCount : Z;
  AverageDelayMs : Q;
  ReflectionDensity : Q
}.

(** The constructor: [Taps.SetNum(MaxTaps)]. *)
Definition FEarlyReflectionParams_new : FEarlyReflectionParams :=
  {| Taps := repeat FReflectionTap_default (Z.to_nat MaxTaps);
     ValidTapCount := 0; AverageDelayMs := 0; ReflectionDensity := 0 |}.

(** [FEarlyReflectionParams::Reset]: the counters are cleared and every
    element of [Taps] is overwritten in place. *)
Definition ER_Reset (p : FEarlyReflectionParams) : FEarlyReflectionParams :=
  {| Taps := map (fun _ => FReflectionTap_default) (Taps p);
     ValidTapCount := 0; AverageDelayMs := 0; ReflectionDensity := 0 |}.

Record FAcousticRayHit := {
  Distance : Q;
  Material : FAcousticMaterial;
  PhysicalMaterialName : string;
  bIsValidHit : bool
}.

Definition FAcousticRayHit_default : FAcousticRayHit :=
  {| Distance := 0; Material := FAcousticMaterial_default;
     PhysicalMaterialName := "None"; bIsValidHit := false |}.

(* ------------------------------------------------------------------ *)
(** ** AcousticSourceComponent *)

Definition Flag_IsHero : Z := 1.

Record UAcousticSourceComponent := {
  AcousticLOD : EAcousticLOD;
  Importance : EAcousticImportance;
  SourceFlags : Z;
  BaseLoudness : Q;
  PriorityOverride : Q
}.

Definition HasFlag (s : UAcousticSourceComponent) (flag : Z) : bool :=
  negb (Z.land (SourceFlags s) flag =? 0).

Definition ImportanceMultipliers : list Q := [1 # 4; 1; 2; 10]%Q.

(** [UAcousticSourceComponent::ComputePriorityScore].  [dist] is the value of
    [FVector::Dist(GetAcousticLocation(), ListenerLocation)]. *)
Definition ComputePriorityScore (s : UAcousticSourceComponent) (dist : Q) : Q :=
  if Qle_bool 0 (PriorityOverride s) then PriorityOverride s
  else
    let Distance := FMath.Max dist 1 in
    let DistanceFactor := (1 / (Distance / 100))%Q in
    let Priority := (BaseLoudness s * DistanceFactor)%Q in
    let ImportanceIndex := Importance_index (Importance s) in
    let Priority :=
      if (0 <=? ImportanceIndex) && (ImportanceIndex <? 4)
      then (Priority * nth (Z.to_nat ImportanceIndex) ImportanceMultipliers 0)%Q
      else Priority in
    let Priority :=
      if HasFlag s Flag_IsHero then (Priority * 100)%Q else Priority in
    match Importance s with
    | Imp_Critical => FMath.FLT_MAX
    | _ => Priority
    end.

(* ------------------------------------------------------------------ *)
(** ** AcousticSettings.h *)

Record UAcousticSettings := {
  MaxRaysPerFrame : Z;
  AdvancedReflectionRays : Z;
  HeroReflectionRays : Z;
  OcclusionUpdateRateHz : Q;
  ReflectionUpdateRateHz : Q;
  ZoneUpdateRateHz : Q;
  OcclusionCacheFrames : Z;
  BasicLODDistance : Q;
  OffLODDistance : Q;
  MaxAdvancedSources : Z;
  MaxHeroSources : Z;
  RealismFactor : Q
}.

(** The member initialisers of [UAcousticSettings]. *)
Definition UAcousticSettings_default : UAcousticSettings :=
  {| MaxRaysPerFrame := 200;
     AdvancedReflectionRays := 24;
     HeroReflectionRays := 32;
     OcclusionUpdateRateHz := 30;
     ReflectionUpdateRateHz := 15;
     ZoneUpdateRateHz := 20;
     OcclusionCacheFrames := 5;
     BasicLODDistance := 3000;
     OffLODDistance := 8000;
     MaxAdvancedSources := 8;
     MaxHeroSources := 2;
     RealismFactor := 7 # 10 |}.

(** The [ClampMin]/[ClampMax] ranges the header declares for the integer
    settings the scheduler reads. *)
Definition SettingsInRange (cfg : UAcousticSettings) : Prop :=
  16 <= MaxRaysPerFrame cfg <= 1024 /\
  16 <= AdvancedReflectionRays cfg <= 64 /\
  24 <= HeroReflectionRays cfg <= 128 /\
  1 <= MaxAdvancedSources cfg <= 32 /\
  1 <= MaxHeroSources cfg <= 8.

(* ------------------------------------------------------------------ *)
(** ** AcousticEngineSubsystem.h: the engine state *)

Module AcousticConstants.
Definition SpeedOfSound : Q := 34300.
Definition MinDistance : Q := 1.
Definition DefaultLPFCutoff : Q := 20000.
Definition OccludedLPFCutoff : Q := 500.
End AcousticConstants.

Record FAcousticSourceParams := {
  Occlusion : Q;
  LowPassCutoff : Q;
  HighPassCutoff : Q;
  TransmissionGain : Q;
  ReverbSend : Q;
  DryGain : Q;
  SpatialWidth : Q;
  HRTFSpreadMultiplier : Q;
  EarlyReflections : FEarlyReflectionParams;
  Params_Distance : Q;
  PerceivedDistance : Q;
  LastUpdateFrame : Z;
  bIsValid : bool
}.

(** [FAcousticSourceParams::Reset], applied to a freshly constructed value. *)
Definition FAcousticSourceParams_reset : FAcousticSourceParams :=
  {| Occlusion := 0; LowPassCutoff := 20000; HighPassCutoff := 20;
     TransmissionGain := 1; ReverbSend := 3 # 10; DryGain := 1;
     SpatialWidth := 0; HRTFSpreadMultiplier := 1;
     EarlyReflections := ER_Reset FEarlyReflectionParams_new;
     Params_Distance := 0; PerceivedDistance := 0; LastUpdateFrame := 0;
     bIsValid := false |}.

(** The identity of a [UAcousticSourceComponent] object.  A raw pointer
    argument is an [option Handle], [None] being [nullptr]. *)
Definition Handle := nat.

Record FAcousticSourceEntry := {
  SourceComponent : Handle;
  SourceId : Z;
  CurrentParams : FAcousticSourceParams;
  PreviousParams : FAcousticSourceParams;
  EffectiveLOD : EAcousticLOD;
  PriorityScore : Q;
  LastOcclusionUpdateTime : Q;
  LastReflectionUpdateTime : Q;
  bIsAudible : bool
}.

Record FRayBudgetAllocation := {
  OcclusionRays : Z;
  ReflectionRays : Z;
  TotalRaysUsed : Z;
  TotalRaysBudget : Z
}.

(** What [LineTraceSingleByChannel] reports for a blocking hit: the
    distance, and the name of the physical material when there is one. *)
Record FHitResult := {
  Hit_Distance : Q;
  PhysMaterial : option string
}.

(** The scene as the engine sees it during one call.
    - [Component h] is the object behind a weak pointer, [None] once it has
      been destroyed ([TWeakObjectPtr::Get]);
    - [DistToListener h] is [FVector::Dist] between the source's acoustic
      location and the primary listener;
    - [OcclusionTrace h] is the line trace from the primary listener to the
      source;
    - [ReflectionTrace n i] is the line trace from the primary listener
      along the [i]-th of the [n] directions of [GenerateHemisphereRays];
    - [ZoneDefaultReverbSend] is [GetCurrentZonePreset(0).DefaultReverbSend]. *)
Record World := {
  Component : Handle -> option UAcousticSourceComponent;
  DistToListener : Handle -> Q;
  OcclusionTrace : Handle -> option FHitResult;
  ReflectionTrace : Z -> nat -> option FHitResult;
  ZoneDefaultReverbSend : Q
}.

(** Instrumentation: one record per line trace issued, tagged with the
    source it was issued for. *)
Inductive RayCast :=
| OcclusionRay (id : Z)
| ReflectionRay (id : Z) (index : nat).

Record Engine := {
  RegisteredSources : list (Z * FAcousticSourceEntry);
  NumListeners : Z;
  MaterialMappings : list (string * FAcousticMaterial);
  CurrentBudget : FRayBudgetAllocation;
  NextSourceId : Z;
  OcclusionUpdateAccumulator : Q;
  ReflectionUpdateAccumulator : Q;
  ZoneUpdateAccumulator : Q;
  RaysCast : list RayCast
}.

(** The subsystem after [Initialize]: one listener, nothing registered. *)
Definition Engine_init (cfg : UAcousticSettings) : Engine :=
  {| RegisteredSources := [];
     NumListeners := 1;
     MaterialMappings := [];
     CurrentBudget := {| OcclusionRays := 0; ReflectionRays := 0;
                         TotalRaysUsed := 0;
                         TotalRaysBudget := MaxRaysPerFrame cfg |};
     NextSourceId := 1;
     OcclusionUpdateAccumulator := 0;
     ReflectionUpdateAccumulator := 0;
     ZoneUpdateAccumulator := 0;
     RaysCast := [] |}.

(* ------------------------------------------------------------------ *)
(** ** Field updates *)

Definition set_Distance (d : Q) (p : FAcousticSourceParams) : FAcousticSourceParams :=
  {| Occlusion := Occlusion p; LowPassCutoff := LowPassCutoff p;
     HighPassCutoff := HighPassCutoff p; TransmissionGain := TransmissionGain p;
     ReverbSend := ReverbSend p; DryGain := DryGain p;
     SpatialWidth := SpatialWidth p;
     HRTFSpreadMultiplier := HRTFSpreadMultiplier p;
     EarlyReflections := EarlyReflections p;
     Params_Distance := d; PerceivedDistance := PerceivedDistance p;
     LastUpdateFrame := LastUpdateFrame p; bIsValid := bIsValid p |}.

Definition set_occlusion (occ lpf gain : Q) (p : FAcousticSourceParams)
  : FAcousticSourceParams :=
  {| Occlusion := occ; LowPassCutoff := lpf;
     HighPassCutoff := HighPassCutoff p; TransmissionGain := gain;
     ReverbSend := ReverbSend p; DryGain := DryGain p;
     SpatialWidth := SpatialWidth p;
     HRTFSpreadMultiplier := HRTFSpreadMultiplier p;
     EarlyReflections := EarlyReflections p;
     Params_Distance := Params_Distance p;
     PerceivedDistance := PerceivedDistance p;
     LastUpdateFrame := LastUpdateFrame p; bIsValid := true |}.

Definition set_reverb (send : Q) (er : FEarlyReflectionParams)
  (p : FAcousticSourceParams) : FAcousticSourceParams :=
  {| Occlusion := Occlusion p; LowPassCutoff := LowPassCutoff p;
     HighPassCutoff := HighPassCutoff p; TransmissionGain := TransmissionGain p;
     ReverbSend := send; DryGain := DryGain p;
     SpatialWidth := SpatialWidth p;
     HRTFSpreadMultiplier := HRTFSpreadMultiplier p;
     EarlyReflections := er;
     Params_Distance := Params_Distance p;
     PerceivedDistance := PerceivedDistance p;
     LastUpdateFrame := LastUpdateFrame p; bIsValid := bIsValid p |}.

Definition set_CurrentParams (p : FAcousticSourceParams) (e : FAcousticSourceEntry)
  : FAcousticSourceEntry :=
  {| SourceComponent := SourceComponent e; SourceId := SourceId e;
     CurrentParams := p; PreviousParams := PreviousParams e;
     EffectiveLOD := EffectiveLOD e; PriorityScore := PriorityScore e;
     LastOcclusionUpdateTime := LastOcclusionUpdateTime e;
     LastReflectionUpdateTime := LastReflectionUpdateTime e;
     bIsAudible := bIsAudible e |}.

Definition set_PriorityScore (q : Q) (e : FAcousticSourceEntry) : FAcousticSourceEntry :=
  {| SourceComponent := SourceComponent e; SourceId := SourceId e;
     CurrentParams := CurrentParams e; PreviousParams := PreviousParams e;
     EffectiveLOD := EffectiveLOD e; PriorityScore := q;
     LastOcclusionUpdateTime := LastOcclusionUpdateTime e;
     LastReflectionUpdateTime := LastReflectionUpdateTime e;
     bIsAudible := bIsAudible e |}.

Definition set_EffectiveLOD (l : EAcousticLOD) (audible : bool)
  (e : FAcousticSourceEntry) : FAcousticSourceEntry :=
  {| SourceComponent := SourceComponent e; SourceId := SourceId e;
     CurrentParams := CurrentParams e; PreviousParams := PreviousParams e;
     EffectiveLOD := l; PriorityScore := PriorityScore e;
     LastOcclusionUpdateTime := LastOcclusionUpdateTime e;
     LastReflectionUpdateTime := LastReflectionUpdateTime e;
     bIsAudible := audible |}.

Definition set_PreviousParams (p : FAcousticSourceParams) (e : FAcousticSourceEntry)
  : FAcousticSourceEntry :=
  {| SourceComponent := SourceComponent e; SourceId := SourceId e;
     CurrentParams := CurrentParams e; PreviousParams := p;
     EffectiveLOD := EffectiveLOD e; PriorityScore := PriorityScore e;
     LastOcclusionUpdateTime := LastOcclusionUpdateTime e;
     LastReflectionUpdateTime := LastReflectionUpdateTime e;
     bIsAudible := bIsAudible e |}.

Definition set_LastOcclusionUpdateTime (t : Q) (e : FAcousticSourceEntry)
  : FAcousticSourceEntry :=
  {| SourceComponent := SourceComponent e; SourceId := SourceId e;
     CurrentParams := CurrentParams e; PreviousParams := PreviousParams e;
     EffectiveLOD := EffectiveLOD e; PriorityScore := PriorityScore e;
     LastOcclusionUpdateTime := t;
     LastReflectionUpdateTime := LastReflectionUpdateTime e;
     bIsAudible := bIsAudible e |}.

Definition set_LastReflectionUpdateTime (t : Q) (e : FAcousticSourceEntry)
  : FAcousticSourceEntry :=
  {| SourceComponent := SourceComponent e; SourceId := SourceId e;
     CurrentParams := CurrentParams e; PreviousParams := PreviousParams e;
     EffectiveLOD := EffectiveLOD e; PriorityScore := PriorityScore e;
     LastOcclusionUpdateTime := LastOcclusionUpdateTime e;
     LastReflectionUpdateTime := t;
     bIsAudible := bIsAudible e |}.

Definition set_RegisteredSources (l : list (Z * FAcousticSourceEntry)) (s : Engine)
  : Engine :=
  {| RegisteredSources := l; NumListeners := NumListeners s;
     MaterialMappings := MaterialMappings s; CurrentBudget := CurrentBudget s;
     NextSourceId := NextSourceId s;
     OcclusionUpdateAccumulator := OcclusionUpdateAccumulator s;
     ReflectionUpdateAccumulator := ReflectionUpdateAccumulator s;
     ZoneUpdateAccumulator := ZoneUpdateAccumulator s;
     RaysCast := RaysCast s |}.

Definition set_NextSourceId (n : Z) (s : Engine) : Engine :=
  {| RegisteredSources := RegisteredSources s; NumListeners := NumListeners s;
     MaterialMappings := MaterialMappings s; CurrentBudget := CurrentBudget s;
     NextSourceId := n;
     OcclusionUpdateAccumulator := OcclusionUpdateAccumulator s;
     ReflectionUpdateAccumulator := ReflectionUpdateAccumulator s;
     ZoneUpdateAccumulator := ZoneUpdateAccumulator s;
     RaysCast := RaysCast s |}.

(** The three things a ray-casting pass writes. *)
Definition set_pass (l : list (Z * FAcousticSourceEntry))
  (b : FRayBudgetAllocation) (log : list RayCast) (s : Engine) : Engine :=
  {| RegisteredSources := l; NumListeners := NumListeners s;
     MaterialMappings := MaterialMappings s; CurrentBudget := b;
     NextSourceId := NextSourceId s;
     OcclusionUpdateAccumulator := OcclusionUpdateAccumulator s;
     ReflectionUpdateAccumulator := ReflectionUpdateAccumulator s;
     ZoneUpdateAccumulator := ZoneUpdateAccumulator s;
     RaysCast := log |}.

Definition set_accumulators (o r z : Q) (s : Engine) : Engine :=
  {| RegisteredSources := RegisteredSources s; NumListeners := NumListeners s;
     MaterialMappings := MaterialMappings s; CurrentBudget := CurrentBudget s;
     NextSourceId := NextSourceId s;
     OcclusionUpdateAccumulator := o;
     ReflectionUpdateAccumulator := r;
     ZoneUpdateAccumulator := z;
     RaysCast := RaysCast s |}.

(* ------------------------------------------------------------------ *)
(** ** Engine containers *)

(** [TMap<int32, V>] as an association list with distinct keys, in
    iteration order.  The engine does not promise an iteration order after
    removals; the model appends new pairs, and no statement below depends
    on the order. *)
Fixpoint TMap_Find {V} (k : Z) (m : list (Z * V)) : option V :=
  match m with
  | [] => None
  | (k', v) :: rest => if k' =? k then Some v else TMap_Find k rest
  end.

(** Writing through the pointer [Find] returned. *)
Fixpoint TMap_Set {V} (k : Z) (v : V) (m : list (Z * V)) : list (Z * V) :=
  match m with
  | [] => []
  | (k', v') :: rest =>
      if k' =? k then (k', v) :: rest else (k', v') :: TMap_Set k v rest
  end.

(** [TMap::Add]: the value of an existing key is replaced, a new key gets a
    new pair. *)
Definition TMap_Add {V} (k : Z) (v : V) (m : list (Z * V)) : list (Z * V) :=
  match TMap_Find k m with
  | Some _ => TMap_Set k v m
  | None => m ++ [(k, v)]
  end.

(** [TMap::Remove]. *)
Definition TMap_Remove {V} (k : Z) (m : list (Z * V)) : list (Z * V) :=
  filter (fun p => negb (fst p =? k)) m.

(** [TArray::Sort(Predicate)]: the array is reordered so that no element is
    followed by one that the predicate puts before it.  The engine's sort
    is not stable; the model is an insertion sort, and the statements below
    use only that the result is a sorted permutation. *)
Fixpoint Sort_insert {A} (before : A -> A -> bool) (x : A) (l : list A) : list A :=
  match l with
  | [] => [x]
  | y :: rest =>
      if before y x then y :: Sort_insert before x rest else x :: y :: rest
  end.

Fixpoint TArray_Sort {A} (before : A -> A -> bool) (l : list A) : list A :=
  match l with
  | [] => []
  | x :: rest => Sort_insert before x (TArray_Sort before rest)
  end.

(** [TArray::operator[]] used as an l-value; the index is range-checked and
    a failed check aborts the call. *)
Fixpoint TArray_write {A} (i : nat) (v : A) (l : list A) : option (list A) :=
  match l, i with
  | [], _ => None
  | _ :: rest, O => Some (v :: rest)
  | x :: rest, S i' =>
      match TArray_write i' v rest with
      | Some rest' => Some (x :: rest')
      | None => None
      end
  end.

(* ------------------------------------------------------------------ *)
(** ** AcousticEngineSubsystem.cpp: source registry *)

(** [Pair.Value.SourceComponent.Get() == Source].  [Source] is a live
    object, so the weak pointer returns it exactly when it designates it. *)
Fixpoint FindRegistered (Source : Handle) (m : list (Z * FAcousticSourceEntry))
  : option Z :=
  match m with
  | [] => None
  | (k, e) :: rest =>
      if Nat.eqb (SourceComponent e) Source then Some k
      else FindRegistered Source rest
  end.

(** [RegisterSource].  The argument is the pointer together with the
    object it points to. *)
Definition RegisterSource (Source : option (Handle * UAcousticSourceComponent))
  (s : Engine) : Engine * Z :=
  match Source with
  | None => (s, -1)
  | Some (h, obj) =>
      match FindRegistered h (RegisteredSources s) with
      | Some k => (s, k)
      | None =>
          let Entry :=
            {| SourceComponent := h;
               SourceId := NextSourceId s;
               CurrentParams := FAcousticSourceParams_reset;
               PreviousParams := FAcousticSourceParams_reset;
               EffectiveLOD := AcousticLOD obj;
               PriorityScore := 0;
               LastOcclusionUpdateTime := 0;
               LastReflectionUpdateTime := 0;
               bIsAudible := true |} in
          let s1 := set_NextSourceId (add32 (NextSourceId s) 1) s in
          (set_RegisteredSources
             (TMap_Add (SourceId Entry) Entry (RegisteredSources s1)) s1,
           SourceId Entry)
      end
  end.

Definition UnregisterSource (SourceId : Z) (s : Engine) : Engine :=
  set_RegisteredSources (TMap_Remove SourceId (RegisteredSources s)) s.

(* ------------------------------------------------------------------ *)
(** ** AcousticEngineSubsystem.cpp: materials and single traces *)

Fixpoint FindMaterial (n : string) (m : list (string * FAcousticMaterial))
  : option FAcousticMaterial :=
  match m with
  | [] => None
  | (n', v) :: rest => if String.eqb n' n then Some v else FindMaterial n rest
  end.

(** [GetAcousticMaterial]; the argument is the name of the physical
    material, [None] for a null pointer.  The fallback is the
    default-constructed material with its fields assigned as in the source. *)
Definition GetAcousticMaterial (maps : list (string * FAcousticMaterial))
  (PhysMat : option string) : FAcousticMaterial :=
  let Default :=
    {| MaterialName := "None"; MaterialType := Mat_Default;
       LowAbsorption := 1 # 10; MidAbsorption := 2 # 10;
       HighAbsorption := 3 # 10; Transmission := 0; Scattering := 1 # 10 |} in
  match PhysMat with
  | Some n =>
      match FindMaterial n maps with
      | Some Found => Found
      | None => Default
      end
  | None => Default
  end.

Definition ComputeOcclusionFactor (cfg : UAcousticSettings) (Hit : FAcousticRayHit)
  : Q :=
  if negb (bIsValidHit Hit) then 0
  else
    let BaseOcclusion := (1 - Transmission (Material Hit))%Q in
    let Occlusion := (BaseOcclusion * RealismFactor cfg)%Q in
    FMath.Clamp Occlusion 0 1.

Definition ComputeLPFFromOcclusion (OcclusionFactor : Q) (Mat : FAcousticMaterial)
  : Q :=
  let MinCutoff := AcousticConstants.OccludedLPFCutoff in
  let MaxCutoff := AcousticConstants.DefaultLPFCutoff in
  let MaterialFactor := (1 - HighAbsorption Mat * (1 # 2))%Q in
  let MinCutoff := (MinCutoff * MaterialFactor)%Q in
  FMath.Lerp MaxCutoff MinCutoff OcclusionFactor.

(** [TraceOcclusion]; [trace] is what the line trace from [Start] to [End]
    reports, [OutHit] the caller's hit record. *)
Definition TraceOcclusion (cfg : UAcousticSettings)
  (maps : list (string * FAcousticMaterial)) (trace : option FHitResult)
  (OutHit : FAcousticRayHit) : Q * FAcousticRayHit :=
  match trace with
  | Some HitResult =>
      let OutHit :=
        {| Distance := Hit_Distance HitResult;
           Material := GetAcousticMaterial maps (PhysMaterial HitResult);
           PhysicalMaterialName :=
             match PhysMaterial HitResult with
             | Some n => n
             | None => PhysicalMaterialName OutHit
             end;
           bIsValidHit := true |} in
      (ComputeOcclusionFactor cfg OutHit, OutHit)
  | None =>
      (0%Q,
       {| Distance := Distance OutHit; Material := Material OutHit;
          PhysicalMaterialName := PhysicalMaterialName OutHit;
          bIsValidHit := false |})
  end.

(** The line traces [SampleReflections] issues, one per direction that
    [GenerateHemisphereRays] returns (module [Hemisphere] below: [NumRays]
    of them), each with its result. *)
Definition ReflectionTraces (w : World) (NumRays : Z)
  : list (nat * option FHitResult) :=
  map (fun i => (i, ReflectionTrace w NumRays i)) (seq 0 (Z.to_nat NumRays)).

(** [SampleReflections]: the blocking hits among those traces, in
    direction order. *)
Definition SampleReflections (maps : list (string * FAcousticMaterial))
  (w : World) (NumRays : Z) : list FAcousticRayHit :=
  flat_map
    (fun t =>
       match snd t with
       | Some HitResult =>
           [ {| Distance := Hit_Distance HitResult;
                Material := GetAcousticMaterial maps (PhysMaterial HitResult);
                PhysicalMaterialName :=
                  match PhysMaterial HitResult with
                  | Some n => n
                  | None => "None"%string
                  end;
                bIsValidHit := true |} ]
       | None => []
       end)
    (ReflectionTraces w NumRays).

(* ------------------------------------------------------------------ *)
(** ** AcousticEngineSubsystem.cpp: reflection clustering *)

(** The body of the tap loop: every field of [Taps[i]] is assigned. *)
Definition MakeTap (Hit : FAcousticRayHit) : FReflectionTap :=
  let DistanceAtten := (1 / FMath.Max (Distance Hit / 100) 1)%Q in
  let MaterialAtten := (1 - GetAverageAbsorption (Material Hit))%Q in
  {| DelayMs := (Distance Hit / AcousticConstants.SpeedOfSound * 1000)%Q;
     Gain := FMath.Clamp (DistanceAtten * MaterialAtten * (1 # 2))%Q 0 1;
     LPFCutoff :=
       FMath.Lerp AcousticConstants.DefaultLPFCutoff 3000
         (HighAbsorption (Material Hit));
     Azimuth := 0;
     Elevation := 0;
     Tap_bIsValid := true |}.

(** [for (i = 0; i < NumTaps; i++)], with [n] the iterations left. *)
Fixpoint TapLoop (n i : nat) (SortedHits : list FAcousticRayHit)
  (taps : list FReflectionTap) (TotalDelay : Q)
  : option (list FReflectionTap * Q) :=
  match n with
  | O => Some (taps, TotalDelay)
  | S n' =>
      match nth_error SortedHits i with
      | None => None
      | Some Hit =>
          let Tap := MakeTap Hit in
          match TArray_write i Tap taps with
          | None => None
          | Some taps' =>
              TapLoop n' (S i) SortedHits taps' (TotalDelay + DelayMs Tap)%Q
          end
      end
  end.

Definition ClusterReflections (Hits : list FAcousticRayHit)
  (OutParams : FEarlyReflectionParams) : option FEarlyReflectionParams :=
  let OutParams := ER_Reset OutParams in
  if Z.of_nat (length Hits) =? 0 then Some OutParams
  else
    let SortedHits :=
      TArray_Sort (fun A B => FMath.Qltb (Distance A) (Distance B)) Hits in
    let Density :=
      FMath.Clamp (inject_Z (Z.of_nat (length Hits)) / 20)%Q 0 1 in
    let NumTaps := Z.min (Z.of_nat (length SortedHits)) MaxTaps in
    match TapLoop (Z.to_nat NumTaps) 0 SortedHits (Taps OutParams) 0 with
    | None => None
    | Some (taps, TotalDelay) =>
        Some {| Taps := taps;
                ValidTapCount := NumTaps;
                AverageDelayMs :=
                  if 0 <? NumTaps then (TotalDelay / inject_Z NumTaps)%Q else 0;
                ReflectionDensity := Density |}
    end.

(* ------------------------------------------------------------------ *)
(** ** AcousticEngineSubsystem.cpp: priorities and effective LOD *)

(** First loop of [UpdateSourcePriorities]: the entry after the visit and
    what was pushed on [SortedSources]. *)
Definition ScoreEntry (w : World) (Pair : Z * FAcousticSourceEntry)
  : (Z * FAcousticSourceEntry) * list (Z * Q) :=
  let (Key, Entry) := Pair in
  match Component w (SourceComponent Entry) with
  | None => (Pair, [])
  | Some Source =>
      let Dist := DistToListener w (SourceComponent Entry) in
      let Distance := FMath.Max Dist AcousticConstants.MinDistance in
      let Entry := set_CurrentParams (set_Distance Distance (CurrentParams Entry)) Entry in
      let Priority := ComputePriorityScore Source Dist in
      let Entry := set_PriorityScore Priority Entry in
      ((Key, Entry), [(Key, Priority)])
  end.

(** The distance downgrade of the second loop. *)
Definition DistanceDowngrade (cfg : UAcousticSettings) (Distance : Q)
  (DesiredLOD : EAcousticLOD) : EAcousticLOD :=
  if FMath.Qltb (OffLODDistance cfg) Distance then LOD_Off
  else if FMath.Qltb (BasicLODDistance cfg) Distance
          && (LOD_rank LOD_Basic <? LOD_rank DesiredLOD)
       then LOD_Basic
       else DesiredLOD.

(** The budget downgrade: the LOD granted and the two running counts
    [(AdvancedCount, HeroCount)]. *)
Definition BudgetDowngrade (cfg : UAcousticSettings) (DesiredLOD : EAcousticLOD)
  (AdvancedCount HeroCount : Z) : EAcousticLOD * Z * Z :=
  let '(DesiredLOD, HeroCount) :=
    if LOD_eqb DesiredLOD LOD_Hero then
      if HeroCount >=? MaxHeroSources cfg then (LOD_Advanced, HeroCount)
      else (DesiredLOD, add32 HeroCount 1)
    else (DesiredLOD, HeroCount) in
  let '(DesiredLOD, AdvancedCount) :=
    if LOD_eqb DesiredLOD LOD_Advanced then
      if AdvancedCount >=? MaxAdvancedSources cfg then (LOD_Basic, AdvancedCount)
      else (DesiredLOD, add32 AdvancedCount 1)
    else (DesiredLOD, AdvancedCount) in
  (DesiredLOD, AdvancedCount, HeroCount).

(** One iteration of the second loop. *)
Definition AssignLOD (cfg : UAcousticSettings) (w : World)
  (st : list (Z * FAcousticSourceEntry) * Z * Z) (SortedPair : Z * Q)
  : list (Z * FAcousticSourceEntry) * Z * Z :=
  let '(Sources, AdvancedCount, HeroCount) := st in
  match TMap_Find (fst SortedPair) Sources with
  | None => st
  | Some Entry =>
      match Component w (SourceComponent Entry) with
      | None => st
      | Some Source =>
          let DesiredLOD := AcousticLOD Source in
          let Distance := Params_Distance (CurrentParams Entry) in
          let DesiredLOD := DistanceDowngrade cfg Distance DesiredLOD in
          let '(DesiredLOD, AdvancedCount, HeroCount) :=
            BudgetDowngrade cfg DesiredLOD AdvancedCount HeroCount in
          let Entry :=
            set_EffectiveLOD DesiredLOD (negb (LOD_eqb DesiredLOD LOD_Off)) Entry in
          (TMap_Set (fst SortedPair) Entry Sources, AdvancedCount, HeroCount)
      end
  end.

Definition UpdateSourcePriorities (cfg : UAcousticSettings) (w : World)
  (s : Engine) : Engine :=
  if NumListeners s =? 0 then s
  else
    let visited := map (ScoreEntry w) (RegisteredSources s) in
    let Sources := map fst visited in
    let SortedSources := flat_map snd visited in
    let SortedSources :=
      TArray_Sort (fun A B => FMath.Qltb (snd B) (snd A)) SortedSources in
    let '(Sources, _, _) :=
      fold_left (AssignLOD cfg w) SortedSources (Sources, 0, 0) in
    set_RegisteredSources Sources s.

(* ------------------------------------------------------------------ *)
(** ** AcousticEngineSubsystem.cpp: the two ray-casting passes *)

Definition count_occlusion_ray (b : FRayBudgetAllocation) : FRayBudgetAllocation :=
  {| OcclusionRays := add32 (OcclusionRays b) 1;
     ReflectionRays := ReflectionRays b;
     TotalRaysUsed := add32 (TotalRaysUsed b) 1;
     TotalRaysBudget := TotalRaysBudget b |}.

Definition count_reflection_rays (NumRays : Z) (b : FRayBudgetAllocation)
  : FRayBudgetAllocation :=
  {| OcclusionRays := OcclusionRays b;
     ReflectionRays := add32 (ReflectionRays b) NumRays;
     TotalRaysUsed := add32 (TotalRaysUsed b) NumRays;
     TotalRaysBudget := TotalRaysBudget b |}.

(** Lines 704-719 of [ProcessOcclusion]: trace, snapshot, overwrite. *)
Definition OcclusionUpdate (cfg : UAcousticSettings)
  (maps : list (string * FAcousticMaterial)) (w : World) (CurrentTime : Q)
  (Entry : FAcousticSourceEntry) : FAcousticSourceEntry :=
  let '(Occlusion, OcclusionHit) :=
    TraceOcclusion cfg maps (OcclusionTrace w (SourceComponent Entry))
      FAcousticRayHit_default in
  let Entry := set_PreviousParams (CurrentParams Entry) Entry in
  let Params :=
    set_occlusion Occlusion
      (ComputeLPFFromOcclusion Occlusion (Material OcclusionHit))
      (if bIsValidHit OcclusionHit
       then (1 - Occlusion) + Occlusion * Transmission (Material OcclusionHit)
       else 1)%Q
      (CurrentParams Entry) in
  set_LastOcclusionUpdateTime CurrentTime (set_CurrentParams Params Entry).

(** The loop of [ProcessOcclusion] over the registry in iteration order.
    [break] leaves the rest of the registry untouched. *)
Fixpoint OcclusionLoop (cfg : UAcousticSettings)
  (maps : list (string * FAcousticMaterial)) (w : World) (CurrentTime : Q)
  (Sources : list (Z * FAcousticSourceEntry)) (b : FRayBudgetAllocation)
  (log : list RayCast)
  : list (Z * FAcousticSourceEntry) * FRayBudgetAllocation * list RayCast :=
  match Sources with
  | [] => ([], b, log)
  | (Key, Entry) :: rest =>
      let continue b' log' Entry' :=
        let '(rest', b'', log'') := OcclusionLoop cfg maps w CurrentTime rest b' log' in
        ((Key, Entry') :: rest', b'', log'') in
      if LOD_eqb (EffectiveLOD Entry) LOD_Off then continue b log Entry
      else if TotalRaysUsed b >=? TotalRaysBudget b then (Sources, b, log)
      else
        match Component w (SourceComponent Entry) with
        | None => continue b log Entry
        | Some _ =>
            let TimeSinceUpdate := (CurrentTime - LastOcclusionUpdateTime Entry)%Q in
            let CacheTime := (inject_Z (OcclusionCacheFrames cfg) / 60)%Q in
            if FMath.Qltb TimeSinceUpdate CacheTime && bIsValid (CurrentParams Entry)
            then continue b log Entry
            else
              continue (count_occlusion_ray b) (log ++ [OcclusionRay Key])
                (OcclusionUpdate cfg maps w CurrentTime Entry)
        end
  end.

Definition ProcessOcclusion (cfg : UAcousticSettings) (w : World)
  (CurrentTime : Q) (s : Engine) : Engine :=
  if NumListeners s =? 0 then s
  else
    let '(Sources, b, log) :=
      OcclusionLoop cfg (MaterialMappings s) w CurrentTime
        (RegisteredSources s) (CurrentBudget s) (RaysCast s) in
    set_pass Sources b log s.

(** The ray count of a LOD in [ProcessReflections]. *)
Definition NumRaysFor (cfg : UAcousticSettings) (l : EAcousticLOD) : Z :=
  if LOD_eqb l LOD_Hero then HeroReflectionRays cfg
  else AdvancedReflectionRays cfg.

(** One iteration of the loop of [ProcessReflections]; [None] when a
    range check inside [ClusterReflections] fails. *)
Definition ReflectionStep (cfg : UAcousticSettings)
  (maps : list (string * FAcousticMaterial)) (w : World) (CurrentTime : Q)
  (Key : Z) (Entry : FAcousticSourceEntry) (b : FRayBudgetAllocation)
  (log : list RayCast)
  : option (FAcousticSourceEntry * FRayBudgetAllocation * list RayCast) :=
  if negb (LOD_eqb (EffectiveLOD Entry) LOD_Advanced)
     && negb (LOD_eqb (EffectiveLOD Entry) LOD_Hero)
  then
    if LOD_eqb (EffectiveLOD Entry) LOD_Basic then
      let Params :=
        set_reverb (ZoneDefaultReverbSend w)
          (ER_Reset (EarlyReflections (CurrentParams Entry)))
          (CurrentParams Entry) in
      Some (set_CurrentParams Params Entry, b, log)
    else Some (Entry, b, log)
  else
    let NumRays := NumRaysFor cfg (EffectiveLOD Entry) in
    if add32 (TotalRaysUsed b) NumRays >? TotalRaysBudget b then Some (Entry, b, log)
    else
      match Component w (SourceComponent Entry) with
      | None => Some (Entry, b, log)
      | Some _ =>
          let ReflectionHits := SampleReflections maps w NumRays in
          let log :=
            log ++ map (fun t => ReflectionRay Key (fst t))
                     (ReflectionTraces w NumRays) in
          match ClusterReflections ReflectionHits
                  (EarlyReflections (CurrentParams Entry)) with
          | None => None
          | Some ER =>
              let ReflectionDensity := ReflectionDensity ER in
              let Send :=
                FMath.Lerp (ZoneDefaultReverbSend w)
                  (ZoneDefaultReverbSend w * (3 # 2))%Q ReflectionDensity in
              let Entry :=
                set_CurrentParams (set_reverb Send ER (CurrentParams Entry)) Entry in
              Some (set_LastReflectionUpdateTime CurrentTime Entry,
                    count_reflection_rays NumRays b, log)
          end
      end.

Fixpoint ReflectionLoop (cfg : UAcousticSettings)
  (maps : list (string * FAcousticMaterial)) (w : World) (CurrentTime : Q)
  (Sources : list (Z * FAcousticSourceEntry)) (b : FRayBudgetAllocation)
  (log : list RayCast)
  : option (list (Z * FAcousticSourceEntry) * FRayBudgetAllocation * list RayCast) :=
  match Sources with
  | [] => Some ([], b, log)
  | (Key, Entry) :: rest =>
      match ReflectionStep cfg maps w CurrentTime Key Entry b log with
      | None => None
      | Some (Entry', b', log') =>
          match ReflectionLoop cfg maps w CurrentTime rest b' log' with
          | None => None
          | Some (rest', b'', log'') => Some ((Key, Entry') :: rest', b'', log'')
          end
      end
  end.

Definition ProcessReflections (cfg : UAcousticSettings) (w : World)
  (CurrentTime : Q) (s : Engine) : option Engine :=
  if NumListeners s =? 0 then Some s
  else
    match ReflectionLoop cfg (MaterialMappings s) w CurrentTime
            (RegisteredSources s) (CurrentBudget s) (RaysCast s) with
    | None => None
    | Some (Sources, b, log) => Some (set_pass Sources b log s)
    end.

(** [ProcessAcousticUpdate].  [tOcc] and [tRefl] are the two readings of
    [FPlatformTime::Seconds].  [UpdateListenerZones] and
    [ApplyParamsToSources] write to listeners and to the source components
    only, which are not part of [Engine]; of the zone pass only the reset of
    its accumulator is left. *)
Definition ProcessAcousticUpdate (cfg : UAcousticSettings) (w : World)
  (DeltaTime tOcc tRefl : Q) (s : Engine) : option Engine :=
  let s :=
    set_pass (RegisteredSources s)
      {| OcclusionRays := 0; ReflectionRays := 0; TotalRaysUsed := 0;
         TotalRaysBudget := MaxRaysPerFrame cfg |} [] s in
  let s :=
    set_accumulators (OcclusionUpdateAccumulator s + DeltaTime)%Q
      (ReflectionUpdateAccumulator s + DeltaTime)%Q
      (ZoneUpdateAccumulator s + DeltaTime)%Q s in
  let OcclusionInterval := (1 / OcclusionUpdateRateHz cfg)%Q in
  let ReflectionInterval := (1 / ReflectionUpdateRateHz cfg)%Q in
  let ZoneInterval := (1 / ZoneUpdateRateHz cfg)%Q in
  let s := UpdateSourcePriorities cfg w s in
  let s :=
    if Qle_bool ZoneInterval (ZoneUpdateAccumulator s)
    then set_accumulators (OcclusionUpdateAccumulator s)
           (ReflectionUpdateAccumulator s) 0 s
    else s in
  let s :=
    if Qle_bool OcclusionInterval (OcclusionUpdateAccumulator s)
    then
      let s := ProcessOcclusion cfg w tOcc s in
      set_accumulators 0 (ReflectionUpdateAccumulator s)
        (ZoneUpdateAccumulator s) s
    else s in
  if Qle_bool ReflectionInterval (ReflectionUpdateAccumulator s)
  then
    match ProcessReflections cfg w tRefl s with
    | None => None
    | Some s =>
        Some (set_accumulators (OcclusionUpdateAccumulator s) 0
                (ZoneUpdateAccumulator s) s)
    end
  else Some s.

(* ------------------------------------------------------------------ *)
(** ** AcousticZoneVolume.cpp: the portal *)

Module Portal.
Local Open Scope Q_scope.

Record AAcousticPortalVolume := {
  bIsOpen : bool;
  Openness : Q;
  TargetOpenness : Q;
  ClosedTransmission : Q;
  ClosedLPFCutoff : Q;
  TransitionTime : Q;
  bActorTickEnabled : bool
}.

(** The constructor, followed by the one property the transition reads
    and a level may configure, [TransitionTime]. *)
Definition Constructed (TransitionTime : Q) : AAcousticPortalVolume :=
  {| bIsOpen := true; Openness := 1; TargetOpenness := 1;
     ClosedTransmission := 1 # 10; ClosedLPFCutoff := 800;
     TransitionTime := TransitionTime; bActorTickEnabled := false |}.

Definition SetOpen (bOpen : bool) (p : AAcousticPortalVolume)
  : AAcousticPortalVolume :=
  let Target := if bOpen then 1 else 0 in
  if FMath.Qltb 0 (TransitionTime p) then
    {| bIsOpen := bOpen; Openness := Openness p; TargetOpenness := Target;
       ClosedTransmission := ClosedTransmission p;
       ClosedLPFCutoff := ClosedLPFCutoff p;
       TransitionTime := TransitionTime p; bActorTickEnabled := true |}
  else
    {| bIsOpen := bOpen; Openness := Target; TargetOpenness := Target;
       ClosedTransmission := ClosedTransmission p;
       ClosedLPFCutoff := ClosedLPFCutoff p;
       TransitionTime := TransitionTime p;
       bActorTickEnabled := bActorTickEnabled p |}.

Definition SetOpenness (NewOpenness : Q) (p : AAcousticPortalVolume)
  : AAcousticPortalVolume :=
  let O := FMath.Clamp NewOpenness 0 1 in
  {| bIsOpen := FMath.Qltb (1 # 2) O; Openness := O; TargetOpenness := O;
     ClosedTransmission := ClosedTransmission p;
     ClosedLPFCutoff := ClosedLPFCutoff p;
     TransitionTime := TransitionTime p;
     bActorTickEnabled := bActorTickEnabled p |}.

Definition set_Openness (o : Q) (tick : bool) (p : AAcousticPortalVolume)
  : AAcousticPortalVolume :=
  {| bIsOpen := bIsOpen p; Openness := o; TargetOpenness := TargetOpenness p;
     ClosedTransmission := ClosedTransmission p;
     ClosedLPFCutoff := ClosedLPFCutoff p;
     TransitionTime := TransitionTime p; bActorTickEnabled := tick |}.

Definition UpdateTransition (DeltaTime : Q) (p : AAcousticPortalVolume)
  : AAcousticPortalVolume :=
  if FMath.IsNearlyEqual (Openness p) (TargetOpenness p) FMath.KINDA_SMALL_NUMBER
  then set_Openness (TargetOpenness p) false p
  else
    let Rate := if FMath.Qltb 0 (TransitionTime p) then 1 / TransitionTime p else 100 in
    if FMath.Qltb (Openness p) (TargetOpenness p)
    then set_Openness
           (FMath.Min (Openness p + Rate * DeltaTime) (TargetOpenness p))
           (bActorTickEnabled p) p
    else set_Openness
           (FMath.Max (Openness p - Rate * DeltaTime) (TargetOpenness p))
           (bActorTickEnabled p) p.

(** [Tick] is [UpdateTransition]. *)
Definition Tick (DeltaTime : Q) (p : AAcousticPortalVolume) : AAcousticPortalVolume :=
  UpdateTransition DeltaTime p.

Definition GetCurrentTransmission (p : AAcousticPortalVolume) : Q :=
  FMath.Lerp (ClosedTransmission p) 1 (Openness p).

Definition GetCurrentLPFCutoff (p : AAcousticPortalVolume) : Q :=
  FMath.Lerp (ClosedLPFCutoff p) 20000 (Openness p).

(** The operations a portal receives while it lives. *)
Inductive Op :=
| OpSetOpen (bOpen : bool)
| OpSetOpenness (NewOpenness : Q)
| OpTick (DeltaTime : Q).

Definition step (p : AAcousticPortalVolume) (o : Op) : AAcousticPortalVolume :=
  match o with
  | OpSetOpen b => SetOpen b p
  | OpSetOpenness x => SetOpenness x p
  | OpTick dt => Tick dt p
  end.

Definition run (ops : list Op) (p : AAcousticPortalVolume) : AAcousticPortalVolume :=
  fold_left step ops p.

(** What the three operations keep: the boolean is the view of the
    target. *)
Definition Inv (p : AAcousticPortalVolume) : Prop :=
  bIsOpen p = FMath.Qltb (1 # 2) (TargetOpenness p).

(** The same as a proposition: [bIsOpen] is true exactly when the target
    openness exceeds 0.5. *)
Definition TargetView (p : AAcousticPortalVolume) : Prop :=
  bIsOpen p = true <-> 1 # 2 < TargetOpenness p.

(** A portal as a level places it.  [bIsOpen], [Openness] and the
    transmission and animation properties are [EditAnywhere] and
    [BlueprintReadWrite]: they hold whatever the instance was given.
    [TargetOpenness] is no property: it is the constructor's 1. *)
Definition Placed (p : AAcousticPortalVolume) : Prop := TargetOpenness p == 1.

(** The constructed portal with [bIsOpen] unticked and [Openness] set to 0
    on the instance. *)
Definition PlacedClosed (TransitionTime : Q) : AAcousticPortalVolume :=
  {| bIsOpen := false; Openness := 0; TargetOpenness := 1;
     ClosedTransmission := 1 # 10; ClosedLPFCutoff := 800;
     TransitionTime := TransitionTime; bActorTickEnabled := false |}.

(** [SetOpen] and [SetOpenness], the two operations that write [bIsOpen]
    and [TargetOpenness]. *)
Definition IsSet (o : Op) : bool :=
  match o with
  | OpTick _ => false
  | _ => true
  end.

End Portal.

(* ------------------------------------------------------------------ *)
(** ** AcousticSubmixEffects.cpp: the master stage *)

Module MasterEffect.
Local Open Scope R_scope.

Record FAcousticMasterSettings := {
  bEnabled : bool;
  LimiterThresholdDb : R;
  OutputGainDb : R
}.

Record FAcousticMasterEffect := {
  CurrentSettings : FAcousticMasterSettings;
  SampleRate : R;
  LimiterEnvelope : R;
  LimiterGain : R;
  SmoothedOutputGain : R
}.

(** [Init], with the preset already received. *)
Definition Init (cfg : FAcousticMasterSettings) (InitSampleRate : R)
  : FAcousticMasterEffect :=
  {| CurrentSettings := cfg; SampleRate := InitSampleRate;
     LimiterEnvelope := 0; LimiterGain := 1; SmoothedOutputGain := 1 |}.

(** [FMath::Pow(10.0f, x)]. *)
Definition Pow10 (x : R) : R := Rpower 10 x.

Definition TargetGain (fx : FAcousticMasterEffect) : R :=
  Pow10 (OutputGainDb (CurrentSettings fx) / 20).

Definition LimiterThreshold (fx : FAcousticMasterEffect) : R :=
  Pow10 (LimiterThresholdDb (CurrentSettings fx) / 20).

Definition AttackCoeff (fx : FAcousticMasterEffect) : R :=
  exp (- 1 / (SampleRate fx * (1 / 1000))).

Definition ReleaseCoeff (fx : FAcousticMasterEffect) : R :=
  exp (- 1 / (SampleRate fx * (1 / 10))).

Definition GainSmoothCoeff (fx : FAcousticMasterEffect) : R :=
  exp (- 1 / (SampleRate fx * (1 / 100))).

(** The inner loop over the channels of one frame:
    [MaxAbs = Max(MaxAbs, Abs(In * SmoothedOutputGain))] from [0]. *)
Definition FrameMaxAbs (Smoothed : R) (frame : list R) : R :=
  fold_left (fun MaxAbs In => Rmax MaxAbs (Rabs (In * Smoothed))) frame 0.

(** The first statement of the frame loop: the smoothed gain it assigns. *)
Definition NextSmoothedGain (fx : FAcousticMasterEffect) : R :=
  GainSmoothCoeff fx * SmoothedOutputGain fx
  + (1 - GainSmoothCoeff fx) * TargetGain fx.

(** One iteration of the frame loop: the state after it and the output
    samples of the frame. *)
Definition ProcessFrame (fx : FAcousticMasterEffect) (frame : list R)
  : FAcousticMasterEffect * list R :=
  let Smoothed := NextSmoothedGain fx in
  let MaxAbs := FrameMaxAbs Smoothed frame in
  let Envelope :=
    if Rlt_dec (LimiterEnvelope fx) MaxAbs
    then AttackCoeff fx * LimiterEnvelope fx + (1 - AttackCoeff fx) * MaxAbs
    else ReleaseCoeff fx * LimiterEnvelope fx + (1 - ReleaseCoeff fx) * MaxAbs in
  let Gain :=
    if Rlt_dec (LimiterThreshold fx) Envelope
    then LimiterThreshold fx / Envelope
    else 1 in
  let FinalGain := Smoothed * Gain in
  ({| CurrentSettings := CurrentSettings fx; SampleRate := SampleRate fx;
      LimiterEnvelope := Envelope; LimiterGain := Gain;
      SmoothedOutputGain := Smoothed |},
   map (fun In => In * FinalGain) frame).

(** [OnProcessAudio]; the interleaved buffer is given frame by frame. *)
Fixpoint ProcessFrames (fx : FAcousticMasterEffect) (frames : list (list R))
  : FAcousticMasterEffect * list (list R) :=
  match frames with
  | [] => (fx, [])
  | frame :: rest =>
      let (fx1, out) := ProcessFrame fx frame in
      let (fx2, outs) := ProcessFrames fx1 rest in
      (fx2, out :: outs)
  end.

Definition OnProcessAudio (fx : FAcousticMasterEffect) (InBuffer : list (list R))
  : FAcousticMasterEffect * list (list R) :=
  if negb (bEnabled (CurrentSettings fx)) then (fx, InBuffer)
  else ProcessFrames fx InBuffer.

(** The member initialisers of [FAcousticMasterSettings]: enabled,
    threshold -1 dB, output gain 0 dB. *)
Definition Settings_default : FAcousticMasterSettings :=
  {| bEnabled := true; LimiterThresholdDb := -1; OutputGainDb := 0 |}.

(** The effect right after [Init] at 48 kHz. *)
Definition fx_initial : FAcousticMasterEffect := Init Settings_default 48000.

(** The effect with its envelope at 2, as after a loud passage. *)
Definition fx_loud : FAcousticMasterEffect :=
  {| CurrentSettings := Settings_default; SampleRate := 48000;
     LimiterEnvelope := 2; LimiterGain := 1 / 2; SmoothedOutputGain := 1 |}.

End MasterEffect.

(* ------------------------------------------------------------------ *)
(** ** AcousticEngineSubsystem.cpp: hemisphere sampling *)

Module Hemisphere.
Local Open Scope R_scope.

(** [FVector]; the components are [X], [Y], [Z] in the source. *)
Record FVector := { Vx : R; Vy : R; Vz : R }.

Definition DotProduct (a b : FVector) : R :=
  Vx a * Vx b + Vy a * Vy b + Vz a * Vz b.

Definition Size (a : FVector) : R := sqrt (DotProduct a a).

Definition UpVector : FVector := {| Vx := 0; Vy := 0; Vz := 1 |}.
Definition ForwardVector : FVector := {| Vx := 1; Vy := 0; Vz := 0 |}.

Definition GoldenRatio : R := (1 + sqrt 5) / 2.
Definition AngleIncrement : R := PI * 2 * GoldenRatio.

(** The direction built in iteration [i], before it is rotated. *)
Definition LocalDirection (NumRays : Z) (i : nat) : FVector :=
  let T := INR i / IZR NumRays in
  let Inclination := acos (1 - T) in
  let Azimuth := AngleIncrement * INR i in
  {| Vx := sin Inclination * cos Azimuth;
     Vy := sin Inclination * sin Azimuth;
     Vz := cos Inclination |}.

Section Generate.

(** The host engine's quaternion: the type, [FQuat::FindBetweenNormals]
    and [FQuat::RotateVector]. *)
Variable FQuat : Type.
Variable FindBetweenNormals : FVector -> FVector -> FQuat.
Variable RotateVector : FQuat -> FVector -> FVector.

Definition GenerateHemisphereRays (Normal : FVector) (NumRays : Z) : list FVector :=
  let Rotation := FindBetweenNormals UpVector Normal in
  map (fun i => RotateVector Rotation (LocalDirection NumRays i))
    (seq 0 (Z.to_nat NumRays)).

End Generate.

(** A quarter turn about the Y axis, the rotation that takes [UpVector]
    to [ForwardVector]. *)
Definition QuarterTurnY (_ : unit) (v : FVector) : FVector :=
  {| Vx := Vz v; Vy := Vy v; Vz := - Vx v |}.

End Hemisphere.

(* ------------------------------------------------------------------ *)
(** ** AcousticTypes.cpp: AcousticUtils *)

Module AcousticUtils.
Local Open Scope R_scope.

(** [FMath::Lerp] on reals. *)
Definition Lerp (a b alpha : R) : R := a + alpha * (b - a).

(** [CalculateLPFCutoffFromOcclusion]: interpolation of the logarithms.
    Nothing in the repository calls it. *)
Definition CalculateLPFCutoffFromOcclusion (Occlusion MinCutoff MaxCutoff : R) : R :=
  let LogMin := ln MinCutoff in
  let LogMax := ln MaxCutoff in
  let LogCutoff := Lerp LogMax LogMin Occlusion in
  exp LogCutoff.

End AcousticUtils.

(* ------------------------------------------------------------------ *)
(** ** Specification-side definitions and sample inputs *)

(** The importance multiplier of the three non-critical levels. *)
Definition importance_multiplier (i : EAcousticImportance) : Q :=
  match i with
  | Imp_Background => 1 # 4
  | Imp_Normal => 1
  | Imp_Important => 2
  | Imp_Critical => 10
  end.

(** A default component ([PriorityOverride = -1]) 50 units from the listener. *)
Definition source_default : UAcousticSourceComponent :=
  {| AcousticLOD := LOD_Advanced; Importance := Imp_Normal; SourceFlags := 0;
     BaseLoudness := 1; PriorityOverride := - (1) |}.


(** The cutoff as the specification words it: a logarithmic interpolation
    between the default 20 kHz and the floor 500 Hz, both reduced by
    [1 - highAbsorption * 0.5]. *)
Definition Claimed_LPFCutoff (occlusion highAbsorption : R) : R :=
  let reduce := (1 - highAbsorption * (1 / 2))%R in
  AcousticUtils.CalculateLPFCutoffFromOcclusion occlusion
    (500 * reduce)%R (20000 * reduce)%R.

(** A material that absorbs nothing. *)
Definition material_reflective : FAcousticMaterial :=
  {| MaterialName := "Mirror"; MaterialType := Mat_Custom;
     LowAbsorption := 0; MidAbsorption := 0; HighAbsorption := 0;
     Transmission := 0; Scattering := 0 |}.

(** A scene with one concrete wall between the listener and every source,
    and the physical material mapped to the Concrete preset. *)
Definition concrete_mappings : list (string * FAcousticMaterial) :=
  [("PM_Concrete"%string, CreateFromType Mat_Concrete)].

Definition world_concrete_wall : World :=
  {| Component := fun _ => Some source_default;
     DistToListener := fun _ => 50%Q;
     OcclusionTrace :=
       fun _ => Some {| Hit_Distance := 25; PhysMaterial := Some "PM_Concrete"%string |};
     ReflectionTrace := fun _ _ => None;
     ZoneDefaultReverbSend := 3 # 10 |}.

(** The entry [RegisterSource] creates for handle 0 in a fresh engine. *)
Definition entry_fresh : FAcousticSourceEntry :=
  {| SourceComponent := 0%nat; SourceId := 1;
     CurrentParams := FAcousticSourceParams_reset;
     PreviousParams := FAcousticSourceParams_reset;
     EffectiveLOD := LOD_Advanced; PriorityScore := 0;
     LastOcclusionUpdateTime := 0; LastReflectionUpdateTime := 0;
     bIsAudible := true |}.

(** A tap as the specification describes it, from the hit it stands for. *)
Definition Claimed_tap (Tap : FReflectionTap) (Hit : FAcousticRayHit) : Prop :=
  Tap_bIsValid Tap = true /\
  (DelayMs Tap == Distance Hit / 34300 * 1000)%Q /\
  (Gain Tap ==
   FMath.clamp01 (1 / FMath.Max (Distance Hit / 100) 1
                  * (1 - GetAverageAbsorption (Material Hit)) * (1 # 2)))%Q /\
  (LPFCutoff Tap ==
   20000 + HighAbsorption (Material Hit) * (3000 - 20000))%Q.

(** Ascending distance. *)
Definition nearer_or_equal (a b : FAcousticRayHit) : Prop :=
  (Distance a <= Distance b)%Q.

Definition hit_at (d : Q) (t : EAcousticMaterialType) : FAcousticRayHit :=
  {| Distance := d; Material := CreateFromType t;
     PhysicalMaterialName := "None"; bIsValidHit := true |}.

(** Three hits, not in distance order. *)
Definition hits_sample : list FAcousticRayHit :=
  [hit_at 900 Mat_Wood; hit_at 250 Mat_Concrete; hit_at 400 Mat_Glass].


(** A call of [RegisterSource] that has to create an entry: the handle is
    not null and no entry holds it. *)
Definition is_new_registration
  (Source : option (Handle * UAcousticSourceComponent)) (s : Engine) : bool :=
  match Source with
  | Some (h, _) =>
      match FindRegistered h (RegisteredSources s) with
      | Some _ => false
      | None => true
      end
  | None => false
  end.




(** The registry invariant: the counter is positive, the keys are distinct
    and all below the counter. *)
Definition RegistryInv (s : Engine) : Prop :=
  1 <= NextSourceId s /\
  NoDup (map fst (RegisteredSources s)) /\
  Forall (fun p => fst p < NextSourceId s) (RegisteredSources s).

(** Counting effective LODs over the registry. *)
Definition count_LOD (P : EAcousticLOD -> bool)
  (Sources : list (Z * FAcousticSourceEntry)) : Z :=
  Z.of_nat (length (filter (fun p => P (EffectiveLOD (snd p))) Sources)).

Definition is_Hero (l : EAcousticLOD) : bool := LOD_eqb l LOD_Hero.
Definition is_Advanced (l : EAcousticLOD) : bool := LOD_eqb l LOD_Advanced.
Definition is_Advanced_or_Hero (l : EAcousticLOD) : bool :=
  LOD_eqb l LOD_Advanced || LOD_eqb l LOD_Hero.

(** Settings inside their declared ranges, with both concurrency caps at
    their minimum 1. *)
Definition settings_tight : UAcousticSettings :=
  {| MaxRaysPerFrame := 200;
     AdvancedReflectionRays := 24;
     HeroReflectionRays := 32;
     OcclusionUpdateRateHz := 30;
     ReflectionUpdateRateHz := 15;
     ZoneUpdateRateHz := 20;
     OcclusionCacheFrames := 5;
     BasicLODDistance := 3000;
     OffLODDistance := 8000;
     MaxAdvancedSources := 1;
     MaxHeroSources := 1;
     RealismFactor := 7 # 10 |}.

Definition source_hero : UAcousticSourceComponent :=
  {| AcousticLOD := LOD_Hero; Importance := Imp_Normal; SourceFlags := 0;
     BaseLoudness := 1; PriorityOverride := - (1) |}.

(** Two live sources in the open, 1 m and 2 m from the listener: handle 0
    configured Hero, handle 1 configured Advanced. *)
Definition world_two_sources : World :=
  {| Component := fun h => if Nat.eqb h 0 then Some source_hero else Some source_default;
     DistToListener := fun h => if Nat.eqb h 0 then 100%Q else 200%Q;
     OcclusionTrace := fun _ => None;
     ReflectionTrace := fun _ _ => None;
     ZoneDefaultReverbSend := 3 # 10 |}.

(** The engine after both have registered. *)
Definition engine_two_sources : Engine :=
  fst (RegisterSource (Some (1%nat, source_default))
         (fst (RegisterSource (Some (0%nat, source_hero))
                 (Engine_init settings_tight)))).

(** Reflection rays cast for a source, from the instrumentation. *)
Definition is_reflection_ray_of (id : Z) (r : RayCast) : bool :=
  match r with
  | ReflectionRay i _ => i =? id
  | OcclusionRay _ => false
  end.

Definition is_occlusion_ray (r : RayCast) : bool :=
  match r with
  | OcclusionRay _ => true
  | ReflectionRay _ _ => false
  end.

Definition reflection_rays_for (id : Z) (log : list RayCast) : Z :=
  Z.of_nat (length (filter (is_reflection_ray_of id) log)).

Definition occlusion_rays (log : list RayCast) : Z :=
  Z.of_nat (length (filter is_occlusion_ray log)).

(** An entry whose tap array has the eight elements its constructor gave
    it. *)
Definition EntryOk (e : FAcousticSourceEntry) : Prop :=
  length (Taps (EarlyReflections (CurrentParams e))) = Z.to_nat MaxTaps.

(** A registry as [TMap] and the constructors keep it: distinct keys, and
    eight taps in every entry. *)
Definition RegistryOk (Sources : list (Z * FAcousticSourceEntry)) : Prop :=
  NoDup (map fst Sources) /\ Forall (fun p => EntryOk (snd p)) Sources.

(** The counters agree with each other and with the rays cast, and the
    total is within the budget. *)
Definition BudgetOk (b : FRayBudgetAllocation) (log : list RayCast) : Prop :=
  0 <= OcclusionRays b /\
  0 <= ReflectionRays b /\
  TotalRaysUsed b = OcclusionRays b + ReflectionRays b /\
  TotalRaysUsed b <= TotalRaysBudget b /\
  Z.of_nat (length log) = TotalRaysUsed b /\
  occlusion_rays log = OcclusionRays b.

(** What a pass keeps of an entry: key, component, LOD and tap count. *)
Definition same_shape (p p' : Z * FAcousticSourceEntry) : Prop :=
  fst p' = fst p /\
  SourceComponent (snd p') = SourceComponent (snd p) /\
  EffectiveLOD (snd p') = EffectiveLOD (snd p) /\
  (EntryOk (snd p) -> EntryOk (snd p')).

(** A world with a wall 3 m in front of every second reflection ray. *)
Definition world_room : World :=
  {| Component := fun h => if Nat.eqb h 0 then Some source_hero else Some source_default;
     DistToListener := fun h => if Nat.eqb h 0 then 100%Q else 200%Q;
     OcclusionTrace :=
       fun _ => Some {| Hit_Distance := 50; PhysMaterial := Some "PM_Concrete"%string |};
     ReflectionTrace :=
       fun _ i => if Nat.even i
                  then Some {| Hit_Distance := 300; PhysMaterial := None |}
                  else None;
     ZoneDefaultReverbSend := 3 # 10 |}.

(** The result of a loop with one more entry in front. *)
Definition cons_result (Key : Z) (Entry : FAcousticSourceEntry)
  (r : list (Z * FAcousticSourceEntry) * FRayBudgetAllocation * list RayCast)
  : list (Z * FAcousticSourceEntry) * FRayBudgetAllocation * list RayCast :=
  ((Key, Entry) :: fst (fst r), snd (fst r), snd r).

(** Entries whose key is in [keys] and whose effective LOD satisfies [P]. *)
Definition count_granted (keys : list Z) (P : EAcousticLOD -> bool)
  (Sources : list (Z * FAcousticSourceEntry)) : Z :=
  Z.of_nat
    (length
       (filter (fun p => existsb (Z.eqb (fst p)) keys && P (EffectiveLOD (snd p)))
          Sources)).

(** Every registered component is alive. *)
Definition AllLive (w : World) (Sources : list (Z * FAcousticSourceEntry)) : Prop :=
  Forall (fun p => Component w (SourceComponent (snd p)) <> None) Sources.

(** The state of the second loop of [UpdateSourcePriorities] after the
    keys in [processed]: the two running counts are the numbers of Hero and
    of Advanced grants so far, each within its cap. *)
Definition LODLoopInv (cfg : UAcousticSettings) (w : World) (keys0 : list Z)
  (processed : list Z) (st : list (Z * FAcousticSourceEntry) * Z * Z) : Prop :=
  let '(Sources, AdvancedCount, HeroCount) := st in
  map fst Sources = keys0 /\
  AllLive w Sources /\
  count_granted processed is_Hero Sources = HeroCount /\
  count_granted processed is_Advanced Sources = AdvancedCount /\
  0 <= HeroCount <= MaxHeroSources cfg /\
  0 <= AdvancedCount <= MaxAdvancedSources cfg.

(* ================================================================== *)
(** * Further code of the cited files *)

(* ------------------------------------------------------------------ *)
(** ** AcousticEngineSubsystem.cpp: queries on the source registry *)

(** [GetSourceParams]: the out-parameter when the call answers [true],
    [None] when it answers [false]. *)
Definition GetSourceParams (SourceId : Z) (s : Engine) : option FAcousticSourceParams :=
  match TMap_Find SourceId (RegisteredSources s) with
  | Some Entry => Some (CurrentParams Entry)
  | None => None
  end.

Definition ForceSourceUpdate (SourceId : Z) (s : Engine) : Engine :=
  match TMap_Find SourceId (RegisteredSources s) with
  | Some Entry =>
      set_RegisteredSources
        (TMap_Set SourceId
           (set_LastReflectionUpdateTime 0 (set_LastOcclusionUpdateTime 0 Entry))
           (RegisteredSources s)) s
  | None => s
  end.

(** [GetNumActiveSources]: [Count++] for every audible entry. *)
Definition GetNumActiveSources (s : Engine) : Z :=
  fold_left (fun Count Pair => if bIsAudible (snd Pair) then add32 Count 1 else Count)
    (RegisteredSources s) 0.

(** The three tests of the loop of [ProcessOcclusion] that [continue]
    without looking at the budget or after it: LOD Off, a dead component,
    valid parameters younger than the cache time. *)
Definition OcclusionSkips (cfg : UAcousticSettings) (w : World) (CurrentTime : Q)
  (Entry : FAcousticSourceEntry) : bool :=
  LOD_eqb (EffectiveLOD Entry) LOD_Off
  || match Component w (SourceComponent Entry) with None => true | Some _ => false end
  || (FMath.Qltb (CurrentTime - LastOcclusionUpdateTime Entry)
        (inject_Z (OcclusionCacheFrames cfg) / 60)
      && bIsValid (CurrentParams Entry)).

(* ------------------------------------------------------------------ *)
(** ** AcousticEngineSubsystem.cpp: the material table *)

(** The ranges AcousticTypes.h declares for the coefficients of a
    material ([ClampMin = 0.0], [ClampMax = 1.0]). *)
Definition MaterialInRange (m : FAcousticMaterial) : Prop :=
  (0 <= LowAbsorption m <= 1 /\ 0 <= MidAbsorption m <= 1 /\
   0 <= HighAbsorption m <= 1 /\ 0 <= Transmission m <= 1 /\
   0 <= Scattering m <= 1)%Q.

(** [TMap<FName, FAcousticMaterial>::Add]: the value of a name already
    mapped is replaced, a new name gets a new pair. *)
Fixpoint SetMaterial (n : string) (v : FAcousticMaterial)
  (m : list (string * FAcousticMaterial)) : list (string * FAcousticMaterial) :=
  match m with
  | [] => []
  | (n', v') :: rest =>
      if String.eqb n' n then (n', v) :: rest else (n', v') :: SetMaterial n v rest
  end.

Definition AddMaterial (n : string) (v : FAcousticMaterial)
  (m : list (string * FAcousticMaterial)) : list (string * FAcousticMaterial) :=
  match FindMaterial n m with
  | Some _ => SetMaterial n v m
  | None => m ++ [(n, v)]
  end.

Definition RegisterMaterialMapping (PhysMatName : string)
  (AcousticMat : FAcousticMaterial) (s : Engine) : Engine :=
  {| RegisteredSources := RegisteredSources s; NumListeners := NumListeners s;
     MaterialMappings := AddMaterial PhysMatName AcousticMat (MaterialMappings s);
     CurrentBudget := CurrentBudget s;
     NextSourceId := NextSourceId s;
     OcclusionUpdateAccumulator := OcclusionUpdateAccumulator s;
     ReflectionUpdateAccumulator := ReflectionUpdateAccumulator s;
     ZoneUpdateAccumulator := ZoneUpdateAccumulator s;
     RaysCast := RaysCast s |}.

(** The cache time of [ProcessOcclusion], [OcclusionCacheFrames / 60.0f]. *)
Definition OcclusionCacheTime (cfg : UAcousticSettings) : Q :=
  inject_Z (OcclusionCacheFrames cfg) / 60.

(* ------------------------------------------------------------------ *)
(** ** What a LOD pass leaves in an entry *)

(** The effective LOD [l] of a live source configured as [Source] at
    distance [Distance]: never above the configured LOD, Off beyond the Off
    distance, at most Basic beyond the Basic distance, and the configured
    LOD itself when that is Basic or Off and the source is within the Off
    distance. *)
Definition LODProps (cfg : UAcousticSettings) (Source : UAcousticSourceComponent)
  (Distance : Q) (l : EAcousticLOD) : Prop :=
  LOD_rank l <= LOD_rank (AcousticLOD Source) /\
  ((OffLODDistance cfg < Distance)%Q -> l = LOD_Off) /\
  ((BasicLODDistance cfg < Distance)%Q -> LOD_rank l <= LOD_rank LOD_Basic) /\
  ((Distance <= OffLODDistance cfg)%Q ->
   LOD_rank (AcousticLOD Source) <= LOD_rank LOD_Basic -> l = AcousticLOD Source).

(** [Entry0] before and [Entry] after a pass of [UpdateSourcePriorities]:
    an entry whose component is gone is not written; a live one gets its
    distance, its priority score, an effective LOD and the audible flag,
    and nothing else. *)
Definition LODGranted (cfg : UAcousticSettings) (w : World)
  (Entry0 Entry : FAcousticSourceEntry) : Prop :=
  match Component w (SourceComponent Entry0) with
  | None => Entry = Entry0
  | Some Source =>
      let Dist := DistToListener w (SourceComponent Entry0) in
      let Distance := FMath.Max Dist AcousticConstants.MinDistance in
      exists l,
        Entry =
          set_EffectiveLOD l (negb (LOD_eqb l LOD_Off))
            (set_PriorityScore (ComputePriorityScore Source Dist)
               (set_CurrentParams (set_Distance Distance (CurrentParams Entry0))
                  Entry0)) /\
        LODProps cfg Source Distance l
  end.

(** The second loop of [UpdateSourcePriorities] after the keys in
    [processed], entry by entry: [p1] after the first loop, [p] now. *)
Definition LODRel (cfg : UAcousticSettings) (w : World) (processed : list Z)
  (p1 p : Z * FAcousticSourceEntry) : Prop :=
  fst p = fst p1 /\
  (exists l b, snd p = set_EffectiveLOD l b (snd p1)) /\
  (Component w (SourceComponent (snd p1)) = None -> snd p = snd p1) /\
  (In (fst p1) processed ->
   forall Source, Component w (SourceComponent (snd p1)) = Some Source ->
   exists l,
     snd p = set_EffectiveLOD l (negb (LOD_eqb l LOD_Off)) (snd p1) /\
     LODProps cfg Source (Params_Distance (CurrentParams (snd p1))) l).

(** The running sum [TotalDelay += Tap.DelayMs] of the tap loop. *)
Definition SumDelays (Hits : list FAcousticRayHit) (TotalDelay : Q) : Q :=
  fold_left (fun a h => (a + DelayMs (MakeTap h))%Q) Hits TotalDelay.

(* ------------------------------------------------------------------ *)
(** ** AcousticTypes.cpp: the remaining functions of namespace AcousticUtils *)

Module AcousticUtility.

(** [DbToLinear]: [FMath::Pow(10.0f, Db / 20.0f)]. *)
Definition DbToLinear (Db : R) : R := MasterEffect.Pow10 (Db / 20).

(** [LinearToDb]; [FMath::LogX(Base, Value)] is [Loge(Value) / Loge(Base)]. *)
Definition LinearToDb (Linear : R) : R :=
  if Rle_dec Linear 0 then (-100)%R else (20 * (ln Linear / ln 10))%R.

Definition SpeedOfSoundCmPerMs : Q := 343 # 10.

Definition DistanceToDelayMs (DistanceCm : Q) : Q := (DistanceCm / SpeedOfSoundCmPerMs)%Q.

Definition DelayMsToDistance (DelayMs : Q) : Q := (DelayMs * SpeedOfSoundCmPerMs)%Q.

Definition CalculateDistanceAttenuation (Distance ReferenceDistance MaxDistance : Q)
  : Q :=
  if Qle_bool Distance ReferenceDistance then 1
  else if Qle_bool MaxDistance Distance then 0
  else
    let NormalizedDistance :=
      ((Distance - ReferenceDistance) / (MaxDistance - ReferenceDistance))%Q in
    (1 - NormalizedDistance)%Q.

(** [CalculateReflectionDirection]: [Incident - 2 * (Incident . Normal) * Normal]. *)
Definition CalculateReflectionDirection (Incident Normal : Hemisphere.FVector)
  : Hemisphere.FVector :=
  let s := (2 * Hemisphere.DotProduct Incident Normal)%R in
  {| Hemisphere.Vx := (Hemisphere.Vx Incident - s * Hemisphere.Vx Normal)%R;
     Hemisphere.Vy := (Hemisphere.Vy Incident - s * Hemisphere.Vy Normal)%R;
     Hemisphere.Vz := (Hemisphere.Vz Incident - s * Hemisphere.Vz Normal)%R |}.

End AcousticUtility.

(* ------------------------------------------------------------------ *)
(** ** Portals over time, and their replication (AcousticMultiplayer.cpp) *)

Module PortalRun.
Local Open Scope Q_scope.

(** No tick of the run goes back in time. *)
Definition Forward (ops : list Portal.Op) : Prop :=
  Forall (fun o => match o with Portal.OpTick dt => 0 <= dt | _ => True end) ops.



End PortalRun.

Module PortalReplication.
Local Open Scope Q_scope.

(** [UAcousticPortalReplicationComponent] and the actor that owns it.
    [Owner] is the owner when it is a portal volume (the cast of
    [FindLinkedPortal] succeeds), [LinkedPortal] tells whether the pointer
    of that name has been set; it then points to the owner. *)
Record UAcousticPortalReplicationComponent := {
  bIsOpen : bool;
  Openness : Q;
  LinkedPortal : bool;
  Owner : option Portal.AAcousticPortalVolume
}.

(** The member initialisers, on an owner. *)
Definition Constructed (Owner : option Portal.AAcousticPortalVolume)
  : UAcousticPortalReplicationComponent :=
  {| bIsOpen := true; Openness := 1; LinkedPortal := false; Owner := Owner |}.

Definition FindLinkedPortal (c : UAcousticPortalReplicationComponent)
  : UAcousticPortalReplicationComponent :=
  match Owner c with
  | Some _ =>
      {| bIsOpen := bIsOpen c; Openness := Openness c; LinkedPortal := true;
         Owner := Owner c |}
  | None =>
      {| bIsOpen := bIsOpen c; Openness := Openness c; LinkedPortal := false;
         Owner := Owner c |}
  end.

Definition ApplyStateToPortal (c : UAcousticPortalReplicationComponent)
  : UAcousticPortalReplicationComponent :=
  let c := if negb (LinkedPortal c) then FindLinkedPortal c else c in
  if LinkedPortal c then
    {| bIsOpen := bIsOpen c; Openness := Openness c; LinkedPortal := LinkedPortal c;
       Owner := option_map (Portal.SetOpenness (Openness c)) (Owner c) |}
  else c.

Definition Server_SetOpen (bOpen : bool) (c : UAcousticPortalReplicationComponent)
  : UAcousticPortalReplicationComponent :=
  ApplyStateToPortal
    {| bIsOpen := bOpen; Openness := if bOpen then 1 else 0;
       LinkedPortal := LinkedPortal c; Owner := Owner c |}.

Definition Server_SetOpenness (NewOpenness : Q)
  (c : UAcousticPortalReplicationComponent) : UAcousticPortalReplicationComponent :=
  let O := FMath.Clamp NewOpenness 0 1 in
  ApplyStateToPortal
    {| bIsOpen := FMath.Qltb (1 # 2) O; Openness := O;
       LinkedPortal := LinkedPortal c; Owner := Owner c |}.

(** A client receives the two replicated properties, then
    [OnRep_PortalState] runs. *)
Definition OnRep_PortalState (RepIsOpen : bool) (RepOpenness : Q)
  (c : UAcousticPortalReplicationComponent) : UAcousticPortalReplicationComponent :=
  ApplyStateToPortal
    {| bIsOpen := RepIsOpen; Openness := RepOpenness;
       LinkedPortal := LinkedPortal c; Owner := Owner c |}.

(** The two server calls. *)
Inductive ServerOp :=
| OpServer_SetOpen (bOpen : bool)
| OpServer_SetOpenness (NewOpenness : Q).

Definition server_step (c : UAcousticPortalReplicationComponent) (o : ServerOp)
  : UAcousticPortalReplicationComponent :=
  match o with
  | OpServer_SetOpen b => Server_SetOpen b c
  | OpServer_SetOpenness x => Server_SetOpenness x c
  end.

End PortalReplication.

(* ------------------------------------------------------------------ *)
(** ** AcousticTypes.h/.cpp: zone presets *)

Inductive EAcousticZoneType :=
  Zone_Default | Zone_SmallRoom | Zone_LargeRoom | Zone_Hallway | Zone_Cave
| Zone_Cathedral | Zone_Forest | Zone_OpenAir | Zone_Underwater | Zone_Custom.

Module ZonePreset.
Local Open Scope Q_scope.

Record FAcousticZonePreset := {
  PresetName : string;
  ZoneType : EAcousticZoneType;
  RT60 : Q;
  HFDecay : Q;
  LFDecay : Q;
  Density : Q;
  Diffusion : Q;
  EarlyReflectionLevel : Q;
  LateReverbLevel : Q;
  PreDelayMs : Q;
  RoomSize : Q;
  DefaultReverbSend : Q
}.

(** The member initialisers. *)
Definition FAcousticZonePreset_default : FAcousticZonePreset :=
  {| PresetName := "None"; ZoneType := Zone_Default;
     RT60 := 1; HFDecay := 1; LFDecay := 1; Density := 1 # 2; Diffusion := 1 # 2;
     EarlyReflectionLevel := 1; LateReverbLevel := 1; PreDelayMs := 10;
     RoomSize := 1; DefaultReverbSend := 3 # 10 |}.

(** [FAcousticZonePreset::CreateFromType]. *)
Definition CreateFromType (Type_ : EAcousticZoneType) : FAcousticZonePreset :=
  let mk n rt hf lf de di er lr pd rs send :=
    {| PresetName := n; ZoneType := Type_;
       RT60 := rt; HFDecay := hf; LFDecay := lf; Density := de; Diffusion := di;
       EarlyReflectionLevel := er; LateReverbLevel := lr; PreDelayMs := pd;
       RoomSize := rs; DefaultReverbSend := send |} in
  match Type_ with
  | Zone_SmallRoom =>
      mk "SmallRoom"%string (3#10) (9#10) 1 (7#10) (6#10) (12#10) (8#10) 5 (3#10) (25#100)
  | Zone_LargeRoom =>
      mk "LargeRoom"%string (8#10) (8#10) 1 (5#10) (5#10) 1 1 15 1 (35#100)
  | Zone_Hallway =>
      mk "Hallway"%string (12#10) (7#10) (11#10) (3#10) (3#10) (15#10) (7#10) 8 (6#10) (4#10)
  | Zone_Cave =>
      mk "Cave"%string 3 (6#10) (12#10) (8#10) (7#10) (13#10) (12#10) 25 2 (5#10)
  | Zone_Cathedral =>
      mk "Cathedral"%string 4 (5#10) 1 (6#10) (8#10) (8#10) (15#10) 40 5 (6#10)
  | Zone_Forest =>
      mk "Forest"%string (2#10) 1 (8#10) (2#10) (9#10) (5#10) (3#10) 3 (5#10) (15#100)
  | Zone_OpenAir =>
      mk "OpenAir"%string (1#10) 1 1 (1#10) (5#10) (2#10) (1#10) 0 (1#10) (5#100)
  | Zone_Underwater =>
      mk "Underwater"%string (5#10) (3#10) (15#10) (9#10) (9#10) (8#10) 1 10 1 (7#10)
  | Zone_Default | Zone_Custom =>
      mk "Default"%string 1 1 1 (5#10) (5#10) 1 1 10 1 (3#10)
  end.

(** The ranges the header declares for the fields of a preset. *)
Definition InRange (p : FAcousticZonePreset) : Prop :=
  1 # 10 <= RT60 p <= 20 /\ 1 # 10 <= HFDecay p <= 2 /\ 1 # 10 <= LFDecay p <= 2 /\
  0 <= Density p <= 1 /\ 0 <= Diffusion p <= 1 /\
  0 <= EarlyReflectionLevel p <= 2 /\ 0 <= LateReverbLevel p <= 2 /\
  0 <= PreDelayMs p <= 100 /\ 1 # 10 <= RoomSize p <= 10 /\
  0 <= DefaultReverbSend p <= 1.

(** Two presets with the same reverb parameters (the name apart). *)
Definition SameReverb (p q : FAcousticZonePreset) : Prop :=
  ZoneType p = ZoneType q /\
  RT60 p == RT60 q /\ HFDecay p == HFDecay q /\ LFDecay p == LFDecay q /\
  Density p == Density q /\ Diffusion p == Diffusion q /\
  EarlyReflectionLevel p == EarlyReflectionLevel q /\
  LateReverbLevel p == LateReverbLevel q /\ PreDelayMs p == PreDelayMs q /\
  RoomSize p == RoomSize q /\ DefaultReverbSend p == DefaultReverbSend q.

End ZonePreset.

(* ------------------------------------------------------------------ *)
(** ** AcousticZoneVolume.cpp: the zone volume *)

Module ZoneVolume.
Local Open Scope Q_scope.

Record AAcousticZoneVolume := {
  ZoneName : string;
  ZoneType : EAcousticZoneType;
  Priority : Z;
  BlendTime : Q;
  bUseZoneTypePreset : bool;
  RT60 : Q;
  HFDecay : Q;
  LFDecay : Q;
  Density : Q;
  Diffusion : Q;
  EarlyReflectionLevel : Q;
  LateReverbLevel : Q;
  PreDelayMs : Q;
  RoomSize : Q;
  DefaultReverbSend : Q;
  ReflectionDensityMod : Q;
  TraceDistanceMod : Q;
  ZoneId : Z;
  CachedPreset : ZonePreset.FAcousticZonePreset
}.

(** The constructor; [NextZoneId] is the value of the function's static
    counter, which the constructor increments. *)
Definition Constructed (NextZoneId : Z) : AAcousticZoneVolume :=
  {| ZoneName := "DefaultZone"; ZoneType := Zone_Default; Priority := 0;
     BlendTime := 1 # 2; bUseZoneTypePreset := true;
     RT60 := 1; HFDecay := 1; LFDecay := 1; Density := 1 # 2; Diffusion := 1 # 2;
     EarlyReflectionLevel := 1; LateReverbLevel := 1; PreDelayMs := 10;
     RoomSize := 1; DefaultReverbSend := 3 # 10;
     ReflectionDensityMod := 1; TraceDistanceMod := 1;
     ZoneId := NextZoneId;
     CachedPreset := ZonePreset.FAcousticZonePreset_default |}.

(** Writing the ten reverb fields of a volume. *)
Definition set_reverb_fields (rt hf lf de di er lr pd rs send : Q)
  (v : AAcousticZoneVolume) : AAcousticZoneVolume :=
  {| ZoneName := ZoneName v; ZoneType := ZoneType v; Priority := Priority v;
     BlendTime := BlendTime v; bUseZoneTypePreset := bUseZoneTypePreset v;
     RT60 := rt; HFDecay := hf; LFDecay := lf; Density := de; Diffusion := di;
     EarlyReflectionLevel := er; LateReverbLevel := lr; PreDelayMs := pd;
     RoomSize := rs; DefaultReverbSend := send;
     ReflectionDensityMod := ReflectionDensityMod v;
     TraceDistanceMod := TraceDistanceMod v;
     ZoneId := ZoneId v; CachedPreset := CachedPreset v |}.

(** [ZonePresets::ApplyPreset]; its ten reference parameters are the
    reverb fields of the volume that calls it. *)
Definition ApplyPreset (Type_ : EAcousticZoneType) (v : AAcousticZoneVolume)
  : AAcousticZoneVolume :=
  match Type_ with
  | Zone_SmallRoom =>
      set_reverb_fields (3#10) (9#10) 1 (7#10) (6#10) (12#10) (8#10) 5 (3#10) (25#100) v
  | Zone_LargeRoom =>
      set_reverb_fields (8#10) (8#10) 1 (5#10) (5#10) 1 1 15 1 (35#100) v
  | Zone_Hallway =>
      set_reverb_fields (12#10) (7#10) (11#10) (3#10) (3#10) (15#10) (7#10) 8 (6#10) (4#10) v
  | Zone_Cave =>
      set_reverb_fields 3 (6#10) (12#10) (8#10) (7#10) (13#10) (12#10) 25 2 (5#10) v
  | Zone_Cathedral =>
      set_reverb_fields 4 (5#10) 1 (6#10) (8#10) (8#10) (15#10) 40 5 (6#10) v
  | Zone_Forest =>
      set_reverb_fields (2#10) 1 (8#10) (2#10) (9#10) (5#10) (3#10) 3 (5#10) (15#100) v
  | Zone_OpenAir =>
      set_reverb_fields (1#10) 1 1 (1#10) (5#10) (2#10) (1#10) 0 (1#10) (5#100) v
  | Zone_Underwater =>
      set_reverb_fields (5#10) (3#10) (15#10) (9#10) (9#10) (8#10) 1 10 1 (7#10) v
  | Zone_Default | Zone_Custom =>
      set_reverb_fields 1 1 1 (5#10) (5#10) 1 1 10 1 (3#10) v
  end.

Definition ApplyZoneTypePreset (v : AAcousticZoneVolume) : AAcousticZoneVolume :=
  ApplyPreset (ZoneType v) v.

Definition GetZonePreset (v : AAcousticZoneVolume) : ZonePreset.FAcousticZonePreset :=
  {| ZonePreset.PresetName := ZoneName v;
     ZonePreset.ZoneType := ZoneType v;
     ZonePreset.RT60 := RT60 v;
     ZonePreset.HFDecay := HFDecay v;
     ZonePreset.LFDecay := LFDecay v;
     ZonePreset.Density := Density v;
     ZonePreset.Diffusion := Diffusion v;
     ZonePreset.EarlyReflectionLevel := EarlyReflectionLevel v;
     ZonePreset.LateReverbLevel := LateReverbLevel v;
     ZonePreset.PreDelayMs := PreDelayMs v;
     ZonePreset.RoomSize := RoomSize v;
     ZonePreset.DefaultReverbSend := DefaultReverbSend v |}.

Definition set_CachedPreset (c : ZonePreset.FAcousticZonePreset)
  (v : AAcousticZoneVolume) : AAcousticZoneVolume :=
  {| ZoneName := ZoneName v; ZoneType := ZoneType v; Priority := Priority v;
     BlendTime := BlendTime v; bUseZoneTypePreset := bUseZoneTypePreset v;
     RT60 := RT60 v; HFDecay := HFDecay v; LFDecay := LFDecay v;
     Density := Density v; Diffusion := Diffusion v;
     EarlyReflectionLevel := EarlyReflectionLevel v;
     LateReverbLevel := LateReverbLevel v; PreDelayMs := PreDelayMs v;
     RoomSize := RoomSize v; DefaultReverbSend := DefaultReverbSend v;
     ReflectionDensityMod := ReflectionDensityMod v;
     TraceDistanceMod := TraceDistanceMod v;
     ZoneId := ZoneId v; CachedPreset := c |}.

(** [BeginPlay], up to the registration with the engine. *)
Definition BeginPlay (v : AAcousticZoneVolume) : AAcousticZoneVolume :=
  let v := if bUseZoneTypePreset v then ApplyZoneTypePreset v else v in
  set_CachedPreset (GetZonePreset v) v.

End ZoneVolume.

(* ------------------------------------------------------------------ *)
(** ** AcousticEngineSubsystem.cpp: listeners and zones *)

Module ZoneEngine.

Definition FVector := Hemisphere.FVector.

Record FAcousticListenerData := {
  Location : FVector;
  Forward : FVector;
  Up : FVector;
  Right : FVector;
  Velocity : FVector;
  PlayerIndex : Z;
  CurrentZoneId : Z
}.

Definition ZeroVector : FVector :=
  {| Hemisphere.Vx := 0; Hemisphere.Vy := 0; Hemisphere.Vz := 0 |}.
Definition RightVector : FVector :=
  {| Hemisphere.Vx := 0; Hemisphere.Vy := 1; Hemisphere.Vz := 0 |}.

(** The member initialisers of [FAcousticListenerData]. *)
Definition FAcousticListenerData_default : FAcousticListenerData :=
  {| Location := ZeroVector; Forward := Hemisphere.ForwardVector;
     Up := Hemisphere.UpVector; Right := RightVector; Velocity := ZeroVector;
     PlayerIndex := 0; CurrentZoneId := -1 |}.

(** [UpdateListener].  [SetNum] appends default-constructed elements; with
    a negative count ([ListenerIndex + 1] wrapped) the engine's range check
    fails: [None]. *)
Definition UpdateListener (ListenerIndex : Z) (ListenerData : FAcousticListenerData)
  (ListenerDataArray : list FAcousticListenerData)
  : option (list FAcousticListenerData) :=
  if ListenerIndex >=? 0 then
    if ListenerIndex >=? Z.of_nat (length ListenerDataArray) then
      let NewNum := add32 ListenerIndex 1 in
      if NewNum <? 0 then None
      else
        let arr :=
          ListenerDataArray
          ++ repeat FAcousticListenerData_default
               (Z.to_nat NewNum - length ListenerDataArray) in
        TArray_write (Z.to_nat ListenerIndex) ListenerData arr
    else TArray_write (Z.to_nat ListenerIndex) ListenerData ListenerDataArray
  else Some ListenerDataArray.

Definition GetListenerData (ListenerIndex : Z)
  (ListenerDataArray : list FAcousticListenerData) : FAcousticListenerData :=
  if (ListenerIndex >=? 0) && (ListenerIndex <? Z.of_nat (length ListenerDataArray))
  then nth (Z.to_nat ListenerIndex) ListenerDataArray FAcousticListenerData_default
  else FAcousticListenerData_default.

(** Zone actors are addressed by handles.  [ZoneAt] is
    [TWeakObjectPtr::Get] ([None] once the actor is gone), [ContainsPoint]
    the brush test of the actor of that handle. *)
Definition ZoneHandle := nat.

Record ZoneWorld := {
  ZoneAt : ZoneHandle -> option ZoneVolume.AAcousticZoneVolume;
  ContainsPoint : ZoneHandle -> FVector -> bool
}.

(** [RegisterZone]; [None] is the null pointer. *)
Definition RegisterZone (Zone : option ZoneHandle) (RegisteredZones : list ZoneHandle)
  : list ZoneHandle :=
  match Zone with
  | Some z =>
      if existsb (Nat.eqb z) RegisteredZones then RegisteredZones
      else RegisteredZones ++ [z]
  | None => RegisteredZones
  end.

(** [UnregisterZone]: [TArray::Remove] takes out every equal element. *)
Definition UnregisterZone (Zone : ZoneHandle) (RegisteredZones : list ZoneHandle)
  : list ZoneHandle :=
  filter (fun z => negb (Nat.eqb z Zone)) RegisteredZones.

(** One iteration of the loop of [GetZoneAtLocation] on
    [(BestZone, BestPriority)]. *)
Definition BestZoneStep (w : ZoneWorld) (Location : FVector)
  (st : option ZoneHandle * Z) (ZonePtr : ZoneHandle) : option ZoneHandle * Z :=
  match ZoneAt w ZonePtr with
  | Some Zone =>
      if ContainsPoint w ZonePtr Location && (ZoneVolume.Priority Zone >? snd st)
      then (Some ZonePtr, ZoneVolume.Priority Zone)
      else st
  | None => st
  end.

Definition GetZoneAtLocation (w : ZoneWorld) (RegisteredZones : list ZoneHandle)
  (Location : FVector) : option ZoneHandle :=
  fst (fold_left (BestZoneStep w Location) RegisteredZones (None, INT32_MIN)).

Definition GetCurrentZonePreset (w : ZoneWorld) (RegisteredZones : list ZoneHandle)
  (ListenerDataArray : list FAcousticListenerData) (ListenerIndex : Z)
  : ZonePreset.FAcousticZonePreset :=
  let Default :=
    {| ZonePreset.PresetName := "Default";
       ZonePreset.ZoneType := Zone_Default;
       ZonePreset.RT60 := 1; ZonePreset.HFDecay := 1; ZonePreset.LFDecay := 1;
       ZonePreset.Density := 1 # 2; ZonePreset.Diffusion := 1 # 2;
       ZonePreset.EarlyReflectionLevel := 1; ZonePreset.LateReverbLevel := 1;
       ZonePreset.PreDelayMs := 10; ZonePreset.RoomSize := 1;
       ZonePreset.DefaultReverbSend := 3 # 10 |} in
  if (ListenerIndex >=? 0) && (ListenerIndex <? Z.of_nat (length ListenerDataArray))
  then
    let Listener :=
      nth (Z.to_nat ListenerIndex) ListenerDataArray FAcousticListenerData_default in
    match GetZoneAtLocation w RegisteredZones (Location Listener) with
    | Some h =>
        match ZoneAt w h with
        | Some Zone => ZoneVolume.GetZonePreset Zone
        | None => Default
        end
    | None => Default
    end
  else Default.

Definition set_CurrentZoneId (id : Z) (l : FAcousticListenerData)
  : FAcousticListenerData :=
  {| Location := Location l; Forward := Forward l; Up := Up l; Right := Right l;
     Velocity := Velocity l; PlayerIndex := PlayerIndex l; CurrentZoneId := id |}.

(** The zone id [UpdateListenerZones] computes for a location. *)
Definition ZoneIdAt (w : ZoneWorld) (RegisteredZones : list ZoneHandle)
  (Loc : FVector) : Z :=
  match GetZoneAtLocation w RegisteredZones Loc with
  | Some h =>
      match ZoneAt w h with
      | Some Zone => ZoneVolume.ZoneId Zone
      | None => -1
      end
  | None => -1
  end.

(** A broadcast of [OnAcousticZoneChanged]. *)
Record ZoneChanged := { ListenerId : Z; OldZoneId : Z; NewZoneId : Z }.

(** The loop of [UpdateListenerZones] from index [i] on: the listeners
    after it and the broadcasts, in order. *)
Fixpoint UpdateListenerZonesFrom (w : ZoneWorld) (RegisteredZones : list ZoneHandle)
  (i : Z) (Listeners : list FAcousticListenerData)
  : list FAcousticListenerData * list ZoneChanged :=
  match Listeners with
  | [] => ([], [])
  | Listener :: rest =>
      let NewZoneId := ZoneIdAt w RegisteredZones (Location Listener) in
      let (rest', events) :=
        UpdateListenerZonesFrom w RegisteredZones (add32 i 1) rest in
      if negb (NewZoneId =? CurrentZoneId Listener) then
        (set_CurrentZoneId NewZoneId Listener :: rest',
         {| ListenerId := i; OldZoneId := CurrentZoneId Listener;
            NewZoneId := NewZoneId |} :: events)
      else (Listener :: rest', events)
  end.

Definition UpdateListenerZones (w : ZoneWorld) (RegisteredZones : list ZoneHandle)
  (ListenerDataArray : list FAcousticListenerData)
  : list FAcousticListenerData * list ZoneChanged :=
  UpdateListenerZonesFrom w RegisteredZones 0 ListenerDataArray.

(** A zone that is alive, holds the point and has priority [P]. *)
Definition Candidate (w : ZoneWorld) (Loc : FVector) (h : ZoneHandle) (P : Z) : Prop :=
  exists Zone, ZoneAt w h = Some Zone /\ ContainsPoint w h Loc = true /\
               ZoneVolume.Priority Zone = P.

(** Two zones, of priorities 5 and 10, that both hold every point. *)
Definition world_two_zones : ZoneWorld :=
  {| ZoneAt := fun h =>
       match h with
       | O => Some {| ZoneVolume.ZoneName := "A"; ZoneVolume.ZoneType := Zone_Cave;
                      ZoneVolume.Priority := 5; ZoneVolume.BlendTime := 1 # 2;
                      ZoneVolume.bUseZoneTypePreset := true;
                      ZoneVolume.RT60 := 1; ZoneVolume.HFDecay := 1;
                      ZoneVolume.LFDecay := 1; ZoneVolume.Density := 1 # 2;
                      ZoneVolume.Diffusion := 1 # 2;
                      ZoneVolume.EarlyReflectionLevel := 1;
                      ZoneVolume.LateReverbLevel := 1; ZoneVolume.PreDelayMs := 10;
                      ZoneVolume.RoomSize := 1; ZoneVolume.DefaultReverbSend := 3 # 10;
                      ZoneVolume.ReflectionDensityMod := 1;
                      ZoneVolume.TraceDistanceMod := 1; ZoneVolume.ZoneId := 1;
                      ZoneVolume.CachedPreset := ZonePreset.FAcousticZonePreset_default |}
       | S O => Some {| ZoneVolume.ZoneName := "B"; ZoneVolume.ZoneType := Zone_Hallway;
                      ZoneVolume.Priority := 10; ZoneVolume.BlendTime := 1 # 2;
                      ZoneVolume.bUseZoneTypePreset := true;
                      ZoneVolume.RT60 := 1; ZoneVolume.HFDecay := 1;
                      ZoneVolume.LFDecay := 1; ZoneVolume.Density := 1 # 2;
                      ZoneVolume.Diffusion := 1 # 2;
                      ZoneVolume.EarlyReflectionLevel := 1;
                      ZoneVolume.LateReverbLevel := 1; ZoneVolume.PreDelayMs := 10;
                      ZoneVolume.RoomSize := 1; ZoneVolume.DefaultReverbSend := 3 # 10;
                      ZoneVolume.ReflectionDensityMod := 1;
                      ZoneVolume.TraceDistanceMod := 1; ZoneVolume.ZoneId := 2;
                      ZoneVolume.CachedPreset := ZonePreset.FAcousticZonePreset_default |}
       | _ => None
       end;
     ContainsPoint := fun _ _ => true |}.

End ZoneEngine.

(* ------------------------------------------------------------------ *)
(** ** AcousticSourceComponent.cpp: flags and the audio parameters *)

(** The other enumerators of [EAcousticSourceFlags]. *)
Definition Flag_Environmental : Z := 2.
Definition Flag_UI : Z := 4.
Definition Flag_AlwaysAudible : Z := 8.
Definition Flag_NeverOcclude : Z := 16.
Definition Flag_LargeSource : Z := 32.

Definition set_SourceFlags (f : Z) (s : UAcousticSourceComponent)
  : UAcousticSourceComponent :=
  {| AcousticLOD := AcousticLOD s; Importance := Importance s; SourceFlags := f;
     BaseLoudness := BaseLoudness s; PriorityOverride := PriorityOverride s |}.

(** [SetFlag]: [SourceFlags |= Flag] or [SourceFlags &= ~Flag], the result
    stored in a [uint8]. *)
Definition SetFlag (Flag : Z) (bEnabled : bool) (s : UAcousticSourceComponent)
  : UAcousticSourceComponent :=
  if bEnabled
  then set_SourceFlags (Z.lor (SourceFlags s) Flag mod 256) s
  else set_SourceFlags (Z.land (SourceFlags s) (Z.lnot Flag) mod 256) s.

Module SourceAudio.

(** The members of the component that [ApplyParamsToAudio] reads;
    [LinkedAudioComponent] tells whether the pointer is set. *)
Record State := {
  Component : UAcousticSourceComponent;
  BaseSpatialWidth : Q;
  ReverbSendOverride : Q;
  LinkedAudioComponent : bool;
  CurrentParams : FAcousticSourceParams
}.

(** What [ApplyParamsToAudio] sets on the audio component;
    [VolumeMultiplier] is [None] when it is not set. *)
Record AudioParameters := {
  OcclusionParam : Q;
  LPFCutoffParam : Q;
  ReverbSendParam : Q;
  SpatialWidthParam : Q;
  VolumeMultiplier : option R;
  LowPassFilterFrequency : Q
}.

Definition EffectiveSpatialWidth (c : State) : Q :=
  let W := BaseSpatialWidth c in
  let W := if HasFlag (Component c) Flag_LargeSource then FMath.Max W (1 # 2) else W in
  if FMath.Qltb (1 # 2) (Occlusion (CurrentParams c))
  then FMath.Lerp W 0 ((Occlusion (CurrentParams c) - (1 # 2)) * 2)%Q
  else W.

(** [ApplyParamsToAudio]; [MinimumAudibilityDb] is the setting of that
    name, [None] when [UAcousticSettings::Get()] returns null. *)
Definition ApplyParamsToAudio (MinimumAudibilityDb : option R) (c : State)
  : option AudioParameters :=
  if negb (LinkedAudioComponent c) || negb (bIsValid (CurrentParams c)) then None
  else
    let EffectiveReverbSend :=
      if Qle_bool 0 (ReverbSendOverride c) then ReverbSendOverride c
      else ReverbSend (CurrentParams c) in
    Some
      {| OcclusionParam := Occlusion (CurrentParams c);
         LPFCutoffParam := LowPassCutoff (CurrentParams c);
         ReverbSendParam := EffectiveReverbSend;
         SpatialWidthParam :=
           (EffectiveSpatialWidth c + SpatialWidth (CurrentParams c))%Q;
         VolumeMultiplier :=
           if negb (HasFlag (Component c) Flag_NeverOcclude) then
             let VolumeMultiplier := Q2R (TransmissionGain (CurrentParams c)) in
             match MinimumAudibilityDb with
             | Some Db =>
                 let MinGain := MasterEffect.Pow10 (Db / 20) in
                 Some (Rmax VolumeMultiplier MinGain)
             | None => Some VolumeMultiplier
             end
           else None;
         LowPassFilterFrequency := LowPassCutoff (CurrentParams c) |}.

(** A linked source with valid parameters behind a wall. *)
Definition state_occluded : State :=
  {| Component := source_default; BaseSpatialWidth := 0; ReverbSendOverride := -1;
     LinkedAudioComponent := true;
     CurrentParams :=
       set_occlusion (7 # 10) 6000 (3 # 10) FAcousticSourceParams_reset |}.

End SourceAudio.

(* ------------------------------------------------------------------ *)
(** ** The master stage at rest *)

Module MasterQuiet.
Import MasterEffect.
Local Open Scope R_scope.

(** An enabled master stage at unity gain whose envelope is at or below
    the limiter threshold. *)
Definition Quiet (fx : FAcousticMasterEffect) : Prop :=
  bEnabled (CurrentSettings fx) = true /\
  OutputGainDb (CurrentSettings fx) = 0 /\
  SmoothedOutputGain fx = 1 /\
  0 < SampleRate fx /\
  0 <= LimiterEnvelope fx <= LimiterThreshold fx.

(** No sample of the block exceeds the threshold in magnitude. *)
Definition BelowThreshold (fx : FAcousticMasterEffect) (InBuffer : list (list R))
  : Prop :=
  Forall (Forall (fun In => Rabs In <= LimiterThreshold fx)) InBuffer.

End MasterQuiet.

(* ------------------------------------------------------------------ *)
(** ** Single-precision rounding *)

(** The value a [float] operation stores: the exact result rounded to the
    nearest number with a 24-bit significand, ties to the even
    significand, numbers below 2^-126 on the grid of spacing 2^-149
    (IEEE 754 binary32, round to nearest even).  There is no infinity: a
    result of magnitude 2^128 or more, which a float stores as an
    infinity, is rounded like any other. *)
Module Float32.
Local Open Scope Q_scope.

(** The integer [e] with [2^e <= x < 2^(e+1)], for [0 < x]. *)
Definition ilog2 (x : Q) : Z :=
  let k := (Z.log2 (Qnum x) - Z.log2 (Zpos (Qden x)))%Z in
  if Qle_bool (2 ^ k) x then k else (k - 1)%Z.

(** The nearest integer, a tie going to the even one. *)
Definition rne (y : Q) : Z :=
  let f := Qfloor y in
  match Qcompare (y - inject_Z f) (1 # 2) with
  | Lt => f
  | Gt => (f + 1)%Z
  | Eq => if Z.even f then f else (f + 1)%Z
  end.

(** The exponent of the last place of the floats around [x]. *)
Definition ulp_exponent (x : Q) : Z := (Z.max (ilog2 x) (-126) - 23)%Z.

Definition round_pos (x : Q) : Q :=
  let g := ulp_exponent x in inject_Z (rne (x / 2 ^ g)) * 2 ^ g.

Definition round (x : Q) : Q :=
  match Qcompare x 0 with
  | Eq => 0
  | Gt => round_pos x
  | Lt => - round_pos (- x)
  end.

(** The unit roundoff, 2^-24. *)
Definition u : Q := 1 # 16777216.

End Float32.

(* ------------------------------------------------------------------ *)
(** ** AcousticSubmixEffects.cpp: the settings blend of the zone reverb *)

Module ZoneReverb.
Local Open Scope Q_scope.

Record FAcousticZoneReverbSettings := {
  RT60 : Q;
  PreDelayMs : Q;
  HFDecay : Q;
  LFDecay : Q;
  Diffusion : Q;
  Density : Q;
  EarlyLevel : Q;
  LateLevel : Q;
  WetLevel : Q;
  RoomSize : Q;
  StereoWidth : Q;
  BlendTime : Q
}.

(** The member initialisers. *)
Definition Settings_default : FAcousticZoneReverbSettings :=
  {| RT60 := 15 # 10; PreDelayMs := 20; HFDecay := 8 # 10; LFDecay := 1;
     Diffusion := 7 # 10; Density := 5 # 10; EarlyLevel := 1; LateLevel := 1;
     WetLevel := 5 # 10; RoomSize := 1; StereoWidth := 1; BlendTime := 5 # 10 |}.

Definition InitFromZonePreset (Preset : ZonePreset.FAcousticZonePreset)
  (s : FAcousticZoneReverbSettings) : FAcousticZoneReverbSettings :=
  {| RT60 := ZonePreset.RT60 Preset;
     PreDelayMs := ZonePreset.PreDelayMs Preset;
     HFDecay := ZonePreset.HFDecay Preset;
     LFDecay := ZonePreset.LFDecay Preset;
     Diffusion := ZonePreset.Diffusion Preset;
     Density := ZonePreset.Density Preset;
     EarlyLevel := ZonePreset.EarlyReflectionLevel Preset;
     LateLevel := ZonePreset.LateReverbLevel Preset;
     WetLevel := ZonePreset.DefaultReverbSend Preset;
     RoomSize := ZonePreset.RoomSize Preset;
     StereoWidth := StereoWidth s;
     BlendTime := BlendTime s |}.

(** The members of [FAcousticZoneReverbEffect] that drive the blend. *)
Record FAcousticZoneReverbEffect := {
  CurrentSettings : FAcousticZoneReverbSettings;
  TargetSettings : FAcousticZoneReverbSettings;
  BlendProgress : Q;
  bIsBlending : bool;
  SampleRate : Q
}.

(** The member initialisers, then [Init] with a sample rate. *)
Definition Init (InitSampleRate : Q) : FAcousticZoneReverbEffect :=
  {| CurrentSettings := Settings_default; TargetSettings := Settings_default;
     BlendProgress := 1; bIsBlending := false; SampleRate := InitSampleRate |}.

(** [FMath::IsNearlyZero], tolerance [SMALL_NUMBER]. *)
Definition IsNearlyZero (x : Q) : bool := Qle_bool (FMath.Abs x) (1 # 100000000).

(** [OnPresetChanged]; [PresetSettings] is [Preset->Settings]. *)
Definition OnPresetChanged (PresetSettings : FAcousticZoneReverbSettings)
  (fx : FAcousticZoneReverbEffect) : FAcousticZoneReverbEffect :=
  if IsNearlyZero (RT60 (CurrentSettings fx)) then
    {| CurrentSettings := PresetSettings; TargetSettings := PresetSettings;
       BlendProgress := BlendProgress fx; bIsBlending := bIsBlending fx;
       SampleRate := SampleRate fx |}
  else
    {| CurrentSettings := CurrentSettings fx; TargetSettings := PresetSettings;
       BlendProgress := 0; bIsBlending := true; SampleRate := SampleRate fx |}.

Definition SetTargetSettings (InSettings : FAcousticZoneReverbSettings)
  (fx : FAcousticZoneReverbEffect) : FAcousticZoneReverbEffect :=
  {| CurrentSettings := CurrentSettings fx; TargetSettings := InSettings;
     BlendProgress := 0; bIsBlending := true; SampleRate := SampleRate fx |}.

(** [UpdateBlend], every float operation with its rounding: the literal
    [0.01f], the conversion of [NumFrames] to [float], the two quotients
    and the sum stored in [BlendProgress].  For an [int32] frame count, a
    sample rate of 1 Hz or more and a blend time of at most 5 s no result
    reaches 2^39, so none is an infinity. *)
Definition UpdateBlend (NumFrames : Z) (fx : FAcousticZoneReverbEffect)
  : FAcousticZoneReverbEffect :=
  if negb (bIsBlending fx) then fx
  else
    let BlendTime :=
      FMath.Max (BlendTime (CurrentSettings fx)) (Float32.round (1 # 100)) in
    let FrameTime :=
      Float32.round (Float32.round (inject_Z NumFrames) / SampleRate fx) in
    let Progress :=
      Float32.round (BlendProgress fx + Float32.round (FrameTime / BlendTime)) in
    if Qle_bool 1 Progress then
      {| CurrentSettings := TargetSettings fx; TargetSettings := TargetSettings fx;
         BlendProgress := 1; bIsBlending := false; SampleRate := SampleRate fx |}
    else
      {| CurrentSettings := CurrentSettings fx; TargetSettings := TargetSettings fx;
         BlendProgress := Progress; bIsBlending := true;
         SampleRate := SampleRate fx |}.

(** [InterpolateSettings]; the interpolated values themselves are exact
    numbers. *)
Definition InterpolateSettings (Alpha : Q) (fx : FAcousticZoneReverbEffect)
  : FAcousticZoneReverbSettings :=
  let C := CurrentSettings fx in
  let T := TargetSettings fx in
  {| RT60 := FMath.Lerp (RT60 C) (RT60 T) Alpha;
     PreDelayMs := FMath.Lerp (PreDelayMs C) (PreDelayMs T) Alpha;
     HFDecay := FMath.Lerp (HFDecay C) (HFDecay T) Alpha;
     LFDecay := FMath.Lerp (LFDecay C) (LFDecay T) Alpha;
     Diffusion := FMath.Lerp (Diffusion C) (Diffusion T) Alpha;
     Density := FMath.Lerp (Density C) (Density T) Alpha;
     EarlyLevel := FMath.Lerp (EarlyLevel C) (EarlyLevel T) Alpha;
     LateLevel := FMath.Lerp (LateLevel C) (LateLevel T) Alpha;
     WetLevel := FMath.Lerp (WetLevel C) (WetLevel T) Alpha;
     RoomSize := FMath.Lerp (RoomSize C) (RoomSize T) Alpha;
     StereoWidth := FMath.Lerp (StereoWidth C) (StereoWidth T) Alpha;
     BlendTime := BlendTime C |}.

(** The head of [OnProcessAudio]: the blend is advanced by the block and
    the settings the block is rendered with are chosen. *)
Definition ActiveSettings (NumFrames : Z) (fx : FAcousticZoneReverbEffect)
  : FAcousticZoneReverbEffect * FAcousticZoneReverbSettings :=
  let fx := if bIsBlending fx then UpdateBlend NumFrames fx else fx in
  (fx, if bIsBlending fx then InterpolateSettings (BlendProgress fx) fx
       else CurrentSettings fx).

(** Blocks of the given frame counts, one after the other. *)
Definition ProcessBlocks (Blocks : list Z) (fx : FAcousticZoneReverbEffect)
  : FAcousticZoneReverbEffect :=
  fold_left (fun fx NumFrames => fst (ActiveSettings NumFrames fx)) Blocks fx.

Definition TotalFrames (Blocks : list Z) : Z := fold_right Z.add 0%Z Blocks.

(** [x] lies between [a] and [b], whichever is the larger. *)
Definition Between (a b x : Q) : Prop :=
  (a <= b -> a <= x <= b) /\ (b <= a -> b <= x <= a).

(** Every interpolated field of [A] lies between those of [C] and [T]. *)
Definition SettingsBetween (C T A : FAcousticZoneReverbSettings) : Prop :=
  Between (RT60 C) (RT60 T) (RT60 A) /\
  Between (PreDelayMs C) (PreDelayMs T) (PreDelayMs A) /\
  Between (HFDecay C) (HFDecay T) (HFDecay A) /\
  Between (LFDecay C) (LFDecay T) (LFDecay A) /\
  Between (Diffusion C) (Diffusion T) (Diffusion A) /\
  Between (Density C) (Density T) (Density A) /\
  Between (EarlyLevel C) (EarlyLevel T) (EarlyLevel A) /\
  Between (LateLevel C) (LateLevel T) (LateLevel A) /\
  Between (WetLevel C) (WetLevel T) (WetLevel A) /\
  Between (RoomSize C) (RoomSize T) (RoomSize A) /\
  Between (StereoWidth C) (StereoWidth T) (StereoWidth A).

(** The part of the blend time of [C] that [Frames] frames cover at the
    sample rate [SR], without any rounding. *)
Definition Covered (C : FAcousticZoneReverbSettings) (SR : Q) (Frames : Z) : Q :=
  inject_Z Frames / SR / FMath.Max (BlendTime C) (Float32.round (1 # 100)).

(** What rounding can take from, or add to, the progress of [Blocks]
    blocks that cover the part [X] of the blend time. *)
Definition ProgressLow (X : Q) (Blocks : Z) : Q :=
  (1 - 3 * Float32.u) * X - inject_Z Blocks * Float32.u.

Definition ProgressHigh (X : Q) (Blocks : Z) : Q :=
  (1 + 4 * Float32.u) * X + inject_Z Blocks * Float32.u.

(** The state of a blend from [C] towards [T] after [k] blocks of [e]
    frames together. *)
Definition Blending (C T : FAcousticZoneReverbSettings) (SR : Q) (e k : Z)
  (fx : FAcousticZoneReverbEffect) : Prop :=
  TargetSettings fx = T /\ SampleRate fx = SR /\
  ((bIsBlending fx = true /\ CurrentSettings fx = C /\
    0 <= BlendProgress fx /\ BlendProgress fx < 1 /\
    ProgressLow (Covered C SR e) k <= BlendProgress fx /\
    BlendProgress fx <= ProgressHigh (Covered C SR e) k) \/
   (bIsBlending fx = false /\ CurrentSettings fx = T /\ BlendProgress fx = 1 /\
    1 <= ProgressHigh (Covered C SR e) k)).

End ZoneReverb.

(* ------------------------------------------------------------------ *)
(** ** AcousticSubmixEffects.cpp: headphone crossfeed *)

Module Crossfeed.
Local Open Scope R_scope.

Record FHeadphoneCrossfeedSettings := {
  bEnabled : bool;
  CrossfeedAmount : R;
  CrossfeedDelayUs : R;
  CrossfeedLPFHz : R;
  BassBoostDb : R
}.

Record FHeadphoneCrossfeedEffect := {
  CurrentSettings : FHeadphoneCrossfeedSettings;
  SampleRate : R;
  CrossfeedDelayL : list R;
  CrossfeedDelayR : list R;
  DelayWriteIndex : Z;
  CrossfeedLPFStateL : R;
  CrossfeedLPFStateR : R
}.

(** [FMath::RoundToInt(x)] is the floor of [x + 0.5], [FMath::CeilToInt(x)]
    the negated floor of [-x]. *)
Definition RoundToInt (x : R) : Z := Int_part (x + 1 / 2).
Definition CeilToInt (x : R) : Z := (- Int_part (- x))%Z.

(** [FMath::Clamp] on [int32]. *)
Definition ClampZ (x lo hi : Z) : Z :=
  if (x <? lo)%Z then lo else if (x <? hi)%Z then x else hi.

(** [Init], with the settings already received. *)
Definition Init (cfg : FHeadphoneCrossfeedSettings) (InitSampleRate : R)
  : FHeadphoneCrossfeedEffect :=
  let MaxDelaySamples := CeilToInt (InitSampleRate * (5 / 10000)) in
  {| CurrentSettings := cfg; SampleRate := InitSampleRate;
     CrossfeedDelayL := repeat 0 (Z.to_nat MaxDelaySamples);
     CrossfeedDelayR := repeat 0 (Z.to_nat MaxDelaySamples);
     DelayWriteIndex := 0;
     CrossfeedLPFStateL := 0; CrossfeedLPFStateR := 0 |}.

(** [TArray::operator[]] with an [int32] index, for writing and reading;
    [None] when the range check fails. *)
Definition TArray_set (i : Z) (v : R) (l : list R) : option (list R) :=
  if (i <? 0)%Z then None else TArray_write (Z.to_nat i) v l.

Definition TArray_get (i : Z) (l : list R) : option R :=
  if (i <? 0)%Z then None else nth_error l (Z.to_nat i).

(** One iteration of the frame loop: the state after it and the two
    samples written.  [None] when an index is out of range or the
    remainder is taken by 0. *)
Definition ProcessFrame (DelaySamples : Z) (LPFCoeff : R)
  (fx : FHeadphoneCrossfeedEffect) (InL InR : R)
  : option (FHeadphoneCrossfeedEffect * (R * R)) :=
  match TArray_set (DelayWriteIndex fx) InL (CrossfeedDelayL fx),
        TArray_set (DelayWriteIndex fx) InR (CrossfeedDelayR fx) with
  | Some DelayL, Some DelayR =>
      let Num := Z.of_nat (length DelayL) in
      if (Num =? 0)%Z then None
      else
        let ReadIndex := Z.rem (DelayWriteIndex fx - DelaySamples + Num) Num in
        match TArray_get ReadIndex DelayL, TArray_get ReadIndex DelayR with
        | Some DelayedL, Some DelayedR =>
            let StateL :=
              LPFCoeff * CrossfeedLPFStateL fx + (1 - LPFCoeff) * DelayedR in
            let StateR :=
              LPFCoeff * CrossfeedLPFStateR fx + (1 - LPFCoeff) * DelayedL in
            let Amount := CrossfeedAmount (CurrentSettings fx) in
            Some
              ({| CurrentSettings := CurrentSettings fx;
                  SampleRate := SampleRate fx;
                  CrossfeedDelayL := DelayL; CrossfeedDelayR := DelayR;
                  DelayWriteIndex := Z.rem (DelayWriteIndex fx + 1) Num;
                  CrossfeedLPFStateL := StateL; CrossfeedLPFStateR := StateR |},
               (InL * (1 - Amount * (1 / 2)) + StateL * Amount,
                InR * (1 - Amount * (1 / 2)) + StateR * Amount))
        | _, _ => None
        end
  | _, _ => None
  end.

(** The frame loop.  A frame is the list of its channel samples;
    [OutBuffer] holds what the output buffer held before the call, of which
    only the first two samples of each frame are overwritten. *)
Fixpoint ProcessFrames (DelaySamples : Z) (LPFCoeff : R)
  (fx : FHeadphoneCrossfeedEffect) (InBuffer OutBuffer : list (list R))
  : option (FHeadphoneCrossfeedEffect * list (list R)) :=
  match InBuffer with
  | [] => Some (fx, OutBuffer)
  | InFrame :: InRest =>
      match InFrame, OutBuffer with
      | InL :: InR :: _, (_ :: _ :: OutTail) :: OutRest =>
          match ProcessFrame DelaySamples LPFCoeff fx InL InR with
          | Some (fx1, (OutL, OutR)) =>
              match ProcessFrames DelaySamples LPFCoeff fx1 InRest OutRest with
              | Some (fx2, Outs) => Some (fx2, (OutL :: OutR :: OutTail) :: Outs)
              | None => None
              end
          | None => None
          end
      | _, _ => None
      end
  end.

Definition OnProcessAudio (fx : FHeadphoneCrossfeedEffect) (NumChannels : Z)
  (InBuffer OutBuffer : list (list R))
  : option (FHeadphoneCrossfeedEffect * list (list R)) :=
  if negb (bEnabled (CurrentSettings fx)) then Some (fx, InBuffer)
  else if (NumChannels <? 2)%Z then Some (fx, InBuffer)
  else
    let DelaySamples :=
      RoundToInt (CrossfeedDelayUs (CurrentSettings fx) * SampleRate fx / 1000000) in
    let DelaySamples :=
      ClampZ DelaySamples 1 (Z.of_nat (length (CrossfeedDelayL fx)) - 1) in
    let LPFFreq := CrossfeedLPFHz (CurrentSettings fx) in
    let LPFCoeff := exp (- 2 * PI * LPFFreq / SampleRate fx) in
    ProcessFrames DelaySamples LPFCoeff fx InBuffer OutBuffer.

(** Both delay lines have the same, positive length and the write index
    is inside them. *)
Definition WellFormed (fx : FHeadphoneCrossfeedEffect) : Prop :=
  length (CrossfeedDelayR fx) = length (CrossfeedDelayL fx) /\
  (0 <= DelayWriteIndex fx < Z.of_nat (length (CrossfeedDelayL fx)))%Z.

(** The two buffers hold the same number of frames, each of [NumChannels]
    samples. *)
Definition Shaped (NumChannels : Z) (InBuffer OutBuffer : list (list R)) : Prop :=
  Forall2 (fun i o => Z.of_nat (length i) = NumChannels /\
                      Z.of_nat (length o) = NumChannels) InBuffer OutBuffer.

(** The member initialisers of [FHeadphoneCrossfeedSettings]. *)
Definition Settings_default : FHeadphoneCrossfeedSettings :=
  {| bEnabled := true; CrossfeedAmount := 15 / 100; CrossfeedDelayUs := 200;
     CrossfeedLPFHz := 2000; BassBoostDb := 0 |}.

(** An effect with delay lines of four samples. *)
Definition fx_four : FHeadphoneCrossfeedEffect :=
  {| CurrentSettings := Settings_default; SampleRate := 48000;
     CrossfeedDelayL := [0; 0; 0; 0]; CrossfeedDelayR := [0; 0; 0; 0];
     DelayWriteIndex := 0; CrossfeedLPFStateL := 0; CrossfeedLPFStateR := 0 |}.

End Crossfeed.

(* ------------------------------------------------------------------ *)
(** ** The schedule of the passes *)

(** The test of [ProcessAcousticUpdate] for a pass of rate [Rate]: the
    accumulator, this tick's [DeltaTime] added, has reached [1 / Rate]. *)
Definition Due (Rate Accumulator DeltaTime : Q) : bool :=
  Qle_bool (1 / Rate) (Accumulator + DeltaTime).

(* ------------------------------------------------------------------ *)
(** ** AcousticMultiplayer.cpp: replication of a source *)

Module SourceReplication.

(** [FReplicatedAcousticState]; the fields that share their name with a
    property of the source component carry the prefix [Rep_]. *)
Record FReplicatedAcousticState := {
  bIsPlaying : bool;
  bIsLooping : bool;
  Rep_BaseLoudness : Q;
  Rep_AcousticLOD : EAcousticLOD;
  bIsHeroSource : bool;
  Rep_Importance : EAcousticImportance;
  PlaybackPosition : Q
}.

(** The member initialisers. *)
Definition FReplicatedAcousticState_default : FReplicatedAcousticState :=
  {| bIsPlaying := false; bIsLooping := false; Rep_BaseLoudness := 1;
     Rep_AcousticLOD := LOD_Basic; bIsHeroSource := false;
     Rep_Importance := Imp_Normal; PlaybackPosition := 0 |}.

(** The source component of the owning actor with its audio component:
    [IsPlaying] is [None] when there is no linked audio component. *)
Record LinkedSourceState := {
  Source : UAcousticSourceComponent;
  IsPlaying : option bool
}.

(** [UAcousticReplicationComponent]: the replicated state, whether
    [LinkedSource] is set, and the source component that
    [FindComponentByClass] finds on the owner. *)
Record UAcousticReplicationComponent := {
  ReplicatedState : FReplicatedAcousticState;
  LinkedSource : bool;
  OwnerSource : option LinkedSourceState
}.

Definition FindLinkedSource (c : UAcousticReplicationComponent)
  : UAcousticReplicationComponent :=
  if LinkedSource c then c
  else
    {| ReplicatedState := ReplicatedState c;
       LinkedSource := match OwnerSource c with Some _ => true | None => false end;
       OwnerSource := OwnerSource c |}.

Definition SetAcousticLOD (NewLOD : EAcousticLOD) (s : UAcousticSourceComponent)
  : UAcousticSourceComponent :=
  {| AcousticLOD := NewLOD; Importance := Importance s;
     SourceFlags := SourceFlags s; BaseLoudness := BaseLoudness s;
     PriorityOverride := PriorityOverride s |}.

Definition SetImportance (NewImportance : EAcousticImportance)
  (s : UAcousticSourceComponent) : UAcousticSourceComponent :=
  {| AcousticLOD := AcousticLOD s; Importance := NewImportance;
     SourceFlags := SourceFlags s; BaseLoudness := BaseLoudness s;
     PriorityOverride := PriorityOverride s |}.

Definition set_BaseLoudness (l : Q) (s : UAcousticSourceComponent)
  : UAcousticSourceComponent :=
  {| AcousticLOD := AcousticLOD s; Importance := Importance s;
     SourceFlags := SourceFlags s; BaseLoudness := l;
     PriorityOverride := PriorityOverride s |}.

(** [ApplyReplicatedState]: the four properties are written to the linked
    source, then the audio component is started or stopped to match. *)
Definition ApplyReplicatedState (c : UAcousticReplicationComponent)
  : UAcousticReplicationComponent :=
  let c := if negb (LinkedSource c) then FindLinkedSource c else c in
  if negb (LinkedSource c) then c
  else
    match OwnerSource c with
    | None => c
    | Some L =>
        let R := ReplicatedState c in
        let S := SetAcousticLOD (Rep_AcousticLOD R) (Source L) in
        let S := SetFlag Flag_IsHero (bIsHeroSource R) S in
        let S := SetImportance (Rep_Importance R) S in
        let S := set_BaseLoudness (Rep_BaseLoudness R) S in
        let Playing :=
          match IsPlaying L with
          | Some p =>
              if bIsPlaying R && negb p then Some true
              else if negb (bIsPlaying R) && p then Some false
              else Some p
          | None => None
          end in
        {| ReplicatedState := R; LinkedSource := LinkedSource c;
           OwnerSource := Some {| Source := S; IsPlaying := Playing |} |}
    end.

(** A client receives the replicated state, then [OnRep_AudioState] runs. *)
Definition OnRep_AudioState (Received : FReplicatedAcousticState)
  (c : UAcousticReplicationComponent) : UAcousticReplicationComponent :=
  ApplyReplicatedState
    {| ReplicatedState := Received; LinkedSource := LinkedSource c;
       OwnerSource := OwnerSource c |}.

Definition UpdateReplicatedStateFromSource (c : UAcousticReplicationComponent)
  : UAcousticReplicationComponent :=
  if negb (LinkedSource c) then c
  else
    match OwnerSource c with
    | None => c
    | Some L =>
        let R := ReplicatedState c in
        {| ReplicatedState :=
             {| bIsPlaying :=
                  match IsPlaying L with Some p => p | None => bIsPlaying R end;
                bIsLooping := bIsLooping R;
                Rep_BaseLoudness := BaseLoudness (Source L);
                Rep_AcousticLOD := AcousticLOD (Source L);
                bIsHeroSource := HasFlag (Source L) Flag_IsHero;
                Rep_Importance := Importance (Source L);
                PlaybackPosition := PlaybackPosition R |};
           LinkedSource := LinkedSource c; OwnerSource := OwnerSource c |}
    end.

(** A server component linked to a playing source configured Hero. *)
Definition server_hero : UAcousticReplicationComponent :=
  {| ReplicatedState := FReplicatedAcousticState_default; LinkedSource := true;
     OwnerSource := Some {| Source := source_hero; IsPlaying := Some true |} |}.

(** A client component that has not looked for its source yet. *)
Definition client_fresh : UAcousticReplicationComponent :=
  {| ReplicatedState := FReplicatedAcousticState_default; LinkedSource := false;
     OwnerSource := Some {| Source := source_default; IsPlaying := Some false |} |}.

End SourceReplication.

(* ================================================================== *)
(** * Properties *)

(* ------------------------------------------------------------------ *)
(** ** Machine integers and FMath *)

Lemma wrap32_id z : is_int32 z -> wrap32 z = z.
Proof.
  unfold is_int32, INT32_MIN, INT32_MAX, wrap32. intros H.
  rewrite Z.mod_small; lia.
Qed.

Lemma add32_small a b : is_int32 (a + b) -> add32 a b = a + b.
Proof. apply wrap32_id. Qed.

Lemma LOD_eqb_eq a b : LOD_eqb a b = true <-> a = b.
Proof. destruct a, b; cbv; split; congruence. Qed.

Lemma LOD_eqb_neq a b : LOD_eqb a b = false <-> a <> b.
Proof. destruct a, b; cbv; split; congruence. Qed.

Module FMathFacts.
Import FMath.
Local Open Scope Q_scope.

Lemma Qltb_lt a b : Qltb a b = true <-> a < b.
Proof.
  unfold Qltb. rewrite negb_true_iff, <- not_true_iff_false, Qle_bool_iff.
  split; intros H.
  - apply Qnot_le_lt; exact H.
  - apply Qlt_not_le; exact H.
Qed.

Lemma Qltb_ge a b : Qltb a b = false <-> b <= a.
Proof.
  unfold Qltb. rewrite negb_false_iff. apply Qle_bool_iff.
Qed.

#[export] Instance Qltb_Proper : Proper (Qeq ==> Qeq ==> eq) Qltb.
Proof.
  intros a a' Ha b b' Hb. unfold Qltb. f_equal.
  apply Qleb_comp; assumption.
Qed.

Lemma Max_spec a b : (b < a /\ Max a b = a) \/ (a <= b /\ Max a b = b).
Proof.
  unfold Max. destruct (Qltb b a) eqn:E.
  - left. split; [apply Qltb_lt; exact E | reflexivity].
  - right. split; [apply Qltb_ge; exact E | reflexivity].
Qed.

Lemma Min_spec a b : (a < b /\ Min a b = a) \/ (b <= a /\ Min a b = b).
Proof.
  unfold Min. destruct (Qltb a b) eqn:E.
  - left. split; [apply Qltb_lt; exact E | reflexivity].
  - right. split; [apply Qltb_ge; exact E | reflexivity].
Qed.

Lemma Max_ge_r a b : b <= Max a b.
Proof.
  destruct (Max_spec a b) as [[H ->]|[_ ->]];
    [apply Qlt_le_weak; exact H | apply Qle_refl].
Qed.

Lemma Clamp_spec x lo hi :
  (x < lo /\ Clamp x lo hi = lo) \/
  (lo <= x /\ x < hi /\ Clamp x lo hi = x) \/
  (lo <= x /\ hi <= x /\ Clamp x lo hi = hi).
Proof.
  unfold Clamp. destruct (Qltb x lo) eqn:E1.
  - left. split; [apply Qltb_lt; exact E1 | reflexivity].
  - right. apply Qltb_ge in E1. destruct (Qltb x hi) eqn:E2.
    + left. repeat split; [exact E1 | apply Qltb_lt; exact E2].
    + right. repeat split; [exact E1 | apply Qltb_ge; exact E2].
Qed.

Lemma clamp01_id x : 0 <= x -> x <= 1 -> clamp01 x == x.
Proof.
  intros H0 H1. unfold clamp01.
  destruct (Clamp_spec x 0 1) as [[H _]|[(_ & _ & ->)|(_ & H & ->)]].
  - exfalso. apply (Qlt_irrefl x). eapply Qlt_le_trans; eauto.
  - reflexivity.
  - apply Qle_antisym; assumption.
Qed.

Lemma clamp01_range x : 0 <= clamp01 x /\ clamp01 x <= 1.
Proof.
  unfold clamp01.
  destruct (Clamp_spec x 0 1) as [[_ ->]|[(H0 & H1 & ->)|(_ & _ & ->)]].
  - split; [apply Qle_refl | discriminate].
  - split; [exact H0 | apply Qlt_le_weak; exact H1].
  - split; [discriminate | apply Qle_refl].
Qed.

End FMathFacts.

(* ------------------------------------------------------------------ *)
(** ** Priority score *)

(** C5.  Without a manual override (override below 0) the priority score is
    baseLoudness * (100 / max(distance, 1)) * importance multiplier, with
    multipliers 0.25, 1 and 2 for Background, Normal and Important, times
    100 for a hero-flagged source; a Critical source scores FLT_MAX.  At
    distance 50 with base loudness 1, Normal importance and no hero flag
    the score is 2. *)
Theorem C5_priority_score :
  (forall (s : UAcousticSourceComponent) (dist : Q),
      (PriorityOverride s < 0)%Q ->
      match Importance s with
      | Imp_Critical => ComputePriorityScore s dist = FMath.FLT_MAX
      | imp =>
          (ComputePriorityScore s dist ==
           BaseLoudness s * (100 / FMath.Max dist 1) * importance_multiplier imp
           * (if HasFlag s Flag_IsHero then 100 else 1))%Q
      end) /\
  (forall s : UAcousticSourceComponent,
      (PriorityOverride s < 0)%Q ->
      (BaseLoudness s == 1)%Q ->
      Importance s = Imp_Normal ->
      HasFlag s Flag_IsHero = false ->
      (ComputePriorityScore s 50 == 2)%Q).
Proof.
  assert (Hmain : forall (s : UAcousticSourceComponent) (dist : Q),
      (PriorityOverride s < 0)%Q ->
      match Importance s with
      | Imp_Critical => ComputePriorityScore s dist = FMath.FLT_MAX
      | imp =>
          (ComputePriorityScore s dist ==
           BaseLoudness s * (100 / FMath.Max dist 1) * importance_multiplier imp
           * (if HasFlag s Flag_IsHero then 100 else 1))%Q
      end).
  { intros s dist Hov. unfold ComputePriorityScore.
    assert (E : Qle_bool 0 (PriorityOverride s) = false).
    { apply not_true_iff_false. rewrite Qle_bool_iff.
      apply Qlt_not_le. exact Hov. }
    rewrite E.
    assert (Hpos : ~ (FMath.Max dist 1 == 0)%Q).
    { intros H0. pose proof (FMathFacts.Max_ge_r dist 1) as Hge.
      rewrite H0 in Hge. revert Hge. apply Qlt_not_le. reflexivity. }
    destruct (Importance s); simpl; try reflexivity;
      destruct (HasFlag s Flag_IsHero); field; exact Hpos. }
  split; [exact Hmain|].
  intros s Hov Hl Hi Hh.
  specialize (Hmain s 50%Q Hov). rewrite Hi, Hh in Hmain.
  rewrite Hmain, Hl. reflexivity.
Qed.

Lemma C5_priority_score_witness :
  (ComputePriorityScore source_default 50 == 2)%Q.
Proof.
  apply (proj2 C5_priority_score source_default);
    [reflexivity | reflexivity | reflexivity | reflexivity].
Defined.

(* ------------------------------------------------------------------ *)
(** ** Occlusion *)

#[export] Instance Clamp_Proper :
  Proper (Qeq ==> Qeq ==> Qeq ==> Qeq) FMath.Clamp.
Proof.
  intros x x' Hx lo lo' Hlo hi hi' Hhi. unfold FMath.Clamp.
  rewrite (FMathFacts.Qltb_Proper _ _ Hx _ _ Hlo).
  rewrite (FMathFacts.Qltb_Proper _ _ Hx _ _ Hhi).
  destruct (FMath.Qltb x' lo'); [exact Hlo|].
  destruct (FMath.Qltb x' hi'); assumption.
Qed.

(** C3.  After an occlusion trace that hits material m the stored occlusion
    is clamp01((1 - m.transmission) * realismFactor) and the transmission
    gain is (1 - occlusion) + occlusion * m.transmission; after a clear
    trace they are 0 and 1.  A hit on a material of transmission 0 (Concrete)
    at realism factor 0.7 gives occlusion 0.7 and gain 0.3. *)
Theorem C3_occlusion_trace :
  (forall cfg maps w now Entry,
      let P := CurrentParams (OcclusionUpdate cfg maps w now Entry) in
      match OcclusionTrace w (SourceComponent Entry) with
      | Some HitResult =>
          let m := GetAcousticMaterial maps (PhysMaterial HitResult) in
          Occlusion P = FMath.clamp01 ((1 - Transmission m) * RealismFactor cfg)%Q /\
          TransmissionGain P =
            ((1 - Occlusion P) + Occlusion P * Transmission m)%Q
      | None => Occlusion P = 0%Q /\ TransmissionGain P = 1%Q
      end) /\
  (forall cfg maps w now Entry HitResult,
      OcclusionTrace w (SourceComponent Entry) = Some HitResult ->
      GetAcousticMaterial maps (PhysMaterial HitResult) = CreateFromType Mat_Concrete ->
      (RealismFactor cfg == 7 # 10)%Q ->
      let P := CurrentParams (OcclusionUpdate cfg maps w now Entry) in
      (Occlusion P == 7 # 10)%Q /\ (TransmissionGain P == 3 # 10)%Q).
Proof.
  assert (Hgen : forall cfg maps w now Entry,
      let P := CurrentParams (OcclusionUpdate cfg maps w now Entry) in
      match OcclusionTrace w (SourceComponent Entry) with
      | Some HitResult =>
          let m := GetAcousticMaterial maps (PhysMaterial HitResult) in
          Occlusion P = FMath.clamp01 ((1 - Transmission m) * RealismFactor cfg)%Q /\
          TransmissionGain P =
            ((1 - Occlusion P) + Occlusion P * Transmission m)%Q
      | None => Occlusion P = 0%Q /\ TransmissionGain P = 1%Q
      end).
  { intros cfg maps w now Entry. unfold OcclusionUpdate, TraceOcclusion.
    destruct (OcclusionTrace w (SourceComponent Entry)) as [hr|]; simpl.
    - split; reflexivity.
    - split; reflexivity. }
  split; [exact Hgen|].
  intros cfg maps w now Entry hr Htrace Hmat Hreal P.
  pose proof (Hgen cfg maps w now Entry) as H. fold P in H.
  rewrite Htrace in H. cbv zeta in H. rewrite Hmat in H.
  destruct H as [Hocc Hgain].
  assert (Eocc : (Occlusion P == 7 # 10)%Q).
  { rewrite Hocc. unfold FMath.clamp01. rewrite Hreal. reflexivity. }
  split; [exact Eocc|].
  rewrite Hgain, Eocc. reflexivity.
Qed.

Lemma C3_occlusion_trace_witness :
  let P := CurrentParams
             (OcclusionUpdate UAcousticSettings_default concrete_mappings
                world_concrete_wall 0 entry_fresh) in
  (Occlusion P == 7 # 10)%Q /\ (TransmissionGain P == 3 # 10)%Q.
Proof.
  apply (proj2 C3_occlusion_trace UAcousticSettings_default concrete_mappings
           world_concrete_wall 0%Q entry_fresh
           {| Hit_Distance := 25; PhysMaterial := Some "PM_Concrete"%string |});
    reflexivity.
Defined.

(* ------------------------------------------------------------------ *)
(** ** Low-pass cutoff *)

Lemma Q2R_integer (z : Z) : Q2R (inject_Z z) = IZR z.
Proof. unfold Q2R, inject_Z. simpl. lra. Qed.

(** The log-domain interpolation ends where it is told to. *)
Lemma CalculateLPFCutoffFromOcclusion_ends (lo hi : R) :
  (0 < lo)%R -> (0 < hi)%R ->
  AcousticUtils.CalculateLPFCutoffFromOcclusion 0 lo hi = hi /\
  AcousticUtils.CalculateLPFCutoffFromOcclusion 1 lo hi = lo.
Proof.
  intros Hlo Hhi.
  unfold AcousticUtils.CalculateLPFCutoffFromOcclusion, AcousticUtils.Lerp.
  split.
  - replace (ln hi + 0 * (ln lo - ln hi))%R with (ln hi) by lra.
    apply exp_ln; exact Hhi.
  - replace (ln hi + 1 * (ln lo - ln hi))%R with (ln lo) by lra.
    apply exp_ln; exact Hlo.
Qed.

(** C4, as stated, fails.  With the default material (high absorption 0.3)
    and occlusion 0 the engine returns 20000 Hz, where the stated formula
    gives the reduced default 17000 Hz; and on a material without
    absorption the engine's value at occlusion 1/2 is the arithmetic
    midpoint 10250 Hz, which is not the logarithmic one. *)
Lemma C4_counterexample :
  Q2R (ComputeLPFFromOcclusion 0 FAcousticMaterial_default)
    <> Claimed_LPFCutoff 0 (Q2R (HighAbsorption FAcousticMaterial_default)) /\
  Q2R (ComputeLPFFromOcclusion (1 # 2) material_reflective)
    <> Claimed_LPFCutoff (1 / 2) (Q2R (HighAbsorption material_reflective)).
Proof.
  split.
  - assert (E1 : Q2R (ComputeLPFFromOcclusion 0 FAcousticMaterial_default) = 20000%R).
    { rewrite (Qeq_eqR _ (inject_Z 20000)) by reflexivity. apply Q2R_integer. }
    assert (E2 : Claimed_LPFCutoff 0 (Q2R (HighAbsorption FAcousticMaterial_default))
                 = 17000%R).
    { unfold Claimed_LPFCutoff.
      assert (Ha : Q2R (HighAbsorption FAcousticMaterial_default) = (3 / 10)%R).
      { unfold Q2R. simpl. lra. }
      rewrite Ha.
      replace (500 * (1 - 3 / 10 * (1 / 2)))%R with 425%R by lra.
      replace (20000 * (1 - 3 / 10 * (1 / 2)))%R with 17000%R by lra.
      apply CalculateLPFCutoffFromOcclusion_ends; lra. }
    rewrite E1, E2. lra.
  - assert (E1 : Q2R (ComputeLPFFromOcclusion (1 # 2) material_reflective) = 10250%R).
    { rewrite (Qeq_eqR _ (inject_Z 10250)) by reflexivity. apply Q2R_integer. }
    rewrite E1. unfold Claimed_LPFCutoff.
    assert (Ha : Q2R (HighAbsorption material_reflective) = 0%R).
    { unfold Q2R. simpl. lra. }
    rewrite Ha.
    replace (500 * (1 - 0 * (1 / 2)))%R with 500%R by lra.
    replace (20000 * (1 - 0 * (1 / 2)))%R with 20000%R by lra.
    unfold AcousticUtils.CalculateLPFCutoffFromOcclusion, AcousticUtils.Lerp.
    intros Heq.
    assert (Hsq : (exp (ln 20000 + 1 / 2 * (ln 500 - ln 20000))
                   * exp (ln 20000 + 1 / 2 * (ln 500 - ln 20000)))%R
                  = (20000 * 500)%R).
    { rewrite <- exp_plus.
      replace (ln 20000 + 1 / 2 * (ln 500 - ln 20000)
               + (ln 20000 + 1 / 2 * (ln 500 - ln 20000)))%R
        with (ln 20000 + ln 500)%R by lra.
      rewrite exp_plus, !exp_ln; lra. }
    rewrite <- Heq in Hsq. lra.
Qed.

(** C4, amended.  The cutoff is the linear interpolation, by the occlusion,
    from the default 20000 Hz (not reduced) to the floor 500 Hz reduced by
    1 - highAbsorption * 0.5: occlusion 0 gives 20000 Hz, occlusion 1 the
    reduced floor, and for occlusion and absorption in [0,1] the cutoff
    stays between the reduced floor and 20000 Hz. *)
Theorem C4_lpf_cutoff_linear :
  forall (occ : Q) (m : FAcousticMaterial),
    let floor := (500 * (1 - HighAbsorption m * (1 # 2)))%Q in
    (ComputeLPFFromOcclusion occ m == 20000 + occ * (floor - 20000))%Q /\
    (ComputeLPFFromOcclusion 0 m == 20000)%Q /\
    (ComputeLPFFromOcclusion 1 m == floor)%Q /\
    ((0 <= occ)%Q -> (occ <= 1)%Q ->
     (0 <= HighAbsorption m)%Q -> (HighAbsorption m <= 1)%Q ->
     (floor <= ComputeLPFFromOcclusion occ m)%Q /\
     (ComputeLPFFromOcclusion occ m <= 20000)%Q /\
     (250 <= floor)%Q).
Proof.
  intros occ m floor.
  unfold ComputeLPFFromOcclusion, FMath.Lerp,
    AcousticConstants.OccludedLPFCutoff, AcousticConstants.DefaultLPFCutoff.
  subst floor. set (h := HighAbsorption m).
  split; [reflexivity|]. split; [ring|]. split; [ring|].
  intros H0 H1 Hh0 Hh1.
  repeat split; nra.
Qed.

Lemma C4_lpf_cutoff_linear_witness :
  (425 <= ComputeLPFFromOcclusion (7 # 10) FAcousticMaterial_default)%Q /\
  (ComputeLPFFromOcclusion (7 # 10) FAcousticMaterial_default <= 20000)%Q /\
  (250 <= 425)%Q.
Proof.
  pose proof (proj2 (proj2 (proj2
    (C4_lpf_cutoff_linear (7 # 10) FAcousticMaterial_default)))) as H.
  cbv zeta in H.
  destruct H as (Ha & Hb & Hc); try (vm_compute; congruence).
  repeat split.
  - eapply Qle_trans; [|exact Ha]. vm_compute; congruence.
  - exact Hb.
  - vm_compute; congruence.
Defined.

(* ------------------------------------------------------------------ *)
(** ** Sorting and indexed writes *)

Section SortFacts.
Context {A : Type} (before : A -> A -> bool).

Let le (a b : A) : Prop := before b a = false.

Hypothesis le_trans : forall a b c, le a b -> le b c -> le a c.
Hypothesis before_le : forall a b, before a b = true -> le a b.

Lemma Sort_insert_perm x l : Permutation (Sort_insert before x l) (x :: l).
Proof.
  induction l as [|y l IH]; simpl; [reflexivity|].
  destruct (before y x).
  - rewrite IH. apply perm_swap.
  - reflexivity.
Qed.

Lemma TArray_Sort_perm l : Permutation (TArray_Sort before l) l.
Proof.
  induction l as [|x l IH]; simpl; [constructor|].
  rewrite Sort_insert_perm. constructor. exact IH.
Qed.

Lemma Sort_insert_sorted x l :
  StronglySorted le l -> StronglySorted le (Sort_insert before x l).
Proof.
  induction 1 as [|y l Hs IH Hall]; simpl.
  - repeat constructor.
  - destruct (before y x) eqn:E.
    + constructor; [exact IH|].
      eapply Permutation_Forall; [symmetry; apply Sort_insert_perm|].
      constructor; [apply before_le; exact E | exact Hall].
    + constructor; [constructor; assumption|].
      constructor; [exact E|].
      eapply Forall_impl; [|exact Hall].
      intros z Hz. eapply le_trans; [exact E | exact Hz].
Qed.

Lemma TArray_Sort_sorted l : StronglySorted le (TArray_Sort before l).
Proof.
  induction l as [|x l IH]; simpl; [constructor|].
  apply Sort_insert_sorted; exact IH.
Qed.

End SortFacts.

Lemma TArray_write_spec {A} (i : nat) (v : A) (l : list A) :
  (i < length l)%nat ->
  TArray_write i v l = Some (firstn i l ++ v :: skipn (S i) l).
Proof.
  revert i. induction l as [|x l IH]; intros i Hi; simpl in Hi; [lia|].
  destruct i as [|i]; simpl; [reflexivity|].
  rewrite IH by lia. reflexivity.
Qed.

Lemma StronglySorted_weaken {A} (R R' : A -> A -> Prop) (l : list A) :
  (forall a b, R a b -> R' a b) -> StronglySorted R l -> StronglySorted R' l.
Proof.
  intros HR. induction 1 as [|x l Hs IH Hall]; constructor; [exact IH|].
  eapply Forall_impl; [|exact Hall]. intros b. apply HR.
Qed.

Lemma SortedHits_ascending (Hits : list FAcousticRayHit) :
  StronglySorted nearer_or_equal
    (TArray_Sort (fun A B => FMath.Qltb (Distance A) (Distance B)) Hits).
Proof.
  eapply StronglySorted_weaken;
    [| apply (TArray_Sort_sorted
                (fun A B => FMath.Qltb (Distance A) (Distance B)))].
  - intros a b Hab. apply FMathFacts.Qltb_ge. exact Hab.
  - intros a b c Hab Hbc. apply FMathFacts.Qltb_ge.
    apply FMathFacts.Qltb_ge in Hab, Hbc. eapply Qle_trans; eassumption.
  - intros a b Hab. apply FMathFacts.Qltb_ge. apply Qlt_le_weak.
    apply FMathFacts.Qltb_lt. exact Hab.
Qed.

(* ------------------------------------------------------------------ *)
(** ** Reflection clustering *)

Lemma TapLoop_spec (n : nat) :
  forall (i : nat) (SortedHits : list FAcousticRayHit)
         (taps : list FReflectionTap) (TotalDelay : Q),
    (i + n <= length SortedHits)%nat ->
    (i + n <= length taps)%nat ->
    exists TotalDelay',
      TapLoop n i SortedHits taps TotalDelay =
      Some (firstn i taps
            ++ map MakeTap (firstn n (skipn i SortedHits))
            ++ skipn (i + n) taps,
            TotalDelay').
Proof.
  induction n as [|n IH]; intros i hits taps total Hh Ht; cbn [TapLoop]; cbv zeta.
  - exists total. simpl. rewrite Nat.add_0_r, firstn_skipn. reflexivity.
  - destruct (nth_error hits i) as [Hit|] eqn:Enth;
      [| apply nth_error_None in Enth; lia].
    rewrite TArray_write_spec by lia.
    set (taps' := firstn i taps ++ MakeTap Hit :: skipn (S i) taps).
    assert (Hlen : length taps' = length taps).
    { unfold taps'. rewrite length_app, firstn_length_le by lia.
      cbn [length]. rewrite length_skipn. lia. }
    destruct (IH (S i) hits taps' (total + DelayMs (MakeTap Hit))%Q)
      as [total' E]; [lia | lia |].
    exists total'. rewrite E. f_equal. f_equal.
    assert (E1 : firstn (S i) taps' = firstn i taps ++ [MakeTap Hit]).
    { unfold taps'. rewrite firstn_app, firstn_length_le by lia.
      rewrite firstn_all2 by (rewrite firstn_length_le; lia).
      replace (S i - i)%nat with 1%nat by lia. reflexivity. }
    assert (E2 : skipn (S i + n) taps' = skipn (i + S n) taps).
    { unfold taps'. rewrite skipn_app, firstn_length_le by lia.
      rewrite skipn_all2 by (rewrite firstn_length_le; lia).
      replace (S i + n - i)%nat with (S n) by lia.
      change (skipn (S n) (MakeTap Hit :: skipn (S i) taps))
        with (skipn n (skipn (S i) taps)).
      rewrite app_nil_l, skipn_skipn. f_equal. lia. }
    assert (E3 : firstn (S n) (skipn i hits)
                 = Hit :: firstn n (skipn (S i) hits)).
    { clear - Enth. revert i Enth.
      induction hits as [|h hits IHh]; intros [|i] Enth; simpl in *;
        try discriminate.
      - injection Enth as ->. reflexivity.
      - apply IHh in Enth. exact Enth. }
    rewrite E1, E2, E3. simpl. rewrite <- app_assoc. reflexivity.
Qed.

Lemma MakeTap_claimed (Hit : FAcousticRayHit) : Claimed_tap (MakeTap Hit) Hit.
Proof.
  unfold Claimed_tap, MakeTap, FMath.clamp01, FMath.Lerp,
    AcousticConstants.SpeedOfSound, AcousticConstants.DefaultLPFCutoff; simpl.
  repeat split; reflexivity.
Qed.

Lemma ClusterReflections_spec :
  forall (Hits : list FAcousticRayHit) (OutParams : FEarlyReflectionParams),
    length (Taps OutParams) = Z.to_nat MaxTaps ->
    exists (Result : FEarlyReflectionParams) (SortedHits : list FAcousticRayHit),
      ClusterReflections Hits OutParams = Some Result /\
      Permutation SortedHits Hits /\
      StronglySorted nearer_or_equal SortedHits /\
      (ReflectionDensity Result
       == FMath.clamp01 (inject_Z (Z.of_nat (length Hits)) / 20))%Q /\
      ValidTapCount Result = Z.min (Z.of_nat (length Hits)) 8 /\
      length (Taps Result) = 8%nat /\
      (forall i Hit, (i < 8)%nat -> nth_error SortedHits i = Some Hit ->
         exists Tap, nth_error (Taps Result) i = Some Tap /\ Claimed_tap Tap Hit) /\
      (forall i Tap, (length Hits <= i)%nat -> nth_error (Taps Result) i = Some Tap ->
         Tap_bIsValid Tap = false) /\
      (Hits = [] ->
       ValidTapCount Result = 0 /\ ReflectionDensity Result = 0%Q /\
       Forall (fun Tap => Tap_bIsValid Tap = false) (Taps Result)).
Proof.
  intros Hits OutParams Hlen.
  change (Z.to_nat MaxTaps) with 8%nat in Hlen.
  unfold ClusterReflections.
  destruct (Z.of_nat (length Hits) =? 0) eqn:E0.
  - (* no hit *)
    apply Z.eqb_eq in E0. destruct Hits; [|simpl in E0; lia].
    eexists; exists []. split; [reflexivity|]. simpl.
    split; [constructor|]. split; [constructor|]. split; [reflexivity|].
    split; [reflexivity|]. split; [rewrite length_map; exact Hlen|].
    split; [intros i Hit _ Hn; destruct i; discriminate|].
    assert (Hall : Forall (fun Tap => Tap_bIsValid Tap = false)
                     (map (fun _ : FReflectionTap => FReflectionTap_default)
                        (Taps OutParams))).
    { apply Forall_forall. intros t Ht. apply in_map_iff in Ht.
      destruct Ht as (? & <- & _). reflexivity. }
    split.
    + intros i Tap _ Hn. apply nth_error_In in Hn.
      rewrite Forall_forall in Hall. apply Hall. exact Hn.
    + intros _. repeat split. exact Hall.
  - set (Sorted := TArray_Sort (fun A B => FMath.Qltb (Distance A) (Distance B)) Hits).
    assert (Hperm : Permutation Sorted Hits) by apply TArray_Sort_perm.
    assert (Hsl : length Sorted = length Hits)
      by (apply Permutation_length; exact Hperm).
    apply Z.eqb_neq in E0.
    set (NumTaps := Z.min (Z.of_nat (length Sorted)) MaxTaps).
    set (taps0 := Taps (ER_Reset OutParams)).
    assert (Hl0 : length taps0 = 8%nat).
    { unfold taps0. simpl. rewrite length_map. exact Hlen. }
    assert (Hn8 : (Z.to_nat NumTaps <= 8)%nat) by (unfold NumTaps, MaxTaps; lia).
    assert (HnS : (Z.to_nat NumTaps <= length Sorted)%nat) by (unfold NumTaps; lia).
    destruct (TapLoop_spec (Z.to_nat NumTaps) 0 Sorted taps0 0%Q) as [total E];
      [simpl; lia | simpl; lia |].
    rewrite E. simpl firstn. simpl skipn. rewrite app_nil_l.
    eexists; exists Sorted. split; [reflexivity|]. simpl.
    split; [exact Hperm|]. split; [apply SortedHits_ascending|].
    split; [reflexivity|].
    split; [unfold NumTaps, MaxTaps; rewrite Hsl; reflexivity|].
    assert (Hfl : length (firstn (Z.to_nat NumTaps) Sorted) = Z.to_nat NumTaps)
      by (apply firstn_length_le; exact HnS).
    split.
    { rewrite length_app, length_map, Hfl, length_skipn, Hl0. lia. }
    assert (Hdef : forall t, In t (skipn (Z.to_nat NumTaps) taps0) ->
                             Tap_bIsValid t = false).
    { intros t Ht.
      assert (Hin : In t taps0).
      { rewrite <- (firstn_skipn (Z.to_nat NumTaps) taps0).
        apply in_or_app. right. exact Ht. }
      unfold taps0 in Hin. simpl in Hin.
      apply in_map_iff in Hin. destruct Hin as (? & <- & _). reflexivity. }
    split; [|split].
    + intros i Hit Hi Hn.
      assert (HiS : (i < length Sorted)%nat) by (apply nth_error_Some; congruence).
      assert (HiN : (i < Z.to_nat NumTaps)%nat) by (unfold NumTaps, MaxTaps; lia).
      exists (MakeTap Hit). split; [|apply MakeTap_claimed].
      rewrite nth_error_app1 by (rewrite length_map, Hfl; exact HiN).
      rewrite nth_error_map, nth_error_firstn.
      apply Nat.ltb_lt in HiN. rewrite HiN, Hn. reflexivity.
    + intros i Tap Hi Hn.
      rewrite nth_error_app2 in Hn by (rewrite length_map, Hfl; lia).
      apply nth_error_In in Hn. apply Hdef. exact Hn.
    + intros ->. simpl in E0. lia.
Qed.

(** C6.  Clustering a list of hits into a parameter block with its eight
    taps: the density is clamp01(hitCount / 20); the valid taps are the
    min(hitCount, 8) nearest hits in ascending distance order, each with
    delay (distance / 34300) * 1000, gain
    clamp01((1 / max(distance / 100, 1)) * (1 - averageAbsorption) * 0.5)
    and cutoff interpolated from 20000 to 3000 by the high-band absorption;
    the remaining taps are invalid; with no hit the count and the density
    are 0 and every tap is invalid. *)
Theorem C6_cluster_reflections :
  forall (Hits : list FAcousticRayHit) (OutParams : FEarlyReflectionParams),
    length (Taps OutParams) = Z.to_nat MaxTaps ->
    exists (Result : FEarlyReflectionParams) (SortedHits : list FAcousticRayHit),
      ClusterReflections Hits OutParams = Some Result /\
      Permutation SortedHits Hits /\
      StronglySorted nearer_or_equal SortedHits /\
      (ReflectionDensity Result
       == FMath.clamp01 (inject_Z (Z.of_nat (length Hits)) / 20))%Q /\
      ValidTapCount Result = Z.min (Z.of_nat (length Hits)) 8 /\
      length (Taps Result) = 8%nat /\
      (forall i Hit, (i < 8)%nat -> nth_error SortedHits i = Some Hit ->
         exists Tap, nth_error (Taps Result) i = Some Tap /\ Claimed_tap Tap Hit) /\
      (forall i Tap, (length Hits <= i)%nat -> nth_error (Taps Result) i = Some Tap ->
         Tap_bIsValid Tap = false) /\
      (Hits = [] ->
       ValidTapCount Result = 0 /\ ReflectionDensity Result = 0%Q /\
       Forall (fun Tap => Tap_bIsValid Tap = false) (Taps Result)).
Proof. exact ClusterReflections_spec. Qed.

Lemma C6_cluster_reflections_witness :
  exists (Result : FEarlyReflectionParams) (SortedHits : list FAcousticRayHit),
    ClusterReflections hits_sample FEarlyReflectionParams_new = Some Result /\
    Permutation SortedHits hits_sample /\
    StronglySorted nearer_or_equal SortedHits /\
    (ReflectionDensity Result
     == FMath.clamp01 (inject_Z (Z.of_nat (length hits_sample)) / 20))%Q /\
    ValidTapCount Result = Z.min (Z.of_nat (length hits_sample)) 8 /\
    length (Taps Result) = 8%nat /\
    (forall i Hit, (i < 8)%nat -> nth_error SortedHits i = Some Hit ->
       exists Tap, nth_error (Taps Result) i = Some Tap /\ Claimed_tap Tap Hit) /\
    (forall i Tap, (length hits_sample <= i)%nat ->
       nth_error (Taps Result) i = Some Tap -> Tap_bIsValid Tap = false) /\
    (hits_sample = [] ->
     ValidTapCount Result = 0 /\ ReflectionDensity Result = 0%Q /\
     Forall (fun Tap => Tap_bIsValid Tap = false) (Taps Result)).
Proof.
  apply (C6_cluster_reflections hits_sample FEarlyReflectionParams_new).
  reflexivity.
Defined.

(* ------------------------------------------------------------------ *)
(** ** Portal state *)

Module PortalFacts.
Import Portal.
Local Open Scope Q_scope.

Lemma Inv_Constructed tt : Inv (Constructed tt).
Proof. reflexivity. Qed.

Lemma Inv_step p o : Inv p -> Inv (step p o).
Proof.
  unfold Inv. intros H. destruct o as [b|x|dt]; simpl.
  - unfold SetOpen. destruct (FMath.Qltb 0 (TransitionTime p)), b; reflexivity.
  - reflexivity.
  - unfold Tick, UpdateTransition.
    destruct (FMath.IsNearlyEqual _ _ _); [exact H|].
    destruct (FMath.Qltb (Openness p) (TargetOpenness p)); exact H.
Qed.

Lemma Inv_run ops : forall p, Inv p -> Inv (run ops p).
Proof.
  unfold run. induction ops as [|o ops IH]; intros p H; simpl; [exact H|].
  apply IH. apply Inv_step. exact H.
Qed.

Lemma Inv_TargetView p : Inv p <-> TargetView p.
Proof.
  unfold Inv, TargetView. rewrite <- FMathFacts.Qltb_lt.
  destruct (bIsOpen p), (FMath.Qltb (1 # 2) (TargetOpenness p));
    split; intros H; try reflexivity; try discriminate;
    try (split; intros; congruence);
    try (destruct H as [H1 H2]; first [discriminate (H1 eq_refl)
                                      | discriminate (H2 eq_refl)]).
Qed.

(** [SetOpen] and [SetOpenness] establish the invariant from any state. *)
Lemma Inv_set p o : IsSet o = true -> Inv (step p o).
Proof.
  unfold Inv. destruct o as [b|x|dt]; intros H; simpl.
  - unfold SetOpen. destruct (FMath.Qltb 0 (TransitionTime p)), b; reflexivity.
  - reflexivity.
  - discriminate H.
Qed.

Lemma Inv_run_set ops : forall p, existsb IsSet ops = true -> Inv (run ops p).
Proof.
  induction ops as [|o ops IH]; intros p H; [discriminate H|].
  cbn [existsb] in H. change (run (o :: ops) p) with (run ops (step p o)).
  destruct (IsSet o) eqn:E.
  - apply Inv_run. apply Inv_set. exact E.
  - apply IH. exact H.
Qed.

(** Ticks alone leave the boolean and the target as they are. *)
Lemma run_ticks ops :
  forall p, existsb IsSet ops = false ->
    bIsOpen (run ops p) = bIsOpen p /\
    TargetOpenness (run ops p) = TargetOpenness p.
Proof.
  induction ops as [|o ops IH]; intros p H; [split; reflexivity|].
  cbn [existsb] in H. apply orb_false_iff in H. destruct H as [Ho Hr].
  change (run (o :: ops) p) with (run ops (step p o)).
  destruct (IH (step p o) Hr) as [-> ->].
  destruct o as [b|x|dt]; try discriminate Ho.
  cbn [step]. unfold Tick, UpdateTransition.
  destruct (FMath.IsNearlyEqual _ _ _); [split; reflexivity|].
  destruct (FMath.Qltb (Openness p) (TargetOpenness p)); split; reflexivity.
Qed.

End PortalFacts.

(** C8, as stated, fails.  A freshly constructed portal (transition time
    0.3 s) that receives [SetOpen(false)] has [bIsOpen = false] while its
    openness is still 1. *)
Lemma C8_counterexample :
  let p := Portal.run [Portal.OpSetOpen false] (Portal.Constructed (3 # 10)) in
  Portal.bIsOpen p = false /\ (Portal.Openness p == 1)%Q /\
  ~ (Portal.bIsOpen p = true <-> (1 # 2 < Portal.Openness p)%Q).
Proof.
  cbv zeta. split; [reflexivity|]. split; [reflexivity|].
  intros [_ H]. discriminate H. reflexivity.
Qed.

(** C8, amended.  After any sequence of SetOpen, SetOpenness and
    transition ticks, from any portal state, in particular from a portal
    as a level places it ([bIsOpen] and [Openness] as configured on the
    instance, [TargetOpenness] 1).  Until the first SetOpen or SetOpenness,
    bIsOpen and the target openness are what they were at the start: ticks
    change neither, so a portal placed closed keeps bIsOpen false against
    a target of 1.  Once SetOpen or SetOpenness has been called, or when
    bIsOpen was the view of the target at the start (for a placed portal:
    exactly when it was placed open), bIsOpen is true exactly when the
    target openness exceeds 0.5; hence it is the view of the openness
    itself whenever the transition is at rest (openness equal to its
    target).  From any state, bIsOpen is the view of the openness right
    after SetOpenness, and right after SetOpen when the transition time is
    not positive. *)
Theorem C8_portal_open_view :
  forall (p0 : Portal.AAcousticPortalVolume) (ops : list Portal.Op),
    let p := Portal.run ops p0 in
    (existsb Portal.IsSet ops = false ->
     Portal.bIsOpen p = Portal.bIsOpen p0 /\
     Portal.TargetOpenness p = Portal.TargetOpenness p0) /\
    (Portal.TargetView p0 \/ existsb Portal.IsSet ops = true ->
     Portal.TargetView p /\
     ((Portal.Openness p == Portal.TargetOpenness p)%Q ->
      (Portal.bIsOpen p = true <-> (1 # 2 < Portal.Openness p)%Q))) /\
    (Portal.Placed p0 -> (Portal.TargetView p0 <-> Portal.bIsOpen p0 = true)) /\
    (forall x, let p' := Portal.SetOpenness x p in
       Portal.bIsOpen p' = true <-> (1 # 2 < Portal.Openness p')%Q) /\
    (forall b, (Portal.TransitionTime p <= 0)%Q ->
       let p' := Portal.SetOpen b p in
       Portal.bIsOpen p' = true <-> (1 # 2 < Portal.Openness p')%Q).
Proof.
  intros p0 ops p.
  split; [|split; [|split; [|split]]].
  - intros Hticks. apply PortalFacts.run_ticks. exact Hticks.
  - intros Hstart.
    assert (HI : Portal.Inv p).
    { destruct Hstart as [Hview|Hset].
      - apply PortalFacts.Inv_run. apply PortalFacts.Inv_TargetView. exact Hview.
      - apply PortalFacts.Inv_run_set. exact Hset. }
    split; [apply PortalFacts.Inv_TargetView; exact HI|].
    unfold Portal.Inv in HI.
    intros Heq. rewrite HI, Heq. apply FMathFacts.Qltb_lt.
  - unfold Portal.Placed, Portal.TargetView. intros Hplaced.
    assert (H : (1 # 2 < Portal.TargetOpenness p0)%Q)
      by (rewrite Hplaced; reflexivity).
    split; [intros Hview; apply Hview; exact H
          | intros Hopen; split; intros _; assumption].
  - intros x p'. subst p'. simpl. apply FMathFacts.Qltb_lt.
  - intros b Htt p'. subst p'. unfold Portal.SetOpen.
    apply FMathFacts.Qltb_ge in Htt. rewrite Htt.
    destruct b; simpl; split; intros H; try reflexivity; discriminate.
Qed.

Lemma C8_portal_open_view_witness :
  let p := Portal.run [Portal.OpTick (1 # 10); Portal.OpSetOpen true;
                       Portal.OpTick (1 # 10)]
             (Portal.PlacedClosed (3 # 10)) in
  Portal.bIsOpen p = true <-> (1 # 2 < Portal.TargetOpenness p)%Q.
Proof.
  pose proof (C8_portal_open_view (Portal.PlacedClosed (3 # 10))
                [Portal.OpTick (1 # 10); Portal.OpSetOpen true;
                 Portal.OpTick (1 # 10)]) as H.
  cbv zeta in H. destruct H as (_ & H & _).
  destruct H as [H _]; [right; reflexivity|]. exact H.
Defined.

(* ------------------------------------------------------------------ *)
(** ** Source registration *)



Lemma TMap_Find_None_iff {V} k (m : list (Z * V)) :
  TMap_Find k m = None <-> ~ In k (map fst m).
Proof.
  induction m as [|[k' v] m IH]; simpl; [tauto|].
  destruct (k' =? k) eqn:E.
  - apply Z.eqb_eq in E. split; [discriminate | intros H; exfalso; auto].
  - apply Z.eqb_neq in E. rewrite IH. tauto.
Qed.


Lemma RegisterSource_new h obj s :
  RegistryInv s -> NextSourceId s < INT32_MAX ->
  FindRegistered h (RegisteredSources s) = None ->
  let r := RegisterSource (Some (h, obj)) s in
  snd r = NextSourceId s /\
  NextSourceId (fst r) = NextSourceId s + 1 /\
  (exists e, RegisteredSources (fst r) = RegisteredSources s ++ [(NextSourceId s, e)]
             /\ SourceComponent e = h /\ SourceId e = NextSourceId s) /\
  RegistryInv (fst r).
Proof.
  intros (H1 & Hnd & Hall) Hmax Hfind. unfold RegisterSource. rewrite Hfind. simpl.
  assert (Hfresh : ~ In (NextSourceId s) (map fst (RegisteredSources s))).
  { intros Hin. apply in_map_iff in Hin. destruct Hin as (p & Hp & Hin).
    rewrite Forall_forall in Hall. specialize (Hall p Hin). lia. }
  assert (Hnext : add32 (NextSourceId s) 1 = NextSourceId s + 1).
  { apply add32_small. unfold is_int32, INT32_MIN, INT32_MAX in *. lia. }
  unfold TMap_Add. apply TMap_Find_None_iff in Hfresh. rewrite Hfresh.
  rewrite Hnext.
  split; [reflexivity|]. split; [reflexivity|]. split.
  - eexists. split; [reflexivity|]. split; reflexivity.
  - unfold RegistryInv. simpl. split; [lia|]. split.
    + rewrite map_app. simpl.
      apply TMap_Find_None_iff in Hfresh.
      apply Permutation_NoDup with (l := NextSourceId s :: map fst (RegisteredSources s)).
      * apply Permutation_cons_append.
      * constructor; assumption.
    + apply Forall_app. split.
      * eapply Forall_impl; [|exact Hall]. simpl. intros; lia.
      * constructor; [simpl; lia | constructor].
Qed.

Lemma RegisterSource_not_new Source s :
  is_new_registration Source s = false -> fst (RegisterSource Source s) = s.
Proof.
  unfold is_new_registration, RegisterSource.
  destruct Source as [[h obj]|]; [|reflexivity].
  destruct (FindRegistered h (RegisteredSources s)); [reflexivity | discriminate].
Qed.





Lemma RegistryInv_init cfg : RegistryInv (Engine_init cfg).
Proof. unfold RegistryInv. simpl. split; [lia|]. split; constructor. Qed.



(* ------------------------------------------------------------------ *)
(** ** Effective LOD and the concurrency caps *)

(** C2, evaluated where the code departs from it.  With both caps at 1 (the
    minimum of their declared ranges) and a Hero and an Advanced source
    next to the listener, the pass grants Hero to the first and Advanced to
    the second: one source at Hero, within its cap, but two at Advanced or
    Hero against MaxAdvancedSources = 1. *)
Theorem C2_advanced_cap_exceeded :
  SettingsInRange settings_tight /\
  let s := UpdateSourcePriorities settings_tight world_two_sources
             engine_two_sources in
  map (fun p => EffectiveLOD (snd p)) (RegisteredSources s)
    = [LOD_Hero; LOD_Advanced] /\
  count_LOD is_Hero (RegisteredSources s) = 1 /\
  count_LOD is_Advanced_or_Hero (RegisteredSources s) = 2 /\
  MaxHeroSources settings_tight = 1 /\
  MaxAdvancedSources settings_tight = 1 /\
  ~ (count_LOD is_Advanced_or_Hero (RegisteredSources s)
     <= MaxAdvancedSources settings_tight).
Proof.
  split.
  - unfold SettingsInRange. simpl. lia.
  - cbv zeta. repeat split; try (vm_compute; reflexivity).
    vm_compute. intros H. apply H. reflexivity.
Qed.

(* ------------------------------------------------------------------ *)
(** ** The ray budget *)

Lemma TMap_Set_keys {V} k (v : V) m : map fst (TMap_Set k v m) = map fst m.
Proof.
  induction m as [|[k' v'] m IH]; simpl; [reflexivity|].
  destruct (k' =? k); simpl; [reflexivity | f_equal; exact IH].
Qed.

Lemma TMap_Find_In {V} k (v : V) m : TMap_Find k m = Some v -> In (k, v) m.
Proof.
  induction m as [|[k' v'] m IH]; simpl; [discriminate|].
  destruct (k' =? k) eqn:E.
  - apply Z.eqb_eq in E. intros [= ->]. left. congruence.
  - intros H. right. apply IH. exact H.
Qed.

Lemma TMap_Set_Forall {V} (P : Z * V -> Prop) k (v : V) m :
  (forall k', P (k', v)) -> Forall P m -> Forall P (TMap_Set k v m).
Proof.
  intros Hv. induction 1 as [|[k' v'] m Hp Hall IH]; simpl; [constructor|].
  destruct (k' =? k); constructor; auto.
Qed.

Lemma ScoreEntry_shape w p :
  fst (fst (ScoreEntry w p)) = fst p /\
  (EntryOk (snd p) -> EntryOk (snd (fst (ScoreEntry w p)))).
Proof.
  destruct p as [k e]. unfold ScoreEntry.
  destruct (Component w (SourceComponent e)); simpl; split; auto.
Qed.

Lemma AssignLOD_shape cfg w st SortedPair :
  map fst (fst (fst (AssignLOD cfg w st SortedPair))) = map fst (fst (fst st)) /\
  (Forall (fun p => EntryOk (snd p)) (fst (fst st)) ->
   Forall (fun p => EntryOk (snd p)) (fst (fst (AssignLOD cfg w st SortedPair)))).
Proof.
  destruct st as [[Sources a] h]. unfold AssignLOD. simpl.
  destruct (TMap_Find (fst SortedPair) Sources) as [e|] eqn:Ef; [|simpl; auto].
  destruct (Component w (SourceComponent e)); [|simpl; auto].
  destruct (BudgetDowngrade cfg _ a h) as [[l a'] h']. simpl.
  split; [apply TMap_Set_keys|].
  intros Hall. apply TMap_Set_Forall; [|exact Hall].
  intros k'. simpl. apply TMap_Find_In in Ef.
  rewrite Forall_forall in Hall. exact (Hall _ Ef).
Qed.

Lemma UpdateSourcePriorities_RegistryOk cfg w s :
  RegistryOk (RegisteredSources s) ->
  RegistryOk (RegisteredSources (UpdateSourcePriorities cfg w s)) /\
  CurrentBudget (UpdateSourcePriorities cfg w s) = CurrentBudget s /\
  RaysCast (UpdateSourcePriorities cfg w s) = RaysCast s /\
  NumListeners (UpdateSourcePriorities cfg w s) = NumListeners s /\
  MaterialMappings (UpdateSourcePriorities cfg w s) = MaterialMappings s /\
  OcclusionUpdateAccumulator (UpdateSourcePriorities cfg w s)
    = OcclusionUpdateAccumulator s /\
  ReflectionUpdateAccumulator (UpdateSourcePriorities cfg w s)
    = ReflectionUpdateAccumulator s /\
  ZoneUpdateAccumulator (UpdateSourcePriorities cfg w s) = ZoneUpdateAccumulator s.
Proof.
  intros [Hnd Hall]. unfold UpdateSourcePriorities.
  destruct (NumListeners s =? 0); [repeat split; assumption|].
  set (visited := map (ScoreEntry w) (RegisteredSources s)).
  set (Sorted := TArray_Sort _ _).
  assert (H0 : map fst (map fst visited) = map fst (RegisteredSources s) /\
               Forall (fun p => EntryOk (snd p)) (map fst visited)).
  { unfold visited. split.
    - rewrite !map_map. apply map_ext. intros p. apply ScoreEntry_shape.
    - apply Forall_forall. intros p Hin. apply in_map_iff in Hin.
      destruct Hin as (q & <- & Hq). apply in_map_iff in Hq.
      destruct Hq as (r & <- & Hr). apply ScoreEntry_shape.
      rewrite Forall_forall in Hall. exact (Hall _ Hr). }
  assert (Hfold : forall l st,
             map fst (fst (fst st)) = map fst (RegisteredSources s) /\
             Forall (fun p => EntryOk (snd p)) (fst (fst st)) ->
             map fst (fst (fst (fold_left (AssignLOD cfg w) l st)))
               = map fst (RegisteredSources s) /\
             Forall (fun p => EntryOk (snd p))
               (fst (fst (fold_left (AssignLOD cfg w) l st)))).
  { induction l as [|x l IH]; intros st Hst; simpl; [exact Hst|].
    apply IH. destruct (AssignLOD_shape cfg w st x) as [Hk Hf].
    destruct Hst as [Hk0 Hf0]. split; [congruence | auto]. }
  specialize (Hfold Sorted (map fst visited, 0, 0) H0).
  destruct (fold_left (AssignLOD cfg w) Sorted (map fst visited, 0, 0))
    as [[Sources a] h]. simpl in Hfold. simpl.
  destruct Hfold as [Hk Hf].
  repeat split; try reflexivity; [rewrite Hk; exact Hnd | exact Hf].
Qed.

Lemma OcclusionLoop_cons cfg maps w now Key Entry rest b log :
  OcclusionLoop cfg maps w now ((Key, Entry) :: rest) b log =
  if LOD_eqb (EffectiveLOD Entry) LOD_Off
  then cons_result Key Entry (OcclusionLoop cfg maps w now rest b log)
  else if TotalRaysUsed b >=? TotalRaysBudget b then ((Key, Entry) :: rest, b, log)
  else
    match Component w (SourceComponent Entry) with
    | None => cons_result Key Entry (OcclusionLoop cfg maps w now rest b log)
    | Some _ =>
        if FMath.Qltb (now - LastOcclusionUpdateTime Entry)
             (inject_Z (OcclusionCacheFrames cfg) / 60)
           && bIsValid (CurrentParams Entry)
        then cons_result Key Entry (OcclusionLoop cfg maps w now rest b log)
        else cons_result Key (OcclusionUpdate cfg maps w now Entry)
               (OcclusionLoop cfg maps w now rest (count_occlusion_ray b)
                  (log ++ [OcclusionRay Key]))
    end.
Proof.
  cbn [OcclusionLoop]. unfold cons_result.
  destruct (LOD_eqb (EffectiveLOD Entry) LOD_Off).
  { destruct (OcclusionLoop cfg maps w now rest b log) as [[? ?] ?]. reflexivity. }
  destruct (TotalRaysUsed b >=? TotalRaysBudget b); [reflexivity|].
  destruct (Component w (SourceComponent Entry)).
  - destruct (FMath.Qltb _ _ && bIsValid (CurrentParams Entry)).
    + destruct (OcclusionLoop cfg maps w now rest b log) as [[? ?] ?]. reflexivity.
    + destruct (OcclusionLoop cfg maps w now rest _ _) as [[? ?] ?]. reflexivity.
  - destruct (OcclusionLoop cfg maps w now rest b log) as [[? ?] ?]. reflexivity.
Qed.

(** Once the budget is used up the occlusion pass changes nothing. *)
Lemma OcclusionLoop_exhausted cfg maps w now Sources :
  forall b log,
    TotalRaysBudget b <= TotalRaysUsed b ->
    OcclusionLoop cfg maps w now Sources b log = (Sources, b, log).
Proof.
  induction Sources as [|[k e] rest IH]; intros b log Hb; [reflexivity|].
  rewrite OcclusionLoop_cons.
  destruct (LOD_eqb (EffectiveLOD e) LOD_Off).
  - rewrite IH by exact Hb. reflexivity.
  - assert (E : (TotalRaysUsed b >=? TotalRaysBudget b) = true)
      by (apply Z.geb_le; exact Hb).
    rewrite E. reflexivity.
Qed.

Lemma occlusion_rays_app log l :
  occlusion_rays (log ++ l) = occlusion_rays log + occlusion_rays l.
Proof. unfold occlusion_rays. rewrite filter_app, length_app. lia. Qed.

Lemma reflection_rays_for_app id log l :
  reflection_rays_for id (log ++ l)
  = reflection_rays_for id log + reflection_rays_for id l.
Proof. unfold reflection_rays_for. rewrite filter_app, length_app. lia. Qed.

Lemma same_shape_refl p : same_shape p p.
Proof. unfold same_shape. auto. Qed.

Lemma OcclusionUpdate_shape cfg maps w now k e :
  same_shape (k, e) (k, OcclusionUpdate cfg maps w now e).
Proof.
  unfold same_shape, OcclusionUpdate.
  destruct (TraceOcclusion _ _ _ _) as [occ hit]. simpl. auto.
Qed.

Lemma OcclusionLoop_spec cfg maps w now Sources :
  forall b log,
    BudgetOk b log -> TotalRaysBudget b <= INT32_MAX ->
    let r := OcclusionLoop cfg maps w now Sources b log in
    BudgetOk (snd (fst r)) (snd r) /\
    TotalRaysBudget (snd (fst r)) = TotalRaysBudget b /\
    ReflectionRays (snd (fst r)) = ReflectionRays b /\
    Forall2 same_shape Sources (fst (fst r)) /\
    exists l, snd r = log ++ l /\ Forall (fun x => is_occlusion_ray x = true) l.
Proof.
  induction Sources as [|[k e] rest IH]; intros b log Hok Hmax; cbv zeta.
  - simpl. repeat split; try apply Hok. { constructor. }
    exists []. rewrite app_nil_r. split; [reflexivity | constructor].
  - rewrite OcclusionLoop_cons.
    assert (Hkeep :
      let r := cons_result k e (OcclusionLoop cfg maps w now rest b log) in
      BudgetOk (snd (fst r)) (snd r) /\
      TotalRaysBudget (snd (fst r)) = TotalRaysBudget b /\
      ReflectionRays (snd (fst r)) = ReflectionRays b /\
      Forall2 same_shape ((k, e) :: rest) (fst (fst r)) /\
      exists l, snd r = log ++ l /\ Forall (fun x => is_occlusion_ray x = true) l).
    { destruct (IH b log Hok Hmax) as (H1 & H2 & H3 & H4 & H5).
      unfold cons_result. cbn [fst snd].
      repeat split; try assumption; try apply H1.
      constructor; [apply same_shape_refl | exact H4]. }
    destruct (LOD_eqb (EffectiveLOD e) LOD_Off); [exact Hkeep|].
    destruct (TotalRaysUsed b >=? TotalRaysBudget b) eqn:Ege.
    { cbn [fst snd]. repeat split; try apply Hok.
      - clear. induction ((k, e) :: rest); constructor;
          [apply same_shape_refl | assumption].
      - exists []. rewrite app_nil_r. split; [reflexivity | constructor]. }
    destruct (Component w (SourceComponent e)); [|exact Hkeep].
    destruct (FMath.Qltb _ _ && bIsValid (CurrentParams e)); [exact Hkeep|].
    assert (Hlt : TotalRaysUsed b < TotalRaysBudget b).
    { destruct (Z.geb_spec (TotalRaysUsed b) (TotalRaysBudget b)); [discriminate|lia]. }
    destruct Hok as (Ho & Hr & Ht & Hle & Hlog & Hocc).
    assert (Hok' : BudgetOk (count_occlusion_ray b) (log ++ [OcclusionRay k])).
    { unfold BudgetOk, count_occlusion_ray. cbn [OcclusionRays ReflectionRays
        TotalRaysUsed TotalRaysBudget].
      rewrite !add32_small
        by (unfold is_int32, INT32_MIN, INT32_MAX in *; lia).
      rewrite length_app, occlusion_rays_app. cbn [length].
      change (occlusion_rays [OcclusionRay k]) with 1. lia. }
    destruct (IH (count_occlusion_ray b) (log ++ [OcclusionRay k]) Hok' Hmax)
      as (H1 & H2 & H3 & H4 & (l & Hl & Hall)).
    unfold cons_result. cbn [fst snd].
    repeat split; try apply H1; try assumption.
    + constructor; [apply OcclusionUpdate_shape | exact H4].
    + exists (OcclusionRay k :: l). rewrite Hl, <- app_assoc. split; [reflexivity|].
      constructor; [reflexivity | exact Hall].
Qed.

Lemma reflection_rays_for_burst id k n :
  reflection_rays_for id (map (ReflectionRay k) (seq 0 n))
  = if k =? id then Z.of_nat n else 0.
Proof.
  unfold reflection_rays_for.
  generalize 0%nat. induction n as [|n IH]; intros start; cbn [seq map filter].
  - destruct (k =? id); reflexivity.
  - cbn [is_reflection_ray_of]. specialize (IH (S start)).
    destruct (k =? id); cbn [length]; lia.
Qed.

Lemma occlusion_rays_burst k n :
  occlusion_rays (map (ReflectionRay k) (seq 0 n)) = 0.
Proof.
  unfold occlusion_rays. generalize 0%nat.
  induction n as [|n IH]; intros start; cbn [seq map filter]; [reflexivity|].
  cbn [is_occlusion_ray]. apply IH.
Qed.

Lemma ReflectionTraces_log w k N :
  map (fun t => ReflectionRay k (fst t)) (ReflectionTraces w N)
  = map (ReflectionRay k) (seq 0 (Z.to_nat N)).
Proof. unfold ReflectionTraces. rewrite map_map. reflexivity. Qed.

Lemma ER_Reset_length p : length (Taps (ER_Reset p)) = length (Taps p).
Proof. simpl. apply length_map. Qed.

(** One source in the reflection pass: nothing is cast, or the whole ray
    count of its LOD is cast and fits in what is left of the budget. *)
Lemma ReflectionStep_spec cfg maps w now k e b log :
  0 <= AdvancedReflectionRays cfg -> 0 <= HeroReflectionRays cfg ->
  TotalRaysBudget b + AdvancedReflectionRays cfg <= INT32_MAX ->
  TotalRaysBudget b + HeroReflectionRays cfg <= INT32_MAX ->
  BudgetOk b log -> EntryOk e ->
  exists e' b' log',
    ReflectionStep cfg maps w now k e b log = Some (e', b', log') /\
    same_shape (k, e) (k, e') /\ EntryOk e' /\
    TotalRaysBudget b' = TotalRaysBudget b /\
    BudgetOk b' log' /\
    ((b' = b /\ log' = log) \/
     (let N := NumRaysFor cfg (EffectiveLOD e) in
      TotalRaysUsed b + N <= TotalRaysBudget b /\
      TotalRaysUsed b' = TotalRaysUsed b + N /\
      log' = log ++ map (ReflectionRay k) (seq 0 (Z.to_nat N)))).
Proof.
  intros HA HH HmA HmH Hok He. unfold ReflectionStep.
  rewrite ReflectionTraces_log.
  set (N := NumRaysFor cfg (EffectiveLOD e)).
  assert (HN : 0 <= N /\ TotalRaysBudget b + N <= INT32_MAX).
  { unfold N, NumRaysFor. destruct (LOD_eqb (EffectiveLOD e) LOD_Hero); lia. }
  destruct (negb (LOD_eqb (EffectiveLOD e) LOD_Advanced)
            && negb (LOD_eqb (EffectiveLOD e) LOD_Hero)).
  { destruct (LOD_eqb (EffectiveLOD e) LOD_Basic).
    - do 3 eexists. split; [reflexivity|].
      assert (He' : EntryOk
                (set_CurrentParams
                   (set_reverb (ZoneDefaultReverbSend w)
                      (ER_Reset (EarlyReflections (CurrentParams e)))
                      (CurrentParams e)) e)).
      { unfold EntryOk in *. cbn [set_CurrentParams set_reverb CurrentParams
          EarlyReflections]. rewrite ER_Reset_length. exact He. }
      split; [unfold same_shape; simpl; auto|].
      split; [exact He'|]. split; [reflexivity|]. split; [exact Hok|].
      left. split; reflexivity.
    - do 3 eexists. split; [reflexivity|].
      split; [apply same_shape_refl|]. split; [exact He|].
      split; [reflexivity|]. split; [exact Hok|]. left. split; reflexivity. }
  destruct Hok as (Ho & Hr & Ht & Hle & Hlog & Hocc).
  assert (Hadd : add32 (TotalRaysUsed b) N = TotalRaysUsed b + N).
  { apply add32_small. unfold is_int32, INT32_MIN, INT32_MAX in *. lia. }
  rewrite Hadd.
  destruct (TotalRaysUsed b + N >? TotalRaysBudget b) eqn:Egt.
  { do 3 eexists. split; [reflexivity|].
    split; [apply same_shape_refl|]. split; [exact He|].
    split; [reflexivity|]. split; [unfold BudgetOk; auto 10|].
    left. split; reflexivity. }
  assert (Hfit : TotalRaysUsed b + N <= TotalRaysBudget b).
  { destruct (Z.gtb_spec (TotalRaysUsed b + N) (TotalRaysBudget b));
      [discriminate | lia]. }
  destruct (Component w (SourceComponent e)).
  2:{ do 3 eexists. split; [reflexivity|].
      split; [apply same_shape_refl|]. split; [exact He|].
      split; [reflexivity|]. split; [unfold BudgetOk; auto 10|].
      left. split; reflexivity. }
  destruct (ClusterReflections_spec (SampleReflections maps w N)
              (EarlyReflections (CurrentParams e)) He)
    as (ER & Sorted & Hcl & _ & _ & _ & _ & Hlen & _).
  rewrite Hcl.
  do 3 eexists. split; [reflexivity|].
  split; [unfold same_shape; simpl; split; [reflexivity|];
          split; [reflexivity|]; split; [reflexivity|];
          intros _; unfold EntryOk; simpl; exact Hlen|].
  split; [unfold EntryOk; simpl; exact Hlen|].
  split; [reflexivity|].
  assert (HaddR : add32 (ReflectionRays b) N = ReflectionRays b + N).
  { apply add32_small. unfold is_int32, INT32_MIN, INT32_MAX in *. lia. }
  split.
  - unfold BudgetOk, count_reflection_rays.
    cbn [OcclusionRays ReflectionRays TotalRaysUsed TotalRaysBudget].
    rewrite Hadd, HaddR, length_app, length_map, length_seq,
      occlusion_rays_app, occlusion_rays_burst.
    repeat split; lia.
  - right. cbv zeta. fold N. split; [exact Hfit|]. split; [|reflexivity].
    unfold count_reflection_rays. cbn [TotalRaysUsed]. exact Hadd.
Qed.

Lemma ReflectionLoop_spec cfg maps w now Sources :
  0 <= AdvancedReflectionRays cfg -> 0 <= HeroReflectionRays cfg ->
  forall b log,
    TotalRaysBudget b + AdvancedReflectionRays cfg <= INT32_MAX ->
    TotalRaysBudget b + HeroReflectionRays cfg <= INT32_MAX ->
    RegistryOk Sources -> BudgetOk b log ->
    exists Sources' b' log',
      ReflectionLoop cfg maps w now Sources b log = Some (Sources', b', log') /\
      Forall2 same_shape Sources Sources' /\
      Forall (fun p => EntryOk (snd p)) Sources' /\
      TotalRaysBudget b' = TotalRaysBudget b /\
      BudgetOk b' log' /\
      (forall id, ~ In id (map fst Sources) ->
         reflection_rays_for id log' = reflection_rays_for id log) /\
      (forall k e, In (k, e) Sources ->
         reflection_rays_for k log' = reflection_rays_for k log \/
         reflection_rays_for k log'
         = reflection_rays_for k log + NumRaysFor cfg (EffectiveLOD e)).
Proof.
  intros HA HH.
  induction Sources as [|[k e] rest IH]; intros b log HmA HmH [Hnd Hall] Hok.
  - do 3 eexists. split; [reflexivity|].
    split; [constructor|]. split; [constructor|]. split; [reflexivity|].
    split; [exact Hok|]. split; [reflexivity|]. intros k e [].
  - cbn [ReflectionLoop].
    inversion Hnd as [|? ? Hnin Hnd']; subst.
    inversion Hall as [|? ? He Hall']; subst. cbn [snd] in He.
    destruct (ReflectionStep_spec cfg maps w now k e b log HA HH HmA HmH Hok He)
      as (e1 & b1 & log1 & Hstep & Hshape & He1 & Hb1 & Hok1 & Hcase).
    rewrite Hstep.
    destruct (IH b1 log1) as (S2 & b2 & log2 & Hloop & Hsh2 & Hall2 & Hb2 & Hok2
                              & Hother & Hin);
      [rewrite Hb1; exact HmA | rewrite Hb1; exact HmH
       | split; assumption | exact Hok1 |].
    rewrite Hloop. do 3 eexists. split; [reflexivity|].
    split; [constructor; assumption|].
    split; [constructor; assumption|].
    split; [congruence|]. split; [exact Hok2|].
    assert (Hlog1 : forall id,
               reflection_rays_for id log1
               = reflection_rays_for id log
                 + (if k =? id
                    then (if Z.eq_dec (Z.of_nat (length log1)) (Z.of_nat (length log))
                          then 0 else NumRaysFor cfg (EffectiveLOD e))
                    else 0)).
    { intros id. destruct Hcase as [[-> ->]|(Hfit & Hused & ->)].
      - destruct (Z.eq_dec _ _); [|congruence]. destruct (k =? id); lia.
      - rewrite reflection_rays_for_app, reflection_rays_for_burst.
        destruct (k =? id); [|lia].
        rewrite length_app, length_map, length_seq.
        destruct (Z.eq_dec _ _); lia. }
    split.
    + intros id Hid. cbn [map fst In] in Hid.
      rewrite Hother by tauto. rewrite Hlog1.
      destruct (Z.eqb_spec k id); [exfalso; tauto | lia].
    + intros k' e' [[= <- <-]|Hin'].
      * rewrite (Hother k Hnin), Hlog1, Z.eqb_refl.
        destruct (Z.eq_dec _ _); [left | right]; lia.
      * assert (Hne : k <> k').
        { intros ->. apply Hnin. apply in_map_iff. exists (k', e'). auto. }
        specialize (Hin k' e' Hin'). rewrite (Hlog1 k') in Hin.
        apply Z.eqb_neq in Hne. rewrite Hne in Hin.
        destruct Hin as [Hin|Hin]; [left | right]; lia.
Qed.

Lemma Forall2_same_shape_keys S S' :
  Forall2 same_shape S S' -> map fst S' = map fst S.
Proof.
  induction 1 as [|p p' S S' Hs _ IH]; simpl; [reflexivity|].
  f_equal; [apply Hs | exact IH].
Qed.

Lemma Forall2_same_shape_ok S S' :
  Forall2 same_shape S S' ->
  Forall (fun p => EntryOk (snd p)) S -> Forall (fun p => EntryOk (snd p)) S'.
Proof.
  induction 1 as [|p p' S S' Hs _ IH]; intros Hall; [constructor|].
  inversion Hall; subst. constructor; [apply Hs; assumption | auto].
Qed.

Lemma Forall2_same_shape_In S S' :
  Forall2 same_shape S S' ->
  forall k e', In (k, e') S' ->
    exists e, In (k, e) S /\ EffectiveLOD e' = EffectiveLOD e.
Proof.
  induction 1 as [|p p' S S' Hs _ IH]; intros k e' Hin; [destruct Hin|].
  destruct Hin as [->|Hin].
  - destruct p as [k0 e0]. destruct Hs as (Hk & _ & Hl & _). cbn [fst snd] in *.
    subst k0. exists e0. split; [left; reflexivity | exact Hl].
  - destruct (IH _ _ Hin) as (e & He & Hl). exists e. split; [right|]; assumption.
Qed.

Lemma SettingsInRange_int32 cfg :
  SettingsInRange cfg ->
  0 <= MaxRaysPerFrame cfg /\
  0 <= AdvancedReflectionRays cfg /\ 0 <= HeroReflectionRays cfg /\
  MaxRaysPerFrame cfg <= INT32_MAX /\
  MaxRaysPerFrame cfg + AdvancedReflectionRays cfg <= INT32_MAX /\
  MaxRaysPerFrame cfg + HeroReflectionRays cfg <= INT32_MAX.
Proof. unfold SettingsInRange, INT32_MAX. lia. Qed.

Lemma ProcessOcclusion_inv cfg w now s :
  MaxRaysPerFrame cfg <= INT32_MAX ->
  RegistryOk (RegisteredSources s) ->
  BudgetOk (CurrentBudget s) (RaysCast s) ->
  TotalRaysBudget (CurrentBudget s) = MaxRaysPerFrame cfg ->
  (forall id, reflection_rays_for id (RaysCast s) = 0) ->
  let s' := ProcessOcclusion cfg w now s in
  RegistryOk (RegisteredSources s') /\
  BudgetOk (CurrentBudget s') (RaysCast s') /\
  TotalRaysBudget (CurrentBudget s') = MaxRaysPerFrame cfg /\
  (forall id, reflection_rays_for id (RaysCast s') = 0) /\
  NumListeners s' = NumListeners s /\
  MaterialMappings s' = MaterialMappings s /\
  ReflectionUpdateAccumulator s' = ReflectionUpdateAccumulator s.
Proof.
  intros Hmax Hreg Hok Hb Hno. unfold ProcessOcclusion.
  destruct (NumListeners s =? 0); [cbv zeta; auto 10|].
  pose proof (OcclusionLoop_spec cfg (MaterialMappings s) w now
                (RegisteredSources s) (CurrentBudget s) (RaysCast s) Hok
                ltac:(rewrite Hb; exact Hmax)) as H.
  cbv zeta in H.
  destruct (OcclusionLoop cfg (MaterialMappings s) w now (RegisteredSources s)
              (CurrentBudget s) (RaysCast s)) as [[Sources b] log].
  cbn [fst snd] in H. destruct H as (H1 & H2 & _ & H4 & (l & Hl & Hall)).
  cbv zeta. cbn [set_pass RegisteredSources CurrentBudget RaysCast NumListeners
                 MaterialMappings ReflectionUpdateAccumulator].
  destruct Hreg as [Hnd Hent].
  split.
  { split; [rewrite (Forall2_same_shape_keys _ _ H4); exact Hnd
           | exact (Forall2_same_shape_ok _ _ H4 Hent)]. }
  split; [exact H1|]. split; [congruence|].
  split; [|auto].
  intros id. rewrite Hl, reflection_rays_for_app, Hno.
  unfold reflection_rays_for. clear - Hall.
  induction Hall as [|x l Hx _ IH]; [reflexivity|].
  cbn [filter]. destruct x; [exact IH | discriminate].
Qed.

Lemma ProcessReflections_inv cfg w now s :
  SettingsInRange cfg ->
  RegistryOk (RegisteredSources s) ->
  BudgetOk (CurrentBudget s) (RaysCast s) ->
  TotalRaysBudget (CurrentBudget s) = MaxRaysPerFrame cfg ->
  (forall id, reflection_rays_for id (RaysCast s) = 0) ->
  exists s',
    ProcessReflections cfg w now s = Some s' /\
    RegistryOk (RegisteredSources s') /\
    BudgetOk (CurrentBudget s') (RaysCast s') /\
    TotalRaysBudget (CurrentBudget s') = MaxRaysPerFrame cfg /\
    (forall k e, In (k, e) (RegisteredSources s') ->
       reflection_rays_for k (RaysCast s') = 0 \/
       reflection_rays_for k (RaysCast s') = NumRaysFor cfg (EffectiveLOD e)).
Proof.
  intros Hcfg Hreg Hok Hb Hno. unfold ProcessReflections.
  destruct (NumListeners s =? 0).
  { exists s. split; [reflexivity|]. repeat split; try apply Hreg; try apply Hok;
      try exact Hb. intros k e _. left. apply Hno. }
  destruct (SettingsInRange_int32 cfg Hcfg) as (_ & HA & HH & _ & HmA & HmH).
  destruct (ReflectionLoop_spec cfg (MaterialMappings s) w now
              (RegisteredSources s) HA HH (CurrentBudget s) (RaysCast s)
              ltac:(rewrite Hb; exact HmA) ltac:(rewrite Hb; exact HmH) Hreg Hok)
    as (S' & b' & log' & Hloop & Hsh & Hent & Hb' & Hok' & _ & Hin).
  rewrite Hloop. eexists. split; [reflexivity|].
  cbn [set_pass RegisteredSources CurrentBudget RaysCast].
  split.
  { split; [rewrite (Forall2_same_shape_keys _ _ Hsh); apply Hreg | exact Hent]. }
  split; [exact Hok'|]. split; [congruence|].
  intros k e' Hin'.
  destruct (Forall2_same_shape_In _ _ Hsh k e' Hin') as (e & He & Hl).
  rewrite Hl. specialize (Hin k e He). rewrite Hno in Hin.
  destruct Hin as [Hin|Hin]; [left | right]; lia.
Qed.

Lemma BudgetOk_reset (budget : Z) :
  0 <= budget ->
  BudgetOk {| OcclusionRays := 0; ReflectionRays := 0; TotalRaysUsed := 0;
              TotalRaysBudget := budget |} [].
Proof. intros H. unfold BudgetOk. simpl. repeat split; try lia; reflexivity. Qed.

(** C1.  For settings inside their declared ranges and a registry as the
    engine builds it, every acoustic-update tick ends with TotalRaysUsed at
    most TotalRaysBudget; the counter is the number of rays really cast, the
    occlusion counter the number of occlusion rays; for every source the
    reflection pass cast either no ray or exactly the ray count of the
    source's LOD.  Once used >= budget the occlusion loop changes nothing
    (no further cast), and one reflection step either casts nothing or
    casts the full count, which then fits into the budget that was left. *)
Theorem C1_ray_budget :
  forall cfg w DeltaTime tOcc tRefl s,
    SettingsInRange cfg ->
    RegistryOk (RegisteredSources s) ->
    (exists s',
        ProcessAcousticUpdate cfg w DeltaTime tOcc tRefl s = Some s' /\
        RegistryOk (RegisteredSources s') /\
        TotalRaysBudget (CurrentBudget s') = MaxRaysPerFrame cfg /\
        TotalRaysUsed (CurrentBudget s') <= TotalRaysBudget (CurrentBudget s') /\
        Z.of_nat (length (RaysCast s')) = TotalRaysUsed (CurrentBudget s') /\
        occlusion_rays (RaysCast s') = OcclusionRays (CurrentBudget s') /\
        TotalRaysUsed (CurrentBudget s')
        = OcclusionRays (CurrentBudget s') + ReflectionRays (CurrentBudget s') /\
        (forall k e, In (k, e) (RegisteredSources s') ->
           reflection_rays_for k (RaysCast s') = 0 \/
           reflection_rays_for k (RaysCast s') = NumRaysFor cfg (EffectiveLOD e))) /\
    (forall maps now Sources b log,
        TotalRaysBudget b <= TotalRaysUsed b ->
        OcclusionLoop cfg maps w now Sources b log = (Sources, b, log)) /\
    (forall maps now k e b log,
        BudgetOk b log -> TotalRaysBudget b = MaxRaysPerFrame cfg -> EntryOk e ->
        exists e' b' log',
          ReflectionStep cfg maps w now k e b log = Some (e', b', log') /\
          ((b' = b /\ log' = log) \/
           (let N := NumRaysFor cfg (EffectiveLOD e) in
            TotalRaysUsed b + N <= TotalRaysBudget b /\
            TotalRaysUsed b' = TotalRaysUsed b + N /\
            log' = log ++ map (ReflectionRay k) (seq 0 (Z.to_nat N))))).
Proof.
  intros cfg w dt tOcc tRefl s Hcfg Hreg.
  destruct (SettingsInRange_int32 cfg Hcfg) as (HM & HA & HH & Hmax & HmA & HmH).
  split; [|split].
  - unfold ProcessAcousticUpdate.
    set (s0 := set_accumulators _ _ _ (set_pass _ _ _ s)).
    assert (I0 : RegistryOk (RegisteredSources s0) /\
                 BudgetOk (CurrentBudget s0) (RaysCast s0) /\
                 TotalRaysBudget (CurrentBudget s0) = MaxRaysPerFrame cfg /\
                 (forall id, reflection_rays_for id (RaysCast s0) = 0)).
    { unfold s0. simpl. split; [exact Hreg|]. split; [apply BudgetOk_reset; exact HM|].
      split; reflexivity. }
    clearbody s0. clear s Hreg.
    destruct I0 as (Hreg & Hok & Hb & Hno).
    destruct (UpdateSourcePriorities_RegistryOk cfg w s0 Hreg)
      as (Hreg1 & Eb & Elog & _).
    set (s1 := UpdateSourcePriorities cfg w s0) in *.
    rewrite <- Eb in Hok, Hb. rewrite <- Elog in Hok, Hno.
    clearbody s1. clear s0 Hreg Eb Elog.
    set (s2 := if Qle_bool _ (ZoneUpdateAccumulator s1) then _ else s1).
    assert (I2 : RegistryOk (RegisteredSources s2) /\
                 BudgetOk (CurrentBudget s2) (RaysCast s2) /\
                 TotalRaysBudget (CurrentBudget s2) = MaxRaysPerFrame cfg /\
                 (forall id, reflection_rays_for id (RaysCast s2) = 0)).
    { unfold s2. destruct (Qle_bool _ _); simpl; auto. }
    clearbody s2. clear s1 Hreg1 Hok Hb Hno.
    destruct I2 as (Hreg & Hok & Hb & Hno).
    set (s3 := if Qle_bool _ (OcclusionUpdateAccumulator s2) then _ else s2).
    assert (I3 : RegistryOk (RegisteredSources s3) /\
                 BudgetOk (CurrentBudget s3) (RaysCast s3) /\
                 TotalRaysBudget (CurrentBudget s3) = MaxRaysPerFrame cfg /\
                 (forall id, reflection_rays_for id (RaysCast s3) = 0)).
    { unfold s3. destruct (Qle_bool _ _); [|auto].
      destruct (ProcessOcclusion_inv cfg w tOcc s2 Hmax Hreg Hok Hb Hno)
        as (H1 & H2 & H3 & H4 & _).
      simpl. auto. }
    clearbody s3. clear s2 Hreg Hok Hb Hno.
    destruct I3 as (Hreg & Hok & Hb & Hno).
    destruct (Qle_bool _ (ReflectionUpdateAccumulator s3)).
    + destruct (ProcessReflections_inv cfg w tRefl s3 Hcfg Hreg Hok Hb Hno)
        as (s4 & E & Hreg4 & Hok4 & Hb4 & Hper).
      rewrite E. eexists. split; [reflexivity|].
      cbn [set_accumulators RegisteredSources CurrentBudget RaysCast].
      destruct Hok4 as (Ho & Hr & Ht & Hle & Hlog & Hocc).
      repeat split; try apply Hreg4; assumption.
    + exists s3. split; [reflexivity|].
      destruct Hok as (Ho & Hr & Ht & Hle & Hlog & Hocc).
      repeat split; try apply Hreg; try assumption.
      intros k e _. left. apply Hno.
  - intros maps now Sources b log Hb. apply OcclusionLoop_exhausted. exact Hb.
  - intros maps now k e b log Hok Hb He.
    destruct (ReflectionStep_spec cfg maps w now k e b log HA HH
                ltac:(rewrite Hb; exact HmA) ltac:(rewrite Hb; exact HmH) Hok He)
      as (e' & b' & log' & Hstep & _ & _ & _ & _ & Hcase).
    exists e', b', log'. split; assumption.
Qed.

Lemma C1_ray_budget_witness :
  exists s',
    ProcessAcousticUpdate UAcousticSettings_default world_room 1 10 10
      engine_two_sources = Some s' /\
    RegistryOk (RegisteredSources s') /\
    TotalRaysBudget (CurrentBudget s') = MaxRaysPerFrame UAcousticSettings_default /\
    TotalRaysUsed (CurrentBudget s') <= TotalRaysBudget (CurrentBudget s') /\
    Z.of_nat (length (RaysCast s')) = TotalRaysUsed (CurrentBudget s') /\
    occlusion_rays (RaysCast s') = OcclusionRays (CurrentBudget s') /\
    TotalRaysUsed (CurrentBudget s')
    = OcclusionRays (CurrentBudget s') + ReflectionRays (CurrentBudget s') /\
    (forall k e, In (k, e) (RegisteredSources s') ->
       reflection_rays_for k (RaysCast s') = 0 \/
       reflection_rays_for k (RaysCast s')
       = NumRaysFor UAcousticSettings_default (EffectiveLOD e)).
Proof.
  apply (C1_ray_budget UAcousticSettings_default world_room 1 10 10
           engine_two_sources).
  - unfold SettingsInRange. simpl. lia.
  - split.
    + simpl. repeat constructor; simpl; intuition discriminate.
    + repeat constructor.
Defined.

(* ------------------------------------------------------------------ *)
(** ** Master limiter *)

Module MasterEffectFacts.
Import MasterEffect.
Local Open Scope R_scope.

Lemma fold_Rmax_ge (s : R) (frame : list R) :
  forall acc,
    acc <= fold_left (fun MaxAbs In => Rmax MaxAbs (Rabs (In * s))) frame acc /\
    Forall (fun In =>
              Rabs (In * s)
              <= fold_left (fun MaxAbs In => Rmax MaxAbs (Rabs (In * s))) frame acc)
      frame.
Proof.
  induction frame as [|x frame IH]; intros acc; simpl.
  - split; [lra | constructor].
  - destruct (IH (Rmax acc (Rabs (x * s)))) as [H1 H2].
    pose proof (Rmax_l acc (Rabs (x * s))).
    pose proof (Rmax_r acc (Rabs (x * s))).
    split; [lra|]. constructor; [lra | exact H2].
Qed.

Lemma FrameMaxAbs_bound s frame :
  0 <= FrameMaxAbs s frame /\
  Forall (fun In => Rabs (In * s) <= FrameMaxAbs s frame) frame.
Proof. apply fold_Rmax_ge. Qed.

Lemma Rdiv_le_1 a b : 0 < b -> a <= b -> a / b <= 1.
Proof.
  intros Hb Hab. apply (Rmult_le_reg_r b); [exact Hb|].
  unfold Rdiv. rewrite Rmult_assoc, Rinv_l by lra. lra.
Qed.

Lemma LimiterThreshold_pos fx : 0 < LimiterThreshold fx.
Proof. unfold LimiterThreshold, Pow10, Rpower. apply exp_pos. Qed.

Lemma Pow10_0 : Pow10 (0 / 20) = 1.
Proof.
  unfold Pow10, Rpower. replace (0 / 20 * ln 10) with 0 by lra. apply exp_0.
Qed.

Lemma ln_10_bounds : 0 < ln 10 < 9.
Proof.
  split.
  - rewrite <- ln_1. apply ln_increasing; lra.
  - replace 9 with (ln (exp 9)) at 1 by apply ln_exp. apply ln_increasing; [lra|].
    pose proof (exp_ineq1 9). lra.
Qed.

End MasterEffectFacts.

(** C7, as stated, fails.  Right after Init at 48 kHz with the default
    settings (threshold -1 dB, gain 0 dB) a first frame holding the
    full-scale sample 1.0 leaves the stage unchanged at 1.0, above the
    threshold 10^(-1/20): the envelope has only risen to 1 - exp(-1/48). *)
Lemma C7_counterexample :
  let r := MasterEffect.OnProcessAudio MasterEffect.fx_initial [[1%R]] in
  snd r = [[1%R]] /\
  (MasterEffect.LimiterThreshold MasterEffect.fx_initial < Rabs 1)%R.
Proof.
  cbv zeta.
  assert (HT : (MasterEffect.LimiterThreshold MasterEffect.fx_initial < 1)%R).
  { unfold MasterEffect.LimiterThreshold, MasterEffect.Pow10, Rpower. simpl.
    rewrite <- exp_0. apply exp_increasing.
    pose proof MasterEffectFacts.ln_10_bounds. nra. }
  assert (HT' : (11 / 20 < MasterEffect.LimiterThreshold MasterEffect.fx_initial)%R).
  { unfold MasterEffect.LimiterThreshold, MasterEffect.Pow10, Rpower. simpl.
    pose proof (exp_ineq1_le (-1 / 20 * ln 10)).
    pose proof MasterEffectFacts.ln_10_bounds. nra. }
  split; [|rewrite Rabs_R1; exact HT].
  unfold MasterEffect.OnProcessAudio. simpl negb. cbv iota.
  cbn [MasterEffect.ProcessFrames]. unfold MasterEffect.ProcessFrame.
  assert (Hs : MasterEffect.NextSmoothedGain MasterEffect.fx_initial = 1%R).
  { unfold MasterEffect.NextSmoothedGain, MasterEffect.TargetGain. simpl.
    rewrite MasterEffectFacts.Pow10_0. ring. }
  rewrite Hs.
  assert (Hm : MasterEffect.FrameMaxAbs 1 [1%R] = 1%R).
  { unfold MasterEffect.FrameMaxAbs. simpl. rewrite Rmult_1_r, Rabs_R1.
    apply Rmax_right. lra. }
  rewrite Hm. cbn [MasterEffect.LimiterEnvelope MasterEffect.fx_initial
                   MasterEffect.Init].
  destruct (Rlt_dec 0 1) as [_|Hn]; [|exfalso; lra].
  set (a := MasterEffect.AttackCoeff _).
  assert (Ha : (47 / 48 <= a)%R).
  { unfold a, MasterEffect.AttackCoeff. simpl.
    pose proof (exp_ineq1_le (-1 / (48000 * (1 / 1000)))).
    replace (-1 / (48000 * (1 / 1000)))%R with (-1 / 48)%R in * by field.
    lra. }
  fold MasterEffect.fx_initial.
  destruct (Rlt_dec (MasterEffect.LimiterThreshold MasterEffect.fx_initial)
              (a * 0 + (1 - a) * 1)) as [Hlt|_]; [exfalso; lra|].
  cbn [snd map]. repeat f_equal. ring.
Qed.

(** C7, amended.  With the stage enabled, every frame is multiplied by the
    smoothed output gain and by a limiter gain in (0, 1], so no output
    sample exceeds its gain-scaled input; and on every frame whose
    gain-scaled peak is not above the limiter envelope (the release branch
    of the follower) every output sample is at or below the threshold
    10^(LimiterThresholdDb / 20).  Nothing is said for frames that push the
    envelope up. *)
Theorem C7_limiter_release_bound :
  forall (fx : MasterEffect.FAcousticMasterEffect) (frame : list R),
    let r := MasterEffect.ProcessFrame fx frame in
    let s := MasterEffect.NextSmoothedGain fx in
    (0 < MasterEffect.LimiterGain (fst r) <= 1)%R /\
    MasterEffect.LimiterGain (fst r)
    = (if Rlt_dec (MasterEffect.LimiterThreshold fx)
            (MasterEffect.LimiterEnvelope (fst r))
       then (MasterEffect.LimiterThreshold fx
             / MasterEffect.LimiterEnvelope (fst r))%R
       else 1%R) /\
    snd r = map (fun In => (In * (s * MasterEffect.LimiterGain (fst r)))%R) frame /\
    Forall2 (fun In Out => (Rabs Out <= Rabs (In * s))%R) frame (snd r) /\
    ((MasterEffect.FrameMaxAbs s frame <= MasterEffect.LimiterEnvelope fx)%R ->
     Forall (fun Out => (Rabs Out <= MasterEffect.LimiterThreshold fx)%R) (snd r)).
Proof.
  intros fx frame r s.
  pose proof (MasterEffectFacts.LimiterThreshold_pos fx) as HT.
  set (T := MasterEffect.LimiterThreshold fx) in *.
  set (M := MasterEffect.FrameMaxAbs s frame).
  destruct (MasterEffectFacts.FrameMaxAbs_bound s frame) as [HM0 HMall].
  fold M in HM0, HMall.
  unfold r, MasterEffect.ProcessFrame. fold s. fold M. fold T.
  set (env := if Rlt_dec (MasterEffect.LimiterEnvelope fx) M then _ else _).
  set (g := if Rlt_dec T env then (T / env)%R else 1%R).
  cbn [fst snd MasterEffect.LimiterGain MasterEffect.LimiterEnvelope].
  assert (Hg : (0 < g <= 1)%R).
  { unfold g. destruct (Rlt_dec T env) as [Hlt|Hge]; [|lra].
    assert (He : (0 < env)%R) by lra.
    split.
    - apply Rdiv_lt_0_compat; assumption.
    - apply MasterEffectFacts.Rdiv_le_1; lra. }
  assert (Habs : forall x, Rabs (x * (s * g)) = (Rabs (x * s) * g)%R).
  { intros x. rewrite <- Rmult_assoc, Rabs_mult, (Rabs_right g) by lra.
    reflexivity. }
  split; [exact Hg|]. split; [reflexivity|]. split; [reflexivity|]. split.
  - assert (Hall : forall l,
               Forall2 (fun In Out => (Rabs Out <= Rabs (In * s))%R) l
                 (map (fun In => (In * (s * g))%R) l)).
    { induction l as [|x l IH]; simpl; constructor; [|exact IH].
      rewrite Habs. pose proof (Rabs_pos (x * s)). nra. }
    apply Hall.
  - intros Hrel.
    assert (Henv : (M <= env)%R).
    { unfold env. destruct (Rlt_dec (MasterEffect.LimiterEnvelope fx) M) as [H|H];
        [lra|].
      pose proof (exp_pos (-1 / (MasterEffect.SampleRate fx * (1 / 10)))) as Hr.
      unfold MasterEffect.ReleaseCoeff. nra. }
    apply Forall_forall. intros y Hy. apply in_map_iff in Hy.
    destruct Hy as (x & <- & Hx).
    rewrite Forall_forall in HMall. specialize (HMall x Hx).
    rewrite Habs. pose proof (Rabs_pos (x * s)) as Hp.
    unfold g in *. destruct (Rlt_dec T env) as [Hlt|Hge].
    + assert (He : (0 < env)%R) by lra.
      apply Rle_trans with (M * (T / env))%R; [nra|].
      replace (M * (T / env))%R with (T * (M / env))%R by (field; lra).
      pose proof (MasterEffectFacts.Rdiv_le_1 M env He Henv). nra.
    + lra.
Qed.

Lemma C7_limiter_release_bound_witness :
  Forall (fun Out => (Rabs Out <= MasterEffect.LimiterThreshold MasterEffect.fx_loud)%R)
    (snd (MasterEffect.ProcessFrame MasterEffect.fx_loud [1; -1]%R)).
Proof.
  apply (C7_limiter_release_bound MasterEffect.fx_loud [1; -1]%R).
  assert (Hs : MasterEffect.NextSmoothedGain MasterEffect.fx_loud = 1%R).
  { unfold MasterEffect.NextSmoothedGain, MasterEffect.TargetGain. simpl.
    rewrite MasterEffectFacts.Pow10_0. ring. }
  rewrite Hs. unfold MasterEffect.FrameMaxAbs. simpl.
  assert (H1 : Rabs (1 * 1) = 1%R)
    by (unfold Rabs; destruct (Rcase_abs _); lra).
  assert (H2 : Rabs (-1 * 1) = 1%R)
    by (unfold Rabs; destruct (Rcase_abs _); lra).
  rewrite H1, H2.
  rewrite (Rmax_right 0 1) by lra. rewrite (Rmax_left 1 1) by lra. lra.
Defined.

(* ------------------------------------------------------------------ *)
(** ** Hemisphere sampling *)

Module HemisphereFacts.
Import Hemisphere.
Local Open Scope R_scope.

Lemma LocalDirection_unit NumRays i : DotProduct (LocalDirection NumRays i)
                                        (LocalDirection NumRays i) = 1.
Proof.
  unfold DotProduct, LocalDirection. cbn [Vx Vy Vz].
  set (I := acos _). set (A := AngleIncrement * INR i).
  pose proof (sin2_cos2 I) as HI. pose proof (sin2_cos2 A) as HA.
  unfold Rsqr in HI, HA. nra.
Qed.

Lemma LocalDirection_up (NumRays : Z) (i : nat) :
  (1 <= NumRays)%Z -> (i < Z.to_nat NumRays)%nat ->
  DotProduct (LocalDirection NumRays i) UpVector = 1 - INR i / IZR NumRays /\
  0 < 1 - INR i / IZR NumRays.
Proof.
  intros HN Hi.
  assert (HNpos : 0 < IZR NumRays) by (apply IZR_lt; lia).
  assert (Hi0 : 0 <= INR i) by apply pos_INR.
  assert (HiN : INR i < IZR NumRays).
  { rewrite INR_IZR_INZ. apply IZR_lt. lia. }
  assert (HT0 : 0 <= INR i / IZR NumRays).
  { apply Rmult_le_pos; [exact Hi0 | left; apply Rinv_0_lt_compat; exact HNpos]. }
  assert (HT1 : INR i / IZR NumRays < 1).
  { apply (Rmult_lt_reg_r (IZR NumRays)); [exact HNpos|].
    unfold Rdiv. rewrite Rmult_assoc, Rinv_l by lra. lra. }
  split; [|lra].
  unfold DotProduct, LocalDirection, UpVector. cbn [Vx Vy Vz].
  rewrite cos_acos by lra. ring.
Qed.

End HemisphereFacts.

(** C10.  With a quaternion that the host engine builds as its contract
    says (FindBetweenNormals(Up, Normal) rotates Up onto Normal, and
    rotating preserves dot products), for a unit normal and a ray count
    N >= 1 the generator returns exactly N directions, each of length 1 and
    each with a strictly positive dot product with the normal. *)
Theorem C10_hemisphere_rays :
  forall (FQuat : Type)
         (FindBetweenNormals : Hemisphere.FVector -> Hemisphere.FVector -> FQuat)
         (RotateVector : FQuat -> Hemisphere.FVector -> Hemisphere.FVector)
         (Normal : Hemisphere.FVector) (NumRays : Z),
    let Rotation := FindBetweenNormals Hemisphere.UpVector Normal in
    Hemisphere.Size Normal = 1%R ->
    (forall u v,
        Hemisphere.DotProduct (RotateVector Rotation u) (RotateVector Rotation v)
        = Hemisphere.DotProduct u v) ->
    RotateVector Rotation Hemisphere.UpVector = Normal ->
    1 <= NumRays ->
    let rays :=
      Hemisphere.GenerateHemisphereRays FQuat FindBetweenNormals RotateVector
        Normal NumRays in
    Z.of_nat (length rays) = NumRays /\
    Forall (fun d => Hemisphere.Size d = 1%R /\
                     (0 < Hemisphere.DotProduct d Normal)%R) rays.
Proof.
  intros FQuat FBN Rot Normal N q Hunit Hiso Hup HN rays.
  unfold rays, Hemisphere.GenerateHemisphereRays. fold q.
  split.
  - rewrite length_map, length_seq. lia.
  - apply Forall_forall. intros d Hd. apply in_map_iff in Hd.
    destruct Hd as (i & <- & Hi). apply in_seq in Hi.
    split.
    + unfold Hemisphere.Size. rewrite Hiso, HemisphereFacts.LocalDirection_unit.
      apply sqrt_1.
    + assert (E : Hemisphere.DotProduct
                    (Rot q (Hemisphere.LocalDirection N i)) Normal
                  = Hemisphere.DotProduct (Hemisphere.LocalDirection N i)
                      Hemisphere.UpVector)
        by (rewrite <- (Hiso (Hemisphere.LocalDirection N i) Hemisphere.UpVector),
              Hup; reflexivity).
      rewrite E.
      destruct (HemisphereFacts.LocalDirection_up N i HN ltac:(lia)) as [-> Hpos].
      exact Hpos.
Qed.

Lemma C10_hemisphere_rays_witness :
  let rays :=
    Hemisphere.GenerateHemisphereRays unit (fun _ _ => tt) Hemisphere.QuarterTurnY
      Hemisphere.ForwardVector 4 in
  Z.of_nat (length rays) = 4 /\
  Forall (fun d => Hemisphere.Size d = 1%R /\
                   (0 < Hemisphere.DotProduct d Hemisphere.ForwardVector)%R) rays.
Proof.
  apply (C10_hemisphere_rays unit (fun _ _ => tt) Hemisphere.QuarterTurnY
           Hemisphere.ForwardVector 4).
  - unfold Hemisphere.Size, Hemisphere.DotProduct. simpl.
    replace (1 * 1 + 0 * 0 + 0 * 0)%R with 1%R by ring. apply sqrt_1.
  - intros u v. unfold Hemisphere.DotProduct, Hemisphere.QuarterTurnY. simpl. ring.
  - unfold Hemisphere.QuarterTurnY, Hemisphere.UpVector, Hemisphere.ForwardVector.
    simpl. f_equal. ring.
  - lia.
Defined.

(* ------------------------------------------------------------------ *)
(** ** What the LOD pass does keep *)

Lemma BudgetDowngrade_counts cfg l a h :
  0 <= h <= MaxHeroSources cfg -> 0 <= a <= MaxAdvancedSources cfg ->
  MaxHeroSources cfg <= INT32_MAX -> MaxAdvancedSources cfg <= INT32_MAX ->
  let r := BudgetDowngrade cfg l a h in
  snd r = h + (if is_Hero (fst (fst r)) then 1 else 0) /\
  snd (fst r) = a + (if is_Advanced (fst (fst r)) then 1 else 0) /\
  0 <= snd r <= MaxHeroSources cfg /\
  0 <= snd (fst r) <= MaxAdvancedSources cfg.
Proof.
  intros Hh Ha HmH HmA. unfold BudgetDowngrade, is_Hero, is_Advanced.
  assert (Eh : h < MaxHeroSources cfg -> add32 h 1 = h + 1).
  { intros Hlt. apply add32_small.
    unfold is_int32, INT32_MIN, INT32_MAX in *. lia. }
  assert (Ea : a < MaxAdvancedSources cfg -> add32 a 1 = a + 1).
  { intros Hlt. apply add32_small.
    unfold is_int32, INT32_MIN, INT32_MAX in *. lia. }
  destruct l; cbn -[add32 Z.geb];
    repeat match goal with
    | |- context [?x >=? ?y] =>
        destruct (Z.geb_spec x y); cbn -[add32 Z.geb]
    end;
    rewrite ?Eh, ?Ea by lia; lia.
Qed.

Lemma count_granted_fresh k keys P Sources :
  ~ In k (map fst Sources) ->
  count_granted (k :: keys) P Sources = count_granted keys P Sources.
Proof.
  unfold count_granted. intros Hk. f_equal. f_equal.
  apply filter_ext_in. intros [k0 e0] Hin. cbn [existsb fst].
  destruct (Z.eqb_spec k0 k) as [->|_]; [|reflexivity].
  exfalso. apply Hk. apply in_map_iff. exists (k, e0). auto.
Qed.

Lemma existsb_eqb_false k keys :
  ~ In k keys -> existsb (Z.eqb k) keys = false.
Proof.
  intros Hk. apply not_true_iff_false. intros H. apply existsb_exists in H.
  destruct H as (x & Hx & E). apply Z.eqb_eq in E. subst. auto.
Qed.

Lemma count_granted_cons keys P k0 e0 rest :
  count_granted keys P ((k0, e0) :: rest)
  = (if existsb (Z.eqb k0) keys && P (EffectiveLOD e0) then 1 else 0)
    + count_granted keys P rest.
Proof.
  unfold count_granted. cbn [filter fst snd].
  destruct (existsb (Z.eqb k0) keys && P (EffectiveLOD e0)); cbn [length]; lia.
Qed.

Lemma count_granted_set k e' keys P Sources :
  NoDup (map fst Sources) -> In k (map fst Sources) -> ~ In k keys ->
  count_granted (k :: keys) P (TMap_Set k e' Sources)
  = count_granted keys P Sources + (if P (EffectiveLOD e') then 1 else 0).
Proof.
  intros Hnd Hin Hk.
  induction Sources as [|[k0 e0] rest IH]; [destruct Hin|].
  cbn [map fst] in Hnd, Hin. inversion Hnd as [|? ? Hnin Hnd']; subst.
  cbn [TMap_Set]. destruct (Z.eqb_spec k0 k) as [->|Hne].
  - rewrite !count_granted_cons, (count_granted_fresh k keys P rest Hnin).
    cbn [existsb]. rewrite Z.eqb_refl, (existsb_eqb_false k keys Hk).
    cbn [orb andb]. lia.
  - assert (Hin' : In k (map fst rest)) by (destruct Hin; [congruence | assumption]).
    specialize (IH Hnd' Hin').
    rewrite !count_granted_cons, IH. cbn [existsb].
    apply Z.eqb_neq in Hne. rewrite Hne. cbn [orb]. lia.
Qed.

Lemma TMap_Find_Some_of_In {V} k (m : list (Z * V)) :
  In k (map fst m) -> exists v, TMap_Find k m = Some v.
Proof.
  induction m as [|[k0 v0] m IH]; [intros []|]. cbn [map fst TMap_Find In].
  destruct (Z.eqb_spec k0 k) as [->|Hne]; [eauto|].
  intros [H|H]; [congruence | auto].
Qed.

Lemma TMap_Set_live {V} (P : V -> Prop) k v (m : list (Z * V)) :
  P v -> Forall (fun p => P (snd p)) m -> Forall (fun p => P (snd p)) (TMap_Set k v m).
Proof.
  intros Hv. induction 1 as [|[k0 v0] m Hp Hall IH]; cbn [TMap_Set]; [constructor|].
  destruct (k0 =? k); constructor; auto.
Qed.

Lemma count_granted_set_other k e' keys P Sources :
  NoDup (map fst Sources) -> In k (map fst Sources) -> ~ In k keys ->
  count_granted keys P (TMap_Set k e' Sources) = count_granted keys P Sources.
Proof.
  intros Hnd Hin Hk.
  induction Sources as [|[k0 e0] rest IH]; [destruct Hin|].
  cbn [map fst] in Hnd, Hin. inversion Hnd as [|? ? Hnin Hnd']; subst.
  cbn [TMap_Set]. destruct (Z.eqb_spec k0 k) as [->|Hne].
  - rewrite !count_granted_cons, (existsb_eqb_false k keys Hk). reflexivity.
  - assert (Hin' : In k (map fst rest)) by (destruct Hin; [congruence | assumption]).
    rewrite !count_granted_cons, (IH Hnd' Hin'). reflexivity.
Qed.

Lemma AssignLOD_step cfg w keys0 processed st k q :
  MaxHeroSources cfg <= INT32_MAX -> MaxAdvancedSources cfg <= INT32_MAX ->
  NoDup keys0 -> In k keys0 -> ~ In k processed ->
  LODLoopInv cfg w keys0 processed st ->
  LODLoopInv cfg w keys0 (k :: processed) (AssignLOD cfg w st (k, q)).
Proof.
  intros HmH HmA Hnd Hin Hnp. destruct st as [[Sources a] h].
  unfold LODLoopInv. intros (Hkeys & Hlive & Hh & Ha & Bh & Ba).
  unfold AssignLOD. cbn [fst].
  rewrite <- Hkeys in Hnd, Hin.
  destruct (TMap_Find_Some_of_In k Sources Hin) as [e Hfind]. rewrite Hfind.
  pose proof (TMap_Find_In _ _ _ Hfind) as HinE.
  unfold AllLive in Hlive. pose proof Hlive as Hlive'.
  rewrite Forall_forall in Hlive'. specialize (Hlive' _ HinE). cbn [snd] in Hlive'.
  destruct (Component w (SourceComponent e)) as [Source|] eqn:Ec; [|congruence].
  pose proof (BudgetDowngrade_counts cfg
                (DistanceDowngrade cfg (Params_Distance (CurrentParams e))
                   (AcousticLOD Source)) a h Bh Ba HmH HmA) as Hbd.
  cbv zeta in Hbd.
  destruct (BudgetDowngrade cfg _ a h) as [[l a'] h'].
  cbn [fst snd] in Hbd. destruct Hbd as (Eh & Ea & Bh' & Ba').
  set (e' := set_EffectiveLOD l (negb (LOD_eqb l LOD_Off)) e).
  split; [rewrite TMap_Set_keys; exact Hkeys|].
  split.
  { unfold AllLive.
    apply (TMap_Set_live (fun v => Component w (SourceComponent v) <> None));
      [|exact Hlive].
    unfold e'. simpl. rewrite Ec. discriminate. }
  rewrite !(count_granted_set k e' processed _ Sources Hnd Hin Hnp).
  unfold e'. cbn [set_EffectiveLOD EffectiveLOD].
  repeat split; lia.
Qed.

Lemma AssignLOD_fold cfg w keys0 :
  MaxHeroSources cfg <= INT32_MAX -> MaxAdvancedSources cfg <= INT32_MAX ->
  NoDup keys0 ->
  forall (sorted : list (Z * Q)) processed st,
    NoDup (map fst sorted) ->
    (forall k, In k (map fst sorted) -> In k keys0 /\ ~ In k processed) ->
    LODLoopInv cfg w keys0 processed st ->
    LODLoopInv cfg w keys0 (rev (map fst sorted) ++ processed)
      (fold_left (AssignLOD cfg w) sorted st).
Proof.
  intros HmH HmA Hnd.
  induction sorted as [|[k q] sorted IH]; intros processed st Hnds Hall Hinv;
    [exact Hinv|].
  cbn [fold_left map fst rev]. rewrite <- app_assoc. cbn [app].
  inversion Hnds as [|? ? Hnin Hnds']; subst.
  apply IH; [exact Hnds' | |].
  - intros k' Hk'. destruct (Hall k' (or_intror Hk')) as [H1 H2].
    split; [exact H1|]. intros [<-|H]; [exact (Hnin Hk') | exact (H2 H)].
  - destruct (Hall k (or_introl eq_refl)) as [H1 H2].
    apply AssignLOD_step; assumption.
Qed.

Lemma count_granted_all keys P Sources :
  (forall k, In k (map fst Sources) -> In k keys) ->
  count_granted keys P Sources = count_LOD P Sources.
Proof.
  intros Hall. unfold count_granted, count_LOD. f_equal. f_equal.
  apply filter_ext_in. intros [k e] Hin. cbn [fst snd].
  assert (E : existsb (Z.eqb k) keys = true).
  { apply existsb_exists. exists k. split; [|apply Z.eqb_refl].
    apply Hall. apply in_map_iff. exists (k, e). auto. }
  rewrite E. reflexivity.
Qed.

Lemma ScoreEntry_live w Sources :
  AllLive w Sources ->
  map fst (map fst (map (ScoreEntry w) Sources)) = map fst Sources /\
  map fst (flat_map snd (map (ScoreEntry w) Sources)) = map fst Sources /\
  AllLive w (map fst (map (ScoreEntry w) Sources)).
Proof.
  unfold AllLive. induction 1 as [|[k e] rest Hp Hall (IH1 & IH2 & IH3)];
    [repeat split; constructor|].
  cbn [map flat_map]. cbn [snd] in Hp. unfold ScoreEntry at 1 3 5.
  destruct (Component w (SourceComponent e)) as [Source|] eqn:Ec; [|congruence].
  cbn [fst snd map app]. rewrite IH1, IH2.
  split; [reflexivity|]. split; [reflexivity|].
  constructor; [|exact IH3]. simpl. rewrite Ec. discriminate.
Qed.

(** What the pass does keep, when every registered component is alive:
    at most MaxHeroSources sources end at Hero and at most
    MaxAdvancedSources end at Advanced, the two caps counted apart. *)
Lemma UpdateSourcePriorities_separate_caps cfg w s :
  SettingsInRange cfg ->
  NoDup (map fst (RegisteredSources s)) ->
  AllLive w (RegisteredSources s) ->
  NumListeners s <> 0 ->
  let s' := UpdateSourcePriorities cfg w s in
  count_LOD is_Hero (RegisteredSources s') <= MaxHeroSources cfg /\
  count_LOD is_Advanced (RegisteredSources s') <= MaxAdvancedSources cfg.
Proof.
  intros Hcfg Hnd Hlive Hl. unfold UpdateSourcePriorities.
  apply Z.eqb_neq in Hl. rewrite Hl.
  destruct (ScoreEntry_live w (RegisteredSources s) Hlive) as (Hk1 & Hk2 & Hlive1).
  set (visited := map (ScoreEntry w) (RegisteredSources s)) in *.
  set (Sorted := TArray_Sort _ (flat_map snd visited)).
  assert (Hperm : Permutation (map fst Sorted) (map fst (RegisteredSources s))).
  { rewrite <- Hk2. apply Permutation_map. apply TArray_Sort_perm. }
  assert (HmH : MaxHeroSources cfg <= INT32_MAX /\ MaxAdvancedSources cfg <= INT32_MAX)
    by (unfold SettingsInRange, INT32_MAX in *; lia).
  pose proof (AssignLOD_fold cfg w (map fst (RegisteredSources s))
                (proj1 HmH) (proj2 HmH) Hnd Sorted [] (map fst visited, 0, 0)) as Hfold.
  assert (Hinv : LODLoopInv cfg w (map fst (RegisteredSources s)) []
                   (map fst visited, 0, 0)).
  { unfold LODLoopInv. split; [exact Hk1|]. split; [exact Hlive1|].
    assert (E0 : forall P l, count_granted [] P l = 0).
    { intros P l. unfold count_granted. cbn [existsb andb].
      induction l; simpl; auto. }
    rewrite !E0. unfold SettingsInRange in Hcfg. repeat split; lia. }
  specialize (Hfold
    ltac:(eapply Permutation_NoDup; [symmetry; exact Hperm | exact Hnd])
    ltac:(intros k Hk; split; [eapply Permutation_in; eassumption | intros []])
    Hinv).
  destruct (fold_left (AssignLOD cfg w) Sorted (map fst visited, 0, 0))
    as [[Sources a] h].
  unfold LODLoopInv in Hfold. destruct Hfold as (Hk & _ & Hh & Ha & Bh & Ba).
  cbv zeta. cbn [set_RegisteredSources RegisteredSources].
  rewrite app_nil_r in Hh, Ha.
  assert (Hcover : forall k, In k (map fst Sources) -> In k (rev (map fst Sorted))).
  { intros k Hin. rewrite Hk in Hin. apply in_rev. rewrite rev_involutive.
    eapply Permutation_in; [symmetry; exact Hperm | exact Hin]. }
  rewrite (count_granted_all _ is_Hero _ Hcover) in Hh.
  rewrite (count_granted_all _ is_Advanced _ Hcover) in Ha. lia.
Qed.

(* ------------------------------------------------------------------ *)
(** ** The registry shape is kept by registration *)

Lemma RegisterSource_RegistryOk Source s :
  RegistryInv s -> NextSourceId s < INT32_MAX ->
  RegistryOk (RegisteredSources s) ->
  RegistryOk (RegisteredSources (fst (RegisterSource Source s))).
Proof.
  intros Hinv Hmax Hok.
  destruct (is_new_registration Source s) eqn:Enew.
  - destruct Source as [[h obj]|]; [|discriminate].
    assert (Hfind : FindRegistered h (RegisteredSources s) = None).
    { unfold is_new_registration in Enew.
      destruct (FindRegistered h (RegisteredSources s)); [discriminate|reflexivity]. }
    destruct (RegisterSource_new h obj s Hinv Hmax Hfind)
      as (_ & _ & (e & Hreg & _) & (_ & Hnd & _)).
    split; [exact Hnd|].
    assert (He : EntryOk e).
    { revert Hreg. unfold RegisterSource. rewrite Hfind. cbn [fst].
      unfold TMap_Add. cbn [set_RegisteredSources RegisteredSources set_NextSourceId].
      destruct (TMap_Find _ _) eqn:Ef.
      - intros Heq. exfalso.
        apply TMap_Find_In in Ef. destruct Hinv as (_ & _ & Hall).
        rewrite Forall_forall in Hall. specialize (Hall _ Ef). cbn in Hall. lia.
      - intros Heq. apply app_inv_head in Heq. injection Heq as <-. reflexivity. }
    rewrite Hreg. apply Forall_app. split; [apply Hok|].
    constructor; [exact He | constructor].
  - rewrite (RegisterSource_not_new _ _ Enew). exact Hok.
Qed.

Lemma UnregisterSource_RegistryOk id s :
  RegistryOk (RegisteredSources s) ->
  RegistryOk (RegisteredSources (UnregisterSource id s)).
Proof.
  unfold RegistryOk, UnregisterSource, TMap_Remove. simpl. intros [Hnd Hall].
  split.
  - induction (RegisteredSources s) as [|[k e] m IH]; simpl; [constructor|].
    inversion Hnd as [|? ? Hnin Hnd']; subst. inversion Hall; subst.
    destruct (negb (k =? id)); simpl; [|auto].
    constructor; [|auto].
    intros Hin. apply Hnin. apply in_map_iff in Hin.
    destruct Hin as (p & Hp & Hin). apply filter_In in Hin.
    apply in_map_iff. exists p. tauto.
  - apply Forall_forall. intros p Hin. apply filter_In in Hin.
    rewrite Forall_forall in Hall. apply Hall. tauto.
Qed.

(* ================================================================== *)
(** * Further properties of the code *)

(* ------------------------------------------------------------------ *)
(** ** Registering, looking up, unregistering *)

Lemma set_RegisteredSources_same s : set_RegisteredSources (RegisteredSources s) s = s.
Proof. destruct s. reflexivity. Qed.

Lemma TMap_Find_app_fresh {V} k k0 (v : V) m :
  TMap_Find k (m ++ [(k0, v)])
  = match TMap_Find k m with
    | Some x => Some x
    | None => if k0 =? k then Some v else None
    end.
Proof.
  induction m as [|[k1 v1] m IH]; simpl; [reflexivity|].
  destruct (k1 =? k); [reflexivity | exact IH].
Qed.

Lemma TMap_Remove_absent {V} k (m : list (Z * V)) :
  ~ In k (map fst m) -> TMap_Remove k m = m.
Proof.
  unfold TMap_Remove. induction m as [|[k1 v1] m IH]; intros Hk; [reflexivity|].
  cbn [filter fst]. cbn [map fst In] in Hk.
  destruct (Z.eqb_spec k1 k) as [->|Hne]; [exfalso; tauto|].
  cbn [negb]. rewrite IH by tauto. reflexivity.
Qed.

Lemma TMap_Find_Remove {V} k k' (m : list (Z * V)) :
  TMap_Find k' (TMap_Remove k m) = if k =? k' then None else TMap_Find k' m.
Proof.
  unfold TMap_Remove. induction m as [|[k1 v1] m IH]; cbn [filter fst TMap_Find].
  - destruct (k =? k'); reflexivity.
  - destruct (Z.eqb_spec k1 k) as [->|Hne]; cbn [negb TMap_Find].
    + rewrite IH. destruct (k =? k'); reflexivity.
    + rewrite IH. destruct (Z.eqb_spec k k') as [<-|Hne'].
      * apply Z.eqb_neq in Hne. rewrite Hne. reflexivity.
      * reflexivity.
Qed.

(** X1.  A new registration can be looked up at once under the identifier
    it returned, with freshly reset (not yet valid) parameters; it changes
    the answer for no other identifier; and unregistering that identifier
    gives back the registry as it was, the identifier then being unknown. *)
Theorem X1_register_lookup_unregister :
  forall (s : Engine) (h : Handle) (obj : UAcousticSourceComponent),
    RegistryInv s -> NextSourceId s < INT32_MAX ->
    FindRegistered h (RegisteredSources s) = None ->
    let s1 := fst (RegisterSource (Some (h, obj)) s) in
    let id := snd (RegisterSource (Some (h, obj)) s) in
    GetSourceParams id s1 = Some FAcousticSourceParams_reset /\
    bIsValid FAcousticSourceParams_reset = false /\
    (forall k, k <> id -> GetSourceParams k s1 = GetSourceParams k s) /\
    RegisteredSources (UnregisterSource id s1) = RegisteredSources s /\
    GetSourceParams id (UnregisterSource id s1) = None.
Proof.
  intros s h obj Hinv Hmax Hfind s1 id.
  assert (Hfresh : ~ In (NextSourceId s) (map fst (RegisteredSources s))).
  { destruct Hinv as (_ & _ & Hall). intros Hin.
    apply in_map_iff in Hin. destruct Hin as (p & Hp & Hin).
    rewrite Forall_forall in Hall. specialize (Hall p Hin). lia. }
  pose proof Hfresh as Hnone. apply TMap_Find_None_iff in Hnone.
  revert s1 id. unfold RegisterSource. rewrite Hfind.
  cbn [fst snd SourceId set_NextSourceId set_RegisteredSources RegisteredSources].
  unfold TMap_Add. rewrite Hnone.
  set (e := {| SourceComponent := h; SourceId := NextSourceId s |}).
  cbv zeta. unfold GetSourceParams, UnregisterSource.
  cbn [set_RegisteredSources RegisteredSources].
  assert (Hrem : TMap_Remove (NextSourceId s)
                   (RegisteredSources s ++ [(NextSourceId s, e)])
                 = RegisteredSources s).
  { unfold TMap_Remove. rewrite filter_app. cbn [filter fst].
    rewrite Z.eqb_refl. cbn [negb]. rewrite app_nil_r.
    apply (TMap_Remove_absent _ _ Hfresh). }
  split; [rewrite TMap_Find_app_fresh, Hnone, Z.eqb_refl; reflexivity|].
  split; [reflexivity|]. split.
  - intros k Hk. rewrite TMap_Find_app_fresh.
    destruct (TMap_Find k (RegisteredSources s)); [reflexivity|].
    destruct (Z.eqb_spec (NextSourceId s) k); [congruence | reflexivity].
  - rewrite Hrem. split; [reflexivity | rewrite Hnone; reflexivity].
Qed.

Lemma X1_register_lookup_unregister_witness :
  let s := Engine_init UAcousticSettings_default in
  let s1 := fst (RegisterSource (Some (0%nat, source_default)) s) in
  let id := snd (RegisterSource (Some (0%nat, source_default)) s) in
  GetSourceParams id s1 = Some FAcousticSourceParams_reset /\
  bIsValid FAcousticSourceParams_reset = false /\
  (forall k, k <> id -> GetSourceParams k s1 = GetSourceParams k s) /\
  RegisteredSources (UnregisterSource id s1) = RegisteredSources s /\
  GetSourceParams id (UnregisterSource id s1) = None.
Proof.
  apply (X1_register_lookup_unregister (Engine_init UAcousticSettings_default)
           0%nat source_default).
  - apply RegistryInv_init.
  - vm_compute. reflexivity.
  - reflexivity.
Defined.

(** X2.  UnregisterSource makes its identifier unknown to GetSourceParams,
    leaves every other identifier's answer and the identifier counter
    untouched (a freed identifier is not handed out again), and is a no-op
    for an identifier that is not registered. *)
Theorem X2_unregister_source :
  forall (s : Engine) (id : Z),
    GetSourceParams id (UnregisterSource id s) = None /\
    (forall k, k <> id ->
       GetSourceParams k (UnregisterSource id s) = GetSourceParams k s) /\
    NextSourceId (UnregisterSource id s) = NextSourceId s /\
    (GetSourceParams id s = None -> UnregisterSource id s = s) /\
    UnregisterSource id (UnregisterSource id s) = UnregisterSource id s.
Proof.
  intros s id. unfold GetSourceParams, UnregisterSource.
  cbn [set_RegisteredSources RegisteredSources NextSourceId].
  split; [rewrite TMap_Find_Remove, Z.eqb_refl; reflexivity|].
  split.
  { intros k Hk. rewrite TMap_Find_Remove.
    destruct (Z.eqb_spec id k); [congruence | reflexivity]. }
  split; [reflexivity|]. split.
  - intros Hnone.
    assert (Habs : ~ In id (map fst (RegisteredSources s))).
    { apply TMap_Find_None_iff.
      destruct (TMap_Find id (RegisteredSources s)); [discriminate | reflexivity]. }
    rewrite (TMap_Remove_absent _ _ Habs). apply set_RegisteredSources_same.
  - assert (Hidem : TMap_Remove id (TMap_Remove id (RegisteredSources s))
                    = TMap_Remove id (RegisteredSources s)).
    { unfold TMap_Remove.
      induction (RegisteredSources s) as [|[k e] m IH]; [reflexivity|].
      cbn [filter fst]. destruct (negb (k =? id)) eqn:E; cbn [filter fst].
      + rewrite E. f_equal. exact IH.
      + exact IH. }
    destruct s. cbn [set_RegisteredSources RegisteredSources] in *.
    rewrite Hidem. reflexivity.
Qed.

Lemma X2_unregister_source_witness :
  UnregisterSource 7 (Engine_init UAcousticSettings_default)
  = Engine_init UAcousticSettings_default.
Proof.
  apply (proj1 (proj2 (proj2 (proj2
           (X2_unregister_source (Engine_init UAcousticSettings_default) 7))))).
  reflexivity.
Defined.

(* ------------------------------------------------------------------ *)
(** ** The material table *)

Lemma FindMaterial_SetMaterial n n' v m :
  FindMaterial n' (SetMaterial n v m)
  = if String.eqb n n'
    then match FindMaterial n m with Some _ => Some v | None => None end
    else FindMaterial n' m.
Proof.
  induction m as [|[k v'] m IH]; cbn [SetMaterial FindMaterial].
  - destruct (String.eqb n n'); reflexivity.
  - destruct (String.eqb_spec k n) as [->|Hkn]; cbn [FindMaterial].
    + destruct (String.eqb n n'); reflexivity.
    + rewrite IH. destruct (String.eqb_spec n n') as [<-|Hnn'].
      * apply String.eqb_neq in Hkn. rewrite Hkn. reflexivity.
      * reflexivity.
Qed.

Lemma FindMaterial_app n' n v m :
  FindMaterial n' (m ++ [(n, v)])
  = match FindMaterial n' m with
    | Some x => Some x
    | None => if String.eqb n n' then Some v else None
    end.
Proof.
  induction m as [|[k v'] m IH]; cbn [app FindMaterial]; [reflexivity|].
  destruct (String.eqb k n'); [reflexivity | exact IH].
Qed.

Lemma FindMaterial_AddMaterial n n' v m :
  FindMaterial n' (AddMaterial n v m)
  = if String.eqb n n' then Some v else FindMaterial n' m.
Proof.
  unfold AddMaterial. destruct (FindMaterial n m) eqn:E.
  - rewrite FindMaterial_SetMaterial, E. reflexivity.
  - rewrite FindMaterial_app.
    destruct (String.eqb_spec n n') as [<-|Hne].
    + rewrite E. reflexivity.
    + destruct (FindMaterial n' m); reflexivity.
Qed.

(** X3.  A material registered under a physical-material name is what
    GetAcousticMaterial returns for that name from then on (a later
    registration under the same name replaces it); the answer for every
    other name and for a null physical material is unchanged, and the
    source registry is not touched. *)
Theorem X3_register_material_mapping :
  forall (s : Engine) (n : string) (m : FAcousticMaterial),
    let s' := RegisterMaterialMapping n m s in
    GetAcousticMaterial (MaterialMappings s') (Some n) = m /\
    (forall m2,
       GetAcousticMaterial (MaterialMappings (RegisterMaterialMapping n m2 s'))
         (Some n) = m2) /\
    (forall n', n' <> n ->
       GetAcousticMaterial (MaterialMappings s') (Some n')
       = GetAcousticMaterial (MaterialMappings s) (Some n')) /\
    GetAcousticMaterial (MaterialMappings s') None
    = GetAcousticMaterial (MaterialMappings s) None /\
    RegisteredSources s' = RegisteredSources s.
Proof.
  intros s n m s'. unfold s', RegisterMaterialMapping, GetAcousticMaterial.
  cbn [MaterialMappings RegisteredSources].
  split; [rewrite FindMaterial_AddMaterial, String.eqb_refl; reflexivity|].
  split; [intros m2; rewrite FindMaterial_AddMaterial, String.eqb_refl; reflexivity|].
  split; [|split; reflexivity].
  intros n' Hne. rewrite FindMaterial_AddMaterial.
  destruct (String.eqb_spec n n'); [congruence | reflexivity].
Qed.

Lemma X3_register_material_mapping_witness :
  let s := Engine_init UAcousticSettings_default in
  GetAcousticMaterial
    (MaterialMappings
       (RegisterMaterialMapping "PM_Wood" (CreateFromType Mat_Wood) s))
    (Some "PM_Concrete"%string)
  = GetAcousticMaterial (MaterialMappings s) (Some "PM_Concrete"%string).
Proof.
  apply (proj1 (proj2 (proj2
           (X3_register_material_mapping (Engine_init UAcousticSettings_default)
              "PM_Wood" (CreateFromType Mat_Wood))))).
  discriminate.
Defined.

Lemma FindMaterial_In n m v : FindMaterial n m = Some v -> In v (map snd m).
Proof.
  induction m as [|[k v'] m IH]; cbn [FindMaterial map snd In]; [discriminate|].
  destruct (String.eqb k n); [intros [= ->]; left; reflexivity | auto].
Qed.

Lemma GetAcousticMaterial_in_range maps PhysMat :
  Forall (fun p => MaterialInRange (snd p)) maps ->
  MaterialInRange (GetAcousticMaterial maps PhysMat).
Proof.
  intros Hall.
  assert (Hdef : MaterialInRange
            {| MaterialName := "None"; MaterialType := Mat_Default;
               LowAbsorption := 1 # 10; MidAbsorption := 2 # 10;
               HighAbsorption := 3 # 10; Transmission := 0;
               Scattering := 1 # 10 |}).
  { unfold MaterialInRange. cbn. repeat split; discriminate. }
  unfold GetAcousticMaterial. destruct PhysMat as [n|]; [|exact Hdef].
  destruct (FindMaterial n maps) as [v|] eqn:E; [|exact Hdef].
  apply FindMaterial_In in E. apply in_map_iff in E.
  destruct E as (p & <- & Hin). rewrite Forall_forall in Hall. exact (Hall p Hin).
Qed.

(** X4.  Every material preset of FAcousticMaterial::CreateFromType keeps
    its five coefficients in the declared range 0..1, registering a
    material that is in range keeps the table in range, and then so is
    every material GetAcousticMaterial returns, the fallback for an
    unmapped or null physical material included. *)
Theorem X4_materials_in_range :
  (forall t, MaterialInRange (CreateFromType t)) /\
  (forall s n m,
     Forall (fun p => MaterialInRange (snd p)) (MaterialMappings s) ->
     MaterialInRange m ->
     Forall (fun p => MaterialInRange (snd p))
       (MaterialMappings (RegisterMaterialMapping n m s))) /\
  (forall maps PhysMat,
     Forall (fun p => MaterialInRange (snd p)) maps ->
     MaterialInRange (GetAcousticMaterial maps PhysMat)).
Proof.
  split; [|split].
  - intros t. unfold MaterialInRange.
    destruct t; cbn; repeat split; discriminate.
  - intros s n m Hall Hm. unfold RegisterMaterialMapping. cbn [MaterialMappings].
    unfold AddMaterial. destruct (FindMaterial n (MaterialMappings s)).
    + induction Hall as [|[k v] l Hp Hl IH]; cbn [SetMaterial]; [constructor|].
      destruct (String.eqb k n); constructor; auto.
    + apply Forall_app. split; [exact Hall|]. constructor; [exact Hm | constructor].
  - intros maps PhysMat. apply GetAcousticMaterial_in_range.
Qed.

Lemma X4_materials_in_range_witness :
  MaterialInRange (GetAcousticMaterial concrete_mappings (Some "PM_Concrete"%string)).
Proof.
  apply (proj2 (proj2 X4_materials_in_range) concrete_mappings
           (Some "PM_Concrete"%string)).
  constructor; [|constructor].
  unfold MaterialInRange. cbn. repeat split; discriminate.
Defined.

(* ------------------------------------------------------------------ *)
(** ** One occlusion update *)

(** X5.  An occlusion update keeps the parameters it replaces as the
    previous parameters, stamps the entry with the current time, marks the
    parameters valid and leaves the reverb send, the reflection taps, the
    distance and the effective LOD alone.  With a material table in range
    the stored occlusion and transmission gain lie in 0..1, the gain is at
    least the transmission-free share 1 - occlusion, and the low-pass
    cutoff lies between 250 Hz and 20 kHz. *)
Theorem X5_occlusion_update_ranges :
  forall cfg maps w now Entry,
    Forall (fun p => MaterialInRange (snd p)) maps ->
    let Entry' := OcclusionUpdate cfg maps w now Entry in
    let P := CurrentParams Entry' in
    PreviousParams Entry' = CurrentParams Entry /\
    LastOcclusionUpdateTime Entry' = now /\
    LastReflectionUpdateTime Entry' = LastReflectionUpdateTime Entry /\
    EffectiveLOD Entry' = EffectiveLOD Entry /\
    bIsValid P = true /\
    ReverbSend P = ReverbSend (CurrentParams Entry) /\
    EarlyReflections P = EarlyReflections (CurrentParams Entry) /\
    Params_Distance P = Params_Distance (CurrentParams Entry) /\
    (0 <= Occlusion P <= 1)%Q /\
    (1 - Occlusion P <= TransmissionGain P <= 1)%Q /\
    (250 <= LowPassCutoff P <= 20000)%Q.
Proof.
  intros cfg maps w now Entry Hmaps. cbv zeta.
  unfold OcclusionUpdate, TraceOcclusion.
  destruct (OcclusionTrace w (SourceComponent Entry)) as [hr|].
  - cbn [set_PreviousParams set_CurrentParams set_LastOcclusionUpdateTime
           set_occlusion CurrentParams PreviousParams LastOcclusionUpdateTime
           LastReflectionUpdateTime EffectiveLOD bIsValid ReverbSend
           EarlyReflections Params_Distance Occlusion TransmissionGain
           LowPassCutoff bIsValidHit Material].
    repeat (split; [reflexivity|]).
    pose proof (GetAcousticMaterial_in_range maps (PhysMaterial hr) Hmaps)
      as (_ & _ & Hh & Ht & _).
    set (m := GetAcousticMaterial maps (PhysMaterial hr)) in *.
    unfold ComputeOcclusionFactor. cbn [bIsValidHit negb Material].
    fold (FMath.clamp01 ((1 - Transmission m) * RealismFactor cfg)).
    pose proof (FMathFacts.clamp01_range ((1 - Transmission m) * RealismFactor cfg))
      as Hocc.
    set (occ := FMath.clamp01 ((1 - Transmission m) * RealismFactor cfg)) in *.
    unfold ComputeLPFFromOcclusion, FMath.Lerp,
      AcousticConstants.DefaultLPFCutoff, AcousticConstants.OccludedLPFCutoff.
    repeat split; try tauto; nra.
  - cbn [set_PreviousParams set_CurrentParams set_LastOcclusionUpdateTime
           set_occlusion CurrentParams PreviousParams LastOcclusionUpdateTime
           LastReflectionUpdateTime EffectiveLOD bIsValid ReverbSend
           EarlyReflections Params_Distance Occlusion TransmissionGain
           LowPassCutoff bIsValidHit Material].
    repeat (split; [reflexivity|]).
    unfold ComputeLPFFromOcclusion, FMath.Lerp,
      AcousticConstants.DefaultLPFCutoff, AcousticConstants.OccludedLPFCutoff.
    repeat split; try discriminate; lra.
Qed.

Lemma X5_occlusion_update_ranges_witness :
  let Entry' := OcclusionUpdate UAcousticSettings_default concrete_mappings
                  world_concrete_wall 0 entry_fresh in
  let P := CurrentParams Entry' in
  PreviousParams Entry' = CurrentParams entry_fresh /\
  LastOcclusionUpdateTime Entry' = 0%Q /\
  LastReflectionUpdateTime Entry' = LastReflectionUpdateTime entry_fresh /\
  EffectiveLOD Entry' = EffectiveLOD entry_fresh /\
  bIsValid P = true /\
  ReverbSend P = ReverbSend (CurrentParams entry_fresh) /\
  EarlyReflections P = EarlyReflections (CurrentParams entry_fresh) /\
  Params_Distance P = Params_Distance (CurrentParams entry_fresh) /\
  (0 <= Occlusion P <= 1)%Q /\
  (1 - Occlusion P <= TransmissionGain P <= 1)%Q /\
  (250 <= LowPassCutoff P <= 20000)%Q.
Proof.
  apply (X5_occlusion_update_ranges UAcousticSettings_default concrete_mappings
           world_concrete_wall 0%Q entry_fresh).
  constructor; [|constructor].
  unfold MaterialInRange. cbn. repeat split; discriminate.
Defined.

(* ------------------------------------------------------------------ *)
(** ** The occlusion cache *)

Lemma OcclusionUpdate_time cfg maps w now Entry :
  LastOcclusionUpdateTime (OcclusionUpdate cfg maps w now Entry) = now /\
  bIsValid (CurrentParams (OcclusionUpdate cfg maps w now Entry)) = true.
Proof.
  unfold OcclusionUpdate.
  destruct (TraceOcclusion cfg maps (OcclusionTrace w (SourceComponent Entry))
              FAcousticRayHit_default) as [occ hit].
  split; reflexivity.
Qed.

Lemma OcclusionLoop_skips cfg maps w now Sources :
  forall b log,
    Forall2 (fun p p' =>
               fst p' = fst p /\
               (OcclusionSkips cfg w now (snd p) = true -> snd p' = snd p))
      Sources (fst (fst (OcclusionLoop cfg maps w now Sources b log))).
Proof.
  assert (Hrefl : forall l : list (Z * FAcousticSourceEntry),
             Forall2 (fun p p' =>
               fst p' = fst p /\
               (OcclusionSkips cfg w now (snd p) = true -> snd p' = snd p)) l l).
  { induction l; constructor; auto. }
  induction Sources as [|[k e] rest IH]; intros b log; [constructor|].
  rewrite OcclusionLoop_cons.
  destruct (LOD_eqb (EffectiveLOD e) LOD_Off) eqn:E1.
  { cbn [cons_result fst snd]. constructor; [auto | apply IH]. }
  destruct (TotalRaysUsed b >=? TotalRaysBudget b); [apply Hrefl|].
  destruct (Component w (SourceComponent e)) eqn:E2.
  2:{ cbn [cons_result fst snd]. constructor; [auto | apply IH]. }
  destruct (FMath.Qltb (now - LastOcclusionUpdateTime e)
              (inject_Z (OcclusionCacheFrames cfg) / 60)
            && bIsValid (CurrentParams e)) eqn:E3.
  - cbn [cons_result fst snd]. constructor; [auto | apply IH].
  - cbn [cons_result fst snd]. constructor; [|apply IH].
    split; [reflexivity|]. cbn [snd]. unfold OcclusionSkips.
    rewrite E1, E2, E3. discriminate.
Qed.

(** X6.  An entry whose occlusion was traced at time t is skipped by every
    occlusion pass that runs less than OcclusionCacheFrames / 60 seconds
    later; a pass leaves every entry it skips (LOD Off, dead component, or
    valid parameters younger than the cache time) exactly as it was; and a
    pass over a registry of such entries casts no ray and changes nothing,
    whatever budget is left. *)
Theorem X6_occlusion_cache :
  forall cfg maps w,
    (forall t t' Entry,
       (t' - t < OcclusionCacheTime cfg)%Q ->
       OcclusionSkips cfg w t' (OcclusionUpdate cfg maps w t Entry) = true) /\
    (forall now Sources b log,
       Forall2 (fun p p' =>
                  fst p' = fst p /\
                  (OcclusionSkips cfg w now (snd p) = true -> snd p' = snd p))
         Sources (fst (fst (OcclusionLoop cfg maps w now Sources b log)))) /\
    (forall now Sources b log,
       Forall (fun p => OcclusionSkips cfg w now (snd p) = true) Sources ->
       OcclusionLoop cfg maps w now Sources b log = (Sources, b, log)).
Proof.
  intros cfg maps w. split; [|split].
  - intros t t' Entry Hlt. unfold OcclusionSkips.
    destruct (OcclusionUpdate_time cfg maps w t Entry) as [-> ->].
    apply FMathFacts.Qltb_lt in Hlt. unfold OcclusionCacheTime in Hlt.
    rewrite Hlt. rewrite !orb_true_r. reflexivity.
  - intros now Sources b log. apply OcclusionLoop_skips.
  - intros now Sources. induction Sources as [|[k e] rest IH];
      intros b log Hall; [reflexivity|].
    inversion Hall as [|p l Hp Hrest]; subst. cbn [snd] in Hp.
    rewrite OcclusionLoop_cons. unfold OcclusionSkips in Hp.
    destruct (LOD_eqb (EffectiveLOD e) LOD_Off).
    { rewrite (IH b log Hrest). reflexivity. }
    destruct (TotalRaysUsed b >=? TotalRaysBudget b); [reflexivity|].
    destruct (Component w (SourceComponent e)).
    2:{ rewrite (IH b log Hrest). reflexivity. }
    cbn [orb] in Hp. rewrite Hp. rewrite (IH b log Hrest). reflexivity.
Qed.

Lemma X6_occlusion_cache_witness :
  OcclusionSkips UAcousticSettings_default world_concrete_wall (1 # 100)
    (OcclusionUpdate UAcousticSettings_default concrete_mappings
       world_concrete_wall 0 entry_fresh) = true.
Proof.
  apply (proj1 (X6_occlusion_cache UAcousticSettings_default concrete_mappings
                  world_concrete_wall) 0%Q (1 # 100)%Q entry_fresh).
  vm_compute. reflexivity.
Defined.

Lemma TMap_Find_Set {V} k k' (v : V) m :
  TMap_Find k' (TMap_Set k v m)
  = if k =? k'
    then match TMap_Find k m with Some _ => Some v | None => None end
    else TMap_Find k' m.
Proof.
  induction m as [|[k1 v1] m IH]; cbn [TMap_Set TMap_Find].
  - destruct (k =? k'); reflexivity.
  - destruct (Z.eqb_spec k1 k) as [->|Hne]; cbn [TMap_Find].
    + destruct (k =? k'); reflexivity.
    + rewrite IH. destruct (Z.eqb_spec k k') as [<-|Hne'].
      * apply Z.eqb_neq in Hne. rewrite Hne. reflexivity.
      * reflexivity.
Qed.

(** X7.  ForceSourceUpdate of an unknown identifier changes nothing.  For
    a registered one it zeroes the two update times of that entry and
    nothing else: every identifier still has the parameters it had, every
    other entry is untouched, and the entry's cache test in the next
    occlusion pass fails at any time at or after the cache time, so that
    the pass cannot take it from the cache. *)
Theorem X7_force_source_update :
  forall (s : Engine) (id : Z),
    let s' := ForceSourceUpdate id s in
    (forall k, GetSourceParams k s' = GetSourceParams k s) /\
    (forall k, k <> id ->
       TMap_Find k (RegisteredSources s') = TMap_Find k (RegisteredSources s)) /\
    match TMap_Find id (RegisteredSources s) with
    | None => s' = s
    | Some Entry =>
        TMap_Find id (RegisteredSources s')
        = Some (set_LastReflectionUpdateTime 0 (set_LastOcclusionUpdateTime 0 Entry)) /\
        forall cfg now Entry',
          TMap_Find id (RegisteredSources s') = Some Entry' ->
          (OcclusionCacheTime cfg <= now)%Q ->
          FMath.Qltb (now - LastOcclusionUpdateTime Entry') (OcclusionCacheTime cfg)
          && bIsValid (CurrentParams Entry') = false
    end.
Proof.
  intros s id s'. unfold s', ForceSourceUpdate, GetSourceParams.
  destruct (TMap_Find id (RegisteredSources s)) as [e|] eqn:E.
  - cbn [set_RegisteredSources RegisteredSources].
    split; [|split; [|split]].
    + intros k. rewrite TMap_Find_Set, E.
      destruct (Z.eqb_spec id k) as [<-|Hne]; [rewrite E|]; reflexivity.
    + intros k Hk. rewrite TMap_Find_Set.
      destruct (Z.eqb_spec id k); [congruence | reflexivity].
    + rewrite TMap_Find_Set, Z.eqb_refl, E. reflexivity.
    + intros cfg now e'. rewrite TMap_Find_Set, Z.eqb_refl, E.
      intros [= <-] Hle.
      cbn [set_LastReflectionUpdateTime set_LastOcclusionUpdateTime
             LastOcclusionUpdateTime].
      apply andb_false_iff. left. apply FMathFacts.Qltb_ge.
      unfold Qminus. rewrite Qplus_0_r. exact Hle.
  - split; [|split]; reflexivity.
Qed.

Lemma X7_force_source_update_witness :
  let s := fst (RegisterSource (Some (0%nat, source_default))
                  (Engine_init UAcousticSettings_default)) in
  FMath.Qltb (1 - LastOcclusionUpdateTime
                    (set_LastReflectionUpdateTime 0
                       (set_LastOcclusionUpdateTime 0 entry_fresh)))
    (OcclusionCacheTime UAcousticSettings_default)
  && bIsValid (CurrentParams
                 (set_LastReflectionUpdateTime 0
                    (set_LastOcclusionUpdateTime 0 entry_fresh))) = false.
Proof.
  intros s.
  pose proof (X7_force_source_update s 1) as (_ & _ & H).
  change (TMap_Find 1 (RegisteredSources s)) with (Some entry_fresh) in H.
  destruct H as [Hfind Hgate].
  apply (Hgate UAcousticSettings_default 1%Q _ Hfind).
  vm_compute. discriminate.
Defined.

(* ------------------------------------------------------------------ *)
(** ** The LOD pass, source by source *)

Lemma Downgrade_LODProps cfg Source Distance a h :
  LODProps cfg Source Distance
    (fst (fst (BudgetDowngrade cfg
                 (DistanceDowngrade cfg Distance (AcousticLOD Source)) a h))).
Proof.
  unfold LODProps, DistanceDowngrade, BudgetDowngrade.
  destruct (FMath.Qltb (OffLODDistance cfg) Distance) eqn:Eoff.
  - cbn. repeat split; intros.
    + destruct (AcousticLOD Source); cbn; lia.
    + lia.
    + apply FMathFacts.Qltb_lt in Eoff. exfalso.
      apply (Qlt_irrefl Distance). eapply Qle_lt_trans; eassumption.
  - assert (Hoff : ~ (OffLODDistance cfg < Distance)%Q).
    { intros H. apply FMathFacts.Qltb_lt in H. congruence. }
    destruct (FMath.Qltb (BasicLODDistance cfg) Distance) eqn:Ebasic.
    + destruct (AcousticLOD Source); cbn;
        repeat split; intros; try tauto; try lia; try reflexivity.
    + assert (Hbasic : ~ (BasicLODDistance cfg < Distance)%Q).
      { intros H. apply FMathFacts.Qltb_lt in H. congruence. }
      destruct (AcousticLOD Source); cbn;
        destruct (h >=? MaxHeroSources cfg); cbn;
        destruct (a >=? MaxAdvancedSources cfg); cbn;
        repeat split; intros; try tauto; try lia; try reflexivity.
Qed.

Lemma set_EffectiveLOD_twice l b l' b' e :
  set_EffectiveLOD l' b' (set_EffectiveLOD l b e) = set_EffectiveLOD l' b' e.
Proof. reflexivity. Qed.

Lemma LODRel_weaken cfg w processed k l1 l :
  ~ In k (map fst l1) ->
  Forall2 (LODRel cfg w processed) l1 l ->
  Forall2 (LODRel cfg w (k :: processed)) l1 l.
Proof.
  intros Hk H. induction H as [|p1 p l1 l Hp Hl IH]; [constructor|].
  cbn [map In] in Hk. constructor; [|apply IH; tauto].
  destruct Hp as (H1 & H2 & H3 & H4). repeat split; try assumption.
  intros [Heq|Hin]; [exfalso; apply Hk; left; congruence | exact (H4 Hin)].
Qed.

Lemma LODRel_step cfg w processed k l1 l :
  NoDup (map fst l1) ->
  Forall2 (LODRel cfg w processed) l1 l ->
  match TMap_Find k l with
  | None => Forall2 (LODRel cfg w (k :: processed)) l1 l
  | Some Entry =>
      forall e',
        (forall p1, LODRel cfg w processed p1 (k, Entry) ->
                    LODRel cfg w (k :: processed) p1 (k, e')) ->
        Forall2 (LODRel cfg w (k :: processed)) l1 (TMap_Set k e' l)
  end.
Proof.
  intros Hnd H. induction H as [|p1 [k1 e] l1 l Hp Hl IH]; [constructor|].
  cbn [map] in Hnd. inversion Hnd as [|x xs Hnotin Hnd']; subst.
  cbn [TMap_Find TMap_Set].
  assert (Hk1 : k1 = fst p1) by (destruct Hp as (H1 & _); exact H1).
  destruct (Z.eqb_spec k1 k) as [->|Hne].
  - intros e' He'. constructor; [apply He'; exact Hp|].
    apply LODRel_weaken; [|exact Hl]. rewrite Hk1. exact Hnotin.
  - specialize (IH Hnd').
    assert (Hhead : LODRel cfg w (k :: processed) p1 (k1, e)).
    { destruct Hp as (H1 & H2 & H3 & H4). repeat split; try assumption.
      intros [Heq|Hin]; [cbn [fst] in H1; congruence | exact (H4 Hin)]. }
    destruct (TMap_Find k l) as [Entry|].
    + intros e' He'. constructor; [exact Hhead | apply IH; exact He'].
    + constructor; assumption.
Qed.

Lemma TMap_Set_same {V} k (v : V) m : TMap_Find k m = Some v -> TMap_Set k v m = m.
Proof.
  induction m as [|[k1 v1] m IH]; cbn [TMap_Find TMap_Set]; [reflexivity|].
  destruct (k1 =? k); [intros [= ->]; reflexivity|].
  intros H. rewrite (IH H). reflexivity.
Qed.

Lemma AssignLOD_LODRel cfg w l1 processed st SortedPair :
  NoDup (map fst l1) ->
  Forall2 (LODRel cfg w processed) l1 (fst (fst st)) ->
  Forall2 (LODRel cfg w (fst SortedPair :: processed)) l1
    (fst (fst (AssignLOD cfg w st SortedPair))).
Proof.
  intros Hnd H. destruct st as [[Sources a] h]. cbn [fst] in H.
  pose proof (LODRel_step cfg w processed (fst SortedPair) l1 Sources Hnd H) as Hstep.
  unfold AssignLOD.
  destruct (TMap_Find (fst SortedPair) Sources) as [Entry|] eqn:Ef;
    [|exact Hstep].
  destruct (Component w (SourceComponent Entry)) as [Source|] eqn:Ec.
  - destruct (BudgetDowngrade cfg
                (DistanceDowngrade cfg (Params_Distance (CurrentParams Entry))
                   (AcousticLOD Source)) a h) as [[l a'] h'] eqn:Eb.
    cbn [fst]. apply Hstep. intros p1 (H1 & (l0 & b0 & H2) & H3 & H4).
    cbn [fst snd] in *. subst Entry.
    cbn [set_EffectiveLOD SourceComponent CurrentParams] in Ec, Eb.
    repeat split.
    + exact H1.
    + exists l, (negb (LOD_eqb l LOD_Off)). reflexivity.
    + intros Hdead. congruence.
    + intros _ Source' Hs'. rewrite Ec in Hs'. injection Hs' as <-.
      exists l. split; [reflexivity|].
      pose proof (Downgrade_LODProps cfg Source
                    (Params_Distance (CurrentParams (snd p1))) a h) as Hp.
      rewrite Eb in Hp. exact Hp.
  - cbn [fst]. rewrite <- (TMap_Set_same _ _ _ Ef). apply Hstep.
    intros p1 (H1 & (l0 & b0 & H2) & H3 & H4). cbn [fst snd] in *.
    repeat split; try assumption; [exists l0, b0; exact H2|].
    intros _ Source Hs. subst Entry.
    cbn [set_EffectiveLOD SourceComponent] in Ec. congruence.
Qed.

Lemma AssignLOD_fold_LODRel cfg w l1 SortedSources :
  NoDup (map fst l1) ->
  forall processed st,
    Forall2 (LODRel cfg w processed) l1 (fst (fst st)) ->
    Forall2 (LODRel cfg w (rev (map fst SortedSources) ++ processed)) l1
      (fst (fst (fold_left (AssignLOD cfg w) SortedSources st))).
Proof.
  intros Hnd. induction SortedSources as [|sp rest IH]; intros processed st H;
    [exact H|].
  cbn [fold_left map rev]. rewrite <- app_assoc. cbn [app].
  apply IH. apply AssignLOD_LODRel; assumption.
Qed.

Lemma set_EffectiveLOD_same e :
  set_EffectiveLOD (EffectiveLOD e) (bIsAudible e) e = e.
Proof. destruct e. reflexivity. Qed.

Lemma ScoreEntry_keys w Sources :
  map fst (map fst (map (ScoreEntry w) Sources)) = map fst Sources.
Proof.
  induction Sources as [|p rest IH]; [reflexivity|].
  cbn [map]. rewrite IH. f_equal. apply ScoreEntry_shape.
Qed.

Lemma ScoreEntry_sorted_keys w Sources k e Source :
  In (k, e) Sources -> Component w (SourceComponent e) = Some Source ->
  In k (map fst (flat_map snd (map (ScoreEntry w) Sources))).
Proof.
  intros Hin Hc. apply in_map_iff.
  exists (k, ComputePriorityScore Source (DistToListener w (SourceComponent e))).
  split; [reflexivity|]. apply in_flat_map.
  exists (ScoreEntry w (k, e)). split; [apply in_map; exact Hin|].
  unfold ScoreEntry. rewrite Hc. left. reflexivity.
Qed.

(** X8.  One pass of UpdateSourcePriorities, source by source (any number
    of sources, any caps): an entry whose component is gone is left exactly
    as it was; a live one gets its distance (at least MinDistance), its
    priority score, an effective LOD and bIsAudible = (LOD is not Off), and
    nothing else is written.  The effective LOD is never above the LOD the
    source is configured with, is Off beyond OffLODDistance, at most Basic
    beyond BasicLODDistance, and a source configured Basic or Off within
    the Off distance keeps its configured LOD whatever the budget. *)
Theorem X8_lod_pass_per_source :
  forall cfg w s,
    NumListeners s <> 0 ->
    NoDup (map fst (RegisteredSources s)) ->
    Forall2 (fun p p' => fst p' = fst p /\ LODGranted cfg w (snd p) (snd p'))
      (RegisteredSources s)
      (RegisteredSources (UpdateSourcePriorities cfg w s)).
Proof.
  intros cfg w s Hl Hnd. unfold UpdateSourcePriorities.
  apply Z.eqb_neq in Hl. rewrite Hl. cbv zeta.
  set (l1 := map fst (map (ScoreEntry w) (RegisteredSources s))).
  set (Sorted := TArray_Sort _ _).
  assert (Hnd1 : NoDup (map fst l1)).
  { unfold l1. rewrite ScoreEntry_keys. exact Hnd. }
  assert (H0 : Forall2 (LODRel cfg w []) l1 (fst (fst (l1, 0, 0)))).
  { cbn [fst]. clear. induction l1 as [|p l IH]; constructor; [|exact IH].
    repeat split.
    - exists (EffectiveLOD (snd p)), (bIsAudible (snd p)).
      symmetry. apply set_EffectiveLOD_same.
    - intros []. }
  pose proof (AssignLOD_fold_LODRel cfg w l1 Sorted Hnd1 [] (l1, 0, 0) H0) as Hfold.
  destruct (fold_left (AssignLOD cfg w) Sorted (l1, 0, 0)) as [[Sources a] h].
  cbn [fst set_RegisteredSources RegisteredSources] in *.
  rewrite app_nil_r in Hfold.
  assert (Hsorted : forall k e Source,
             In (k, e) (RegisteredSources s) ->
             Component w (SourceComponent e) = Some Source ->
             In k (rev (map fst Sorted))).
  { intros k e Source Hin Hc. apply in_rev. rewrite rev_involutive.
    unfold Sorted.
    eapply Permutation_in;
      [apply Permutation_map; symmetry; apply TArray_Sort_perm|].
    eapply ScoreEntry_sorted_keys; eassumption. }
  clearbody Sorted. clear H0 Hnd1 Hl Hnd.
  unfold l1 in Hfold. clear l1.
  revert Sources Hfold Hsorted.
  induction (RegisteredSources s) as [|[k e] regs IH]; intros Sources Hfold Hsorted.
  - inversion Hfold. constructor.
  - cbn [map] in Hfold. inversion Hfold as [|p1 p l1' l' Hp Hrest]; subst.
    constructor.
    + destruct Hp as (H1 & _ & H3 & H4). revert H1 H3 H4.
      unfold ScoreEntry, LODGranted. cbn [snd].
      destruct (Component w (SourceComponent e)) as [Source|] eqn:Ec;
        cbn [fst snd set_PriorityScore set_CurrentParams SourceComponent];
        rewrite ?Ec; intros H1 H3 H4.
      * split; [exact H1|].
        destruct (H4 (Hsorted k e Source (or_introl eq_refl) Ec) Source eq_refl)
          as (l & Heq & Hprops).
        exists l. split; [exact Heq | exact Hprops].
      * split; [exact H1 | apply H3; reflexivity].
    + apply IH; [exact Hrest|].
      intros k' e' Source Hin. apply Hsorted. right. exact Hin.
Qed.

Lemma X8_lod_pass_per_source_witness :
  Forall2 (fun p p' => fst p' = fst p /\
                       LODGranted settings_tight world_two_sources (snd p) (snd p'))
    (RegisteredSources engine_two_sources)
    (RegisteredSources
       (UpdateSourcePriorities settings_tight world_two_sources engine_two_sources)).
Proof.
  apply (X8_lod_pass_per_source settings_tight world_two_sources engine_two_sources).
  - vm_compute. discriminate.
  - vm_compute. repeat constructor; simpl; intuition discriminate.
Defined.

(* ------------------------------------------------------------------ *)
(** ** One reflection update *)

(** X9.  One iteration of the loop of ProcessReflections on an entry with
    its eight taps always completes, and never touches what the occlusion
    pass wrote (occlusion, cutoff, transmission gain, validity, distance,
    previous parameters, occlusion time stamp) nor the effective LOD.  An
    Off source is left as it is; a Basic source gets the zone's default
    reverb send and all taps cleared, without a ray; an Advanced or Hero
    source is either left exactly as it is, previous taps included (budget
    short or component gone), or is stamped with the current time and gets
    a reverb send of default * (1 + density / 2), between the zone's
    default and one and a half times it. *)
Theorem X9_reflection_step :
  forall cfg maps w now k e b log,
    EntryOk e -> (0 <= ZoneDefaultReverbSend w)%Q ->
    exists e' b' log',
      ReflectionStep cfg maps w now k e b log = Some (e', b', log') /\
      (Occlusion (CurrentParams e') = Occlusion (CurrentParams e) /\
       LowPassCutoff (CurrentParams e') = LowPassCutoff (CurrentParams e) /\
       TransmissionGain (CurrentParams e') = TransmissionGain (CurrentParams e) /\
       bIsValid (CurrentParams e') = bIsValid (CurrentParams e) /\
       Params_Distance (CurrentParams e') = Params_Distance (CurrentParams e) /\
       PreviousParams e' = PreviousParams e /\
       LastOcclusionUpdateTime e' = LastOcclusionUpdateTime e /\
       EffectiveLOD e' = EffectiveLOD e) /\
      match EffectiveLOD e with
      | LOD_Off => e' = e /\ b' = b /\ log' = log
      | LOD_Basic =>
          ReverbSend (CurrentParams e') = ZoneDefaultReverbSend w /\
          ValidTapCount (EarlyReflections (CurrentParams e')) = 0 /\
          Forall (fun Tap => Tap_bIsValid Tap = false)
            (Taps (EarlyReflections (CurrentParams e'))) /\
          LastReflectionUpdateTime e' = LastReflectionUpdateTime e /\
          b' = b /\ log' = log
      | LOD_Advanced | LOD_Hero =>
          (e' = e /\ b' = b /\ log' = log) \/
          (LastReflectionUpdateTime e' = now /\
           (ReverbSend (CurrentParams e') ==
            ZoneDefaultReverbSend w
            * (1 + ReflectionDensity (EarlyReflections (CurrentParams e')) / 2))%Q /\
           (ZoneDefaultReverbSend w <= ReverbSend (CurrentParams e')
            <= ZoneDefaultReverbSend w * (3 # 2))%Q)
      end.
Proof.
  intros cfg maps w now k e b log He Hd.
  assert (Hproc :
    forall NumRays,
    exists ER,
      ClusterReflections (SampleReflections maps w NumRays)
        (EarlyReflections (CurrentParams e)) = Some ER /\
      (0 <= ReflectionDensity ER <= 1)%Q).
  { intros NumRays.
    destruct (ClusterReflections_spec (SampleReflections maps w NumRays)
                (EarlyReflections (CurrentParams e)) He)
      as (ER & Sorted & Heq & _ & _ & Hdens & _).
    exists ER. split; [exact Heq|]. rewrite Hdens.
    apply FMathFacts.clamp01_range. }
  assert (Hadv :
    forall NumRays,
    exists e' b' log',
      (if add32 (TotalRaysUsed b) NumRays >? TotalRaysBudget b
       then Some (e, b, log)
       else
         match Component w (SourceComponent e) with
         | None => Some (e, b, log)
         | Some _ =>
             match ClusterReflections (SampleReflections maps w NumRays)
                     (EarlyReflections (CurrentParams e)) with
             | None => None
             | Some ER =>
                 Some (set_LastReflectionUpdateTime now
                         (set_CurrentParams
                            (set_reverb
                               (FMath.Lerp (ZoneDefaultReverbSend w)
                                  (ZoneDefaultReverbSend w * (3 # 2))%Q
                                  (ReflectionDensity ER)) ER (CurrentParams e)) e),
                       count_reflection_rays NumRays b,
                       log ++ map (fun t => ReflectionRay k (fst t))
                                (ReflectionTraces w NumRays))
             end
         end) = Some (e', b', log') /\
      (Occlusion (CurrentParams e') = Occlusion (CurrentParams e) /\
       LowPassCutoff (CurrentParams e') = LowPassCutoff (CurrentParams e) /\
       TransmissionGain (CurrentParams e') = TransmissionGain (CurrentParams e) /\
       bIsValid (CurrentParams e') = bIsValid (CurrentParams e) /\
       Params_Distance (CurrentParams e') = Params_Distance (CurrentParams e) /\
       PreviousParams e' = PreviousParams e /\
       LastOcclusionUpdateTime e' = LastOcclusionUpdateTime e /\
       EffectiveLOD e' = EffectiveLOD e) /\
      ((e' = e /\ b' = b /\ log' = log) \/
       (LastReflectionUpdateTime e' = now /\
        (ReverbSend (CurrentParams e') ==
         ZoneDefaultReverbSend w
         * (1 + ReflectionDensity (EarlyReflections (CurrentParams e')) / 2))%Q /\
        (ZoneDefaultReverbSend w <= ReverbSend (CurrentParams e')
         <= ZoneDefaultReverbSend w * (3 # 2))%Q))).
  { intros NumRays.
    destruct (add32 (TotalRaysUsed b) NumRays >? TotalRaysBudget b).
    { exists e, b, log. repeat split; left; repeat split. }
    destruct (Component w (SourceComponent e)).
    2:{ exists e, b, log. repeat split; left; repeat split. }
    destruct (Hproc NumRays) as (ER & -> & Hrange).
    eexists _, _, _. split; [reflexivity|].
    cbn [set_LastReflectionUpdateTime set_CurrentParams set_reverb CurrentParams
           Occlusion LowPassCutoff TransmissionGain bIsValid Params_Distance
           PreviousParams LastOcclusionUpdateTime EffectiveLOD
           LastReflectionUpdateTime ReverbSend EarlyReflections].
    split; [repeat split|]. right. split; [reflexivity|].
    unfold FMath.Lerp. set (d := ZoneDefaultReverbSend w) in *.
    set (r := ReflectionDensity ER) in *.
    split; [field | split; nra]. }
  unfold ReflectionStep.
  destruct (EffectiveLOD e) eqn:El; cbn [LOD_eqb LOD_rank Z.eqb negb andb Pos.eqb].
  - exists e, b, log. rewrite El. repeat split.
  - eexists _, _, _. split; [reflexivity|].
    cbn [set_CurrentParams set_reverb CurrentParams Occlusion LowPassCutoff
           TransmissionGain bIsValid Params_Distance PreviousParams
           LastOcclusionUpdateTime EffectiveLOD LastReflectionUpdateTime
           ReverbSend EarlyReflections ER_Reset ValidTapCount Taps].
    rewrite El. repeat split.
    apply Forall_forall. intros t Ht. apply in_map_iff in Ht.
    destruct Ht as (? & <- & _). reflexivity.
  - destruct (Hadv (NumRaysFor cfg LOD_Advanced)) as (e' & b' & log' & H1 & H2 & H3).
    exists e', b', log'. rewrite <- El in H2 at 1. rewrite El in H2. auto.
  - destruct (Hadv (NumRaysFor cfg LOD_Hero)) as (e' & b' & log' & H1 & H2 & H3).
    exists e', b', log'. auto.
Qed.

Lemma X9_reflection_step_witness :
  exists e' b' log',
    ReflectionStep UAcousticSettings_default concrete_mappings world_room 0 1
      entry_fresh (CurrentBudget (Engine_init UAcousticSettings_default)) []
    = Some (e', b', log').
Proof.
  destruct (X9_reflection_step UAcousticSettings_default concrete_mappings
              world_room 0%Q 1 entry_fresh
              (CurrentBudget (Engine_init UAcousticSettings_default)) [])
    as (e' & b' & log' & H & _).
  - reflexivity.
  - vm_compute. discriminate.
  - exists e', b', log'. exact H.
Defined.

(* ------------------------------------------------------------------ *)
(** ** The taps of a cluster *)

Lemma skipn_nth_error {A} (l : list A) i x :
  nth_error l i = Some x -> skipn i l = x :: skipn (S i) l.
Proof.
  revert i. induction l as [|y l IH]; intros [|i] H; try discriminate.
  - injection H as ->. reflexivity.
  - cbn [nth_error] in H. cbn [skipn]. rewrite (IH i H). reflexivity.
Qed.

Lemma TapLoop_total (n : nat) :
  forall i SortedHits taps TotalDelay r,
    TapLoop n i SortedHits taps TotalDelay = Some r ->
    snd r = SumDelays (firstn n (skipn i SortedHits)) TotalDelay.
Proof.
  induction n as [|n IH]; intros i hits taps total r H; cbn [TapLoop] in H.
  - injection H as <-. reflexivity.
  - cbv zeta in H. destruct (nth_error hits i) as [Hit|] eqn:En; [|discriminate].
    destruct (TArray_write i (MakeTap Hit) taps) as [taps'|]; [|discriminate].
    rewrite (IH _ _ _ _ _ H), (skipn_nth_error _ _ _ En). reflexivity.
Qed.

Lemma SumDelays_bounds lo hi Hits :
  Forall (fun h => lo <= DelayMs (MakeTap h) <= hi)%Q Hits ->
  forall TotalDelay,
    (TotalDelay + inject_Z (Z.of_nat (length Hits)) * lo
     <= SumDelays Hits TotalDelay
     <= TotalDelay + inject_Z (Z.of_nat (length Hits)) * hi)%Q.
Proof.
  induction 1 as [|h l Hh Hl IH]; intros total.
  - unfold SumDelays. cbn [length fold_left Z.of_nat].
    change (inject_Z 0) with 0%Q. split; lra.
  - change (SumDelays (h :: l) total)
      with (SumDelays l (total + DelayMs (MakeTap h))%Q).
    specialize (IH (total + DelayMs (MakeTap h))%Q).
    cbn [length]. rewrite Nat2Z.inj_succ. unfold Z.succ. rewrite inject_Z_plus.
    set (n := inject_Z (Z.of_nat (length l))) in *.
    change (inject_Z 1) with 1%Q.
    split; nra.
Qed.

(** The result of [ClusterReflections], written out. *)
Lemma ClusterReflections_taps Hits OutParams :
  length (Taps OutParams) = Z.to_nat MaxTaps ->
  let Sorted := TArray_Sort (fun A B => FMath.Qltb (Distance A) (Distance B)) Hits in
  let n := Nat.min (length Hits) 8 in
  exists Result,
    ClusterReflections Hits OutParams = Some Result /\
    ValidTapCount Result = Z.of_nat n /\
    Taps Result
    = map MakeTap (firstn n Sorted)
      ++ skipn n (map (fun _ => FReflectionTap_default) (Taps OutParams)) /\
    length (firstn n Sorted) = n /\
    AverageDelayMs Result
    = if 0 <? Z.of_nat n
      then (SumDelays (firstn n Sorted) 0 / inject_Z (Z.of_nat n))%Q
      else 0%Q.
Proof.
  intros Hlen Sorted n. change (Z.to_nat MaxTaps) with 8%nat in Hlen.
  assert (Hsl : length Sorted = length Hits)
    by (apply Permutation_length; apply TArray_Sort_perm).
  unfold ClusterReflections.
  destruct (Z.of_nat (length Hits) =? 0) eqn:E0.
  - apply Z.eqb_eq in E0. destruct Hits; [|simpl in E0; lia].
    eexists. split; [reflexivity|]. cbn. repeat split.
  - fold Sorted.
    set (NumTaps := Z.min (Z.of_nat (length Sorted)) MaxTaps).
    assert (Hn : Z.to_nat NumTaps = n) by (unfold NumTaps, MaxTaps, n; lia).
    assert (HnZ : NumTaps = Z.of_nat n) by (unfold NumTaps, MaxTaps, n; lia).
    set (taps0 := Taps (ER_Reset OutParams)).
    assert (Hl0 : length taps0 = 8%nat).
    { unfold taps0. simpl. rewrite length_map. exact Hlen. }
    assert (Hn8 : (n <= 8)%nat) by (unfold n; lia).
    assert (HnS : (n <= length Sorted)%nat) by (unfold n; lia).
    rewrite Hn.
    destruct (TapLoop_spec n 0 Sorted taps0 0%Q) as [total E];
      [simpl; lia | simpl; lia |].
    pose proof (TapLoop_total _ _ _ _ _ _ E) as Ht. cbn [snd skipn] in Ht.
    rewrite E. eexists. split; [reflexivity|].
    cbn [ValidTapCount Taps AverageDelayMs firstn skipn app Nat.add].
    split; [exact HnZ|]. split; [reflexivity|].
    split; [apply firstn_length_le; exact HnS|].
    rewrite HnZ, Ht. reflexivity.
Qed.

Lemma MakeTap_ranges Hit :
  (0 <= Distance Hit)%Q -> MaterialInRange (Material Hit) ->
  (0 <= DelayMs (MakeTap Hit) /\ 0 <= Gain (MakeTap Hit) <= 1 # 2 /\
   3000 <= LPFCutoff (MakeTap Hit) <= 20000)%Q.
Proof.
  intros Hd (Hl & Hm & Hh & _). unfold MakeTap.
  cbn [DelayMs Gain LPFCutoff].
  unfold AcousticConstants.SpeedOfSound, AcousticConstants.DefaultLPFCutoff,
    FMath.Lerp, GetAverageAbsorption.
  split; [|split].
  - unfold Qdiv. change (/ 34300)%Q with (1 # 34300)%Q. nra.
  - set (M := FMath.Max (Distance Hit / 100) 1).
    assert (HM : (1 <= M)%Q) by apply FMathFacts.Max_ge_r.
    assert (Hda : (0 <= 1 / M <= 1)%Q).
    { split.
      - apply Qle_shift_div_l; lra.
      - apply Qle_shift_div_r; lra. }
    set (da := (1 / M)%Q) in *.
    set (a := ((LowAbsorption (Material Hit) + MidAbsorption (Material Hit)
                + HighAbsorption (Material Hit)) / 3)%Q).
    assert (Ha : (0 <= a <= 1)%Q).
    { unfold a, Qdiv. change (/ 3)%Q with (1 # 3)%Q. split; nra. }
    assert (Hx : (0 <= da * (1 - a) * (1 # 2) <= 1 # 2)%Q) by (split; nra).
    destruct (FMathFacts.Clamp_spec (da * (1 - a) * (1 # 2)) 0 1)
      as [[Hc ->]|[(_ & _ & ->)|(_ & Hc & ->)]]; lra.
  - split; nra.
Qed.

(** X10.  The taps ClusterReflections writes, for hits at non-negative
    distances on materials in range: the valid taps come in order of
    non-decreasing delay; each has a delay of at least 0, a gain between 0
    and 0.5 and a cutoff between 3 kHz and 20 kHz; and the average delay
    lies within any bounds that hold for the delays of the valid taps. *)
Theorem X10_cluster_taps_ordered :
  forall (Hits : list FAcousticRayHit) (OutParams : FEarlyReflectionParams),
    length (Taps OutParams) = Z.to_nat MaxTaps ->
    Forall (fun h => (0 <= Distance h)%Q /\ MaterialInRange (Material h)) Hits ->
    exists Result,
      ClusterReflections Hits OutParams = Some Result /\
      (forall i j Ti Tj,
         (i <= j)%nat -> Z.of_nat j < ValidTapCount Result ->
         nth_error (Taps Result) i = Some Ti ->
         nth_error (Taps Result) j = Some Tj ->
         (DelayMs Ti <= DelayMs Tj)%Q) /\
      (forall i T,
         Z.of_nat i < ValidTapCount Result ->
         nth_error (Taps Result) i = Some T ->
         Tap_bIsValid T = true /\
         (0 <= DelayMs T /\ 0 <= Gain T <= 1 # 2 /\
          3000 <= LPFCutoff T <= 20000)%Q) /\
      (forall lo hi,
         0 < ValidTapCount Result ->
         (forall i T, Z.of_nat i < ValidTapCount Result ->
                      nth_error (Taps Result) i = Some T ->
                      (lo <= DelayMs T <= hi)%Q) ->
         (lo <= AverageDelayMs Result <= hi)%Q).
Proof.
  intros Hits OutParams Hlen Hall.
  destruct (ClusterReflections_taps Hits OutParams Hlen)
    as (Result & Heq & Hcount & Htaps & Hfl & Havg).
  set (Sorted := TArray_Sort (fun A B => FMath.Qltb (Distance A) (Distance B)) Hits)
    in *.
  set (n := Nat.min (length Hits) 8) in *.
  assert (Hsorted : StronglySorted nearer_or_equal Sorted)
    by apply SortedHits_ascending.
  assert (HallS : Forall (fun h => (0 <= Distance h)%Q /\
                                   MaterialInRange (Material h)) Sorted).
  { eapply Permutation_Forall; [symmetry; apply TArray_Sort_perm | exact Hall]. }
  assert (Hnth : forall i T, Z.of_nat i < ValidTapCount Result ->
             nth_error (Taps Result) i = Some T ->
             exists Hit, nth_error Sorted i = Some Hit /\ T = MakeTap Hit).
  { intros i T Hi HT. rewrite Hcount in Hi. rewrite Htaps in HT.
    rewrite nth_error_app1 in HT by (rewrite length_map, Hfl; lia).
    rewrite nth_error_map, nth_error_firstn in HT.
    assert (Hlt : (i <? n)%nat = true) by (apply Nat.ltb_lt; lia).
    rewrite Hlt in HT. destruct (nth_error Sorted i) as [Hit|]; [|discriminate].
    injection HT as <-. exists Hit. split; reflexivity. }
  exists Result. split; [exact Heq|]. split; [|split].
  - intros i j Ti Tj Hij Hj HTi HTj.
    destruct (Hnth i Ti ltac:(lia) HTi) as (Hi' & Hni & ->).
    destruct (Hnth j Tj Hj HTj) as (Hj' & Hnj & ->).
    assert (Hd : (Distance Hi' <= Distance Hj')%Q).
    { destruct (Nat.eq_dec i j) as [->|Hne].
      - rewrite Hni in Hnj. injection Hnj as ->. apply Qle_refl.
      - clear - Hsorted Hni Hnj Hij Hne.
        assert (Hlt : (i < j)%nat) by lia. clear Hij Hne.
        revert i j Hni Hnj Hlt.
        induction Hsorted as [|x l Hs IH Hx]; intros i j Hni Hnj Hlt;
          [destruct i; discriminate|].
        destruct j as [|j]; [lia|]. cbn [nth_error] in Hnj.
        destruct i as [|i].
        + injection Hni as ->. rewrite Forall_forall in Hx.
          apply Hx. eapply nth_error_In; exact Hnj.
        + cbn [nth_error] in Hni. apply (IH i j Hni Hnj). lia. }
    unfold MakeTap. cbn [DelayMs]. unfold AcousticConstants.SpeedOfSound, Qdiv.
    change (/ 34300)%Q with (1 # 34300)%Q. nra.
  - intros i T Hi HT. destruct (Hnth i T Hi HT) as (Hit & Hn & ->).
    split; [reflexivity|].
    rewrite Forall_forall in HallS.
    destruct (HallS Hit (nth_error_In _ _ Hn)) as [Hd Hm].
    apply MakeTap_ranges; assumption.
  - intros lo hi Hpos Hb. rewrite Havg. rewrite Hcount in Hpos.
    apply Z.ltb_lt in Hpos. rewrite Hpos. apply Z.ltb_lt in Hpos.
    assert (Hbounds : Forall (fun h => lo <= DelayMs (MakeTap h) <= hi)%Q
                        (firstn n Sorted)).
    { apply Forall_forall. intros h Hin.
      apply In_nth_error in Hin. destruct Hin as [i Hi].
      assert (Hin : (i < n)%nat).
      { rewrite <- Hfl. apply nth_error_Some. congruence. }
      apply (Hb i (MakeTap h)); [rewrite Hcount; lia|].
      rewrite Htaps, nth_error_app1 by (rewrite length_map, Hfl; lia).
      rewrite nth_error_map, Hi. reflexivity. }
    pose proof (SumDelays_bounds lo hi _ Hbounds 0%Q) as Hsum.
    rewrite Hfl in Hsum.
    assert (Hn0 : (0 < inject_Z (Z.of_nat n))%Q).
    { change 0%Q with (inject_Z 0). rewrite <- Zlt_Qlt. exact Hpos. }
    set (N := inject_Z (Z.of_nat n)) in *.
    set (S := SumDelays (firstn n Sorted) 0) in *.
    split.
    + apply Qle_shift_div_l; [exact Hn0 | lra].
    + apply Qle_shift_div_r; [exact Hn0 | lra].
Qed.

Lemma X10_cluster_taps_ordered_witness :
  exists Result,
    ClusterReflections hits_sample FEarlyReflectionParams_new = Some Result.
Proof.
  destruct (X10_cluster_taps_ordered hits_sample FEarlyReflectionParams_new)
    as (Result & H & _).
  - reflexivity.
  - unfold hits_sample, hit_at, MaterialInRange.
    repeat constructor; cbn; discriminate.
  - exists Result. exact H.
Defined.

(* ------------------------------------------------------------------ *)
(** ** The conversions of namespace AcousticUtils *)

(** X11.  Decibels and linear gain: converting a level to a gain and back
    gives the level; converting a positive gain to a level and back gives
    the gain; a gain is always positive, 0 dB is gain 1, and a higher level
    is a larger gain.  A gain of 0 or less is reported as -100 dB, which
    converts back to the gain 10^-5 and not to 0. *)
Theorem X11_db_linear_round_trip :
  (forall Db, AcousticUtility.LinearToDb (AcousticUtility.DbToLinear Db) = Db) /\
  (forall Linear, (0 < Linear)%R ->
     AcousticUtility.DbToLinear (AcousticUtility.LinearToDb Linear) = Linear) /\
  (forall Db, (0 < AcousticUtility.DbToLinear Db)%R) /\
  AcousticUtility.DbToLinear 0 = 1%R /\
  (forall Db1 Db2, (Db1 < Db2)%R ->
     (AcousticUtility.DbToLinear Db1 < AcousticUtility.DbToLinear Db2)%R) /\
  (forall Linear, (Linear <= 0)%R ->
     AcousticUtility.LinearToDb Linear = (-100)%R /\
     AcousticUtility.DbToLinear (AcousticUtility.LinearToDb Linear)
     = Rpower 10 (-5) /\
     (0 < Rpower 10 (-5))%R).
Proof.
  pose proof MasterEffectFacts.ln_10_bounds as [Hln _].
  assert (Hpos : forall Db, (0 < AcousticUtility.DbToLinear Db)%R).
  { intros Db. unfold AcousticUtility.DbToLinear, MasterEffect.Pow10, Rpower.
    apply exp_pos. }
  split; [|split; [|split; [|split; [|split]]]].
  - intros Db. unfold AcousticUtility.LinearToDb.
    destruct (Rle_dec (AcousticUtility.DbToLinear Db) 0) as [Hle|_].
    + pose proof (Hpos Db). lra.
    + unfold AcousticUtility.DbToLinear, MasterEffect.Pow10, Rpower.
      rewrite ln_exp. field. lra.
  - intros Linear HL. unfold AcousticUtility.LinearToDb.
    destruct (Rle_dec Linear 0) as [Hle|_]; [lra|].
    unfold AcousticUtility.DbToLinear, MasterEffect.Pow10, Rpower.
    replace (20 * (ln Linear / ln 10) / 20 * ln 10)%R with (ln Linear)
      by (field; lra).
    apply exp_ln. exact HL.
  - exact Hpos.
  - unfold AcousticUtility.DbToLinear. apply MasterEffectFacts.Pow10_0.
  - intros Db1 Db2 Hlt.
    unfold AcousticUtility.DbToLinear, MasterEffect.Pow10, Rpower.
    apply exp_increasing. nra.
  - intros Linear HL. unfold AcousticUtility.LinearToDb.
    destruct (Rle_dec Linear 0) as [_|Hn]; [|lra].
    split; [reflexivity|]. split.
    + unfold AcousticUtility.DbToLinear, MasterEffect.Pow10. f_equal. lra.
    + unfold Rpower. apply exp_pos.
Qed.

Lemma X11_db_linear_round_trip_witness :
  AcousticUtility.DbToLinear (AcousticUtility.LinearToDb 2) = 2%R.
Proof.
  apply (proj1 (proj2 X11_db_linear_round_trip) 2%R). lra.
Defined.

(** X12.  Distance and delay: DistanceToDelayMs and DelayMsToDistance are
    inverse to each other, a longer path is a longer delay, and the delay
    is the one ClusterReflections gives the tap of a hit at that distance
    (distance / 34300 * 1000). *)
Theorem X12_distance_delay_round_trip :
  (forall d, (AcousticUtility.DelayMsToDistance (AcousticUtility.DistanceToDelayMs d)
              == d)%Q) /\
  (forall t, (AcousticUtility.DistanceToDelayMs (AcousticUtility.DelayMsToDistance t)
              == t)%Q) /\
  (forall d1 d2, (d1 <= d2)%Q <->
     (AcousticUtility.DistanceToDelayMs d1 <= AcousticUtility.DistanceToDelayMs d2)%Q) /\
  (forall Hit, (DelayMs (MakeTap Hit)
                == AcousticUtility.DistanceToDelayMs (Distance Hit))%Q).
Proof.
  unfold AcousticUtility.DelayMsToDistance, AcousticUtility.DistanceToDelayMs,
    AcousticUtility.SpeedOfSoundCmPerMs.
  split; [|split; [|split]].
  - intros d. field.
  - intros t. field.
  - intros d1 d2. unfold Qdiv. change (/ (343 # 10))%Q with (10 # 343)%Q.
    split; intros H; lra.
  - intros Hit. unfold MakeTap. cbn [DelayMs].
    unfold AcousticConstants.SpeedOfSound. field.
Qed.

(** X13.  CalculateDistanceAttenuation, for any three numbers: the result
    lies in 0..1; it is 1 at every distance up to the reference distance
    (the first test of the function, so also at a distance at or beyond
    the maximum distance); it is 0 at every distance beyond the reference
    distance that is at or beyond the maximum distance; and it never grows
    with the distance.  With a maximum distance at or below the reference
    distance nothing is divided: the result is 1 up to the reference
    distance and 0 beyond it. *)
Theorem X13_distance_attenuation :
  forall Ref Max,
    (forall D, (0 <= AcousticUtility.CalculateDistanceAttenuation D Ref Max <= 1)%Q) /\
    (forall D, (D <= Ref)%Q ->
       AcousticUtility.CalculateDistanceAttenuation D Ref Max = 1%Q) /\
    (forall D, (Ref < D)%Q -> (Max <= D)%Q ->
       AcousticUtility.CalculateDistanceAttenuation D Ref Max = 0%Q) /\
    (forall D1 D2, (D1 <= D2)%Q ->
       (AcousticUtility.CalculateDistanceAttenuation D2 Ref Max
        <= AcousticUtility.CalculateDistanceAttenuation D1 Ref Max)%Q) /\
    ((Max <= Ref)%Q ->
     forall D, AcousticUtility.CalculateDistanceAttenuation D Ref Max
               = if Qle_bool D Ref then 1%Q else 0%Q).
Proof.
  intros Ref Max.
  assert (Hcases : forall D,
    ((D <= Ref)%Q /\ AcousticUtility.CalculateDistanceAttenuation D Ref Max = 1%Q) \/
    ((Ref < D)%Q /\ (Max <= D)%Q /\
     AcousticUtility.CalculateDistanceAttenuation D Ref Max = 0%Q) \/
    ((Ref < D)%Q /\ (D < Max)%Q /\
     (AcousticUtility.CalculateDistanceAttenuation D Ref Max * (Max - Ref)
      == Max - D)%Q)).
  { intros D. unfold AcousticUtility.CalculateDistanceAttenuation.
    destruct (Qle_bool D Ref) eqn:E1.
    - left. split; [apply Qle_bool_iff; exact E1 | reflexivity].
    - right.
      assert (H1 : (Ref < D)%Q).
      { apply Qnot_le_lt. intros H. apply Qle_bool_iff in H. congruence. }
      destruct (Qle_bool Max D) eqn:E2.
      + left. repeat split; [exact H1 | apply Qle_bool_iff; exact E2].
      + right.
        assert (H2 : (D < Max)%Q).
        { apply Qnot_le_lt. intros H. apply Qle_bool_iff in H. congruence. }
        repeat split; [exact H1 | exact H2 |]. cbv zeta. field. lra. }
  split; [|split; [|split; [|split]]].
  - intros D. destruct (Hcases D) as [[_ ->]|[(_ & _ & ->)|(H1 & H2 & H3)]];
      [split; discriminate | split; discriminate |].
    set (a := AcousticUtility.CalculateDistanceAttenuation D Ref Max) in *.
    split; nra.
  - intros D HD. destruct (Hcases D) as [[_ ->]|[(H & _)|(H & _)]];
      [reflexivity | lra | lra].
  - intros D H1 H2. destruct (Hcases D) as [[H _]|[(_ & _ & ->)|(_ & H & _)]];
      [lra | reflexivity | lra].
  - intros D1 D2 H12.
    destruct (Hcases D1) as [[Ha Ea]|[(Ha1 & Ha2 & Ea)|(Ha1 & Ha2 & Ea)]];
      destruct (Hcases D2) as [[Hb Eb]|[(Hb1 & Hb2 & Eb)|(Hb1 & Hb2 & Eb)]];
      try rewrite Ea; try rewrite Eb; try lra; try discriminate;
      set (a := AcousticUtility.CalculateDistanceAttenuation D1 Ref Max) in *;
      set (b := AcousticUtility.CalculateDistanceAttenuation D2 Ref Max) in *;
      nra.
  - intros Hdeg D.
    destruct (Hcases D) as [[H E]|[(H1 & H2 & E)|(H1 & H2 & _)]].
    + apply Qle_bool_iff in H. rewrite H. exact E.
    + rewrite E. destruct (Qle_bool D Ref) eqn:Eb; [|reflexivity].
      apply Qle_bool_iff in Eb. lra.
    + lra.
Qed.

Lemma X13_distance_attenuation_witness :
  AcousticUtility.CalculateDistanceAttenuation 50 100 5000 = 1%Q.
Proof.
  apply (proj1 (proj2 (X13_distance_attenuation 100 5000)) 50%Q). discriminate.
Defined.

(** X14.  CalculateReflectionDirection about a unit normal: the reflected
    vector is as long as the incident one, its component along the normal
    is the incident one's negated, reflecting it again gives the incident
    vector back, and an incident vector perpendicular to the normal is
    returned unchanged. *)
Theorem X14_reflection_direction :
  forall Incident Normal,
    Hemisphere.DotProduct Normal Normal = 1%R ->
    let Reflected := AcousticUtility.CalculateReflectionDirection Incident Normal in
    Hemisphere.Size Reflected = Hemisphere.Size Incident /\
    Hemisphere.DotProduct Reflected Normal
    = (- Hemisphere.DotProduct Incident Normal)%R /\
    AcousticUtility.CalculateReflectionDirection Reflected Normal = Incident /\
    (Hemisphere.DotProduct Incident Normal = 0%R -> Reflected = Incident).
Proof.
  intros [ix iy iz] [nx ny nz] Hn.
  unfold Hemisphere.DotProduct in Hn. cbn [Hemisphere.Vx Hemisphere.Vy Hemisphere.Vz] in Hn.
  cbv zeta.
  unfold Hemisphere.Size, AcousticUtility.CalculateReflectionDirection,
    Hemisphere.DotProduct.
  cbn [Hemisphere.Vx Hemisphere.Vy Hemisphere.Vz].
  set (d := (ix * nx + iy * ny + iz * nz)%R).
  split; [|split; [|split]].
  - f_equal.
    replace ((ix - 2 * d * nx) * (ix - 2 * d * nx)
             + (iy - 2 * d * ny) * (iy - 2 * d * ny)
             + (iz - 2 * d * nz) * (iz - 2 * d * nz))%R
      with (ix * ix + iy * iy + iz * iz - 4 * d * d
            + 4 * d * d * (nx * nx + ny * ny + nz * nz))%R
      by (unfold d; ring).
    rewrite Hn. ring.
  - replace ((ix - 2 * d * nx) * nx + (iy - 2 * d * ny) * ny
             + (iz - 2 * d * nz) * nz)%R
      with (d - 2 * d * (nx * nx + ny * ny + nz * nz))%R by (unfold d; ring).
    rewrite Hn. ring.
  - assert (Hd : ((ix - 2 * d * nx) * nx + (iy - 2 * d * ny) * ny
                  + (iz - 2 * d * nz) * nz = - d)%R).
    { replace ((ix - 2 * d * nx) * nx + (iy - 2 * d * ny) * ny
               + (iz - 2 * d * nz) * nz)%R
        with (d - 2 * d * (nx * nx + ny * ny + nz * nz))%R by (unfold d; ring).
      rewrite Hn. ring. }
    rewrite Hd. f_equal; ring.
  - intros Hd. rewrite Hd. f_equal; ring.
Qed.

Lemma X14_reflection_direction_witness :
  AcousticUtility.CalculateReflectionDirection
    (AcousticUtility.CalculateReflectionDirection
       Hemisphere.ForwardVector Hemisphere.UpVector) Hemisphere.UpVector
  = Hemisphere.ForwardVector.
Proof.
  apply (X14_reflection_direction Hemisphere.ForwardVector Hemisphere.UpVector).
  unfold Hemisphere.DotProduct, Hemisphere.UpVector. cbn. ring.
Defined.

(** X15.  CalculateLPFCutoffFromOcclusion between two positive cutoffs,
    the lower one given first: for an occlusion in 0..1 the result lies
    between the two, more occlusion never gives a higher cutoff, and
    occlusion 0.5 gives their geometric mean (the square of the result is
    the product of the two). *)
Theorem X15_log_cutoff_range :
  forall MinCutoff MaxCutoff,
    (0 < MinCutoff)%R -> (MinCutoff <= MaxCutoff)%R ->
    (forall Occ, (0 <= Occ <= 1)%R ->
       (MinCutoff
        <= AcousticUtils.CalculateLPFCutoffFromOcclusion Occ MinCutoff MaxCutoff
        <= MaxCutoff)%R) /\
    (forall Occ1 Occ2, (Occ1 <= Occ2)%R ->
       (AcousticUtils.CalculateLPFCutoffFromOcclusion Occ2 MinCutoff MaxCutoff
        <= AcousticUtils.CalculateLPFCutoffFromOcclusion Occ1 MinCutoff MaxCutoff)%R) /\
    (AcousticUtils.CalculateLPFCutoffFromOcclusion (1 / 2) MinCutoff MaxCutoff
     * AcousticUtils.CalculateLPFCutoffFromOcclusion (1 / 2) MinCutoff MaxCutoff
     = MinCutoff * MaxCutoff)%R.
Proof.
  intros lo hi Hlo Hle.
  assert (Hhi : (0 < hi)%R) by lra.
  assert (Hln : (ln lo <= ln hi)%R).
  { destruct Hle as [Hlt | ->]; [left; apply ln_increasing; assumption | right; reflexivity]. }
  assert (Hexp : forall a b, (a <= b)%R -> (exp a <= exp b)%R).
  { intros a b [Hlt | ->]; [left; apply exp_increasing; exact Hlt | right; reflexivity]. }
  unfold AcousticUtils.CalculateLPFCutoffFromOcclusion, AcousticUtils.Lerp.
  split; [|split].
  - intros Occ [H0 H1]. split.
    + rewrite <- (exp_ln lo Hlo) at 1. apply Hexp. nra.
    + rewrite <- (exp_ln hi Hhi) at 3. apply Hexp. nra.
  - intros Occ1 Occ2 H12. apply Hexp. nra.
  - rewrite <- exp_plus.
    replace (ln hi + 1 / 2 * (ln lo - ln hi) + (ln hi + 1 / 2 * (ln lo - ln hi)))%R
      with (ln lo + ln hi)%R by field.
    rewrite exp_plus, (exp_ln lo Hlo), (exp_ln hi Hhi). reflexivity.
Qed.

Lemma X15_log_cutoff_range_witness :
  (AcousticUtils.CalculateLPFCutoffFromOcclusion (1 / 2) 500 20000
   * AcousticUtils.CalculateLPFCutoffFromOcclusion (1 / 2) 500 20000
   = 500 * 20000)%R.
Proof.
  apply (X15_log_cutoff_range 500 20000); lra.
Defined.

(* ------------------------------------------------------------------ *)
(** ** Portals over time *)

Module PortalRunFacts.
Import Portal PortalRun.
Local Open Scope Q_scope.

Lemma Tick_fields dt p :
  TargetOpenness (Tick dt p) = TargetOpenness p /\
  TransitionTime (Tick dt p) = TransitionTime p /\
  ClosedTransmission (Tick dt p) = ClosedTransmission p /\
  ClosedLPFCutoff (Tick dt p) = ClosedLPFCutoff p /\
  bIsOpen (Tick dt p) = bIsOpen p.
Proof.
  unfold Tick, UpdateTransition.
  destruct (FMath.IsNearlyEqual _ _ _); [repeat split|].
  destruct (FMath.Qltb (Openness p) (TargetOpenness p)); repeat split.
Qed.

(** One tick forward takes the openness towards its target by at most
    [Rate * dt] and never past it. *)
Lemma Tick_towards dt p :
  0 <= dt ->
  let Rate := if FMath.Qltb 0 (TransitionTime p) then 1 / TransitionTime p else 100 in
  0 < Rate /\
  (Openness p <= TargetOpenness p ->
   Openness p <= Openness (Tick dt p) <= TargetOpenness p /\
   (Openness (Tick dt p) == TargetOpenness p \/
    Openness (Tick dt p) == Openness p + Rate * dt)) /\
  (TargetOpenness p <= Openness p ->
   TargetOpenness p <= Openness (Tick dt p) <= Openness p /\
   (Openness (Tick dt p) == TargetOpenness p \/
    Openness (Tick dt p) == Openness p - Rate * dt)).
Proof.
  intros Hdt Rate.
  assert (HR : 0 < Rate).
  { unfold Rate. destruct (FMath.Qltb 0 (TransitionTime p)) eqn:E; [|reflexivity].
    apply FMathFacts.Qltb_lt in E. apply Qlt_shift_div_l; lra. }
  split; [exact HR|].
  unfold Tick, UpdateTransition. fold Rate.
  destruct (FMath.IsNearlyEqual _ _ _).
  { cbn [set_Openness Openness TargetOpenness].
    split; intros H; (split; [split; lra | left; reflexivity]). }
  assert (Hstep : 0 <= Rate * dt) by nra.
  destruct (FMath.Qltb (Openness p) (TargetOpenness p)) eqn:E;
    cbn [set_Openness Openness TargetOpenness].
  - apply FMathFacts.Qltb_lt in E.
    destruct (FMathFacts.Min_spec (Openness p + Rate * dt) (TargetOpenness p))
      as [[Hm ->]|[Hm ->]].
    + split; intros H; [|lra]. split; [split; lra | right; reflexivity].
    + split; intros H; [|lra]. split; [split; lra | left; reflexivity].
  - apply FMathFacts.Qltb_ge in E.
    destruct (FMathFacts.Max_spec (Openness p - Rate * dt) (TargetOpenness p))
      as [[Hm ->]|[Hm ->]].
    + split; intros H.
      * assert (Heq : Openness p == TargetOpenness p) by lra. lra.
      * split; [split; lra | right; reflexivity].
    + split; intros H.
      * split; [split; lra | left; reflexivity].
      * split; [split; lra | left; reflexivity].
Qed.



Lemma step_range p o :
  match o with OpTick dt => 0 <= dt | _ => True end ->
  0 <= Openness p <= 1 /\ 0 <= TargetOpenness p <= 1 ->
  0 <= Openness (step p o) <= 1 /\ 0 <= TargetOpenness (step p o) <= 1.
Proof.
  intros Ho [HO HT]. destruct o as [b|x|dt]; cbn [step].
  - unfold SetOpen. destruct (FMath.Qltb 0 (TransitionTime p)), b;
      cbn [Openness TargetOpenness]; repeat split; lra.
  - unfold SetOpenness. cbn [Openness TargetOpenness].
    pose proof (FMathFacts.clamp01_range x) as Hc. unfold FMath.clamp01 in Hc. tauto.
  - destruct (Tick_fields dt p) as (-> & _).
    pose proof (Tick_towards dt p Ho) as (_ & Hup & Hdown).
    destruct (Qlt_le_dec (Openness p) (TargetOpenness p)) as [Hlt|Hge].
    + destruct (Hup (Qlt_le_weak _ _ Hlt)) as [[Ha Hb] _]. repeat split; lra.
    + destruct (Hdown Hge) as [[Ha Hb] _]. repeat split; lra.
Qed.

End PortalRunFacts.

(** X16.  In every state a constructed portal reaches by SetOpen,
    SetOpenness and ticks that do not go back in time, the openness and
    its target stay in 0..1; the transmission the portal reports then lies
    between the closed transmission and 1 and its cutoff between the
    closed cutoff and 20 kHz, the closed values being reported at openness
    0 and the open ones at openness 1. *)
Theorem X16_portal_openness_range :
  forall (TransitionTime : Q) (ops : list Portal.Op),
    PortalRun.Forward ops ->
    let p := Portal.run ops (Portal.Constructed TransitionTime) in
    (0 <= Portal.Openness p <= 1)%Q /\
    (0 <= Portal.TargetOpenness p <= 1)%Q /\
    (Portal.ClosedTransmission p <= Portal.GetCurrentTransmission p <= 1)%Q /\
    (Portal.ClosedLPFCutoff p <= Portal.GetCurrentLPFCutoff p <= 20000)%Q /\
    ((Portal.Openness p == 0)%Q ->
     (Portal.GetCurrentTransmission p == Portal.ClosedTransmission p)%Q /\
     (Portal.GetCurrentLPFCutoff p == Portal.ClosedLPFCutoff p)%Q) /\
    ((Portal.Openness p == 1)%Q ->
     (Portal.GetCurrentTransmission p == 1)%Q /\
     (Portal.GetCurrentLPFCutoff p == 20000)%Q).
Proof.
  intros tt ops Hfw p.
  assert (Hgen : forall q,
    ((0 <= Portal.Openness q <= 1)%Q /\ (0 <= Portal.TargetOpenness q <= 1)%Q) /\
    (Portal.ClosedTransmission q == 1 # 10)%Q /\
    (Portal.ClosedLPFCutoff q == 800)%Q ->
    let q' := Portal.run ops q in
    ((0 <= Portal.Openness q' <= 1)%Q /\ (0 <= Portal.TargetOpenness q' <= 1)%Q) /\
    (Portal.ClosedTransmission q' == 1 # 10)%Q /\
    (Portal.ClosedLPFCutoff q' == 800)%Q).
  { unfold Portal.run. induction Hfw as [|o ops Ho Hops IH]; intros q Hq; [exact Hq|].
    cbn [fold_left]. apply IH. destruct Hq as (Hr & Hc1 & Hc2).
    split; [apply PortalRunFacts.step_range; assumption|].
    destruct o as [b|x|dt]; cbn [Portal.step].
    - unfold Portal.SetOpen. destruct (FMath.Qltb 0 (Portal.TransitionTime q));
        split; assumption.
    - split; assumption.
    - destruct (PortalRunFacts.Tick_fields dt q) as (_ & _ & -> & -> & _).
      split; assumption. }
  destruct (Hgen (Portal.Constructed tt)) as ((HO & HT) & Hc1 & Hc2).
  { cbn. repeat split; try discriminate; reflexivity. }
  fold p in HO, HT, Hc1, Hc2.
  unfold Portal.GetCurrentTransmission, Portal.GetCurrentLPFCutoff, FMath.Lerp.
  split; [exact HO|]. split; [exact HT|].
  split; [split; nra|]. split; [split; nra|].
  split; intros Heq; split; nra.
Qed.

Lemma X16_portal_openness_range_witness :
  let p := Portal.run [Portal.OpSetOpen false; Portal.OpTick (1 # 10)]
             (Portal.Constructed (3 # 10)) in
  (0 <= Portal.Openness p <= 1)%Q.
Proof.
  apply (X16_portal_openness_range (3 # 10)
           [Portal.OpSetOpen false; Portal.OpTick (1 # 10)]).
  repeat constructor. discriminate.
Defined.



(* ------------------------------------------------------------------ *)
(** ** Portal replication *)

Lemma Clamp01_idem x : FMath.Clamp (FMath.Clamp x 0 1) 0 1 = FMath.Clamp x 0 1.
Proof.
  unfold FMath.Clamp at 2 3.
  destruct (FMath.Qltb x 0) eqn:E0; [reflexivity|].
  destruct (FMath.Qltb x 1) eqn:E1; [|reflexivity].
  unfold FMath.Clamp. rewrite E0, E1. reflexivity.
Qed.

(** X18.  Either server call on the replication component of a portal
    leaves the component with an openness in 0..1 and bIsOpen true exactly
    when the openness exceeds 0.5, links the portal, and puts the portal at
    rest at that openness with the same flag (no transition is played,
    whatever the portal's transition time), its other properties
    untouched.  A client component that receives the two replicated values
    and runs OnRep_PortalState brings its own portal to the same openness,
    target and flag as the server's. *)
Theorem X18_portal_replication :
  forall (c : PortalReplication.UAcousticPortalReplicationComponent)
         (portal : Portal.AAcousticPortalVolume)
         (o : PortalReplication.ServerOp),
    PortalReplication.Owner c = Some portal ->
    let c' := PortalReplication.server_step c o in
    (PortalReplication.bIsOpen c' = true
     <-> (1 # 2 < PortalReplication.Openness c')%Q) /\
    (0 <= PortalReplication.Openness c' <= 1)%Q /\
    PortalReplication.LinkedPortal c' = true /\
    exists portal',
      PortalReplication.Owner c' = Some portal' /\
      Portal.Openness portal' = PortalReplication.Openness c' /\
      Portal.TargetOpenness portal' = PortalReplication.Openness c' /\
      Portal.bIsOpen portal' = PortalReplication.bIsOpen c' /\
      Portal.ClosedTransmission portal' = Portal.ClosedTransmission portal /\
      Portal.ClosedLPFCutoff portal' = Portal.ClosedLPFCutoff portal /\
      Portal.TransitionTime portal' = Portal.TransitionTime portal /\
      forall client clientPortal,
        PortalReplication.Owner client = Some clientPortal ->
        exists clientPortal',
          PortalReplication.Owner
            (PortalReplication.OnRep_PortalState
               (PortalReplication.bIsOpen c') (PortalReplication.Openness c') client)
          = Some clientPortal' /\
          Portal.Openness clientPortal' = Portal.Openness portal' /\
          Portal.TargetOpenness clientPortal' = Portal.TargetOpenness portal' /\
          Portal.bIsOpen clientPortal' = Portal.bIsOpen portal'.
Proof.
  intros c portal o Hown.
  assert (Happly : forall b x link own p,
             own = Some p ->
             PortalReplication.ApplyStateToPortal
               {| PortalReplication.bIsOpen := b; PortalReplication.Openness := x;
                  PortalReplication.LinkedPortal := link;
                  PortalReplication.Owner := own |}
             = {| PortalReplication.bIsOpen := b; PortalReplication.Openness := x;
                  PortalReplication.LinkedPortal := true;
                  PortalReplication.Owner := Some (Portal.SetOpenness x p) |}).
  { intros b x link own p ->.
    unfold PortalReplication.ApplyStateToPortal, PortalReplication.FindLinkedPortal.
    destruct link; reflexivity. }
  assert (Hmain : forall b x,
             FMath.Clamp x 0 1 = x -> b = FMath.Qltb (1 # 2) x ->
             PortalReplication.server_step c o
             = {| PortalReplication.bIsOpen := b; PortalReplication.Openness := x;
                  PortalReplication.LinkedPortal := true;
                  PortalReplication.Owner := Some (Portal.SetOpenness x portal) |} ->
             let c' := PortalReplication.server_step c o in
             (PortalReplication.bIsOpen c' = true
              <-> (1 # 2 < PortalReplication.Openness c')%Q) /\
             (0 <= PortalReplication.Openness c' <= 1)%Q /\
             PortalReplication.LinkedPortal c' = true /\
             exists portal',
               PortalReplication.Owner c' = Some portal' /\
               Portal.Openness portal' = PortalReplication.Openness c' /\
               Portal.TargetOpenness portal' = PortalReplication.Openness c' /\
               Portal.bIsOpen portal' = PortalReplication.bIsOpen c' /\
               Portal.ClosedTransmission portal' = Portal.ClosedTransmission portal /\
               Portal.ClosedLPFCutoff portal' = Portal.ClosedLPFCutoff portal /\
               Portal.TransitionTime portal' = Portal.TransitionTime portal /\
               forall client clientPortal,
                 PortalReplication.Owner client = Some clientPortal ->
                 exists clientPortal',
                   PortalReplication.Owner
                     (PortalReplication.OnRep_PortalState
                        (PortalReplication.bIsOpen c')
                        (PortalReplication.Openness c') client)
                   = Some clientPortal' /\
                   Portal.Openness clientPortal' = Portal.Openness portal' /\
                   Portal.TargetOpenness clientPortal' = Portal.TargetOpenness portal' /\
                   Portal.bIsOpen clientPortal' = Portal.bIsOpen portal').
  { intros b x Hx Hb Heq c'. unfold c'. rewrite Heq.
    cbn [PortalReplication.bIsOpen PortalReplication.Openness
           PortalReplication.LinkedPortal PortalReplication.Owner].
    split; [rewrite Hb; apply FMathFacts.Qltb_lt|].
    split.
    { rewrite <- Hx. pose proof (FMathFacts.clamp01_range x) as H.
      unfold FMath.clamp01 in H. exact H. }
    split; [reflexivity|].
    exists (Portal.SetOpenness x portal). split; [reflexivity|].
    unfold Portal.SetOpenness at 1 2 3 4 5 6.
    cbn [Portal.Openness Portal.TargetOpenness Portal.bIsOpen
           Portal.ClosedTransmission Portal.ClosedLPFCutoff Portal.TransitionTime].
    rewrite Hx. repeat (split; [try reflexivity; symmetry; exact Hb|]).
    intros client clientPortal Hcl.
    exists (Portal.SetOpenness x clientPortal).
    unfold PortalReplication.OnRep_PortalState.
    destruct client as [cb cx cl cown]. cbn [PortalReplication.Owner] in Hcl.
    cbn [PortalReplication.LinkedPortal PortalReplication.Owner].
    rewrite (Happly b x cl cown clientPortal Hcl).
    cbn [PortalReplication.Owner]. repeat split. }
  destruct o as [b|x]; cbn [PortalReplication.server_step] in *.
  - apply (Hmain b (if b then 1 else 0)%Q).
    + destruct b; reflexivity.
    + destruct b; reflexivity.
    + unfold PortalReplication.Server_SetOpen. apply Happly. exact Hown.
  - apply (Hmain (FMath.Qltb (1 # 2) (FMath.Clamp x 0 1)) (FMath.Clamp x 0 1)).
    + apply Clamp01_idem.
    + reflexivity.
    + unfold PortalReplication.Server_SetOpenness. apply Happly. exact Hown.
Qed.

Lemma X18_portal_replication_witness :
  let c' := PortalReplication.server_step
              (PortalReplication.Constructed (Some (Portal.Constructed (3 # 10))))
              (PortalReplication.OpServer_SetOpen false) in
  (0 <= PortalReplication.Openness c' <= 1)%Q.
Proof.
  apply (X18_portal_replication
           (PortalReplication.Constructed (Some (Portal.Constructed (3 # 10))))
           (Portal.Constructed (3 # 10))
           (PortalReplication.OpServer_SetOpen false)).
  reflexivity.
Defined.

(* ------------------------------------------------------------------ *)
(** ** Zone presets *)

(** X19.  The two preset tables agree: a zone volume that uses its type
    preset reports through GetZonePreset, after BeginPlay, the reverb
    parameters of FAcousticZonePreset::CreateFromType for its zone type
    (under the zone's own name), whatever its fields held before, and has
    cached exactly that preset; applying the type preset twice is applying
    it once; priority and id are not touched.  Every preset of
    CreateFromType lies in the ranges the header declares for its fields. *)
Theorem X19_zone_presets_agree :
  (forall v,
     ZoneVolume.bUseZoneTypePreset v = true ->
     let v' := ZoneVolume.BeginPlay v in
     ZonePreset.SameReverb (ZoneVolume.GetZonePreset v')
       (ZonePreset.CreateFromType (ZoneVolume.ZoneType v)) /\
     ZonePreset.PresetName (ZoneVolume.GetZonePreset v') = ZoneVolume.ZoneName v /\
     ZoneVolume.CachedPreset v' = ZoneVolume.GetZonePreset v' /\
     ZonePreset.InRange (ZoneVolume.GetZonePreset v') /\
     ZoneVolume.Priority v' = ZoneVolume.Priority v /\
     ZoneVolume.ZoneId v' = ZoneVolume.ZoneId v) /\
  (forall v,
     ZoneVolume.ApplyZoneTypePreset (ZoneVolume.ApplyZoneTypePreset v)
     = ZoneVolume.ApplyZoneTypePreset v) /\
  (forall t, ZonePreset.InRange (ZonePreset.CreateFromType t)).
Proof.
  split; [|split].
  - intros v Hb. unfold ZoneVolume.BeginPlay. rewrite Hb.
    unfold ZoneVolume.ApplyZoneTypePreset, ZonePreset.SameReverb, ZonePreset.InRange.
    destruct (ZoneVolume.ZoneType v) eqn:Et; cbn; rewrite ?Et;
      repeat split; try reflexivity; discriminate.
  - intros v. unfold ZoneVolume.ApplyZoneTypePreset.
    destruct (ZoneVolume.ZoneType v) eqn:Et; cbn; rewrite ?Et; reflexivity.
  - intros t. unfold ZonePreset.InRange.
    destruct t; cbn; repeat split; discriminate.
Qed.

Lemma X19_zone_presets_agree_witness :
  let v' := ZoneVolume.BeginPlay (ZoneVolume.Constructed 1) in
  ZonePreset.InRange (ZoneVolume.GetZonePreset v').
Proof.
  apply (proj1 X19_zone_presets_agree (ZoneVolume.Constructed 1)). reflexivity.
Defined.

(* ------------------------------------------------------------------ *)
(** ** Zones and listeners *)

Module ZoneEngineFacts.
Import ZoneEngine.

Lemma BestZoneStep_cases w Loc best bp x :
  (exists Px, Candidate w Loc x Px /\ bp < Px /\
              BestZoneStep w Loc (best, bp) x = (Some x, Px)) \/
  (BestZoneStep w Loc (best, bp) x = (best, bp) /\
   forall Q, Candidate w Loc x Q -> Q <= bp).
Proof.
  unfold BestZoneStep, Candidate. cbn [snd].
  destruct (ZoneAt w x) as [Zone|] eqn:Ez.
  - destruct (ContainsPoint w x Loc) eqn:Ec; cbn [andb].
    + destruct (Z.gtb_spec (ZoneVolume.Priority Zone) bp) as [Hgt|Hle].
      * left. exists (ZoneVolume.Priority Zone). split; [|split; [lia | reflexivity]].
        exists Zone. auto.
      * right. split; [reflexivity|]. intros Q (Z' & HZ & _ & <-).
        injection HZ as <-. exact Hle.
    + right. split; [reflexivity|]. intros Q (Z' & _ & Hc & _). congruence.
  - right. split; [reflexivity|]. intros Q (Z' & HZ & _). discriminate.
Qed.

Lemma BestZone_fold w Loc zones :
  forall best bp,
    let r := fold_left (BestZoneStep w Loc) zones (best, bp) in
    (r = (best, bp) /\ forall z Q, In z zones -> Candidate w Loc z Q -> Q <= bp) \/
    (exists l1 h l2 P,
        zones = l1 ++ h :: l2 /\ r = (Some h, P) /\ Candidate w Loc h P /\ bp < P /\
        (forall z Q, In z l1 -> Candidate w Loc z Q -> Q < P) /\
        (forall z Q, In z l2 -> Candidate w Loc z Q -> Q <= P)).
Proof.
  induction zones as [|x xs IH]; intros best bp; cbn [fold_left].
  - left. split; [reflexivity | intros z Q []].
  - destruct (BestZoneStep_cases w Loc best bp x)
      as [(Px & Hc & Hlt & ->)|[-> Hno]].
    + destruct (IH (Some x) Px) as [[Hr Hall]|(l1 & h & l2 & P & Hz & Hr & Hh & HP & H1 & H2)].
      * right. exists [], x, xs, Px. cbn [app].
        split; [reflexivity|]. split; [exact Hr|]. split; [exact Hc|].
        split; [exact Hlt|]. split; [intros z Q [] | exact Hall].
      * right. exists (x :: l1), h, l2, P. subst xs. cbn [app].
        split; [reflexivity|]. split; [exact Hr|]. split; [exact Hh|].
        split; [lia|]. split; [|exact H2].
        intros z Q [<-|Hin] Hcz; [|exact (H1 z Q Hin Hcz)].
        destruct Hc as (Z1 & Hz1 & _ & Hp1), Hcz as (Z2 & Hz2 & _ & Hp2).
        rewrite Hz1 in Hz2. injection Hz2 as <-. lia.
    + destruct (IH best bp) as [[Hr Hall]|(l1 & h & l2 & P & Hz & Hr & Hh & HP & H1 & H2)].
      * left. split; [exact Hr|]. intros z Q [<-|Hin] Hcz; [apply Hno; exact Hcz|].
        exact (Hall z Q Hin Hcz).
      * right. exists (x :: l1), h, l2, P. subst xs. cbn [app].
        split; [reflexivity|]. split; [exact Hr|]. split; [exact Hh|].
        split; [exact HP|]. split; [|exact H2].
        intros z Q [<-|Hin] Hcz; [|exact (H1 z Q Hin Hcz)].
        specialize (Hno Q Hcz). lia.
Qed.

Lemma UnregisterZone_spec z zones :
  NoDup zones ->
  NoDup (UnregisterZone z zones) /\ ~ In z (UnregisterZone z zones) /\
  (forall h, h <> z -> (In h (UnregisterZone z zones) <-> In h zones)).
Proof.
  intros Hnd. unfold UnregisterZone. split; [apply NoDup_filter; exact Hnd|].
  split.
  - intros Hin. apply filter_In in Hin. destruct Hin as [_ H].
    rewrite Nat.eqb_refl in H. discriminate.
  - intros h Hne. rewrite filter_In. split; [tauto|]. intros Hin. split; [exact Hin|].
    apply negb_true_iff. apply Nat.eqb_neq. exact Hne.
Qed.

Lemma existsb_eqb_In z zones : existsb (Nat.eqb z) zones = true <-> In z zones.
Proof.
  rewrite existsb_exists. split.
  - intros (x & Hin & He). apply Nat.eqb_eq in He. subst. exact Hin.
  - intros Hin. exists z. split; [exact Hin | apply Nat.eqb_refl].
Qed.

Lemma set_CurrentZoneId_same l : set_CurrentZoneId (CurrentZoneId l) l = l.
Proof. destruct l. reflexivity. Qed.

Lemma UpdateListenerZonesFrom_spec w zones Listeners :
  forall i,
    let r := UpdateListenerZonesFrom w zones i Listeners in
    fst r = map (fun l => set_CurrentZoneId (ZoneIdAt w zones (Location l)) l)
              Listeners /\
    Forall (fun e => OldZoneId e <> NewZoneId e) (snd r) /\
    (length (snd r) <= length Listeners)%nat /\
    (snd r = [] <->
     Forall (fun l => CurrentZoneId l = ZoneIdAt w zones (Location l)) Listeners).
Proof.
  induction Listeners as [|l rest IH]; intros i.
  - cbn. repeat split; auto.
  - cbn [UpdateListenerZonesFrom]. cbv zeta.
    specialize (IH (add32 i 1)).
    destruct (UpdateListenerZonesFrom w zones (add32 i 1) rest) as [rest' events].
    cbn [fst snd] in IH. destruct IH as (Hf & Hall & Hlen & Hnil).
    destruct (Z.eqb_spec (ZoneIdAt w zones (Location l)) (CurrentZoneId l)) as [He|Hne];
      cbn [negb fst snd map length].
    + split; [rewrite He, set_CurrentZoneId_same, Hf; reflexivity|].
      split; [exact Hall|]. split; [lia|].
      rewrite Hnil. split; intros H.
      * constructor; [symmetry; exact He | exact H].
      * inversion H; assumption.
    + split; [rewrite Hf; reflexivity|].
      split; [constructor; [cbn; congruence | exact Hall]|].
      split; [lia|].
      split; [discriminate|]. intros H. inversion H; subst. congruence.
Qed.

End ZoneEngineFacts.

(** X20.  GetZoneAtLocation returns the first registered zone of highest
    priority among the live zones that contain the point: every such zone
    registered before it has a strictly lower priority, every one after it
    a priority not above its own.  It returns none exactly when no live
    registered zone contains the point with a priority above INT_MIN (a
    zone of priority INT_MIN is never returned). *)
Theorem X20_zone_at_location :
  forall w RegisteredZones Loc,
    match ZoneEngine.GetZoneAtLocation w RegisteredZones Loc with
    | Some h =>
        exists l1 l2 P,
          RegisteredZones = l1 ++ h :: l2 /\
          ZoneEngine.Candidate w Loc h P /\ INT32_MIN < P /\
          (forall z Q, In z l1 -> ZoneEngine.Candidate w Loc z Q -> Q < P) /\
          (forall z Q, In z l2 -> ZoneEngine.Candidate w Loc z Q -> Q <= P)
    | None =>
        forall z Q, In z RegisteredZones -> ZoneEngine.Candidate w Loc z Q ->
                    Q <= INT32_MIN
    end.
Proof.
  intros w zones Loc. unfold ZoneEngine.GetZoneAtLocation.
  destruct (ZoneEngineFacts.BestZone_fold w Loc zones None INT32_MIN)
    as [[-> Hall]|(l1 & h & l2 & P & Hz & -> & Hh & HP & H1 & H2)]; cbn [fst].
  - exact Hall.
  - exists l1, l2, P. auto.
Qed.

(** X21.  The zone registry never holds a zone twice: RegisterZone adds
    the zone unless it is null or already registered (so registering twice
    is registering once), UnregisterZone removes it and nothing else, and
    unregistering a zone that was newly registered restores the registry.
    GetZoneAtLocation only ever returns a registered zone, hence never one
    that has been unregistered. *)
Theorem X21_zone_registry :
  forall (zones : list ZoneEngine.ZoneHandle) (z : ZoneEngine.ZoneHandle),
    NoDup zones ->
    NoDup (ZoneEngine.RegisterZone (Some z) zones) /\
    In z (ZoneEngine.RegisterZone (Some z) zones) /\
    (forall h, h <> z ->
       (In h (ZoneEngine.RegisterZone (Some z) zones) <-> In h zones)) /\
    ZoneEngine.RegisterZone (Some z) (ZoneEngine.RegisterZone (Some z) zones)
    = ZoneEngine.RegisterZone (Some z) zones /\
    ZoneEngine.RegisterZone None zones = zones /\
    NoDup (ZoneEngine.UnregisterZone z zones) /\
    ~ In z (ZoneEngine.UnregisterZone z zones) /\
    (forall h, h <> z ->
       (In h (ZoneEngine.UnregisterZone z zones) <-> In h zones)) /\
    (~ In z zones ->
     ZoneEngine.UnregisterZone z (ZoneEngine.RegisterZone (Some z) zones) = zones) /\
    (forall w Loc h,
       ZoneEngine.GetZoneAtLocation w zones Loc = Some h -> In h zones) /\
    (forall w Loc,
       ZoneEngine.GetZoneAtLocation w (ZoneEngine.UnregisterZone z zones) Loc
       <> Some z).
Proof.
  intros zones z Hnd.
  destruct (ZoneEngineFacts.UnregisterZone_spec z zones Hnd) as (Hu1 & Hu2 & Hu3).
  assert (Hget : forall w l Loc h,
             ZoneEngine.GetZoneAtLocation w l Loc = Some h -> In h l).
  { intros w l Loc h Hg. pose proof (X := ZoneEngineFacts.BestZone_fold w Loc l None INT32_MIN).
    unfold ZoneEngine.GetZoneAtLocation in Hg. cbv zeta in X.
    destruct X as [[Hr _]|(l1 & h' & l2 & P & Hz & Hr & _)]; rewrite Hr in Hg;
      cbn [fst] in Hg; [discriminate|].
    injection Hg as <-. rewrite Hz. apply in_or_app. right. left. reflexivity. }
  unfold ZoneEngine.RegisterZone.
  destruct (existsb (Nat.eqb z) zones) eqn:Ex.
  - pose proof (proj1 (ZoneEngineFacts.existsb_eqb_In z zones) Ex) as Hin.
    rewrite Ex.
    repeat split; try assumption; try tauto; try (apply Hu3; assumption).
    + intros w Loc h. apply Hget.
    + intros w Loc Hg. apply Hu2. eapply Hget. exact Hg.
  - assert (Hnin : ~ In z zones).
    { intros Hin. apply ZoneEngineFacts.existsb_eqb_In in Hin. congruence. }
    assert (Hex' : existsb (Nat.eqb z) (zones ++ [z]) = true).
    { apply ZoneEngineFacts.existsb_eqb_In. apply in_or_app. right. left. reflexivity. }
    rewrite Hex'.
    split.
    { apply NoDup_app; [exact Hnd | repeat constructor; intros [] |].
      intros x Hx [<-|[]]. exact (Hnin Hx). }
    split; [apply in_or_app; right; left; reflexivity|].
    split.
    { intros h Hne. rewrite in_app_iff. cbn [In]. split; [|tauto].
      intros [H|[H|[]]]; [exact H | congruence]. }
    split; [reflexivity|]. split; [reflexivity|].
    split; [exact Hu1|]. split; [exact Hu2|]. split; [exact Hu3|].
    split.
    { intros _. unfold ZoneEngine.UnregisterZone. rewrite filter_app.
      cbn [filter]. rewrite Nat.eqb_refl. cbn [negb]. rewrite app_nil_r.
      apply forallb_filter_id. apply forallb_forall. intros x Hx.
      apply negb_true_iff. apply Nat.eqb_neq. intros ->. exact (Hnin Hx). }
    split; [intros w Loc h; apply Hget|].
    intros w Loc Hg. apply Hu2. eapply Hget. exact Hg.
Qed.

Lemma X21_zone_registry_witness :
  ZoneEngine.UnregisterZone 1%nat (ZoneEngine.RegisterZone (Some 1%nat) [0%nat])
  = [0%nat].
Proof.
  apply (X21_zone_registry [0%nat] 1%nat).
  - repeat constructor. intros [].
  - intros [H|[]]. discriminate.
Defined.

(** X22.  UpdateListenerZones sets every listener's CurrentZoneId to the
    id of the zone at its location (-1 when there is none) and touches no
    other field; it broadcasts a zone change only for a listener whose id
    really changed, at most one per listener, and none at all exactly when
    every listener already had the right id; running it again at once
    changes nothing and broadcasts nothing. *)
Theorem X22_update_listener_zones :
  forall w zones Listeners,
    let r := ZoneEngine.UpdateListenerZones w zones Listeners in
    fst r = map (fun l => ZoneEngine.set_CurrentZoneId
                            (ZoneEngine.ZoneIdAt w zones (ZoneEngine.Location l)) l)
              Listeners /\
    Forall (fun e => ZoneEngine.OldZoneId e <> ZoneEngine.NewZoneId e) (snd r) /\
    (length (snd r) <= length Listeners)%nat /\
    (snd r = [] <->
     Forall (fun l => ZoneEngine.CurrentZoneId l
                      = ZoneEngine.ZoneIdAt w zones (ZoneEngine.Location l))
       Listeners) /\
    ZoneEngine.UpdateListenerZones w zones (fst r) = (fst r, []).
Proof.
  intros w zones Listeners r.
  destruct (ZoneEngineFacts.UpdateListenerZonesFrom_spec w zones Listeners 0)
    as (Hf & Hall & Hlen & Hnil).
  fold (ZoneEngine.UpdateListenerZones w zones Listeners) in Hf, Hall, Hlen, Hnil.
  fold r in Hf, Hall, Hlen, Hnil.
  split; [exact Hf|]. split; [exact Hall|]. split; [exact Hlen|].
  split; [exact Hnil|].
  destruct (ZoneEngineFacts.UpdateListenerZonesFrom_spec w zones (fst r) 0)
    as (Hf2 & _ & _ & Hnil2).
  fold (ZoneEngine.UpdateListenerZones w zones (fst r)) in Hf2, Hnil2.
  assert (Hfix : Forall (fun l => ZoneEngine.CurrentZoneId l
                                  = ZoneEngine.ZoneIdAt w zones (ZoneEngine.Location l))
                   (fst r)).
  { rewrite Hf. apply Forall_forall. intros l Hin. apply in_map_iff in Hin.
    destruct Hin as (l0 & <- & _). reflexivity. }
  apply Hnil2 in Hfix.
  destruct (ZoneEngine.UpdateListenerZones w zones (fst r)) as [a e].
  cbn [fst snd] in *. subst e. f_equal. rewrite Hf2.
  rewrite <- (map_id (fst r)) at 2. apply map_ext_in. intros l Hin.
  rewrite Hf in Hin. apply in_map_iff in Hin. destruct Hin as (l0 & <- & _).
  reflexivity.
Qed.

Lemma X20_zone_at_location_witness :
  exists P,
    ZoneEngine.Candidate ZoneEngine.world_two_zones ZoneEngine.ZeroVector 1%nat P /\
    forall Q,
      ZoneEngine.Candidate ZoneEngine.world_two_zones ZoneEngine.ZeroVector 0%nat Q ->
      Q < P.
Proof.
  pose proof (X20_zone_at_location ZoneEngine.world_two_zones [0%nat; 1%nat]
                ZoneEngine.ZeroVector) as H.
  change (ZoneEngine.GetZoneAtLocation ZoneEngine.world_two_zones [0%nat; 1%nat]
            ZoneEngine.ZeroVector) with (Some 1%nat) in H.
  destruct H as (l1 & l2 & P & Hz & Hc & HP & H1 & H2).
  exists P. split; [exact Hc|]. intros Q HQ. apply (H1 0%nat Q); [|exact HQ].
  destruct l1 as [|a l1]; [discriminate Hz|].
  injection Hz as Ha _. left. symmetry. exact Ha.
Defined.

(* ------------------------------------------------------------------ *)
(** ** The listener array *)

Lemma nth_update {A} (l : list A) :
  forall i v d j,
    (i < length l)%nat ->
    nth j (firstn i l ++ v :: skipn (S i) l) d = if Nat.eqb j i then v else nth j l d.
Proof.
  induction l as [|x l IH]; intros [|i] v d [|j] H; cbn [length] in H; try lia;
    try reflexivity.
  cbn [firstn skipn app nth Nat.eqb]. apply IH. lia.
Qed.

Lemma nth_app_repeat {A} (l : list A) d n j : nth j (l ++ repeat d n) d = nth j l d.
Proof.
  destruct (Nat.lt_ge_cases j (length l)) as [Hlt|Hge].
  - apply app_nth1. exact Hlt.
  - rewrite app_nth2 by exact Hge. rewrite nth_repeat.
    symmetry. apply nth_overflow. exact Hge.
Qed.

Lemma GetListenerData_nth j arr :
  ZoneEngine.GetListenerData j arr
  = if j >=? 0
    then nth (Z.to_nat j) arr ZoneEngine.FAcousticListenerData_default
    else ZoneEngine.FAcousticListenerData_default.
Proof.
  unfold ZoneEngine.GetListenerData.
  destruct (j >=? 0) eqn:E0; cbn [andb]; [|reflexivity].
  destruct (Z.ltb_spec j (Z.of_nat (length arr))) as [Hlt|Hge]; [reflexivity|].
  symmetry. apply nth_overflow. lia.
Qed.

(** X23.  The listener array: UpdateListener with a negative index does
    nothing.  With an index from 0 up (below INT32_MAX) it succeeds,
    growing the array to index + 1 entries when the index is beyond its
    end; GetListenerData then returns the data written for that index and,
    for every other index, in range or not, what it returned before (the
    default listener for the entries the growth added). *)
Theorem X23_listener_round_trip :
  (forall arr idx d, idx < 0 ->
     ZoneEngine.UpdateListener idx d arr = Some arr /\
     ZoneEngine.GetListenerData idx arr = ZoneEngine.FAcousticListenerData_default) /\
  (forall arr idx d, 0 <= idx < INT32_MAX ->
     exists arr',
       ZoneEngine.UpdateListener idx d arr = Some arr' /\
       ZoneEngine.GetListenerData idx arr' = d /\
       (forall j, j <> idx ->
          ZoneEngine.GetListenerData j arr' = ZoneEngine.GetListenerData j arr) /\
       Z.of_nat (length arr') = Z.max (Z.of_nat (length arr)) (idx + 1)).
Proof.
  split.
  - intros arr idx d Hneg. unfold ZoneEngine.UpdateListener.
    rewrite GetListenerData_nth.
    destruct (Z.geb_spec idx 0); [lia|]. split; reflexivity.
  - intros arr idx d [H0 Hmax].
    assert (Hwrite : forall l,
               (Z.to_nat idx < length l)%nat ->
               (forall j, nth j l ZoneEngine.FAcousticListenerData_default
                          = nth j arr ZoneEngine.FAcousticListenerData_default) ->
               exists arr',
                 TArray_write (Z.to_nat idx) d l = Some arr' /\
                 ZoneEngine.GetListenerData idx arr' = d /\
                 (forall j, j <> idx ->
                    ZoneEngine.GetListenerData j arr'
                    = ZoneEngine.GetListenerData j arr) /\
                 length arr' = length l).
    { intros l Hl Hnth. eexists. split; [apply TArray_write_spec; exact Hl|].
      split; [|split].
      - rewrite GetListenerData_nth. destruct (Z.geb_spec idx 0); [|lia].
        rewrite nth_update by exact Hl. rewrite Nat.eqb_refl. reflexivity.
      - intros j Hj. rewrite !GetListenerData_nth.
        destruct (Z.geb_spec j 0); [|reflexivity].
        rewrite nth_update by exact Hl.
        destruct (Nat.eqb_spec (Z.to_nat j) (Z.to_nat idx)) as [He|_]; [lia|].
        apply Hnth.
      - rewrite length_app, firstn_length_le by lia. cbn [length].
        rewrite length_skipn. lia. }
    unfold ZoneEngine.UpdateListener.
    destruct (Z.geb_spec idx 0); [|lia].
    destruct (Z.geb_spec idx (Z.of_nat (length arr))) as [Hge|Hlt].
    + assert (Hadd : add32 idx 1 = idx + 1).
      { apply add32_small. unfold is_int32, INT32_MIN, INT32_MAX in *. lia. }
      rewrite Hadd. destruct (Z.ltb_spec (idx + 1) 0); [lia|].
      set (l := arr ++ repeat ZoneEngine.FAcousticListenerData_default
                         (Z.to_nat (idx + 1) - length arr)).
      assert (Hlen : length l = Z.to_nat (idx + 1)).
      { unfold l. rewrite length_app, repeat_length. lia. }
      destruct (Hwrite l) as (arr' & Hw & Hg & Ho & Hl').
      * lia.
      * intros j. unfold l. apply nth_app_repeat.
      * exists arr'. repeat split; try assumption. lia.
    + destruct (Hwrite arr) as (arr' & Hw & Hg & Ho & Hl').
      * lia.
      * reflexivity.
      * exists arr'. repeat split; try assumption. lia.
Qed.

Lemma X23_listener_round_trip_witness :
  exists arr',
    ZoneEngine.UpdateListener 2 ZoneEngine.FAcousticListenerData_default []
    = Some arr'.
Proof.
  destruct (proj2 X23_listener_round_trip [] 2
              ZoneEngine.FAcousticListenerData_default) as (arr' & H & _).
  - unfold INT32_MAX. lia.
  - exists arr'. exact H.
Defined.

(* ------------------------------------------------------------------ *)
(** ** Source flags *)

Lemma land_pow2_testbit a i :
  0 <= i -> negb (Z.land a (2 ^ i) =? 0) = Z.testbit a i.
Proof.
  intros Hi. destruct (Z.testbit a i) eqn:E.
  - apply negb_true_iff, Z.eqb_neq. intros H0.
    assert (H : Z.testbit (Z.land a (2 ^ i)) i = true)
      by (rewrite Z.land_spec, E, Z.pow2_bits_true; auto).
    rewrite H0, Z.bits_0 in H. discriminate.
  - apply negb_false_iff, Z.eqb_eq. apply Z.bits_inj'. intros n Hn.
    rewrite Z.land_spec, Z.bits_0.
    destruct (Z.eq_dec n i) as [->|Hne]; [rewrite E; reflexivity|].
    rewrite Z.pow2_bits_false by lia. apply andb_false_r.
Qed.

Lemma SetFlag_testbit s i b n :
  0 <= i -> 0 <= n ->
  Z.testbit (SourceFlags (SetFlag (2 ^ i) b s)) n
  = (n <? 8) && (if b then Z.testbit (SourceFlags s) n || (i =? n)
                 else Z.testbit (SourceFlags s) n && negb (i =? n)).
Proof.
  intros Hi Hn.
  assert (Hbit : Z.testbit (2 ^ i) n = (i =? n)).
  { destruct (Z.eqb_spec i n) as [->|Hne];
      [apply Z.pow2_bits_true; exact Hn | apply Z.pow2_bits_false; exact Hne]. }
  unfold SetFlag. change 256 with (2 ^ 8).
  destruct (Z.ltb_spec n 8) as [Hlt|Hge]; cbn [andb].
  - destruct b; cbn [SourceFlags set_SourceFlags];
      rewrite Z.mod_pow2_bits_low by lia.
    + rewrite Z.lor_spec, Hbit. reflexivity.
    + rewrite Z.land_spec, Z.lnot_spec, Hbit by exact Hn. reflexivity.
  - destruct b; cbn [SourceFlags set_SourceFlags];
      apply Z.mod_pow2_bits_high; lia.
Qed.

(** X24.  SetFlag and HasFlag on the eight bits of the flag byte (the
    enumerators of EAcousticSourceFlags are bits 0 to 5): after SetFlag the
    flag reads as it was set, every other flag reads as before, the byte
    stays a byte, setting again changes nothing, and no other property of
    the component is touched. *)
Theorem X24_set_flag_has_flag :
  forall (s : UAcousticSourceComponent) (i : Z) (b : bool),
    0 <= i < 8 ->
    let s' := SetFlag (2 ^ i) b s in
    HasFlag s' (2 ^ i) = b /\
    (forall j, 0 <= j < 8 -> j <> i -> HasFlag s' (2 ^ j) = HasFlag s (2 ^ j)) /\
    0 <= SourceFlags s' < 256 /\
    SetFlag (2 ^ i) b s' = s' /\
    AcousticLOD s' = AcousticLOD s /\ Importance s' = Importance s /\
    BaseLoudness s' = BaseLoudness s /\ PriorityOverride s' = PriorityOverride s.
Proof.
  intros s i b Hi s'.
  assert (Hi0 : 0 <= i) by lia.
  split; [|split; [|split; [|split]]].
  - unfold HasFlag. rewrite land_pow2_testbit by exact Hi0.
    unfold s'. rewrite SetFlag_testbit by lia.
    destruct (Z.ltb_spec i 8); [|lia]. rewrite Z.eqb_refl.
    destruct b; cbn [andb negb]; [apply orb_true_r | apply andb_false_r].
  - intros j Hj Hne. unfold HasFlag. rewrite !land_pow2_testbit by lia.
    unfold s'. rewrite SetFlag_testbit by lia.
    destruct (Z.ltb_spec j 8); [|lia].
    destruct (Z.eqb_spec i j); [lia|].
    destruct b; cbn [andb negb]; [apply orb_false_r | apply andb_true_r].
  - unfold s', SetFlag. destruct b; cbn [SourceFlags set_SourceFlags];
      apply Z.mod_pos_bound; lia.
  - assert (Hflags : SourceFlags (SetFlag (2 ^ i) b s') = SourceFlags s').
    { apply Z.bits_inj'. intros n Hn. rewrite SetFlag_testbit by lia.
      unfold s'. rewrite SetFlag_testbit by lia.
      destruct (n <? 8), b, (Z.testbit (SourceFlags s) n), (i =? n); reflexivity. }
    revert Hflags. unfold s', SetFlag.
    destruct b; cbn [SourceFlags set_SourceFlags AcousticLOD Importance
                       BaseLoudness PriorityOverride];
      intros ->; reflexivity.
  - unfold s', SetFlag. destruct b; repeat split.
Qed.

Lemma X24_set_flag_has_flag_witness :
  HasFlag (SetFlag Flag_LargeSource true source_default) Flag_LargeSource = true.
Proof.
  apply (X24_set_flag_has_flag source_default 5 true). lia.
Defined.

(* ------------------------------------------------------------------ *)
(** ** The parameters sent to the audio component *)

(** X25.  ApplyParamsToAudio sends nothing without a linked audio
    component or with parameters that are not valid.  Otherwise, for an
    occlusion in 0..1 and a base width of at least 0: the reverb send is
    the override when that is not negative and the computed send
    otherwise; the width added to the computed spatial width lies between
    0 and max(base width, 0.5), is the full width up to occlusion 0.5, at
    least 0.5 there for a large source, and 0 at occlusion 1; and the
    volume of a source without the NeverOcclude flag is never below the
    transmission gain nor below the minimum-audibility gain, which is
    positive, while with the flag no volume is set. *)
Theorem X25_apply_params_to_audio :
  forall (Db : R) (c : SourceAudio.State),
    (SourceAudio.LinkedAudioComponent c = false \/
     bIsValid (SourceAudio.CurrentParams c) = false ->
     SourceAudio.ApplyParamsToAudio (Some Db) c = None) /\
    (SourceAudio.LinkedAudioComponent c = true ->
     bIsValid (SourceAudio.CurrentParams c) = true ->
     (0 <= Occlusion (SourceAudio.CurrentParams c) <= 1)%Q ->
     (0 <= SourceAudio.BaseSpatialWidth c)%Q ->
     exists a,
       SourceAudio.ApplyParamsToAudio (Some Db) c = Some a /\
       SourceAudio.ReverbSendParam a
       = (if Qle_bool 0 (SourceAudio.ReverbSendOverride c)
          then SourceAudio.ReverbSendOverride c
          else ReverbSend (SourceAudio.CurrentParams c)) /\
       SourceAudio.SpatialWidthParam a
       = (SourceAudio.EffectiveSpatialWidth c
          + SpatialWidth (SourceAudio.CurrentParams c))%Q /\
       (0 <= SourceAudio.EffectiveSpatialWidth c
        <= FMath.Max (SourceAudio.BaseSpatialWidth c) (1 # 2))%Q /\
       ((Occlusion (SourceAudio.CurrentParams c) <= 1 # 2)%Q ->
        (SourceAudio.BaseSpatialWidth c <= SourceAudio.EffectiveSpatialWidth c)%Q /\
        (HasFlag (SourceAudio.Component c) Flag_LargeSource = true ->
         (1 # 2 <= SourceAudio.EffectiveSpatialWidth c)%Q)) /\
       ((Occlusion (SourceAudio.CurrentParams c) == 1)%Q ->
        (SourceAudio.EffectiveSpatialWidth c == 0)%Q) /\
       match SourceAudio.VolumeMultiplier a with
       | Some v =>
           HasFlag (SourceAudio.Component c) Flag_NeverOcclude = false /\
           (Q2R (TransmissionGain (SourceAudio.CurrentParams c)) <= v)%R /\
           (0 < MasterEffect.Pow10 (Db / 20) <= v)%R
       | None => HasFlag (SourceAudio.Component c) Flag_NeverOcclude = true
       end).
Proof.
  intros Db c. split.
  - intros [H|H]; unfold SourceAudio.ApplyParamsToAudio; rewrite H;
      [reflexivity | cbn [negb]; rewrite orb_true_r; reflexivity].
  - intros Hl Hv Hocc Hbase. unfold SourceAudio.ApplyParamsToAudio.
    rewrite Hl, Hv. cbn [negb orb]. eexists. split; [reflexivity|].
    cbn [SourceAudio.ReverbSendParam SourceAudio.SpatialWidthParam
           SourceAudio.VolumeMultiplier].
    split; [reflexivity|]. split; [reflexivity|].
    set (o := Occlusion (SourceAudio.CurrentParams c)) in *.
    set (B := SourceAudio.BaseSpatialWidth c) in *.
    assert (HW : exists W,
               (B <= W <= FMath.Max B (1 # 2))%Q /\
               (HasFlag (SourceAudio.Component c) Flag_LargeSource = true ->
                (1 # 2 <= W)%Q) /\
               SourceAudio.EffectiveSpatialWidth c
               = if FMath.Qltb (1 # 2) o
                 then FMath.Lerp W 0 ((o - (1 # 2)) * 2)%Q else W).
    { unfold SourceAudio.EffectiveSpatialWidth. fold o B.
      destruct (HasFlag (SourceAudio.Component c) Flag_LargeSource).
      - exists (FMath.Max B (1 # 2)). split; [|split; [|reflexivity]].
        + destruct (FMathFacts.Max_spec B (1 # 2)) as [[H ->]|[H ->]]; split; lra.
        + intros _. apply FMathFacts.Max_ge_r.
      - exists B. split; [|split; [discriminate | reflexivity]].
        destruct (FMathFacts.Max_spec B (1 # 2)) as [[H ->]|[H ->]]; split; lra. }
    destruct HW as (W & [HW1 HW2] & HWl & ->).
    assert (HM : (0 <= FMath.Max B (1 # 2))%Q) by lra.
    set (M := FMath.Max B (1 # 2)) in *.
    split; [|split; [|split]].
    + destruct (FMath.Qltb (1 # 2) o) eqn:E; [|split; lra].
      apply FMathFacts.Qltb_lt in E. unfold FMath.Lerp. split; nra.
    + intros Hle. destruct (FMath.Qltb (1 # 2) o) eqn:E.
      { apply FMathFacts.Qltb_lt in E. lra. }
      split; [lra | exact HWl].
    + intros H1. destruct (FMath.Qltb (1 # 2) o) eqn:E.
      * unfold FMath.Lerp. rewrite H1. ring.
      * apply FMathFacts.Qltb_ge in E. lra.
    + destruct (HasFlag (SourceAudio.Component c) Flag_NeverOcclude);
        cbn [negb]; [reflexivity|].
      split; [reflexivity|]. split; [apply Rmax_l|].
      split; [unfold MasterEffect.Pow10, Rpower; apply exp_pos | apply Rmax_r].
Qed.

Lemma X25_apply_params_to_audio_witness :
  exists a,
    SourceAudio.ApplyParamsToAudio (Some (-50)%R) SourceAudio.state_occluded = Some a.
Proof.
  destruct (proj2 (X25_apply_params_to_audio (-50)%R SourceAudio.state_occluded))
    as (a & H & _).
  - reflexivity.
  - reflexivity.
  - cbn. split; discriminate.
  - cbn. discriminate.
  - exists a. exact H.
Defined.

(* ------------------------------------------------------------------ *)
(** ** The master stage below its threshold *)

Module MasterQuietFacts.
Import MasterEffect MasterQuiet.
Local Open Scope R_scope.

Lemma coeff_range (SR k : R) : 0 < SR -> 0 < k -> 0 < exp (- 1 / (SR * k)) < 1.
Proof.
  intros HSR Hk. split; [apply exp_pos|].
  assert (H : 0 < SR * k) by (apply Rmult_lt_0_compat; assumption).
  assert (Hinv : 0 < / (SR * k)) by (apply Rinv_0_lt_compat; exact H).
  assert (H1 : exp (- 1 / (SR * k)) < exp 0).
  { apply exp_increasing. unfold Rdiv. lra. }
  rewrite exp_0 in H1. exact H1.
Qed.

Lemma FrameMaxAbs_le (B : R) (frame : list R) :
  0 <= B -> Forall (fun In => Rabs In <= B) frame -> FrameMaxAbs 1 frame <= B.
Proof.
  intros HB Hall. unfold FrameMaxAbs.
  assert (Hgen : forall acc, acc <= B ->
            fold_left (fun MaxAbs In => Rmax MaxAbs (Rabs (In * 1))) frame acc <= B).
  { induction Hall as [|x l Hx Hl IH]; intros acc Hacc; [exact Hacc|].
    cbn [fold_left]. apply IH. rewrite Rmult_1_r. apply Rmax_lub; assumption. }
  apply Hgen. exact HB.
Qed.

Lemma ProcessFrame_quiet fx frame :
  Quiet fx -> Forall (fun In => Rabs In <= LimiterThreshold fx) frame ->
  snd (ProcessFrame fx frame) = frame /\
  Quiet (fst (ProcessFrame fx frame)) /\
  LimiterThreshold (fst (ProcessFrame fx frame)) = LimiterThreshold fx.
Proof.
  intros (Hen & Hdb & Hs & HSR & Henv) Hall.
  assert (Hnext : NextSmoothedGain fx = 1).
  { unfold NextSmoothedGain, TargetGain. rewrite Hs, Hdb, MasterEffectFacts.Pow10_0.
    ring. }
  unfold ProcessFrame. rewrite Hnext.
  set (M := FrameMaxAbs 1 frame).
  assert (HM : 0 <= M <= LimiterThreshold fx).
  { split; [apply MasterEffectFacts.FrameMaxAbs_bound|].
    apply FrameMaxAbs_le; [lra | exact Hall]. }
  set (Env := if Rlt_dec (LimiterEnvelope fx) M
              then AttackCoeff fx * LimiterEnvelope fx + (1 - AttackCoeff fx) * M
              else ReleaseCoeff fx * LimiterEnvelope fx + (1 - ReleaseCoeff fx) * M).
  assert (HEnv : 0 <= Env <= LimiterThreshold fx).
  { pose proof (coeff_range (SampleRate fx) (1 / 1000) HSR ltac:(lra)) as Ha.
    pose proof (coeff_range (SampleRate fx) (1 / 10) HSR ltac:(lra)) as Hr.
    fold (AttackCoeff fx) in Ha. fold (ReleaseCoeff fx) in Hr.
    unfold Env. destruct (Rlt_dec (LimiterEnvelope fx) M); split; nra. }
  destruct (Rlt_dec (LimiterThreshold fx) Env) as [Hlt|_]; [lra|].
  cbn [fst snd]. split; [|split].
  - rewrite <- (map_id frame) at 2. apply map_ext. intros x. ring.
  - unfold Quiet. cbn [CurrentSettings SmoothedOutputGain SampleRate LimiterEnvelope].
    repeat split; try assumption; apply HEnv.
  - reflexivity.
Qed.

End MasterQuietFacts.

(** X26.  The master stage is transparent below its threshold: an enabled
    stage at 0 dB output gain whose smoothed gain is 1 and whose envelope
    is at or below the limiter threshold (as right after Init) returns a
    block in which no sample exceeds the threshold exactly as it came,
    whatever the number of frames and channels, and is afterwards again in
    such a state, so that the same holds for the next block. *)
Theorem X26_master_transparent_below_threshold :
  forall (fx : MasterEffect.FAcousticMasterEffect) (InBuffer : list (list R)),
    MasterQuiet.Quiet fx ->
    MasterQuiet.BelowThreshold fx InBuffer ->
    snd (MasterEffect.OnProcessAudio fx InBuffer) = InBuffer /\
    MasterQuiet.Quiet (fst (MasterEffect.OnProcessAudio fx InBuffer)) /\
    MasterEffect.LimiterThreshold (fst (MasterEffect.OnProcessAudio fx InBuffer))
    = MasterEffect.LimiterThreshold fx.
Proof.
  intros fx InBuffer HQ Hall. unfold MasterEffect.OnProcessAudio.
  destruct HQ as (Hen & HQ'). rewrite Hen. cbn [negb].
  assert (HQ : MasterQuiet.Quiet fx) by (split; assumption). clear HQ' Hen.
  revert fx HQ Hall. induction InBuffer as [|frame rest IH]; intros fx HQ Hall.
  - cbn. auto.
  - inversion Hall as [|f r Hf Hr]; subst.
    destruct (MasterQuietFacts.ProcessFrame_quiet fx frame HQ Hf) as (Hout & HQ1 & HT).
    cbn [MasterEffect.ProcessFrames].
    destruct (MasterEffect.ProcessFrame fx frame) as [fx1 out].
    cbn [fst snd] in Hout, HQ1, HT.
    assert (Hr1 : MasterQuiet.BelowThreshold fx1 rest).
    { unfold MasterQuiet.BelowThreshold. rewrite HT. exact Hr. }
    specialize (IH fx1 HQ1 Hr1).
    destruct (MasterEffect.ProcessFrames fx1 rest) as [fx2 outs].
    cbn [fst snd] in *. destruct IH as (Ho & HQ2 & HT2).
    split; [rewrite Hout, Ho; reflexivity|]. split; [exact HQ2|].
    rewrite HT2. exact HT.
Qed.

Lemma X26_master_transparent_below_threshold_witness :
  snd (MasterEffect.OnProcessAudio MasterEffect.fx_initial [[(1 / 2)%R; (- 1 / 2)%R]])
  = [[(1 / 2)%R; (- 1 / 2)%R]].
Proof.
  assert (HT : (11 / 20 < MasterEffect.LimiterThreshold MasterEffect.fx_initial)%R).
  { unfold MasterEffect.LimiterThreshold, MasterEffect.Pow10, Rpower. simpl.
    pose proof (exp_ineq1_le (-1 / 20 * ln 10)).
    pose proof MasterEffectFacts.ln_10_bounds. nra. }
  apply (X26_master_transparent_below_threshold MasterEffect.fx_initial
           [[(1 / 2)%R; (- 1 / 2)%R]]).
  - unfold MasterQuiet.Quiet. cbn. repeat split; try lra.
  - repeat constructor.
    + unfold Rabs. destruct (Rcase_abs _); lra.
    + unfold Rabs. destruct (Rcase_abs _); lra.
Defined.

(* ------------------------------------------------------------------ *)
(** ** Single-precision rounding *)

Module Float32Facts.
Import Float32.
Local Open Scope Q_scope.

Lemma pow2_pos (k : Z) : 0 < 2 ^ k.
Proof. apply Qpower_0_lt. reflexivity. Qed.

Lemma pow2_succ (k : Z) : 2 ^ (k + 1) == 2 * 2 ^ k.
Proof. rewrite Qpower_plus by discriminate. rewrite Qpower_1_r. ring. Qed.

Lemma pow2_pred (k : Z) : 2 * 2 ^ (k - 1) == 2 ^ k.
Proof. rewrite <- pow2_succ. replace (k - 1 + 1)%Z with k by lia. reflexivity. Qed.

Lemma pow2_le (a b : Z) : (a <= b)%Z -> 2 ^ a <= 2 ^ b.
Proof. intros H. apply Qpower_le_compat_l; [exact H | discriminate]. Qed.

Lemma pow2_Z (n : Z) : (0 <= n)%Z -> inject_Z (2 ^ n) == 2 ^ n.
Proof. intros H. apply (Zpower_Qpower 2 n H). Qed.

Lemma Zlog2_Q (n : Z) :
  (0 < n)%Z -> 2 ^ Z.log2 n <= inject_Z n /\ inject_Z n < 2 * 2 ^ Z.log2 n.
Proof.
  intros H. destruct (Z.log2_spec n H) as [H1 H2].
  pose proof (Z.log2_nonneg n) as H0.
  split.
  - rewrite <- pow2_Z by exact H0. rewrite <- Zle_Qle. exact H1.
  - rewrite <- pow2_succ. rewrite <- pow2_Z by lia. rewrite <- Zlt_Qlt.
    exact H2.
Qed.

Lemma ilog2_spec (x : Q) :
  0 < x -> 2 ^ ilog2 x <= x /\ x < 2 ^ (ilog2 x + 1).
Proof.
  intros Hx. unfold ilog2.
  set (ln := Z.log2 (Qnum x)). set (ld := Z.log2 (Z.pos (Qden x))).
  assert (Hn : (0 < Qnum x)%Z).
  { destruct x as [n d]. unfold Qlt in Hx. simpl in *. lia. }
  destruct (Zlog2_Q (Qnum x) Hn) as [N1 N2]. fold ln in N1, N2.
  destruct (Zlog2_Q (Z.pos (Qden x)) eq_refl) as [D1 D2]. fold ld in D1, D2.
  assert (Ex : x == inject_Z (Qnum x) / inject_Z (Z.pos (Qden x))).
  { destruct x as [n d]. simpl. apply Qmake_Qdiv. }
  assert (Ek : 2 ^ (ln - ld) == 2 ^ ln / 2 ^ ld)
    by (apply Qpower_minus; discriminate).
  pose proof (pow2_pos ln) as PA. pose proof (pow2_pos ld) as PB.
  set (A := 2 ^ ln) in *. set (B := 2 ^ ld) in *.
  set (N := inject_Z (Qnum x)) in *. set (D := inject_Z (Z.pos (Qden x))) in *.
  assert (PD : 0 < D) by lra.
  destruct (Qle_bool (2 ^ (ln - ld)) x) eqn:E.
  - apply Qle_bool_iff in E. split; [exact E|].
    rewrite pow2_succ, Ek, Ex.
    apply Qlt_shift_div_r; [exact PD|].
    setoid_replace (2 * (A / B) * D) with ((2 * A * D) / B) by (field; lra).
    apply Qlt_shift_div_l; [exact PB|]. nra.
  - assert (E' : x < 2 ^ (ln - ld)).
    { apply Qnot_le_lt. intros H. apply Qle_bool_iff in H. congruence. }
    replace (ln - ld - 1 + 1)%Z with (ln - ld)%Z by lia.
    split; [|exact E'].
    assert (H2 : 2 * 2 ^ (ln - ld - 1) <= 2 * x); [|lra].
    rewrite pow2_pred, Ek, Ex.
    apply Qle_shift_div_r; [exact PB|].
    setoid_replace (2 * (N / D) * B) with ((2 * N * B) / D) by (field; lra).
    apply Qle_shift_div_l; [exact PD|]. nra.
Qed.

Lemma rne_cases (y : Q) :
  rne y = Qfloor y \/ rne y = (Qfloor y + 1)%Z.
Proof.
  unfold rne. destruct (Qcompare _ _); [destruct (Z.even _)| |]; auto.
Qed.

Lemma rne_err (y : Q) :
  y - (1 # 2) <= inject_Z (rne y) /\ inject_Z (rne y) <= y + (1 # 2).
Proof.
  pose proof (Qfloor_le y) as H1. pose proof (Qlt_floor y) as H2.
  rewrite inject_Z_plus in H2. change (inject_Z 1) with 1 in H2. unfold rne.
  destruct (Qcompare (y - inject_Z (Qfloor y)) (1 # 2)) eqn:E.
  - apply Qeq_alt in E.
    destruct (Z.even (Qfloor y));
      [|rewrite inject_Z_plus; change (inject_Z 1) with 1]; split; lra.
  - apply Qlt_alt in E. split; lra.
  - apply Qgt_alt in E. rewrite inject_Z_plus. change (inject_Z 1) with 1.
    split; lra.
Qed.

Lemma rne_mono (y1 y2 : Q) : y1 <= y2 -> (rne y1 <= rne y2)%Z.
Proof.
  intros H. pose proof (Qfloor_resp_le _ _ H) as Hf.
  destruct (Z.eq_dec (Qfloor y1) (Qfloor y2)) as [Ef|Nf].
  - unfold rne. rewrite Ef.
    destruct (Qcompare (y1 - inject_Z (Qfloor y2)) (1 # 2)) eqn:E1;
      destruct (Qcompare (y2 - inject_Z (Qfloor y2)) (1 # 2)) eqn:E2;
      first [apply Qeq_alt in E1 | apply Qlt_alt in E1 | apply Qgt_alt in E1];
      first [apply Qeq_alt in E2 | apply Qlt_alt in E2 | apply Qgt_alt in E2];
      try lra; try lia; destruct (Z.even (Qfloor y2)); lia.
  - destruct (rne_cases y1) as [-> | ->], (rne_cases y2) as [-> | ->]; lia.
Qed.

Lemma rne_ge_Z (K : Z) (y : Q) : inject_Z K <= y -> (K <= rne y)%Z.
Proof.
  intros H. destruct (rne_err y) as [H1 _].
  assert (H2 : inject_Z K < inject_Z (rne y) + 1) by lra.
  change 1 with (inject_Z 1) in H2. rewrite <- inject_Z_plus in H2.
  rewrite <- Zlt_Qlt in H2. lia.
Qed.

Lemma rne_le_Z (K : Z) (y : Q) : y <= inject_Z K -> (rne y <= K)%Z.
Proof.
  intros H. destruct (rne_err y) as [_ H1].
  assert (H2 : inject_Z (rne y) < inject_Z K + 1) by lra.
  change 1 with (inject_Z 1) in H2. rewrite <- inject_Z_plus in H2.
  rewrite <- Zlt_Qlt in H2. lia.
Qed.


Lemma scaled (x : Q) (g : Z) : x / 2 ^ g * 2 ^ g == x.
Proof. field. pose proof (pow2_pos g). lra. Qed.

Lemma round_pos_err (x : Q) :
  x - 2 ^ ulp_exponent x * (1 # 2) <= round_pos x /\
  round_pos x <= x + 2 ^ ulp_exponent x * (1 # 2).
Proof.
  unfold round_pos. set (g := ulp_exponent x).
  pose proof (pow2_pos g) as Hg. pose proof (scaled x g) as Hs.
  destruct (rne_err (x / 2 ^ g)) as [H1 H2].
  set (m := inject_Z (rne (x / 2 ^ g))) in *. set (y := x / 2 ^ g) in *.
  set (G := 2 ^ g) in *.
  assert (A1 : (y - (1 # 2)) * G <= m * G)
    by (apply Qmult_le_compat_r; [exact H1 | lra]).
  assert (A2 : m * G <= (y + (1 # 2)) * G)
    by (apply Qmult_le_compat_r; [exact H2 | lra]).
  assert (B1 : (y - (1 # 2)) * G == x - G * (1 # 2)) by (rewrite <- Hs; ring).
  assert (B2 : (y + (1 # 2)) * G == x + G * (1 # 2)) by (rewrite <- Hs; ring).
  rewrite B1 in A1. rewrite B2 in A2. split; assumption.
Qed.

Lemma ulp_exponent_spec (x : Q) :
  0 < x -> x < 2 ^ (ulp_exponent x + 24).
Proof.
  intros Hx. destruct (ilog2_spec x Hx) as [_ H].
  eapply Qlt_le_trans; [exact H|]. apply pow2_le. unfold ulp_exponent. lia.
Qed.

Lemma round_pos_upper (x : Q) :
  0 < x -> round_pos x <= 2 ^ (ulp_exponent x + 24).
Proof.
  intros Hx. pose proof (ulp_exponent_spec x Hx) as H. unfold round_pos.
  set (g := ulp_exponent x) in *. pose proof (pow2_pos g) as Hg.
  assert (E : 2 ^ (g + 24) == inject_Z (2 ^ 24) * 2 ^ g).
  { rewrite Qpower_plus by discriminate. rewrite (pow2_Z 24) by lia. ring. }
  rewrite E in H |- *.
  apply Qmult_le_compat_r; [|lra].
  rewrite <- Zle_Qle. apply rne_le_Z.
  apply Qle_shift_div_r; [exact Hg|]. lra.
Qed.

Lemma round_pos_lower (x : Q) :
  0 < x -> (-126 <= ilog2 x)%Z -> 2 ^ ilog2 x <= round_pos x.
Proof.
  intros Hx He. destruct (ilog2_spec x Hx) as [H _]. unfold round_pos.
  assert (Eg : ulp_exponent x = (ilog2 x - 23)%Z) by (unfold ulp_exponent; lia).
  rewrite Eg. set (g := (ilog2 x - 23)%Z). pose proof (pow2_pos g) as Hg.
  assert (E : 2 ^ ilog2 x == inject_Z (2 ^ 23) * 2 ^ g).
  { replace (ilog2 x) with (g + 23)%Z at 1 by (unfold g; lia).
    rewrite Qpower_plus by discriminate. rewrite (pow2_Z 23) by lia. ring. }
  rewrite E in H |- *.
  apply Qmult_le_compat_r; [|lra].
  rewrite <- Zle_Qle. apply rne_ge_Z.
  apply Qle_shift_div_l; [exact Hg|]. lra.
Qed.

Lemma round_pos_nonneg (x : Q) : 0 < x -> 0 <= round_pos x.
Proof.
  intros Hx. unfold round_pos. set (g := ulp_exponent x).
  pose proof (pow2_pos g) as Hg.
  apply Qmult_le_0_compat; [|lra].
  change 0 with (inject_Z 0). rewrite <- Zle_Qle. apply rne_ge_Z.
  change (inject_Z 0) with 0. apply Qle_shift_div_l; [exact Hg|]. lra.
Qed.

Lemma ilog2_mono (x y : Q) : 0 < x -> x <= y -> (ilog2 x <= ilog2 y)%Z.
Proof.
  intros Hx Hxy. destruct (ilog2_spec x Hx) as [H1 _].
  destruct (ilog2_spec y) as [_ H2]; [lra|].
  assert (H : 2 ^ ilog2 x < 2 ^ (ilog2 y + 1)) by lra.
  apply Qpower_lt_compat_l_inv in H; [lia | reflexivity].
Qed.

Lemma round_pos_mono (x y : Q) :
  0 < x -> x <= y -> round_pos x <= round_pos y.
Proof.
  intros Hx Hxy. assert (Hy : 0 < y) by lra.
  pose proof (ilog2_mono x y Hx Hxy) as He.
  destruct (Z.eq_dec (ulp_exponent x) (ulp_exponent y)) as [Eg|Ng].
  - unfold round_pos. rewrite Eg. set (g := ulp_exponent y).
    pose proof (pow2_pos g) as Hg.
    apply Qmult_le_compat_r; [|lra].
    rewrite <- Zle_Qle. apply rne_mono.
    apply Qmult_le_compat_r; [exact Hxy|].
    apply Qlt_le_weak, Qinv_lt_0_compat, Hg.
  - assert (Hlt : (Z.max (ilog2 x) (-126) + 1 <= ilog2 y)%Z)
      by (unfold ulp_exponent in Ng; lia).
    apply Qle_trans with (2 ^ (ulp_exponent x + 24)).
    + apply round_pos_upper, Hx.
    + apply Qle_trans with (2 ^ ilog2 y).
      * apply pow2_le. unfold ulp_exponent. lia.
      * apply round_pos_lower; [exact Hy | lia].
Qed.

Lemma round_zero (x : Q) : x == 0 -> round x = 0.
Proof. intros H. unfold round. apply Qeq_alt in H. rewrite H. reflexivity. Qed.

Lemma round_positive (x : Q) : 0 < x -> round x = round_pos x.
Proof.
  intros H. unfold round. apply Qgt_alt in H. rewrite H. reflexivity.
Qed.

Lemma round_nonneg (x : Q) : 0 <= x -> 0 <= round x.
Proof.
  intros H. destruct (Qlt_le_dec 0 x) as [Hp|Hz].
  - rewrite round_positive by exact Hp. apply round_pos_nonneg, Hp.
  - rewrite round_zero by lra. apply Qle_refl.
Qed.

Lemma round_le (x y : Q) : 0 <= x -> x <= y -> round x <= round y.
Proof.
  intros Hx Hxy. destruct (Qlt_le_dec 0 x) as [Hp|Hz].
  - rewrite (round_positive x Hp), (round_positive y) by lra.
    apply round_pos_mono; assumption.
  - rewrite (round_zero x) by lra. apply round_nonneg. lra.
Qed.

Lemma round_1 : round 1 == 1.
Proof. vm_compute. reflexivity. Qed.

(** Relative error of a value in the normal range: half an ulp is at
    most [u] times the value. *)
Lemma round_rel (x : Q) :
  2 ^ (-126) <= x -> x * (1 - u) <= round x /\ round x <= x * (1 + u).
Proof.
  intros Hx. pose proof (pow2_pos (-126)) as H0.
  assert (Hp : 0 < x) by lra.
  rewrite (round_positive x Hp).
  destruct (ilog2_spec x Hp) as [H1 H2].
  assert (He : (-126 <= ilog2 x)%Z).
  { assert (H : 2 ^ (-126) < 2 ^ (ilog2 x + 1)) by lra.
    apply Qpower_lt_compat_l_inv in H; [lia | reflexivity]. }
  destruct (round_pos_err x) as [E1 E2].
  assert (Eg : ulp_exponent x = (ilog2 x - 23)%Z) by (unfold ulp_exponent; lia).
  rewrite Eg in E1, E2.
  assert (E : 2 ^ (ilog2 x - 23) * (1 # 2) == 2 ^ ilog2 x * u).
  { rewrite Qpower_minus by discriminate. unfold u.
    change (2 ^ 23) with (8388608 # 1). field. }
  rewrite E in E1, E2. pose proof (pow2_pos (ilog2 x)) as Hpos.
  set (P := 2 ^ ilog2 x) in *. clearbody P. clear Hx H0 H2 E.
  unfold u in *. split; lra.
Qed.

(** Absolute error below 1: half an ulp is at most [u / 2]. *)
Lemma round_abs (x : Q) :
  0 <= x -> x < 1 ->
  x - u * (1 # 2) <= round x /\ round x <= x + u * (1 # 2).
Proof.
  intros Hx Hx1. destruct (Qlt_le_dec 0 x) as [Hp|Hz].
  - rewrite (round_positive x Hp).
    destruct (ilog2_spec x Hp) as [H1 _].
    assert (He : (ilog2 x < 0)%Z).
    { assert (H : 2 ^ ilog2 x < 2 ^ 0) by (change (2 ^ 0) with 1; lra).
      apply Qpower_lt_compat_l_inv in H; [lia | reflexivity]. }
    destruct (round_pos_err x) as [E1 E2].
    assert (Hg : 2 ^ ulp_exponent x <= 2 ^ (-24))
      by (apply pow2_le; unfold ulp_exponent; lia).
    change (2 ^ (-24)) with (1 # 16777216) in Hg.
    set (G := 2 ^ ulp_exponent x) in *. clearbody G. clear H1.
    unfold u. split; lra.
  - rewrite (round_zero x) by lra. unfold u. split; lra.
Qed.

(** The same for every value from 10^-12 up, which is far inside the
    normal range. *)
Lemma round_rel_small (x : Q) :
  (1 # 1000000000000) <= x -> x * (1 - u) <= round x /\ round x <= x * (1 + u).
Proof.
  intros Hx. apply round_rel.
  apply Qle_trans with (1 # 1000000000000); [|exact Hx].
  vm_compute. discriminate.
Qed.

End Float32Facts.

(* ------------------------------------------------------------------ *)
(** ** The settings blend of the zone reverb *)

Module ZoneReverbFacts.
Import ZoneReverb.
Local Open Scope Q_scope.

Lemma Lerp_Between a b alpha :
  0 <= alpha <= 1 -> Between a b (FMath.Lerp a b alpha).
Proof. intros H. unfold Between, FMath.Lerp. split; intros Hab; split; nra. Qed.

Lemma Between_target a b : Between a b b.
Proof. unfold Between. split; intros H; split; lra. Qed.

(** The literal [0.01f]. *)
Lemma Literal_001 : Float32.round (1 # 100) == 5368709 # 536870912.
Proof. vm_compute. reflexivity. Qed.

Lemma BlendTime_range C :
  BlendTime C <= 5 ->
  (9 # 1000) <= FMath.Max (BlendTime C) (Float32.round (1 # 100)) /\
  FMath.Max (BlendTime C) (Float32.round (1 # 100)) <= 5.
Proof.
  intros H. pose proof Literal_001 as L.
  destruct (FMathFacts.Max_spec (BlendTime C) (Float32.round (1 # 100)))
    as [[H1 ->]|[H1 ->]]; split; lra.
Qed.

Lemma Covered_plus C SR e n :
  0 < SR -> BlendTime C <= 5 ->
  Covered C SR (e + n) == Covered C SR e + Covered C SR n.
Proof.
  intros HSR HBT. destruct (BlendTime_range C HBT) as [H1 _].
  unfold Covered. rewrite inject_Z_plus. field. split; lra.
Qed.

Lemma Covered_nonneg C SR n :
  0 < SR -> BlendTime C <= 5 -> (0 <= n)%Z -> 0 <= Covered C SR n.
Proof.
  intros HSR HBT Hn. destruct (BlendTime_range C HBT) as [H1 _].
  unfold Covered.
  apply Qle_shift_div_l; [lra|]. rewrite Qmult_0_l.
  apply Qle_shift_div_l; [exact HSR|]. rewrite Qmult_0_l.
  change 0 with (inject_Z 0). rewrite <- Zle_Qle. exact Hn.
Qed.

(** The increment of one block: three roundings, each within the unit
    roundoff of its exact value. *)
Lemma Increment_bounds (SR BT : Q) (n : Z) :
  1 <= SR -> SR <= 1000000 -> (9 # 1000) <= BT -> BT <= 5 -> (0 <= n)%Z ->
  let inc :=
    Float32.round (Float32.round (Float32.round (inject_Z n) / SR) / BT) in
  0 <= inc /\
  (1 - 3 * Float32.u) * (inject_Z n / SR / BT) <= inc /\
  inc <= (1 + 4 * Float32.u) * (inject_Z n / SR / BT).
Proof.
  intros HS1 HS2 HB1 HB2 Hn inc. subst inc. unfold Qdiv.
  assert (Hq1 : SR * / SR == 1) by (field; lra).
  assert (Hq2 : BT * / BT == 1) by (field; lra).
  assert (Pq1 : 0 < / SR) by (apply Qinv_lt_0_compat; lra).
  assert (Pq2 : 0 < / BT) by (apply Qinv_lt_0_compat; lra).
  set (q1 := / SR) in *. set (q2 := / BT) in *.
  assert (Lq1 : (1 # 1000000) <= q1) by nra.
  assert (Lq2 : (1 # 5) <= q2) by nra.
  destruct (Z.eq_dec n 0) as [-> | Hn0].
  - rewrite (Float32Facts.round_zero (inject_Z 0)) by reflexivity.
    rewrite (Float32Facts.round_zero (0 * q1)) by ring.
    rewrite (Float32Facts.round_zero (0 * q2)) by ring.
    change (inject_Z 0) with 0.
    split; [apply Qle_refl|]. split; ring_simplify; apply Qle_refl.
  - assert (HA : 1 <= inject_Z n).
    { change 1 with (inject_Z 1). rewrite <- Zle_Qle. lia. }
    set (A := inject_Z n) in *.
    destruct (Float32Facts.round_rel_small A) as [a1 a2]; [lra|].
    set (a := Float32.round A) in *.
    assert (PX : 0 < A * q1) by (apply Qmult_lt_0_compat; lra).
    assert (LX : (1 # 1000000) <= A * q1) by nra.
    assert (F1 : A * q1 * (1 - Float32.u) <= a * q1).
    { setoid_replace (A * q1 * (1 - Float32.u)) with (A * (1 - Float32.u) * q1)
        by ring.
      apply Qmult_le_compat_r; lra. }
    assert (F2 : a * q1 <= A * q1 * (1 + Float32.u)).
    { setoid_replace (A * q1 * (1 + Float32.u)) with (A * (1 + Float32.u) * q1)
        by ring.
      apply Qmult_le_compat_r; lra. }
    set (X1 := A * q1) in *.
    destruct (Float32Facts.round_rel_small (a * q1)) as [b1 b2];
      [unfold Float32.u in *; lra|].
    set (x1 := a * q1) in *. set (b := Float32.round x1) in *.
    assert (G1 : X1 * ((1 - Float32.u) * (1 - Float32.u)) <= b).
    { apply Qle_trans with (x1 * (1 - Float32.u)); [|exact b1].
      setoid_replace (X1 * ((1 - Float32.u) * (1 - Float32.u)))
        with (X1 * (1 - Float32.u) * (1 - Float32.u)) by ring.
      apply Qmult_le_compat_r; [exact F1 | unfold Float32.u; lra]. }
    assert (G2 : b <= X1 * ((1 + Float32.u) * (1 + Float32.u))).
    { apply Qle_trans with (x1 * (1 + Float32.u)); [exact b2|].
      setoid_replace (X1 * ((1 + Float32.u) * (1 + Float32.u)))
        with (X1 * (1 + Float32.u) * (1 + Float32.u)) by ring.
      apply Qmult_le_compat_r; [exact F2 | unfold Float32.u; lra]. }
    assert (PX2 : 0 < X1 * q2) by (apply Qmult_lt_0_compat; lra).
    assert (LX2 : (1 # 5000000) <= X1 * q2) by nra.
    assert (J1 : X1 * q2 * ((1 - Float32.u) * (1 - Float32.u)) <= b * q2).
    { setoid_replace (X1 * q2 * ((1 - Float32.u) * (1 - Float32.u)))
        with (X1 * ((1 - Float32.u) * (1 - Float32.u)) * q2) by ring.
      apply Qmult_le_compat_r; lra. }
    assert (J2 : b * q2 <= X1 * q2 * ((1 + Float32.u) * (1 + Float32.u))).
    { setoid_replace (X1 * q2 * ((1 + Float32.u) * (1 + Float32.u)))
        with (X1 * ((1 + Float32.u) * (1 + Float32.u)) * q2) by ring.
      apply Qmult_le_compat_r; lra. }
    set (X2 := X1 * q2) in *.
    destruct (Float32Facts.round_rel_small (b * q2)) as [c1 c2];
      [unfold Float32.u in *; lra|].
    set (x2 := b * q2) in *. set (c := Float32.round x2) in *.
    assert (K1 : X2 * ((1 - Float32.u) * (1 - Float32.u) * (1 - Float32.u)) <= c).
    { apply Qle_trans with (x2 * (1 - Float32.u)); [|exact c1].
      setoid_replace (X2 * ((1 - Float32.u) * (1 - Float32.u) * (1 - Float32.u)))
        with (X2 * ((1 - Float32.u) * (1 - Float32.u)) * (1 - Float32.u)) by ring.
      apply Qmult_le_compat_r; [exact J1 | unfold Float32.u; lra]. }
    assert (K2 : c <= X2 * ((1 + Float32.u) * (1 + Float32.u) * (1 + Float32.u))).
    { apply Qle_trans with (x2 * (1 + Float32.u)); [exact c2|].
      setoid_replace (X2 * ((1 + Float32.u) * (1 + Float32.u) * (1 + Float32.u)))
        with (X2 * ((1 + Float32.u) * (1 + Float32.u)) * (1 + Float32.u)) by ring.
      apply Qmult_le_compat_r; [exact J2 | unfold Float32.u; lra]. }
    clearbody c X2. unfold Float32.u in *.
    split; [lra|]. split; lra.
Qed.

(** One block: the blend state is kept, with the block's frames and one
    more rounding of the sum accounted for. *)
Lemma ActiveSettings_Blending C T SR e k n fx :
  1 <= SR -> SR <= 1000000 -> BlendTime C <= 5 ->
  (0 <= e)%Z -> (0 <= k)%Z -> (0 <= n)%Z ->
  Blending C T SR e k fx ->
  Blending C T SR (e + n) (k + 1) (fst (ActiveSettings n fx)) /\
  SettingsBetween C T (snd (ActiveSettings n fx)) /\
  (bIsBlending (fst (ActiveSettings n fx)) = false ->
   snd (ActiveSettings n fx) = T).
Proof.
  intros HS1 HS2 HBT He Hk Hn (HT & HS & Hcase).
  assert (HSR : 0 < SR) by lra.
  destruct (BlendTime_range C HBT) as [HB1 HB2].
  pose proof (Covered_plus C SR e n HSR HBT) as Hplus.
  pose proof (Covered_nonneg C SR n HSR HBT Hn) as Hxn.
  pose proof (Covered_nonneg C SR e HSR HBT He) as Hxe.
  assert (Hk0 : 0 <= inject_Z k).
  { change 0 with (inject_Z 0). rewrite <- Zle_Qle. exact Hk. }
  assert (HbT : SettingsBetween C T T).
  { unfold SettingsBetween.
    do 10 (split; [apply Between_target|]). apply Between_target. }
  unfold ActiveSettings.
  destruct Hcase as [(Hb & HC & Hp0 & Hp1 & Hlo & Hhi)|(Hb & HC & Hp & Hhi)].
  - rewrite Hb. unfold UpdateBlend. rewrite Hb. cbn [negb]. cbv zeta.
    rewrite HC, HS.
    destruct (Increment_bounds SR _ n HS1 HS2 HB1 HB2 Hn) as (Hi0 & Hi1 & Hi2).
    fold (Covered C SR n) in Hi1, Hi2.
    set (inc := Float32.round
                  (Float32.round (Float32.round (inject_Z n) / SR)
                   / FMath.Max (BlendTime C) (Float32.round (1 # 100)))) in *.
    set (x := BlendProgress fx + inc).
    assert (Hx0 : 0 <= x) by (unfold x; lra).
    pose proof (Float32Facts.round_nonneg x Hx0) as Hr0.
    unfold Blending, ProgressLow, ProgressHigh in *.
    rewrite Hplus, inject_Z_plus. change (inject_Z 1) with 1.
    set (Xe := Covered C SR e) in *. set (Xn := Covered C SR n) in *.
    set (K := inject_Z k) in *. unfold Float32.u in *.
    destruct (Qle_bool 1 (Float32.round x)) eqn:E;
      cbn [fst snd bIsBlending CurrentSettings TargetSettings BlendProgress SampleRate].
    + apply Qle_bool_iff in E.
      split; [|split; [rewrite HT; exact HbT | intros _; exact HT]].
      split; [exact HT|]. split; [reflexivity|]. right.
      split; [reflexivity|]. split; [exact HT|]. split; [reflexivity|].
      destruct (Qlt_le_dec x 1) as [Hx1|Hx1].
      * destruct (Float32Facts.round_abs x Hx0 Hx1) as [_ Hr].
        unfold Float32.u in Hr. unfold x in *. lra.
      * unfold x in *. lra.
    + assert (Hlt : Float32.round x < 1).
      { apply Qnot_le_lt. intros H. apply Qle_bool_iff in H. congruence. }
      assert (Hx1 : x < 1).
      { apply Qnot_le_lt. intros H.
        pose proof (Float32Facts.round_le 1 x) as Hm.
        pose proof Float32Facts.round_1 as H1.
        assert (Float32.round 1 <= Float32.round x) by (apply Hm; lra). lra. }
      destruct (Float32Facts.round_abs x Hx0 Hx1) as [Hr1 Hr2].
      unfold Float32.u in Hr1, Hr2.
      split; [|split; [|discriminate]].
      * split; [exact HT|]. split; [reflexivity|]. left.
        split; [reflexivity|]. split; [reflexivity|].
        split; [exact Hr0|]. split; [exact Hlt|].
        unfold x in *. split; lra.
      * unfold InterpolateSettings, SettingsBetween.
        cbn [CurrentSettings TargetSettings BlendProgress RT60 PreDelayMs HFDecay
               LFDecay Diffusion Density EarlyLevel LateLevel WetLevel RoomSize
               StereoWidth].
        rewrite HT.
        do 10 (split; [apply Lerp_Between; split; lra|]).
        apply Lerp_Between; split; lra.
  - rewrite Hb. cbn [fst snd]. rewrite Hb.
    split; [|split; [rewrite HC; exact HbT | intros _; exact HC]].
    unfold Blending, ProgressLow, ProgressHigh in *.
    rewrite Hplus, inject_Z_plus. change (inject_Z 1) with 1.
    set (Xe := Covered C SR e) in *. set (Xn := Covered C SR n) in *.
    set (K := inject_Z k) in *. unfold Float32.u in *.
    split; [exact HT|]. split; [exact HS|]. right.
    split; [exact Hb|]. split; [exact HC|]. split; [exact Hp|]. lra.
Qed.

Lemma ProcessBlocks_Blending C T SR Blocks :
  1 <= SR -> SR <= 1000000 -> BlendTime C <= 5 ->
  Forall (fun n => 0 <= n)%Z Blocks ->
  forall e k fx,
    (0 <= e)%Z -> (0 <= k)%Z -> Blending C T SR e k fx ->
    Blending C T SR (e + TotalFrames Blocks) (k + Z.of_nat (length Blocks))
      (ProcessBlocks Blocks fx).
Proof.
  intros HS1 HS2 HBT Hall.
  induction Hall as [|n l Hn Hl IH]; intros e k fx He Hk HB.
  - cbn. rewrite !Z.add_0_r. exact HB.
  - cbn [ProcessBlocks fold_left TotalFrames fold_right length].
    fold (TotalFrames l). fold (ProcessBlocks l (fst (ActiveSettings n fx))).
    rewrite Nat2Z.inj_succ, <- Z.add_1_l, !Z.add_assoc.
    apply IH; [lia | lia |].
    apply ActiveSettings_Blending; assumption.
Qed.

(** At the member initialisers (48 kHz, blend time 0.5 s) fifty blocks of
    480 frames are half a second, yet the fifty rounded increments add up
    to 16777209 / 2^24, just below 1: the blend is still on, and the next
    block ends it. *)
Lemma Blend_at_defaults :
  let fx := SetTargetSettings Settings_default (Init 48000) in
  bIsBlending (ProcessBlocks (repeat 480%Z 50) fx) = true /\
  BlendProgress (ProcessBlocks (repeat 480%Z 50) fx) == 16777209 # 16777216 /\
  bIsBlending (ProcessBlocks (repeat 480%Z 51) fx) = false.
Proof.
  cbv zeta. split; [vm_compute; reflexivity|].
  split; vm_compute; reflexivity.
Qed.

End ZoneReverbFacts.

(** X27.  A change of reverb settings is blended, and the blend ends when
    the blocks cover the blend time, up to the rounding of the progress.
    After SetTargetSettings, at a sample rate of 1 Hz to 1 MHz and a
    blend time within its declared 5 s, whatever the sizes of the blocks
    ([int32] frame counts from 0 up): the progress stays in 0..1; the
    settings a block is rendered with lie field by field between the
    settings in effect before and the target; while the blend is on the
    current settings are the old ones, and once it is over they are the
    target, the progress is 1 and every further block is rendered with
    exactly the target.  With X the part of max(BlendTime, 0.01f) seconds
    that the n blocks cover, computed without rounding, and u = 2^-24, the
    blend is over as soon as (1 - 3u) X >= 1 + n u, and it is not over as
    long as (1 + 4u) X + n u < 1.  Between the two bounds rounding
    decides: blocks that cover the blend time exactly may leave the blend
    on for one more block. *)
Theorem X27_reverb_blend_completes :
  forall (fx : ZoneReverb.FAcousticZoneReverbEffect)
         (T : ZoneReverb.FAcousticZoneReverbSettings) (Blocks : list Z) (n : Z),
    (1 <= ZoneReverb.SampleRate fx)%Q ->
    (ZoneReverb.SampleRate fx <= 1000000)%Q ->
    (ZoneReverb.BlendTime (ZoneReverb.CurrentSettings fx) <= 5)%Q ->
    Forall (fun k => 0 <= k <= INT32_MAX) Blocks -> 0 <= n <= INT32_MAX ->
    let C := ZoneReverb.CurrentSettings fx in
    let fx' := ZoneReverb.ProcessBlocks Blocks (ZoneReverb.SetTargetSettings T fx) in
    let X := ZoneReverb.Covered C (ZoneReverb.SampleRate fx)
               (ZoneReverb.TotalFrames Blocks) in
    let Rounded := (inject_Z (Z.of_nat (length Blocks)) * Float32.u)%Q in
    (0 <= ZoneReverb.BlendProgress fx' <= 1)%Q /\
    ZoneReverb.SettingsBetween C T (snd (ZoneReverb.ActiveSettings n fx')) /\
    (ZoneReverb.bIsBlending fx' = true -> ZoneReverb.CurrentSettings fx' = C) /\
    (ZoneReverb.bIsBlending fx' = false ->
     ZoneReverb.CurrentSettings fx' = T /\
     ZoneReverb.BlendProgress fx' = 1%Q /\
     snd (ZoneReverb.ActiveSettings n fx') = T) /\
    ((1 + Rounded <= (1 - 3 * Float32.u) * X)%Q ->
     ZoneReverb.bIsBlending fx' = false) /\
    (((1 + 4 * Float32.u) * X + Rounded < 1)%Q ->
     ZoneReverb.bIsBlending fx' = true).
Proof.
  intros fx T Blocks n HS1 HS2 HBT Hint [Hn _] C fx' X Rounded.
  assert (Hall : Forall (fun k => 0 <= k) Blocks).
  { eapply Forall_impl; [|exact Hint]. cbv beta. intros k Hk. apply Hk. }
  assert (HTF : 0 <= ZoneReverb.TotalFrames Blocks).
  { clear - Hall. induction Hall as [|k l Hk Hl IH]; cbn; [lia|].
    fold (ZoneReverb.TotalFrames l). lia. }
  assert (H0 : ZoneReverb.Blending C T (ZoneReverb.SampleRate fx) 0 0
                 (ZoneReverb.SetTargetSettings T fx)).
  { unfold ZoneReverb.Blending, ZoneReverb.SetTargetSettings.
    cbn [ZoneReverb.TargetSettings ZoneReverb.SampleRate ZoneReverb.bIsBlending
           ZoneReverb.CurrentSettings ZoneReverb.BlendProgress].
    split; [reflexivity|]. split; [reflexivity|]. left.
    split; [reflexivity|]. split; [reflexivity|].
    assert (E : (ZoneReverb.Covered C (ZoneReverb.SampleRate fx) 0 == 0)%Q).
    { unfold ZoneReverb.Covered, Qdiv. change (inject_Z 0) with 0%Q.
      rewrite !Qmult_0_l. reflexivity. }
    unfold ZoneReverb.ProgressLow, ZoneReverb.ProgressHigh. rewrite E.
    change (inject_Z 0) with 0%Q. unfold Float32.u.
    split; [discriminate|]. split; [reflexivity|]. split; discriminate. }
  pose proof (ZoneReverbFacts.ProcessBlocks_Blending C T (ZoneReverb.SampleRate fx)
                Blocks HS1 HS2 HBT Hall 0 0 _ (Z.le_refl 0) (Z.le_refl 0) H0) as HB.
  fold fx' in HB. rewrite !Z.add_0_l in HB.
  destruct (ZoneReverbFacts.ActiveSettings_Blending C T (ZoneReverb.SampleRate fx)
              (ZoneReverb.TotalFrames Blocks) (Z.of_nat (length Blocks)) n fx'
              HS1 HS2 HBT HTF (Nat2Z.is_nonneg _) Hn HB)
    as (_ & Hbetween & Hdone).
  destruct HB as (HT & HS & [(Hb & HC & Hp0 & Hp1 & Hlo & Hhi)|(Hb & HC & Hp & Hhi)]).
  - unfold ZoneReverb.ProgressLow in Hlo. unfold ZoneReverb.ProgressHigh in Hhi.
    fold X in Hlo, Hhi. fold Rounded in Hlo, Hhi.
    split; [split; lra|]. split; [exact Hbetween|]. split; [intros _; exact HC|].
    split; [intros H; congruence|].
    split; [|intros _; exact Hb].
    intros Hcover. exfalso. clearbody X Rounded. unfold Float32.u in *. lra.
  - unfold ZoneReverb.ProgressHigh in Hhi. fold X in Hhi. fold Rounded in Hhi.
    split; [rewrite Hp; split; discriminate|]. split; [exact Hbetween|].
    split; [intros H; congruence|].
    split; [intros _; split; [exact HC|]; split; [exact Hp|]; apply Hdone;
            unfold ZoneReverb.ActiveSettings; rewrite Hb; exact Hb|].
    split; [intros _; exact Hb|].
    intros Hshort. exfalso. clearbody X Rounded. unfold Float32.u in *. lra.
Qed.

Lemma X27_reverb_blend_completes_witness :
  let fx' := ZoneReverb.ProcessBlocks (repeat 480 51)
               (ZoneReverb.SetTargetSettings
                  (ZoneReverb.InitFromZonePreset (ZonePreset.CreateFromType Zone_Cave)
                     ZoneReverb.Settings_default)
                  (ZoneReverb.Init 48000)) in
  ZoneReverb.bIsBlending fx' = false.
Proof.
  destruct (X27_reverb_blend_completes (ZoneReverb.Init 48000)
              (ZoneReverb.InitFromZonePreset (ZonePreset.CreateFromType Zone_Cave)
                 ZoneReverb.Settings_default)
              (repeat 480 51) 0) as (_ & _ & _ & _ & H & _).
  - vm_compute. discriminate.
  - vm_compute. discriminate.
  - vm_compute. discriminate.
  - repeat constructor; unfold INT32_MAX; lia.
  - unfold INT32_MAX. lia.
  - apply H. vm_compute. discriminate.
Defined.

(* ------------------------------------------------------------------ *)
(** ** Headphone crossfeed *)

Module CrossfeedFacts.
Import Crossfeed.

Lemma ClampZ_range x N : 1 <= N -> 0 <= ClampZ x 1 (N - 1) <= N.
Proof.
  intros HN. unfold ClampZ.
  destruct (Z.ltb_spec x 1); [lia|].
  destruct (Z.ltb_spec x (N - 1)); lia.
Qed.

Lemma TArray_set_ok i v l :
  0 <= i < Z.of_nat (length l) ->
  exists l', TArray_set i v l = Some l' /\ length l' = length l.
Proof.
  intros Hi. unfold TArray_set. destruct (Z.ltb_spec i 0); [lia|].
  rewrite TArray_write_spec by lia. eexists. split; [reflexivity|].
  rewrite length_app, firstn_length_le by lia. cbn [length].
  rewrite length_skipn. lia.
Qed.

Lemma TArray_get_ok i l :
  0 <= i < Z.of_nat (length l) -> exists v, TArray_get i l = Some v.
Proof.
  intros Hi. unfold TArray_get. destruct (Z.ltb_spec i 0); [lia|].
  destruct (nth_error l (Z.to_nat i)) as [v|] eqn:E; [eauto|].
  apply nth_error_None in E. lia.
Qed.

Lemma ProcessFrame_ok D c fx InL InR :
  WellFormed fx ->
  0 <= D <= Z.of_nat (length (CrossfeedDelayL fx)) ->
  exists fx1 OutL OutR,
    ProcessFrame D c fx InL InR = Some (fx1, (OutL, OutR)) /\
    WellFormed fx1 /\
    length (CrossfeedDelayL fx1) = length (CrossfeedDelayL fx) /\
    CurrentSettings fx1 = CurrentSettings fx /\
    DelayWriteIndex fx1
    = (DelayWriteIndex fx + 1) mod Z.of_nat (length (CrossfeedDelayL fx)) /\
    (CrossfeedAmount (CurrentSettings fx) = 0%R -> OutL = InL /\ OutR = InR).
Proof.
  intros [HlenR HW] HD. unfold ProcessFrame.
  set (N := Z.of_nat (length (CrossfeedDelayL fx))) in *.
  destruct (TArray_set_ok (DelayWriteIndex fx) InL (CrossfeedDelayL fx) HW)
    as (DL & -> & HDL).
  destruct (TArray_set_ok (DelayWriteIndex fx) InR (CrossfeedDelayR fx))
    as (DR & -> & HDR); [rewrite HlenR; exact HW|].
  rewrite HDL. fold N.
  destruct (Z.eqb_spec N 0) as [H0|_]; [lia|].
  assert (Hread : 0 <= Z.rem (DelayWriteIndex fx - D + N) N < N).
  { rewrite Z.rem_mod_nonneg by lia. apply Z.mod_pos_bound. lia. }
  destruct (TArray_get_ok (Z.rem (DelayWriteIndex fx - D + N) N) DL) as [dl ->];
    [rewrite HDL; exact Hread|].
  destruct (TArray_get_ok (Z.rem (DelayWriteIndex fx - D + N) N) DR) as [dr ->];
    [rewrite HDR, HlenR; exact Hread|].
  eexists _, _, _. split; [reflexivity|].
  cbn [CrossfeedDelayL CrossfeedDelayR DelayWriteIndex CurrentSettings].
  assert (Hnext : Z.rem (DelayWriteIndex fx + 1) N = (DelayWriteIndex fx + 1) mod N)
    by (apply Z.rem_mod_nonneg; lia).
  split; [|split; [exact HDL | split; [reflexivity | split; [exact Hnext|]]]].
  - unfold WellFormed. cbn [CrossfeedDelayL CrossfeedDelayR DelayWriteIndex].
    split; [congruence|]. rewrite HDL, Hnext. fold N. apply Z.mod_pos_bound. lia.
  - intros ->. split; ring.
Qed.

Lemma ProcessFrames_ok D c nc InBuffer :
  2 <= nc ->
  forall OutBuffer fx,
    Shaped nc InBuffer OutBuffer ->
    WellFormed fx ->
    0 <= D <= Z.of_nat (length (CrossfeedDelayL fx)) ->
    exists fx' out,
      ProcessFrames D c fx InBuffer OutBuffer = Some (fx', out) /\
      WellFormed fx' /\
      length (CrossfeedDelayL fx') = length (CrossfeedDelayL fx) /\
      CurrentSettings fx' = CurrentSettings fx /\
      DelayWriteIndex fx'
      = (DelayWriteIndex fx + Z.of_nat (length InBuffer))
          mod Z.of_nat (length (CrossfeedDelayL fx)) /\
      Forall2 (fun o0 o => skipn 2 o = skipn 2 o0 /\ length o = length o0)
        OutBuffer out /\
      (CrossfeedAmount (CurrentSettings fx) = 0%R ->
       Forall2 (fun i o => firstn 2 o = firstn 2 i) InBuffer out).
Proof.
  intros Hnc. induction InBuffer as [|InFrame InRest IH];
    intros OutBuffer fx Hshape HWF HD.
  - inversion Hshape; subst. exists fx, []. cbn [ProcessFrames length Z.of_nat].
    split; [reflexivity|]. split; [exact HWF|]. split; [reflexivity|].
    split; [reflexivity|]. split.
    { rewrite Z.add_0_r. symmetry. apply Z.mod_small. apply HWF. }
    split; [constructor | intros _; constructor].
  - inversion Hshape as [|i o li lo Hio Hrest]; subst. destruct Hio as [Hi Ho].
    destruct InFrame as [|InL [|InR InTail]]; cbn [length] in Hi; try lia.
    destruct o as [|o0 [|o1 OutTail]]; cbn [length] in Ho; try lia.
    cbn [ProcessFrames].
    destruct (ProcessFrame_ok D c fx InL InR HWF HD)
      as (fx1 & OutL & OutR & -> & HWF1 & Hlen1 & Hset1 & HW1 & Htr1).
    destruct (IH lo fx1 Hrest HWF1) as
      (fx2 & outs & -> & HWF2 & Hlen2 & Hset2 & HW2 & Hkeep & Htr2);
      [rewrite Hlen1; exact HD|].
    eexists _, _. split; [reflexivity|]. split; [exact HWF2|].
    split; [congruence|]. split; [congruence|]. split; [|split].
    + rewrite HW2, HW1, Hlen1. cbn [length]. rewrite Nat2Z.inj_succ.
      destruct HWF as [_ HW].
      rewrite Zplus_mod_idemp_l. f_equal. lia.
    + constructor; [split; reflexivity | exact Hkeep].
    + intros HA. destruct (Htr1 HA) as [-> ->].
      constructor; [reflexivity|]. apply Htr2. rewrite Hset1. exact HA.
Qed.

End CrossfeedFacts.

(** X28.  Headphone crossfeed.  Disabled, or on fewer than two channels,
    it passes the block through and keeps its state.  Enabled on two or
    more channels, with delay lines of equal positive length and the write
    index inside them, a block of any number of frames is processed
    without an index ever leaving the delay lines, whatever delay is
    configured: the delay lines keep their length, the write index
    advances by the number of frames modulo that length, only the first two
    channels of each output frame are written, and with a crossfeed amount
    of 0 these two channels leave as they came. *)
Theorem X28_crossfeed_safe_and_transparent :
  (forall fx nc InBuffer OutBuffer,
     Crossfeed.bEnabled (Crossfeed.CurrentSettings fx) = false \/ nc < 2 ->
     Crossfeed.OnProcessAudio fx nc InBuffer OutBuffer = Some (fx, InBuffer)) /\
  (forall fx nc InBuffer OutBuffer,
     Crossfeed.bEnabled (Crossfeed.CurrentSettings fx) = true ->
     2 <= nc ->
     Crossfeed.Shaped nc InBuffer OutBuffer ->
     Crossfeed.WellFormed fx ->
     exists fx' out,
       Crossfeed.OnProcessAudio fx nc InBuffer OutBuffer = Some (fx', out) /\
       Crossfeed.WellFormed fx' /\
       length (Crossfeed.CrossfeedDelayL fx') = length (Crossfeed.CrossfeedDelayL fx) /\
       Crossfeed.DelayWriteIndex fx'
       = (Crossfeed.DelayWriteIndex fx + Z.of_nat (length InBuffer))
           mod Z.of_nat (length (Crossfeed.CrossfeedDelayL fx)) /\
       Forall2 (fun o0 o => skipn 2 o = skipn 2 o0 /\ length o = length o0)
         OutBuffer out /\
       (Crossfeed.CrossfeedAmount (Crossfeed.CurrentSettings fx) = 0%R ->
        Forall2 (fun i o => firstn 2 o = firstn 2 i) InBuffer out)).
Proof.
  split.
  - intros fx nc InBuffer OutBuffer [H|H]; unfold Crossfeed.OnProcessAudio.
    + rewrite H. reflexivity.
    + destruct (negb (Crossfeed.bEnabled (Crossfeed.CurrentSettings fx)));
        [reflexivity|].
      destruct (Z.ltb_spec nc 2); [reflexivity | lia].
  - intros fx nc InBuffer OutBuffer Hen Hnc Hshape HWF.
    unfold Crossfeed.OnProcessAudio. rewrite Hen. cbn [negb].
    destruct (Z.ltb_spec nc 2); [lia|]. cbv zeta.
    set (D := Crossfeed.ClampZ _ 1 _).
    set (c := exp _).
    assert (HD : 0 <= D <= Z.of_nat (length (Crossfeed.CrossfeedDelayL fx))).
    { unfold D. apply CrossfeedFacts.ClampZ_range. destruct HWF as [_ HW]. lia. }
    destruct (CrossfeedFacts.ProcessFrames_ok D c nc InBuffer Hnc OutBuffer fx
                Hshape HWF HD)
      as (fx' & out & Heq & HWF' & Hlen & _ & HW & Hkeep & Htr).
    exists fx', out. auto 10.
Qed.

Lemma X28_crossfeed_safe_and_transparent_witness :
  exists fx' out,
    Crossfeed.OnProcessAudio Crossfeed.fx_four 2
      [[1%R; 0%R]; [0%R; 1%R]] [[0%R; 0%R]; [0%R; 0%R]] = Some (fx', out).
Proof.
  destruct (proj2 X28_crossfeed_safe_and_transparent Crossfeed.fx_four 2
              [[1%R; 0%R]; [0%R; 1%R]] [[0%R; 0%R]; [0%R; 0%R]])
    as (fx' & out & H & _).
  - reflexivity.
  - lia.
  - repeat constructor.
  - unfold Crossfeed.WellFormed. cbn. split; [reflexivity | lia].
  - exists fx', out. exact H.
Defined.

(* ------------------------------------------------------------------ *)
(** ** Replication of a source *)

Lemma HasFlag_SetFlag s i b j :
  0 <= i < 8 -> 0 <= j < 8 ->
  HasFlag (SetFlag (2 ^ i) b s) (2 ^ j)
  = if i =? j then b else HasFlag s (2 ^ j).
Proof.
  intros Hi Hj. unfold HasFlag. rewrite !land_pow2_testbit by lia.
  rewrite SetFlag_testbit by lia.
  destruct (Z.ltb_spec j 8); [|lia]. cbn [andb].
  destruct (i =? j), b; cbn [negb];
    rewrite ?orb_true_r, ?orb_false_r, ?andb_true_r, ?andb_false_r; reflexivity.
Qed.

Lemma SetFlag_same s i :
  0 <= i < 8 -> 0 <= SourceFlags s < 256 ->
  SetFlag (2 ^ i) (HasFlag s (2 ^ i)) s = s.
Proof.
  intros Hi Hs.
  assert (Hflags : SourceFlags (SetFlag (2 ^ i) (HasFlag s (2 ^ i)) s) = SourceFlags s).
  { apply Z.bits_inj'. intros n Hn. rewrite SetFlag_testbit by lia.
    unfold HasFlag. rewrite land_pow2_testbit by lia.
    destruct (Z.ltb_spec n 8) as [Hlt|Hge]; cbn [andb].
    - destruct (Z.eqb_spec i n) as [->|Hne].
      + destruct (Z.testbit (SourceFlags s) n); reflexivity.
      + destruct (Z.testbit (SourceFlags s) i); cbn [negb];
          rewrite ?orb_false_r, ?andb_true_r; reflexivity.
    - symmetry. change (SourceFlags s) with (SourceFlags s).
      rewrite <- (Z.mod_small (SourceFlags s) (2 ^ 8)) by (change (2 ^ 8) with 256; lia).
      apply Z.mod_pow2_bits_high. lia. }
  unfold SetFlag in Hflags |- *.
  destruct (HasFlag s (2 ^ i)); cbn [SourceFlags set_SourceFlags] in Hflags;
    unfold set_SourceFlags; rewrite Hflags; destruct s; reflexivity.
Qed.

Lemma ComputePriorityScore_ext s s' dist :
  PriorityOverride s' = PriorityOverride s -> BaseLoudness s' = BaseLoudness s ->
  Importance s' = Importance s -> HasFlag s' Flag_IsHero = HasFlag s Flag_IsHero ->
  ComputePriorityScore s' dist = ComputePriorityScore s dist.
Proof.
  intros Hp Hb Hi Hh. unfold ComputePriorityScore. rewrite Hp, Hb, Hi, Hh. reflexivity.
Qed.

(** X29.  What replication carries from a server's source to a client's:
    after the server has read its linked source into the replicated state
    and the client has applied the state it received, the client's source
    has the server's LOD, importance, base loudness and hero flag and its
    audio component plays exactly when the server's does; the client's
    other flags and its priority override are its own.  With equal
    priority overrides the two sources then get the same priority score at
    the same distance.  Reading the client's source back gives the state
    that was received, and applying that state again changes nothing. *)
Theorem X29_source_replication :
  forall (server client : SourceReplication.UAcousticReplicationComponent)
         (S C : UAcousticSourceComponent) (sp cp : bool),
    SourceReplication.LinkedSource server = true ->
    SourceReplication.OwnerSource server
    = Some {| SourceReplication.Source := S;
              SourceReplication.IsPlaying := Some sp |} ->
    SourceReplication.OwnerSource client
    = Some {| SourceReplication.Source := C;
              SourceReplication.IsPlaying := Some cp |} ->
    0 <= SourceFlags C < 256 ->
    let R := SourceReplication.ReplicatedState
               (SourceReplication.UpdateReplicatedStateFromSource server) in
    let client' := SourceReplication.OnRep_AudioState R client in
    exists C',
      SourceReplication.OwnerSource client'
      = Some {| SourceReplication.Source := C';
                SourceReplication.IsPlaying := Some sp |} /\
      SourceReplication.LinkedSource client' = true /\
      AcousticLOD C' = AcousticLOD S /\ Importance C' = Importance S /\
      BaseLoudness C' = BaseLoudness S /\
      HasFlag C' Flag_IsHero = HasFlag S Flag_IsHero /\
      (forall j, 1 <= j < 8 -> HasFlag C' (2 ^ j) = HasFlag C (2 ^ j)) /\
      PriorityOverride C' = PriorityOverride C /\
      (PriorityOverride C = PriorityOverride S ->
       forall dist, ComputePriorityScore C' dist = ComputePriorityScore S dist) /\
      SourceReplication.ReplicatedState
        (SourceReplication.UpdateReplicatedStateFromSource client') = R /\
      SourceReplication.OnRep_AudioState R client' = client'.
Proof.
  intros server client S C sp cp Hlink HS HC HflagsC R client'.
  destruct server as [R0 sl so]. destruct client as [Rc cl co].
  cbn [SourceReplication.LinkedSource SourceReplication.OwnerSource] in Hlink, HS, HC.
  subst sl so co.
  assert (HR : R = {| SourceReplication.bIsPlaying := sp;
                      SourceReplication.bIsLooping := SourceReplication.bIsLooping R0;
                      SourceReplication.Rep_BaseLoudness := BaseLoudness S;
                      SourceReplication.Rep_AcousticLOD := AcousticLOD S;
                      SourceReplication.bIsHeroSource := HasFlag S Flag_IsHero;
                      SourceReplication.Rep_Importance := Importance S;
                      SourceReplication.PlaybackPosition :=
                        SourceReplication.PlaybackPosition R0 |}) by reflexivity.
  set (C' := SourceReplication.set_BaseLoudness (BaseLoudness S)
               (SourceReplication.SetImportance (Importance S)
                  (SetFlag Flag_IsHero (HasFlag S Flag_IsHero)
                     (SourceReplication.SetAcousticLOD (AcousticLOD S) C)))).
  assert (Hplay : forall p,
             (if sp && negb p then Some true
              else if negb sp && p then Some false else Some p) = Some sp).
  { intros p. destruct sp, p; reflexivity. }
  assert (Hclient' : client'
                     = {| SourceReplication.ReplicatedState := R;
                          SourceReplication.LinkedSource := true;
                          SourceReplication.OwnerSource :=
                            Some {| SourceReplication.Source := C';
                                    SourceReplication.IsPlaying := Some sp |} |}).
  { unfold client', SourceReplication.OnRep_AudioState,
      SourceReplication.ApplyReplicatedState, SourceReplication.FindLinkedSource.
    cbn [SourceReplication.LinkedSource SourceReplication.OwnerSource
           SourceReplication.ReplicatedState SourceReplication.Source
           SourceReplication.IsPlaying].
    destruct cl; cbn [negb SourceReplication.LinkedSource
                        SourceReplication.OwnerSource
                        SourceReplication.ReplicatedState];
      rewrite HR;
      cbn [SourceReplication.bIsPlaying SourceReplication.Rep_AcousticLOD
             SourceReplication.bIsHeroSource SourceReplication.Rep_Importance
             SourceReplication.Rep_BaseLoudness SourceReplication.Source
             SourceReplication.IsPlaying];
      rewrite (Hplay cp); reflexivity. }
  assert (HhC' : forall j, 0 <= j < 8 ->
                 HasFlag C' (2 ^ j)
                 = if 0 =? j then HasFlag S Flag_IsHero else HasFlag C (2 ^ j)).
  { intros j Hj.
    change (HasFlag C' (2 ^ j))
      with (HasFlag (SetFlag (2 ^ 0) (HasFlag S Flag_IsHero)
                       (SourceReplication.SetAcousticLOD (AcousticLOD S) C)) (2 ^ j)).
    rewrite HasFlag_SetFlag by lia. reflexivity. }
  assert (HfC' : 0 <= SourceFlags C' < 256).
  { change (SourceFlags C')
      with (SourceFlags (SetFlag (2 ^ 0) (HasFlag S Flag_IsHero)
                           (SourceReplication.SetAcousticLOD (AcousticLOD S) C))).
    unfold SetFlag. destruct (HasFlag S Flag_IsHero);
      cbn [SourceFlags set_SourceFlags]; apply Z.mod_pos_bound; lia. }
  assert (HC'fields : AcousticLOD C' = AcousticLOD S /\ Importance C' = Importance S /\
                      BaseLoudness C' = BaseLoudness S /\
                      PriorityOverride C' = PriorityOverride C).
  { unfold C', SetFlag. destruct (HasFlag S Flag_IsHero); repeat split. }
  destruct HC'fields as (Hl & Hi & Hb & Hp).
  assert (Hhero : HasFlag C' Flag_IsHero = HasFlag S Flag_IsHero).
  { change Flag_IsHero with (2 ^ 0) at 1. rewrite HhC' by lia. reflexivity. }
  exists C'. rewrite Hclient'.
  cbn [SourceReplication.OwnerSource SourceReplication.LinkedSource].
  split; [reflexivity|]. split; [reflexivity|].
  split; [exact Hl|]. split; [exact Hi|]. split; [exact Hb|]. split; [exact Hhero|].
  split.
  { intros j Hj. rewrite HhC' by lia. destruct (Z.eqb_spec 0 j); [lia | reflexivity]. }
  split; [exact Hp|]. split.
  { intros Hpo dist. apply ComputePriorityScore_ext; congruence. }
  split.
  - unfold SourceReplication.UpdateReplicatedStateFromSource.
    cbn [SourceReplication.LinkedSource SourceReplication.OwnerSource negb
           SourceReplication.ReplicatedState SourceReplication.Source
           SourceReplication.IsPlaying].
    rewrite Hl, Hi, Hb, Hhero, HR. reflexivity.
  - unfold SourceReplication.OnRep_AudioState, SourceReplication.ApplyReplicatedState.
    cbn [SourceReplication.LinkedSource SourceReplication.OwnerSource negb
           SourceReplication.ReplicatedState SourceReplication.Source
           SourceReplication.IsPlaying].
    rewrite HR.
    cbn [SourceReplication.bIsPlaying SourceReplication.Rep_AcousticLOD
           SourceReplication.bIsHeroSource SourceReplication.Rep_Importance
           SourceReplication.Rep_BaseLoudness SourceReplication.Source
           SourceReplication.IsPlaying].
    rewrite (Hplay sp). do 2 f_equal. f_equal.
    assert (H1 : SourceReplication.SetAcousticLOD (AcousticLOD S) C' = C').
    { rewrite <- Hl. destruct C'. reflexivity. }
    rewrite H1.
    assert (H2 : SetFlag Flag_IsHero (HasFlag S Flag_IsHero) C' = C').
    { rewrite <- Hhero. change Flag_IsHero with (2 ^ 0).
      apply SetFlag_same; [lia | exact HfC']. }
    rewrite H2.
    assert (H3 : SourceReplication.SetImportance (Importance S) C' = C').
    { rewrite <- Hi. destruct C'. reflexivity. }
    rewrite H3. rewrite <- Hb. destruct C'. reflexivity.
Qed.

Lemma X29_source_replication_witness :
  exists C',
    SourceReplication.OwnerSource
      (SourceReplication.OnRep_AudioState
         (SourceReplication.ReplicatedState
            (SourceReplication.UpdateReplicatedStateFromSource
               SourceReplication.server_hero))
         SourceReplication.client_fresh)
    = Some {| SourceReplication.Source := C';
              SourceReplication.IsPlaying := Some true |}.
Proof.
  destruct (X29_source_replication SourceReplication.server_hero
              SourceReplication.client_fresh source_hero source_default true false)
    as (C' & H & _).
  - reflexivity.
  - reflexivity.
  - reflexivity.
  - cbn. lia.
  - exists C'. exact H.
Defined.

(* ------------------------------------------------------------------ *)
(** ** The schedule of the passes *)

Lemma ProcessOcclusion_accumulators cfg w now s :
  OcclusionUpdateAccumulator (ProcessOcclusion cfg w now s)
  = OcclusionUpdateAccumulator s /\
  ReflectionUpdateAccumulator (ProcessOcclusion cfg w now s)
  = ReflectionUpdateAccumulator s /\
  ZoneUpdateAccumulator (ProcessOcclusion cfg w now s) = ZoneUpdateAccumulator s.
Proof.
  unfold ProcessOcclusion. destruct (NumListeners s =? 0); [auto|].
  destruct (OcclusionLoop cfg (MaterialMappings s) w now (RegisteredSources s)
              (CurrentBudget s) (RaysCast s)) as [[Sources b] log].
  repeat split.
Qed.

Lemma ProcessReflections_accumulators cfg w now s s' :
  ProcessReflections cfg w now s = Some s' ->
  OcclusionUpdateAccumulator s' = OcclusionUpdateAccumulator s /\
  ReflectionUpdateAccumulator s' = ReflectionUpdateAccumulator s /\
  ZoneUpdateAccumulator s' = ZoneUpdateAccumulator s.
Proof.
  unfold ProcessReflections. destruct (NumListeners s =? 0).
  { intros [= <-]. auto. }
  destruct (ReflectionLoop cfg (MaterialMappings s) w now (RegisteredSources s)
              (CurrentBudget s) (RaysCast s)) as [[[Sources b] log]|];
    [|discriminate].
  intros [= <-]. repeat split.
Qed.

Lemma UpdateSourcePriorities_sources cfg w s s0 :
  RegisteredSources s0 = RegisteredSources s -> NumListeners s0 = NumListeners s ->
  RegisteredSources (UpdateSourcePriorities cfg w s0)
  = RegisteredSources (UpdateSourcePriorities cfg w s).
Proof.
  intros Hr Hn. unfold UpdateSourcePriorities. rewrite Hr, Hn.
  destruct (NumListeners s =? 0); [exact Hr|]. cbv zeta.
  destruct (fold_left _ _ _) as [[Sources a] h]. reflexivity.
Qed.

(** X30.  One tick of ProcessAcousticUpdate, for settings in range (the
    three update rates positive, as their ClampMin of 5 Hz makes them) and
    a registry as the engine builds it: the tick completes; each of the
    three accumulators is reset to 0 when, with this tick's DeltaTime
    added, it has reached the interval 1 / rate of its pass, and otherwise
    keeps the sum, so that it ends the tick below its interval; and a tick in which neither the occlusion nor the reflection pass is
    due casts no ray and leaves the registry as the LOD pass alone leaves
    it. *)
Theorem X30_tick_schedule :
  forall cfg w DeltaTime tOcc tRefl s,
    SettingsInRange cfg ->
    RegistryOk (RegisteredSources s) ->
    (0 < OcclusionUpdateRateHz cfg)%Q ->
    (0 < ReflectionUpdateRateHz cfg)%Q ->
    (0 < ZoneUpdateRateHz cfg)%Q ->
    let DueO := Due (OcclusionUpdateRateHz cfg) (OcclusionUpdateAccumulator s)
                  DeltaTime in
    let DueR := Due (ReflectionUpdateRateHz cfg) (ReflectionUpdateAccumulator s)
                  DeltaTime in
    let DueZ := Due (ZoneUpdateRateHz cfg) (ZoneUpdateAccumulator s) DeltaTime in
    exists s',
      ProcessAcousticUpdate cfg w DeltaTime tOcc tRefl s = Some s' /\
      OcclusionUpdateAccumulator s'
      = (if DueO then 0 else OcclusionUpdateAccumulator s + DeltaTime)%Q /\
      ReflectionUpdateAccumulator s'
      = (if DueR then 0 else ReflectionUpdateAccumulator s + DeltaTime)%Q /\
      ZoneUpdateAccumulator s'
      = (if DueZ then 0 else ZoneUpdateAccumulator s + DeltaTime)%Q /\
      (OcclusionUpdateAccumulator s' < 1 / OcclusionUpdateRateHz cfg)%Q /\
      (ReflectionUpdateAccumulator s' < 1 / ReflectionUpdateRateHz cfg)%Q /\
      (ZoneUpdateAccumulator s' < 1 / ZoneUpdateRateHz cfg)%Q /\
      (DueO = false -> DueR = false ->
       RaysCast s' = [] /\ TotalRaysUsed (CurrentBudget s') = 0 /\
       RegisteredSources s' = RegisteredSources (UpdateSourcePriorities cfg w s)).
Proof.
  intros cfg w dt tOcc tRefl s Hcfg Hreg HrO HrR HrZ DueO DueR DueZ.
  destruct (SettingsInRange_int32 cfg Hcfg) as (HM & HA & HH & Hmax & HmA & HmH).
  assert (Hbelow : forall rate acc,
             (0 < rate)%Q ->
             ((if Due rate acc dt then 0 else acc + dt) < 1 / rate)%Q).
  { intros rate acc Hrate. unfold Due.
    destruct (Qle_bool (1 / rate) (acc + dt)) eqn:E.
    - apply Qlt_shift_div_l; [exact Hrate|]. rewrite Qmult_0_l. reflexivity.
    - apply Qnot_le_lt. intros H. apply Qle_bool_iff in H. congruence. }
  unfold ProcessAcousticUpdate.
  set (s0 := set_accumulators _ _ _ (set_pass _ _ _ s)).
  assert (I0 : RegistryOk (RegisteredSources s0) /\
               BudgetOk (CurrentBudget s0) (RaysCast s0) /\
               TotalRaysBudget (CurrentBudget s0) = MaxRaysPerFrame cfg /\
               (forall id, reflection_rays_for id (RaysCast s0) = 0)).
  { unfold s0. simpl. split; [exact Hreg|]. split; [apply BudgetOk_reset; exact HM|].
    split; reflexivity. }
  destruct I0 as (Hreg0 & Hok0 & Hb0 & Hno0).
  destruct (UpdateSourcePriorities_RegistryOk cfg w s0 Hreg0)
    as (Hreg1 & Eb & Elog & _ & _ & EaO & EaR & EaZ).
  assert (Esrc : RegisteredSources (UpdateSourcePriorities cfg w s0)
                 = RegisteredSources (UpdateSourcePriorities cfg w s))
    by (apply UpdateSourcePriorities_sources; reflexivity).
  set (s1 := UpdateSourcePriorities cfg w s0) in *.
  assert (HaO : OcclusionUpdateAccumulator s1 = (OcclusionUpdateAccumulator s + dt)%Q)
    by (rewrite EaO; reflexivity).
  assert (HaR : ReflectionUpdateAccumulator s1 = (ReflectionUpdateAccumulator s + dt)%Q)
    by (rewrite EaR; reflexivity).
  assert (HaZ : ZoneUpdateAccumulator s1 = (ZoneUpdateAccumulator s + dt)%Q)
    by (rewrite EaZ; reflexivity).
  assert (Hlog1 : RaysCast s1 = [] /\ TotalRaysUsed (CurrentBudget s1) = 0).
  { rewrite Elog, Eb. split; reflexivity. }
  rewrite <- Eb in Hok0, Hb0. rewrite <- Elog in Hok0, Hno0.
  clearbody s1. clear EaO EaR EaZ Eb Elog Hreg0.
  rewrite HaZ.
  change (Qle_bool (1 / ZoneUpdateRateHz cfg) (ZoneUpdateAccumulator s + dt))
    with DueZ.
  set (s2 := if DueZ then _ else s1).
  assert (I2 : RegistryOk (RegisteredSources s2) /\
               BudgetOk (CurrentBudget s2) (RaysCast s2) /\
               TotalRaysBudget (CurrentBudget s2) = MaxRaysPerFrame cfg /\
               (forall id, reflection_rays_for id (RaysCast s2) = 0) /\
               OcclusionUpdateAccumulator s2 = (OcclusionUpdateAccumulator s + dt)%Q /\
               ReflectionUpdateAccumulator s2
               = (ReflectionUpdateAccumulator s + dt)%Q /\
               ZoneUpdateAccumulator s2
               = (if DueZ then 0 else ZoneUpdateAccumulator s + dt)%Q /\
               RaysCast s2 = [] /\ TotalRaysUsed (CurrentBudget s2) = 0 /\
               RegisteredSources s2 = RegisteredSources s1).
  { unfold s2. destruct DueZ; cbn [set_accumulators RegisteredSources CurrentBudget
                                     RaysCast OcclusionUpdateAccumulator
                                     ReflectionUpdateAccumulator
                                     ZoneUpdateAccumulator];
      repeat split; try assumption; try apply Hreg1; try apply Hok0; apply Hlog1. }
  clearbody s2.
  destruct I2 as (Hreg2 & Hok2 & Hb2 & Hno2 & H2O & H2R & H2Z & Hl2 & Hu2 & Hs2).
  rewrite H2O.
  change (Qle_bool (1 / OcclusionUpdateRateHz cfg) (OcclusionUpdateAccumulator s + dt))
    with DueO.
  set (s3 := if DueO then _ else s2).
  assert (I3 : RegistryOk (RegisteredSources s3) /\
               BudgetOk (CurrentBudget s3) (RaysCast s3) /\
               TotalRaysBudget (CurrentBudget s3) = MaxRaysPerFrame cfg /\
               (forall id, reflection_rays_for id (RaysCast s3) = 0) /\
               OcclusionUpdateAccumulator s3
               = (if DueO then 0 else OcclusionUpdateAccumulator s + dt)%Q /\
               ReflectionUpdateAccumulator s3
               = (ReflectionUpdateAccumulator s + dt)%Q /\
               ZoneUpdateAccumulator s3
               = (if DueZ then 0 else ZoneUpdateAccumulator s + dt)%Q /\
               (DueO = false ->
                RaysCast s3 = [] /\ TotalRaysUsed (CurrentBudget s3) = 0 /\
                RegisteredSources s3 = RegisteredSources s1)).
  { unfold s3. destruct DueO.
    - destruct (ProcessOcclusion_inv cfg w tOcc s2 Hmax Hreg2 Hok2 Hb2 Hno2)
        as (H1 & H2 & H3 & H4 & _).
      destruct (ProcessOcclusion_accumulators cfg w tOcc s2) as (A1 & A2 & A3).
      cbn [set_accumulators RegisteredSources CurrentBudget RaysCast
             OcclusionUpdateAccumulator ReflectionUpdateAccumulator
             ZoneUpdateAccumulator].
      rewrite A2, A3.
      repeat split; try assumption; try apply H1; try apply H2; discriminate.
    - repeat split; try assumption; try apply Hreg2; apply Hok2. }
  clearbody s3.
  destruct I3 as (Hreg3 & Hok3 & Hb3 & Hno3 & H3O & H3R & H3Z & Hquiet3).
  rewrite H3R.
  change (Qle_bool (1 / ReflectionUpdateRateHz cfg)
            (ReflectionUpdateAccumulator s + dt))
    with DueR.
  destruct DueR eqn:EDR.
  - destruct (ProcessReflections_inv cfg w tRefl s3 Hcfg Hreg3 Hok3 Hb3 Hno3)
      as (s4 & E & _).
    destruct (ProcessReflections_accumulators cfg w tRefl s3 s4 E) as (A1 & A2 & A3).
    rewrite E. eexists. split; [reflexivity|].
    cbn [set_accumulators OcclusionUpdateAccumulator ReflectionUpdateAccumulator
           ZoneUpdateAccumulator RaysCast CurrentBudget RegisteredSources].
    rewrite A1, A3, H3O, H3Z.
    split; [reflexivity|]. split; [reflexivity|]. split; [reflexivity|].
    split; [apply Hbelow; assumption|].
    split; [apply Qlt_shift_div_l; [exact HrR | rewrite Qmult_0_l; reflexivity]|].
    split; [apply Hbelow; assumption|].
    intros _ Hfalse. discriminate.
  - exists s3. split; [reflexivity|]. rewrite H3O, H3R, H3Z.
    split; [reflexivity|]. split; [reflexivity|]. split; [reflexivity|].
    split; [apply Hbelow; assumption|].
    split.
    { pose proof (Hbelow _ (ReflectionUpdateAccumulator s) HrR) as H.
      fold DueR in H. rewrite EDR in H. exact H. }
    split; [apply Hbelow; assumption|].
    intros HO _. destruct (Hquiet3 HO) as (Hl & Hu & Hs).
    split; [exact Hl|]. split; [exact Hu|]. rewrite Hs. exact Esrc.
Qed.

Lemma X30_tick_schedule_witness :
  exists s',
    ProcessAcousticUpdate UAcousticSettings_default world_room (1 # 100) 10 10
      engine_two_sources = Some s'.
Proof.
  destruct (X30_tick_schedule UAcousticSettings_default world_room (1 # 100) 10 10
              engine_two_sources) as (s' & H & _).
  - unfold SettingsInRange. cbn. lia.
  - split.
    + cbn. repeat constructor; simpl; intuition discriminate.
    + repeat constructor.
  - reflexivity.
  - reflexivity.
  - reflexivity.
  - exists s'. exact H.
Defined.
